(* ===== verification/_CoqProject ===== *)
-Q . S2P
Prelude.v
Unicode.v
Constants.v
Types.v
Wire.v
Path.v
Errors.v
Retry.v
HandleMap.v
Attributes.v
Cache.v
Signing.v
Ntlm.v
Sessions.v
Absfs.v
Server.v
FileOps.v
ServerData.v
Connect.v
Dir.v
Info.v
Ioctl.v
Dispatch.v
System.v
Lifecycle.v
Config.v
Url.v
Pool.v
Mock.v
Tree.v
MockServer.v
Client.v
ClientMock.v
ClientTree.v
Wrapper.v
