(* ===== verification/Prelude.v ===== *)
(** * smbfs: a verified model of an SMB file system in Go

    [smbfs] has two halves that share their path and error handling.  The
    *server* half answers SMB2/3 requests on behalf of an abstract file
    system; the *client* half presents a remote SMB share as a file system.
    This development models both, proves what makes them correct, and states
    the defects the proofs ran into as theorems of their own.

    ** The server half

    A connection delivers frames of bytes; [server.go] cuts them into
    messages, [smb2_handlers.go] routes each to a handler, the handler reads
    its request, consults the sessions, the trees and the open files, calls
    the file system behind the share, and the response is signed and sent.

    - [Unicode.v], [Constants.v], [Types.v], [Wire.v]: strings and case folding
      of the standard library as far as the program uses them, and
      [smb2_types.go], [smb2_commands.go], [smb2_encoding.go] (header, file
      ids, times, UTF-16, the byte reader and writer);
    - [Path.v] ([path.go]), [Errors.v] ([errors.go]), [Retry.v] ([retry.go]):
      shared by both halves;
    - [HandleMap.v] ([file_handle_map.go]): the table of open files, with its
      abstract specification and the refinement;
    - [Attributes.v] ([attributes.go]), [Signing.v] ([smb2_signing.go]),
      [Ntlm.v] ([auth_ntlm.go], [auth_guest.go]), [Sessions.v]
      ([session_manager.go]);
    - [Absfs.v]: the interface to the exported file system and the run-time
      environment, with an instance in memory for the witnesses;
    - [Server.v] ([server_config.go], the state of [server.go], what the
      handlers share), [FileOps.v] ([smb2_file.go]), [ServerData.v] (READ and
      WRITE over files that keep their data), [Connect.v]
      ([smb2_negotiate.go], [smb2_session.go], [smb2_tree.go]), [Dir.v]
      ([smb2_dir.go]), [Info.v] ([smb2_info.go]), [Ioctl.v]
      ([smb2_ioctl.go]);
    - [Dispatch.v]: [HandleMessage], the framing and the loops of
      [server.go]; [System.v]: the server as a transition system, with what
      holds of every reachable state; [Lifecycle.v]: its goroutines from
      [Listen] to [Stop].

    The state of a handler is a record [HS] (server, connection, response,
    world); a handler is a computation in the monad [M] below, which returns
    a value or panics.  Objects the code shares through pointers (open files,
    sessions, shares) live in heaps and are named by addresses.

    ** The client half

    A method of the file system validates and normalises its path, takes a
    connection from the pool, calls the SMB library, retries, updates the
    metadata cache and gives the connection back.

    - [Cache.v] ([cache.go]): the cache and its abstract specification;
    - [Config.v] ([config.go], [smb_interfaces.go]): the configuration, and
      the class [SMBLib] of what the client asks of the SMB library;
    - [Url.v]: [ParseConnectionString], with what it uses of [net/url];
    - [Pool.v] ([connection.go]): the pool, as operations and as a transition
      system of concurrent users;
    - [Client.v] ([filesystem.go], [file.go], [shares.go]), proved against
      [SMBLib];
    - [Mock.v] ([mock_smb.go]): the in-memory server of the tests, an instance
      of [SMBLib]; [MockServer.v]: what its calls do to its tree of files;
    - [Tree.v]: a file system as a finite tree, the abstract specification of
      the client; [ClientMock.v], [ClientTree.v]: the client running on the
      mock, and the proof that it implements [Tree.v];
    - [Wrapper.v] ([smb_wrapper.go], [createConnection] and
      [createRealConnection] of [connection.go]): the binding to the go-smb2
      library, another instance of [SMBLib].

    ** What the theorems show

    - Server, reachable states and totality: every request gets one
      response with its message id and a grant of credits, no request panics
      a handler that the hypotheses name, sessions that pass validation were
      authenticated, the message loop ends and answers in order, the
      connection limit is kept and [Stop] completes even when the peers are
      silent ([Dispatch], [System], [FileOps], [Lifecycle]).
    - Server, function of the handlers: CREATE, CLOSE, READ, WRITE,
      QUERY_DIRECTORY, QUERY_INFO, SET_INFO, NEGOTIATE, SESSION_SETUP,
      TREE_CONNECT and LOGOFF do what their reply says, and refuse what they
      must ([FileOps], [Dir], [Info], [Connect]).
    - Refinements and equivalences: the handle map implements a finite map
      of open files, an open file of the server is an array of bytes, the
      cache never returns what was invalidated, the client on the mock server
      is a tree of files (removing or renaming the root apart), a pool without a factory does what it does with
      [RealConnectionFactory], AES-CMAC is the algorithm of RFC 4493
      ([HandleMap], [ServerData], [Cache], [ClientTree], [Wrapper],
      [Signing]).
    - Round trips and bounds: headers, frames, signatures, reads, paths.
    - Client: a pooled connection has one user at a time, the pool keeps its
      limits, every operation gives its connections back, a connection that
      cannot be set up leaves nothing open, changes are not hidden by the
      cache, what is written is read back, connection strings are parsed
      ([Pool], [Client], [Wrapper], [ClientMock], [Url]).
    - Defects, each as a theorem about the model: see the theorems named in
      the files ([delete_on_close_ignores_read_only],
      [ntlm_accepts_any_response], [setup_takes_over_session],
      [rename_unchecked], [abandoned_waiter_starves],
      [expired_connections_panic] and others).

    ** Conventions, bounds and fuel

    Integers are [Z]; wherever Go's width shows, the wrap-around is written
    out ([u16], [u32], [u64], [s64]).  Strings and byte slices are lists of
    bytes; the capacity of a slice is taken to be its length, so that a
    re-slice beyond the length panics; an allocation with a negative capacity
    panics, one too large for the memory is not considered.  The tree ids of a
    session wrap around after 2^32, and so does what is said about them.  A map iteration whose order matters
    takes the order as an argument; so do the clock and the random source.
    A method or message handler is one atomic step, because it holds the
    locks or the connection's goroutine; where critical sections are separate
    in the code and it matters, they are separate steps ([Pool.v], the
    interleaved opens of [HandleMap.v]).

    Fuel: the message loop gets the number of bytes of the stream, each
    message consumes at least four; [MkdirAll] gets the length of the path,
    which shrinks at each parent; [RemoveAll] the depth it may descend (the
    server's tree may be endless, so that running out is visible as a panic);
    [read_full] the number of bytes wanted, [write_zeros] the number of
    rounds.  The theorems say that the fuel is enough, except for
    [RemoveAll].

    Parameters with laws: the Unicode case tables ([UnicodeTables]), the
    cryptographic primitives ([Crypto], [CryptoLaws]: lengths of the
    outputs), the exported file system ([Absfs], [AbsfsLaws]; where its data
    matters also [FileData], [FileDataLaws]), the SMB library as the client
    uses it ([SMBLib], [SMBLibLaws]: sizes are not negative, a successful read
    of a non-empty buffer returns data), package net and go-smb2 under the
    wrappers ([Smb2], [Smb2Laws]).  Each has an instance, used by the
    witnesses.

    ** Not modelled

    The socket calls themselves (they are events of [Lifecycle.v], and a list
    of bytes in [Dispatch.v]); the loggers, which only write text; [Sub], which
    wraps the file system with a function of the absfs package; the aliases
    and forwarders of [absfs/absfs.go]; the command-line examples, which parse
    flags, print, and call the library.

    This file itself holds what all others share: bytes and machine
    integers, the outcome and state monads with their weakest precondition
    [wpp], slices, and the development's tactics and hints. *)

From Stdlib Require Import ZArith Lia Btauto.
From Stdlib Require Strings.Byte.
From stdpp Require Import base numbers list gmap strings relations.

Open Scope Z_scope.

(* ------------------------------------------------------------------ *)
(** ** Bytes and Go strings *)

(** A Go [byte] is [Byte.byte]; a [[]byte] and a Go [string] are both lists
    of bytes (a Go string is an arbitrary byte sequence). *)
Notation byte := Byte.byte.
Notation bytes := (list Byte.byte).
Notation gostring := (list Byte.byte).

Definition Z_of_byte (b : byte) : Z := Z.of_N (Byte.to_N b).

Definition byte_of_Z (z : Z) : byte :=
  default Byte.x00 (Byte.of_N (Z.to_N (z mod 256))).

(** A string literal as a Go string. *)
Definition str (s : string) : gostring := String.list_byte_of_string s.

(** [len(x)] as a Go [int]. *)
Definition len {A} (l : list A) : Z := Z.of_nat (length l).

#[global] Instance byte_eq_dec : EqDecision byte := Byte.byte_eq_dec.

#[global] Program Instance byte_countable : Countable byte :=
  inj_countable Byte.to_N Byte.of_N _.
Next Obligation. exact Byte.of_to_N. Qed.

(* ------------------------------------------------------------------ *)
(** ** Machine integers

    A [w]-bit Go integer is a [Z]; a conversion or an arithmetic result is
    wrapped explicitly. *)
Definition u8 (z : Z) : Z := z mod 2 ^ 8.
Definition u16 (z : Z) : Z := z mod 2 ^ 16.
Definition u32 (z : Z) : Z := z mod 2 ^ 32.
Definition u64 (z : Z) : Z := z mod 2 ^ 64.
Definition s64 (z : Z) : Z := (z + 2 ^ 63) mod 2 ^ 64 - 2 ^ 63.

(** [x & f != 0], the flag test the code uses everywhere. *)
Definition has_flag (x f : Z) : bool := negb (Z.land x f =? 0).

(** [x &^ m] *)
Definition andnot (x m : Z) : Z := Z.ldiff x m.

(** Little-endian and big-endian encodings (encoding/binary). *)
Fixpoint le_put (n : nat) (v : Z) : bytes :=
  match n with
  | O => []
  | S n => byte_of_Z v :: le_put n (v / 256)
  end.

Fixpoint le_get (l : bytes) : Z :=
  match l with
  | [] => 0
  | b :: l => Z_of_byte b + 256 * le_get l
  end.

Definition be_put (n : nat) (v : Z) : bytes := rev (le_put n v).
Definition be_get (l : bytes) : Z := le_get (rev l).

(* ------------------------------------------------------------------ *)
(** ** Slices

    [l[lo:hi]] panics unless [0 <= lo <= hi <= len l]; the capacity is taken
    to be the length, see the header. *)
Definition slice {A} (l : list A) (lo hi : Z) : option (list A) :=
  if (0 <=? lo) && (lo <=? hi) && (hi <=? len l)
  then Some (take (Z.to_nat (hi - lo)) (drop (Z.to_nat lo) l))
  else None.

(** The first [n] bytes from offset [off], for accesses whose bounds have
    been checked. *)
Definition sub {A} (l : list A) (off n : nat) : list A := take n (drop off l).

(** [append(l[:i], l[i+1:]...)] *)
Definition remove_at {A} (i : nat) (l : list A) : list A :=
  take i l ++ drop (S i) l.

(** [for i, x := range l { if f x { l = remove i; break } }] *)
Fixpoint remove_first {A} (f : A → bool) (l : list A) : list A :=
  match l with
  | [] => []
  | x :: l => if f x then l else x :: remove_first f l
  end.

(** Overwrite [data] at offset [off]; the caller has checked the range. *)
Definition put_at (off : nat) (v l : bytes) : bytes :=
  take off l ++ v ++ drop (off + length v) l.

(** [make([]byte, n)] *)
Definition zeros (n : nat) : bytes := replicate n Byte.x00.

(** [strings.HasPrefix] on byte strings. *)
Fixpoint has_prefix (pre s : bytes) : bool :=
  match pre, s with
  | [], _ => true
  | p :: pre, c :: s => bool_decide (p = c) && has_prefix pre s
  | _, [] => false
  end.

(* ------------------------------------------------------------------ *)
(** ** Effects

    Code that can panic is an [outcome]; stateful code is [M S A], state
    passing over [S] with panics. *)
Inductive outcome (A : Type) : Type :=
| Ok (a : A)
| Panic.
Arguments Ok {A} a.
Arguments Panic {A}.

Definition M (S A : Type) : Type := S → outcome (A * S).

#[global] Instance M_ret S : MRet (M S) := λ A a s, Ok (a, s).
#[global] Instance M_bind S : MBind (M S) := λ A B f m s,
  match m s with
  | Ok (a, s') => f a s'
  | Panic => Panic
  end.

Definition panic {S A} : M S A := λ _, Panic.
Definition gets {S A} (f : S → A) : M S A := λ s, Ok (f s, s).
Definition modify {S} (f : S → S) : M S unit := λ s, Ok (tt, f s).
Definition lift_option {S A} (o : option A) : M S A := λ s,
  match o with Some a => Ok (a, s) | None => Panic end.

(** Run a computation over a local state inside a bigger one. *)
Definition with_local {S L A} (l : L) (m : M L A) : M S A := λ s,
  match m l with
  | Ok (a, _) => Ok (a, s)
  | Panic => Panic
  end.

(** State passing without panics. *)
Definition ST (S A : Type) : Type := S → A * S.
#[global] Instance ST_ret S : MRet (ST S) := λ A a s, (a, s).
#[global] Instance ST_bind S : MBind (ST S) := λ A B f m s, let '(a, s) := m s in f a s.

Declare Scope go_scope.
Delimit Scope go_scope with go.
Notation "x |> f" := (f x) (at level 50, left associativity, only parsing) : go_scope.
Open Scope go_scope.

(* ------------------------------------------------------------------ *)
(** ** Lemmas: bytes and integers *)

Create HintDb smb discriminated.

Lemma Z_of_byte_range b : 0 ≤ Z_of_byte b < 256.
Proof.
  unfold Z_of_byte. pose proof (Byte.to_N_bounded b). lia.
Qed.

Lemma byte_of_Z_of_byte b : byte_of_Z (Z_of_byte b) = b.
Proof.
  unfold byte_of_Z. pose proof (Z_of_byte_range b).
  rewrite Z.mod_small by lia. unfold Z_of_byte.
  rewrite N2Z.id, Byte.of_to_N. done.
Qed.

Lemma Z_of_byte_of_Z z : Z_of_byte (byte_of_Z z) = z mod 256.
Proof.
  unfold byte_of_Z. pose proof (Z.mod_pos_bound z 256 eq_refl).
  destruct (Byte.of_N (Z.to_N (z mod 256))) as [b|] eqn:E; simpl.
  - unfold Z_of_byte. rewrite (Byte.to_of_N _ E). lia.
  - apply Byte.of_N_None_iff in E. lia.
Qed.

Lemma Z_of_byte_of_Z_small z : 0 ≤ z < 256 → Z_of_byte (byte_of_Z z) = z.
Proof. intros. rewrite Z_of_byte_of_Z. by apply Z.mod_small. Qed.

#[global] Instance Z_of_byte_inj : Inj (=) (=) Z_of_byte.
Proof.
  intros x y H. rewrite <-(byte_of_Z_of_byte x), H. apply byte_of_Z_of_byte.
Qed.

Lemma length_le_put n v : length (le_put n v) = n.
Proof. revert v; induction n; intros; simpl; auto. Qed.

Lemma length_be_put n v : length (be_put n v) = n.
Proof. unfold be_put. rewrite length_rev. apply length_le_put. Qed.

Lemma le_get_put n v : le_get (le_put n v) = v mod 256 ^ Z.of_nat n.
Proof.
  revert v; induction n as [|n IH]; intros v; simpl le_put; cbn [le_get].
  - by rewrite Z.mod_1_r.
  - rewrite IH, Z_of_byte_of_Z, Nat2Z.inj_succ, Z.pow_succ_r by lia.
    rewrite Z.rem_mul_r by (try apply Z.pow_nonzero; lia). lia.
Qed.

Lemma le_get_range l : 0 ≤ le_get l < 256 ^ len l.
Proof.
  unfold len. induction l as [|b l IH]; cbn [le_get length]; [lia|].
  pose proof (Z_of_byte_range b).
  rewrite Nat2Z.inj_succ, Z.pow_succ_r by lia. lia.
Qed.

Lemma le_put_get l : le_put (length l) (le_get l) = l.
Proof.
  induction l as [|b l IH]; cbn [le_get length le_put]; [done|].
  pose proof (Z_of_byte_range b) as Hb.
  f_equal.
  - apply (inj Z_of_byte). rewrite Z_of_byte_of_Z.
    rewrite Z.mul_comm, Z_mod_plus_full. by apply Z.mod_small.
  - rewrite Z.mul_comm, Z.div_add by lia.
    rewrite Z.div_small by lia. by rewrite Z.add_0_l.
Qed.

Lemma le_put_get_n n l : length l = n → le_put n (le_get l) = l.
Proof. intros <-. apply le_put_get. Qed.

Lemma le_put_mod n v : le_put n (v mod 256 ^ Z.of_nat n) = le_put n v.
Proof.
  rewrite <-le_get_put. apply le_put_get_n, length_le_put.
Qed.

Lemma be_get_put n v : be_get (be_put n v) = v mod 256 ^ Z.of_nat n.
Proof. unfold be_get, be_put. rewrite rev_involutive. apply le_get_put. Qed.

(** The shape the codecs use: a value that fits its width round-trips. *)
Lemma le_get_put_u16 v : 0 ≤ v < 2 ^ 16 → le_get (le_put 2 v) = v.
Proof. intros. rewrite le_get_put. by apply Z.mod_small. Qed.
Lemma le_get_put_u32 v : 0 ≤ v < 2 ^ 32 → le_get (le_put 4 v) = v.
Proof. intros. rewrite le_get_put. by apply Z.mod_small. Qed.
Lemma le_get_put_u64 v : 0 ≤ v < 2 ^ 64 → le_get (le_put 8 v) = v.
Proof. intros. rewrite le_get_put. by apply Z.mod_small. Qed.

Lemma u64_small z : 0 ≤ z < 2 ^ 64 → u64 z = z.
Proof. apply Z.mod_small. Qed.
Lemma u32_small z : 0 ≤ z < 2 ^ 32 → u32 z = z.
Proof. apply Z.mod_small. Qed.
Lemma s64_small z : - 2 ^ 63 ≤ z < 2 ^ 63 → s64 z = z.
Proof. intros. unfold s64. rewrite Z.mod_small by lia. lia. Qed.
Lemma u64_range z : 0 ≤ u64 z < 2 ^ 64.
Proof. apply Z.mod_pos_bound. lia. Qed.
Lemma s64_range z : - 2 ^ 63 ≤ s64 z < 2 ^ 63.
Proof. unfold s64. pose proof (Z.mod_pos_bound (z + 2 ^ 63) (2 ^ 64) eq_refl). lia. Qed.

Lemma has_flag_lor x y f : has_flag (Z.lor x y) f = has_flag x f || has_flag y f.
Proof.
  unfold has_flag. rewrite Z.land_lor_distr_l.
  destruct (Z.eqb_spec (Z.land x f) 0) as [Hx|Hx],
           (Z.eqb_spec (Z.land y f) 0) as [Hy|Hy]; simpl.
  - by rewrite Hx, Hy.
  - apply negb_true_iff, Z.eqb_neq. by rewrite Hx, Z.lor_0_l.
  - apply negb_true_iff, Z.eqb_neq. by rewrite Hy, Z.lor_0_r.
  - apply negb_true_iff, Z.eqb_neq. intros [??]%Z.lor_eq_0_iff. done.
Qed.

(** A one-bit flag is the bit itself. *)
Lemma has_flag_bit x n : 0 ≤ n → has_flag x (2 ^ n) = Z.testbit x n.
Proof.
  intros Hn. unfold has_flag. destruct (Z.testbit x n) eqn:E.
  - apply negb_true_iff, Z.eqb_neq. intros H.
    assert (Z.testbit (Z.land x (2 ^ n)) n = false) as H' by by rewrite H, Z.bits_0.
    rewrite Z.land_spec, E, Z.pow2_bits_true in H'; done.
  - apply negb_false_iff, Z.eqb_eq. apply Z.bits_inj'. intros m Hm.
    rewrite Z.land_spec, Z.bits_0. destruct (decide (m = n)) as [->|Hne].
    + by rewrite E.
    + rewrite (Z.pow2_bits_false n m) by lia. apply andb_false_r.
Qed.

(* ------------------------------------------------------------------ *)
(** ** Lemmas: lists *)

Lemma len_nonneg {A} (l : list A) : 0 ≤ len l.
Proof. unfold len. lia. Qed.
Lemma len_app {A} (l k : list A) : len (l ++ k) = len l + len k.
Proof. unfold len. rewrite length_app. lia. Qed.
Lemma len_cons {A} (x : A) l : len (x :: l) = 1 + len l.
Proof. unfold len. simpl. lia. Qed.
Lemma len_le_put n v : len (le_put n v) = Z.of_nat n.
Proof. unfold len. by rewrite length_le_put. Qed.
Lemma len_zeros n : len (zeros n) = Z.of_nat n.
Proof. unfold len, zeros. by rewrite length_replicate. Qed.

Lemma slice_ok {A} (l : list A) lo hi :
  0 ≤ lo → lo ≤ hi → hi ≤ len l →
  slice l lo hi = Some (take (Z.to_nat (hi - lo)) (drop (Z.to_nat lo) l)).
Proof.
  intros. unfold slice.
  destruct (Z.leb_spec 0 lo), (Z.leb_spec lo hi), (Z.leb_spec hi (len l)); try lia. done.
Qed.

Lemma slice_None {A} (l : list A) lo hi :
  slice l lo hi = None ↔ ¬ (0 ≤ lo ≤ hi ∧ hi ≤ len l).
Proof.
  unfold slice.
  destruct (Z.leb_spec 0 lo), (Z.leb_spec lo hi), (Z.leb_spec hi (len l));
    simpl; split; intros; try done; try lia.
Qed.

Lemma len_slice {A} (l s : list A) lo hi : slice l lo hi = Some s → len s = hi - lo.
Proof.
  unfold slice.
  destruct (Z.leb_spec 0 lo), (Z.leb_spec lo hi), (Z.leb_spec hi (len l)); simpl; try done.
  intros [= <-]. unfold len in *. rewrite length_take, length_drop. lia.
Qed.

Lemma length_sub {A} (l : list A) off n :
  (off + n ≤ length l)%nat → length (sub l off n) = n.
Proof. intros. unfold sub. rewrite length_take, length_drop. lia. Qed.

Lemma sub_app_here {A} (l1 l2 l3 : list A) off n :
  off = length l1 → n = length l2 → sub (l1 ++ l2 ++ l3) off n = l2.
Proof.
  intros -> ->. unfold sub. rewrite drop_app_length, take_app_length. done.
Qed.

Lemma has_prefix_spec pre s : has_prefix pre s = true ↔ ∃ k, s = pre ++ k.
Proof.
  revert s; induction pre as [|p pre IH]; intros s; simpl.
  - split; eauto.
  - destruct s as [|c s]; [split; [done|intros [k [=]]]|].
    rewrite andb_true_iff, bool_decide_eq_true, IH.
    split.
    + intros [-> [k ->]]. by exists k.
    + intros [k [= -> ->]]. split; eauto.
Qed.

Lemma length_put_at off v l :
  (off + length v ≤ length l)%nat → length (put_at off v l) = length l.
Proof.
  intros. unfold put_at. rewrite !length_app, length_take, length_drop. lia.
Qed.

Lemma sub_put_at off v l :
  (off + length v ≤ length l)%nat → sub (put_at off v l) off (length v) = v.
Proof.
  intros. apply sub_app_here; [|done]. rewrite length_take. lia.
Qed.

Lemma remove_first_id {A} (f : A → bool) l :
  Forall (λ x, f x = false) l → remove_first f l = l.
Proof. induction 1 as [|x l Hx _ IH]; simpl; [done|]. by rewrite Hx, IH. Qed.

Lemma elem_of_remove_first {A} (f : A → bool) l x :
  x ∈ remove_first f l → x ∈ l.
Proof.
  induction l as [|y l IH]; simpl; [done|]. destruct (f y); set_solver.
Qed.

Lemma elem_of_remove_first_ne {A} (f : A → bool) l x :
  x ∈ l → f x = false → x ∈ remove_first f l.
Proof.
  induction l as [|y l IH]; simpl; [done|]. intros [->|Hx]%elem_of_cons Hf.
  - rewrite Hf. set_solver.
  - destruct (f y); set_solver.
Qed.

Lemma remove_first_sublist {A} (f : A → bool) (l : list A) :
  sublist (remove_first f l) l.
Proof.
  induction l as [|y l IH]; simpl; [constructor|].
  destruct (f y); by constructor.
Qed.

Lemma NoDup_remove_first {A} (f : A → bool) l : NoDup l → NoDup (remove_first f l).
Proof. intros. eapply sublist_NoDup; eauto using remove_first_sublist. Qed.

(** With at most one match, removing the first match is filtering. *)
Lemma remove_first_gone {A} (f : A → bool) l :
  (∀ x y, x ∈ l → y ∈ l → f x = true → f y = true → x = y) → NoDup l →
  Forall (λ x, f x = false) (remove_first f l).
Proof.
  intros Huniq Hnd. induction Hnd as [|y l Hy Hnd IH]; simpl; [constructor|].
  destruct (f y) eqn:Ey.
  - apply Forall_forall. intros x Hx. destruct (f x) eqn:Ex; [|done].
    assert (x = y) as -> by (apply Huniq; set_solver). done.
  - constructor; [done|]. apply IH. intros. apply Huniq; set_solver.
Qed.

Lemma elem_of_rev {A} (l : list A) x : x ∈ rev l ↔ x ∈ l.
Proof. rewrite !list_elem_of_In. symmetry. apply in_rev. Qed.

Lemma rev_replicate {A} n (x : A) : rev (replicate n x) = replicate n x.
Proof.
  induction n as [|n IH]; [done|]. cbn [replicate rev]. rewrite IH.
  clear IH. induction n as [|n IH]; [done|]. cbn [replicate app]. by rewrite IH.
Qed.

(** An invariant of every step holds of everything reachable. *)
Lemma rtc_preserve {A} (R : relation A) (P : A → Prop) :
  (∀ x y, R x y → P x → P y) → ∀ x y, rtc R x y → P x → P y.
Proof. intros HP x y Hr. induction Hr; eauto. Qed.

(* ------------------------------------------------------------------ *)
(** ** Weakest preconditions

    [wpp P m Q s]: run from [s], [m] ends with a result satisfying [Q], or
    panics and [P] holds.  [P := False] is total correctness, [P := True]
    partial correctness. *)
Definition wpp {S A} (P : Prop) (m : M S A) (Q : A → S → Prop) (s : S) : Prop :=
  match m s with Ok (a, s') => Q a s' | Panic => P end.

Section wpp.
Context {S : Type} (P : Prop).

Lemma wpp_ret {A} (a : A) (Q : A → S → Prop) s : Q a s → wpp P (mret a) Q s.
Proof. done. Qed.

Lemma wpp_bind {A B} (m : M S A) (k : A → M S B) Q s :
  wpp P m (λ a s', wpp P (k a) Q s') s → wpp P (m ≫= k) Q s.
Proof. unfold wpp, mbind, M_bind. by destruct (m s) as [[a s']|]. Qed.

Lemma wpp_gets {A} (f : S → A) (Q : A → S → Prop) s : Q (f s) s → wpp P (gets f) Q s.
Proof. done. Qed.

Lemma wpp_modify (f : S → S) (Q : unit → S → Prop) s : Q tt (f s) → wpp P (modify f) Q s.
Proof. done. Qed.

Lemma wpp_lift {A} (o : option A) (Q : A → S → Prop) s :
  (o = None → P) → (∀ a, o = Some a → Q a s) → wpp P (lift_option o) Q s.
Proof. destruct o; unfold wpp, lift_option; auto. Qed.

Lemma wpp_local {L A} (l : L) (m : M L A) (Q : A → S → Prop) s :
  wpp P m (λ a _, Q a s) l → wpp P (with_local l m) Q s.
Proof. unfold wpp, with_local. by destruct (m l) as [[a l']|]. Qed.

Lemma wpp_mono {A} (m : M S A) (Q Q' : A → S → Prop) s :
  wpp P m Q s → (∀ a s', Q a s' → Q' a s') → wpp P m Q' s.
Proof. unfold wpp. destruct (m s) as [[a s']|]; auto. Qed.

Lemma wpp_ok {A} (m : M S A) (Q : A → S → Prop) s a s' :
  wpp P m Q s → m s = Ok (a, s') → Q a s'.
Proof. unfold wpp. by intros H E; rewrite E in H. Qed.
End wpp.

Lemma wpp_weaken {S A} (P P' : Prop) (m : M S A) (Q : A → S → Prop) s :
  wpp P m Q s → (P → P') → wpp P' m Q s.
Proof. unfold wpp. destruct (m s) as [[a s']|]; auto. Qed.

Lemma wpp_total {S A} (m : M S A) (Q : A → S → Prop) s :
  wpp False m Q s → ∃ a s', m s = Ok (a, s') ∧ Q a s'.
Proof. unfold wpp. destruct (m s) as [[a s']|]; [eauto|done]. Qed.

(** The result and the state of [m] satisfy [Q]. *)
Definition stp {S A} (m : ST S A) (Q : A → S → Prop) (s : S) : Prop := Q (m s).1 (m s).2.

Section stp.
Context {S : Type}.

Lemma stp_ret {A} (a : A) (Q : A → S → Prop) s : Q a s → stp (mret a) Q s.
Proof. done. Qed.

Lemma stp_bind {A B} (m : ST S A) (k : A → ST S B) Q s : stp m (λ a, stp (k a) Q) s → stp (m ≫= k) Q s.
Proof. unfold stp, mbind, ST_bind. by destruct (m s). Qed.

Lemma stp_mono {A} (m : ST S A) (Q Q' : A → S → Prop) s : stp m Q s → (∀ a s, Q a s → Q' a s) → stp m Q' s.
Proof. unfold stp. auto. Qed.
End stp.

Lemma st_bind_eq {S A B} (m : ST S A) (k : A → ST S B) s : (m ≫= k) s = k (m s).1 (m s).2.
Proof. unfold mbind, ST_bind. by destruct (m s). Qed.

(* ------------------------------------------------------------------ *)
(** ** Automation *)

(** Evaluate the monadic plumbing of the current goal. *)
Ltac m_simpl :=
  cbv [mbind M_bind mret M_ret gets modify panic lift_option with_local] in *.

(** Case on the boolean tests of the goal, turning arithmetic ones into
    inequalities. *)
Ltac case_bools :=
  repeat match goal with
  | |- context [Z.ltb ?a ?b] => destruct (Z.ltb_spec a b)
  | |- context [Z.leb ?a ?b] => destruct (Z.leb_spec a b)
  | |- context [Z.eqb ?a ?b] => destruct (Z.eqb_spec a b)
  | |- context [bool_decide ?P] => case_bool_decide
  end; simpl in *.

#[export] Hint Resolve Z_of_byte_range len_nonneg u64_range s64_range : smb.
#[export] Hint Rewrite @len_app @len_cons len_le_put len_zeros : len.
