(* ===== verification/Unicode.v ===== *)
(** * Text: UTF-8, UTF-16LE and letter case

    Go strings are byte sequences; [smb2_encoding.go] converts them to and
    from the UTF-16LE of the wire.  The file models the parts of
    [unicode/utf8], [unicode/utf16] and [strings] that the conversions use
    ([[]rune(s)], [string(runes)], [utf16.Encode], [utf16.Decode],
    [strings.ToLower], [strings.ToUpper], [strings.EqualFold]), the two
    functions [EncodeStringToUTF16LE] and [DecodeUTF16LEToString], and proves
    their round trip. *)

From stdpp Require Import base numbers list gmap sets.
From S2P Require Import Prelude.

Open Scope Z_scope.

(* ------------------------------------------------------------------ *)
(** ** Runes *)

Definition RuneError : Z := 0xFFFD.

(** A Unicode scalar value: what [utf8.ValidRune] accepts. *)
Definition is_scalar (r : Z) : bool :=
  ((0 <=? r) && (r <? 0xD800)) || ((0xDFFF <? r) && (r <=? 0x10FFFF)).

(** [utf8.AppendRune] for a scalar; anything else is encoded as U+FFFD. *)
Definition utf8_rune (r0 : Z) : bytes :=
  let r := if is_scalar r0 then r0 else RuneError in
  if r <? 0x80 then [byte_of_Z r]
  else if r <? 0x800 then
    [byte_of_Z (0xC0 + r / 64); byte_of_Z (0x80 + r mod 64)]
  else if r <? 0x10000 then
    [byte_of_Z (0xE0 + r / 4096); byte_of_Z (0x80 + r / 64 mod 64);
     byte_of_Z (0x80 + r mod 64)]
  else
    [byte_of_Z (0xF0 + r / 262144); byte_of_Z (0x80 + r / 4096 mod 64);
     byte_of_Z (0x80 + r / 64 mod 64); byte_of_Z (0x80 + r mod 64)].

(** [string(runes)] *)
Definition utf8_encode (rs : list Z) : gostring := flat_map utf8_rune rs.

(** A continuation byte within [[lo, hi]]. *)
Definition in_range (lo hi : Z) (b : byte) : bool :=
  (lo <=? Z_of_byte b) && (Z_of_byte b <=? hi).

Definition cont (b : byte) : Z := Z_of_byte b - 0x80.

(** [[]rune(s)]: decode as [range s] does, one U+FFFD per invalid byte. The
    bounds on the second byte are the accept ranges of [unicode/utf8]. *)
Fixpoint runes (s : gostring) : list Z :=
  match s with
  | [] => []
  | b0 :: s1 =>
    let c0 := Z_of_byte b0 in
    if c0 <? 0x80 then c0 :: runes s1
    else if (0xC2 <=? c0) && (c0 <=? 0xDF) then
      match s1 with
      | b1 :: s2 =>
        if in_range 0x80 0xBF b1
        then ((c0 - 0xC0) * 64 + cont b1) :: runes s2
        else RuneError :: runes s1
      | _ => RuneError :: runes s1
      end
    else if (0xE0 <=? c0) && (c0 <=? 0xEF) then
      match s1 with
      | b1 :: b2 :: s3 =>
        if in_range (if c0 =? 0xE0 then 0xA0 else 0x80)
                    (if c0 =? 0xED then 0x9F else 0xBF) b1
           && in_range 0x80 0xBF b2
        then ((c0 - 0xE0) * 4096 + cont b1 * 64 + cont b2) :: runes s3
        else RuneError :: runes s1
      | _ => RuneError :: runes s1
      end
    else if (0xF0 <=? c0) && (c0 <=? 0xF4) then
      match s1 with
      | b1 :: b2 :: b3 :: s4 =>
        if in_range (if c0 =? 0xF0 then 0x90 else 0x80)
                    (if c0 =? 0xF4 then 0x8F else 0xBF) b1
           && in_range 0x80 0xBF b2 && in_range 0x80 0xBF b3
        then ((c0 - 0xF0) * 262144 + cont b1 * 4096 + cont b2 * 64 + cont b3) :: runes s4
        else RuneError :: runes s1
      | _ => RuneError :: runes s1
      end
    else RuneError :: runes s1
  end.

(** Valid UTF-8: the encoding of a sequence of scalar values. *)
Definition scalars (rs : list Z) : Prop := Forall (λ r, is_scalar r = true) rs.
Definition valid_utf8 (s : gostring) : Prop := ∃ rs, scalars rs ∧ s = utf8_encode rs.

(* ------------------------------------------------------------------ *)
(** ** UTF-16 *)

Definition utf16_rune (r : Z) : list Z :=
  if ((0 <=? r) && (r <? 0xD800)) || ((0xE000 <=? r) && (r <? 0x10000)) then [r]
  else if (0x10000 <=? r) && (r <=? 0x10FFFF) then
    [0xD800 + (r - 0x10000) / 1024; 0xDC00 + (r - 0x10000) mod 1024]
  else [RuneError].

(** [utf16.Encode] *)
Definition utf16_encode (rs : list Z) : list Z := flat_map utf16_rune rs.

(** [utf16.Decode] *)
Fixpoint utf16_decode (us : list Z) : list Z :=
  match us with
  | [] => []
  | u :: us1 =>
    if (u <? 0xD800) || (0xE000 <=? u) then u :: utf16_decode us1
    else if u <? 0xDC00 then
      match us1 with
      | v :: us2 =>
        if (0xDC00 <=? v) && (v <? 0xE000)
        then ((u - 0xD800) * 1024 + (v - 0xDC00) + 0x10000) :: utf16_decode us2
        else RuneError :: utf16_decode us1
      | [] => [RuneError]
      end
    else RuneError :: utf16_decode us1
  end.

(** The loops of the two conversions over 16-bit units. *)
Definition put_units (us : list Z) : bytes := flat_map (le_put 2) us.

Fixpoint get_units (data : bytes) : list Z :=
  match data with
  | a :: b :: data => le_get [a; b] :: get_units data
  | _ => []
  end.

Definition EncodeStringToUTF16LE (s : gostring) : bytes :=
  put_units (utf16_encode (runes s)).

(** Remove one null terminator, if present. *)
Definition strip_null (us : list Z) : list Z :=
  match last us with
  | Some 0 => take (length us - 1) us
  | _ => us
  end.

Definition DecodeUTF16LEToString (data : bytes) : gostring :=
  if len data =? 0 then []
  else
    let data := if len data mod 2 =? 0 then data else take (length data - 1) data in
    utf8_encode (utf16_decode (strip_null (get_units data))).

(* ------------------------------------------------------------------ *)
(** ** Letter case

    The case tables of package [unicode] beyond ASCII are a parameter; what
    the code relies on is that they map scalars to scalars, that no entry maps
    a non-ASCII rune to ASCII other than to a letter, and that lowering twice
    is lowering once.  [fold_table] gives the representative of a rune's case
    folding orbit ([unicode.SimpleFold]), the lower-case letter for an orbit
    with an ASCII letter. *)
Class UnicodeTables := {
  lower_table : Z → Z;
  upper_table : Z → Z;
  fold_table : Z → Z;
  lower_table_hi r : 0x80 ≤ r → 0x80 ≤ lower_table r ∨ 97 ≤ lower_table r ≤ 122;
  upper_table_hi r : 0x80 ≤ r → 0x80 ≤ upper_table r ∨ 65 ≤ upper_table r ≤ 90;
  lower_table_scalar r : is_scalar r = true → 0x80 ≤ r → is_scalar (lower_table r) = true;
  lower_table_idem r :
    0x80 ≤ r → 0x80 ≤ lower_table r → lower_table (lower_table r) = lower_table r;
}.

Section letter_case.
Context `{UnicodeTables}.

Definition unicode_ToLower (r : Z) : Z :=
  if r <? 0x80 then (if (65 <=? r) && (r <=? 90) then r + 32 else r)
  else lower_table r.

Definition unicode_ToUpper (r : Z) : Z :=
  if r <? 0x80 then (if (97 <=? r) && (r <=? 122) then r - 32 else r)
  else upper_table r.

(** [strings.ToLower], [strings.ToUpper]: map over the runes. *)
Definition ToLower (s : gostring) : gostring := utf8_encode (map unicode_ToLower (runes s)).
Definition ToUpper (s : gostring) : gostring := utf8_encode (map unicode_ToUpper (runes s)).

Definition fold_rune (r : Z) : Z := if r <? 0x80 then unicode_ToLower r else fold_table r.

(** [strings.EqualFold] *)
Definition EqualFold (s t : gostring) : bool :=
  bool_decide (map fold_rune (runes s) = map fold_rune (runes t)).
End letter_case.

(** The tables restricted to ASCII, for examples. *)
#[global] Program Instance ascii_tables : UnicodeTables :=
  {| lower_table := λ r, r; upper_table := λ r, r; fold_table := λ r, r |}.
Next Obligation. auto. Qed.
Next Obligation. auto. Qed.
Next Obligation. auto. Qed.
Next Obligation. auto. Qed.

(* ------------------------------------------------------------------ *)
(** ** Lemmas *)

(** Put the value of an encoded byte in the context as an equation with its
    range, so that [lia] can evaluate the decoder's tests. *)
Ltac byte_values :=
  repeat match goal with
  | |- context [Z_of_byte (byte_of_Z ?z)] =>
    let H := fresh "Hb" in
    assert (Z_of_byte (byte_of_Z z) = z) as H
      by (apply Z_of_byte_of_Z_small; Z.to_euclidean_division_equations; lia);
    rewrite H; clear H
  end.

Ltac decide_tests :=
  repeat match goal with
  | |- context [Z.ltb ?a ?b] =>
    first [ replace (a <? b) with true
              by (symmetry; apply Z.ltb_lt; Z.to_euclidean_division_equations; lia)
          | replace (a <? b) with false
              by (symmetry; apply Z.ltb_ge; Z.to_euclidean_division_equations; lia) ]
  | |- context [Z.leb ?a ?b] =>
    first [ replace (a <=? b) with true
              by (symmetry; apply Z.leb_le; Z.to_euclidean_division_equations; lia)
          | replace (a <=? b) with false
              by (symmetry; apply Z.leb_gt; Z.to_euclidean_division_equations; lia) ]
  end.

Lemma is_scalar_spec r :
  is_scalar r = true ↔ 0 ≤ r < 0xD800 ∨ 0xDFFF < r ≤ 0x10FFFF.
Proof.
  unfold is_scalar. rewrite orb_true_iff, !andb_true_iff, !Z.leb_le, !Z.ltb_lt. lia.
Qed.

Lemma in_range_spec lo hi b :
  in_range lo hi b = true ↔ lo ≤ Z_of_byte b ≤ hi.
Proof. unfold in_range. rewrite andb_true_iff, !Z.leb_le. lia. Qed.

Ltac in_range_true :=
  repeat match goal with
  | |- context [in_range ?lo ?hi (byte_of_Z ?z)] =>
    replace (in_range lo hi (byte_of_Z z)) with true
      by (symmetry; apply in_range_spec; byte_values;
          repeat case_match; Z.to_euclidean_division_equations; lia)
  end.

Lemma runes_utf8_rune r s :
  is_scalar r = true → runes (utf8_rune r ++ s) = r :: runes s.
Proof.
  intros Hr. unfold utf8_rune. rewrite Hr. apply is_scalar_spec in Hr.
  destruct (Z.ltb_spec r 0x80); [|destruct (Z.ltb_spec r 0x800);
    [|destruct (Z.ltb_spec r 0x10000)]]; cbn [app runes]; byte_values; decide_tests;
    cbn [andb].
  - done.
  - in_range_true. unfold cont. byte_values. f_equal.
    Z.to_euclidean_division_equations; lia.
  - destruct (Z.eqb_spec (0xE0 + r / 4096) 0xE0);
    destruct (Z.eqb_spec (0xE0 + r / 4096) 0xED); try lia;
    in_range_true; unfold cont; byte_values; cbn [andb]; f_equal;
    Z.to_euclidean_division_equations; lia.
  - destruct (Z.eqb_spec (0xF0 + r / 262144) 0xF0);
    destruct (Z.eqb_spec (0xF0 + r / 262144) 0xF4); try lia;
    in_range_true; unfold cont; byte_values; cbn [andb]; f_equal;
    Z.to_euclidean_division_equations; lia.
Qed.

Lemma runes_utf8_encode rs : scalars rs → runes (utf8_encode rs) = rs.
Proof.
  induction 1 as [|r rs Hr _ IH]; [done|].
  unfold utf8_encode in *. cbn [flat_map]. by rewrite runes_utf8_rune, IH.
Qed.

Lemma utf16_decode_rune r us :
  is_scalar r = true → utf16_decode (utf16_rune r ++ us) = r :: utf16_decode us.
Proof.
  intros Hr%is_scalar_spec. unfold utf16_rune.
  destruct (decide (r < 0xD800)); [|destruct (decide (r < 0x10000))];
    decide_tests; cbn [andb orb app utf16_decode]; decide_tests; cbn [andb orb]; try done.
  f_equal. Z.to_euclidean_division_equations; lia.
Qed.

Lemma utf16_decode_encode rs : scalars rs → utf16_decode (utf16_encode rs) = rs.
Proof.
  induction 1 as [|r rs Hr _ IH]; [done|].
  unfold utf16_encode in *. cbn [flat_map]. by rewrite utf16_decode_rune, IH.
Qed.

Definition is_unit (u : Z) : Prop := 0 ≤ u < 0x10000.

Lemma utf16_rune_units r : Forall is_unit (utf16_rune r).
Proof.
  unfold utf16_rune, is_unit, RuneError.
  repeat match goal with |- context [if ?b then _ else _] => destruct b eqn:? end;
    rewrite ?orb_true_iff, ?andb_true_iff, ?Z.leb_le, ?Z.ltb_lt in *;
    repeat constructor; Z.to_euclidean_division_equations; lia.
Qed.

Lemma utf16_encode_units rs : Forall is_unit (utf16_encode rs).
Proof.
  unfold utf16_encode. induction rs as [|r rs IH]; cbn [flat_map]; [constructor|].
  apply Forall_app; split; auto using utf16_rune_units.
Qed.

Lemma get_put_units us : Forall is_unit us → get_units (put_units us) = us.
Proof.
  unfold put_units, is_unit. induction 1 as [|u us Hu _ IH]; [done|].
  change (get_units (flat_map (le_put 2) (u :: us)))
    with (le_get (le_put 2 u) :: get_units (flat_map (le_put 2) us)).
  rewrite IH, le_get_put_u16 by lia. done.
Qed.

Lemma len_put_units us : len (put_units us) = 2 * len us.
Proof.
  unfold put_units. induction us as [|u us IH]; [done|].
  cbn [flat_map]. rewrite len_app, IH, len_cons, len_le_put. lia.
Qed.

(** The last unit of an encoding is zero exactly when the last rune is. *)
Lemma utf16_rune_last r : is_scalar r = true → last (utf16_rune r) = Some 0 → r = 0.
Proof.
  intros Hr%is_scalar_spec. unfold utf16_rune, RuneError.
  repeat match goal with |- context [if ?b then _ else _] => destruct b eqn:? end;
    rewrite ?orb_true_iff, ?andb_true_iff, ?Z.leb_le, ?Z.ltb_lt in *;
    simpl; intros [= E]; Z.to_euclidean_division_equations; lia.
Qed.

Lemma utf16_rune_nonempty r : utf16_rune r ≠ [].
Proof. unfold utf16_rune. repeat case_match; done. Qed.

Lemma utf16_encode_last rs :
  scalars rs → last (utf16_encode rs) = Some 0 → last rs = Some 0.
Proof.
  destruct rs as [|r rs _] using rev_ind; [done|].
  intros [_ Hr]%Forall_app. apply Forall_inv in Hr.
  unfold utf16_encode. rewrite flat_map_app. cbn [flat_map]. rewrite app_nil_r.
  rewrite last_app, last_snoc. destruct (last (utf16_rune r)) as [u|] eqn:E; simpl.
  - intros [= ->]. f_equal. by apply utf16_rune_last.
  - apply last_None in E. by apply utf16_rune_nonempty in E.
Qed.

Lemma strip_null_id us : last us ≠ Some 0 → strip_null us = us.
Proof. unfold strip_null. intros. destruct (last us) as [[]|]; done. Qed.

Lemma utf16_decode_scalars us : Forall is_unit us → scalars (utf16_decode us).
Proof.
  unfold scalars. remember (length us) as n eqn:Hn.
  revert us Hn; induction (lt_wf n) as [n _ IH]; intros us -> Hus.
  assert (is_scalar RuneError = true) as HE by done.
  destruct Hus as [|u us1 Hu Hus1]; cbn [utf16_decode]; [constructor|].
  unfold is_unit in Hu.
  destruct (u <? 0xD800) eqn:E1, (0xE000 <=? u) eqn:E2; cbn [orb];
    rewrite ?Z.ltb_lt, ?Z.ltb_ge, ?Z.leb_le, ?Z.leb_gt in *.
  1-3: constructor; [apply is_scalar_spec; lia|]; eapply IH; eauto; simpl; lia.
  destruct (u <? 0xDC00) eqn:E3; rewrite ?Z.ltb_lt, ?Z.ltb_ge in *; cycle 1.
  { constructor; [done|]; eapply IH; eauto; simpl; lia. }
  destruct Hus1 as [|v us2 Hv Hus2]; [by repeat constructor|].
  destruct (0xDC00 <=? v) eqn:E4, (v <? 0xE000) eqn:E5; cbn [andb];
    rewrite ?Z.ltb_lt, ?Z.ltb_ge, ?Z.leb_le, ?Z.leb_gt in *.
  1: constructor; [apply is_scalar_spec; lia|]; eapply IH; eauto; simpl; lia.
  all: constructor; [done|]; eapply IH; [| reflexivity |]; [simpl; lia|]; by constructor.
Qed.

Lemma get_units_units_aux data :
  Forall is_unit (get_units data) ∧ (∀ a, Forall is_unit (get_units (a :: data))).
Proof.
  induction data as [|b data [IH1 IH2]]; simpl; [split; [constructor|intros; constructor]|].
  split; [apply IH2|]. intros a. constructor; [|apply IH1].
  unfold is_unit. pose proof (Z_of_byte_range a). pose proof (Z_of_byte_range b). lia.
Qed.

Lemma get_units_units data : Forall is_unit (get_units data).
Proof. apply get_units_units_aux. Qed.

Lemma strip_null_units us : Forall is_unit us → Forall is_unit (strip_null us).
Proof. unfold strip_null. intros. repeat case_match; auto using Forall_take. Qed.

(** The names the server reads from the wire are always valid UTF-8. *)
Lemma DecodeUTF16LEToString_valid data : valid_utf8 (DecodeUTF16LEToString data).
Proof.
  unfold DecodeUTF16LEToString. destruct (len data =? 0).
  { exists []. split; [constructor|done]. }
  cbv zeta. eexists. split; [|reflexivity].
  apply utf16_decode_scalars, strip_null_units, get_units_units.
Qed.

Lemma len_EncodeStringToUTF16LE s :
  len (EncodeStringToUTF16LE s) = 2 * len (utf16_encode (runes s)).
Proof. apply len_put_units. Qed.

Lemma utf16_encode_nonempty r rs : utf16_encode (r :: rs) ≠ [].
Proof.
  unfold utf16_encode. cbn [flat_map]. intros [H _]%app_eq_nil.
  by apply utf16_rune_nonempty in H.
Qed.

Lemma decode_encode_scalars rs :
  scalars rs → last rs ≠ Some 0 →
  DecodeUTF16LEToString (EncodeStringToUTF16LE (utf8_encode rs)) = utf8_encode rs.
Proof.
  intros Hrs Hlast. unfold DecodeUTF16LEToString, EncodeStringToUTF16LE.
  rewrite runes_utf8_encode by done. rewrite len_put_units.
  destruct rs as [|r rs]; [done|].
  assert (0 < len (utf16_encode (r :: rs))) as Hpos.
  { destruct (utf16_encode (r :: rs)) eqn:E; [by apply utf16_encode_nonempty in E|].
    rewrite len_cons. pose proof (len_nonneg l). lia. }
  destruct (Z.eqb_spec (2 * len (utf16_encode (r :: rs))) 0); [lia|].
  rewrite Z.mul_comm, Z_mod_mult. cbn [Z.eqb].
  rewrite get_put_units by apply utf16_encode_units.
  rewrite strip_null_id, utf16_decode_encode; [done..|].
  intros H. by apply Hlast, utf16_encode_last.
Qed.

(* ------------------------------------------------------------------ *)
(** ** ASCII inside UTF-8 *)

Lemma in_range_ascii lo hi b : 0x80 ≤ lo → Z_of_byte b < 0x80 → in_range lo hi b = false.
Proof.
  intros. unfold in_range. destruct (Z.leb_spec lo (Z_of_byte b)); [lia|done].
Qed.

(** One step of the decoder: the first rune and the rest. *)
Definition decode1 (b0 : byte) (s1 : gostring) : Z * gostring :=
  let c0 := Z_of_byte b0 in
  if c0 <? 0x80 then (c0, s1)
  else if (0xC2 <=? c0) && (c0 <=? 0xDF) then
    match s1 with
    | b1 :: s2 =>
      if in_range 0x80 0xBF b1 then ((c0 - 0xC0) * 64 + cont b1, s2) else (RuneError, s1)
    | _ => (RuneError, s1)
    end
  else if (0xE0 <=? c0) && (c0 <=? 0xEF) then
    match s1 with
    | b1 :: b2 :: s3 =>
      if in_range (if c0 =? 0xE0 then 0xA0 else 0x80) (if c0 =? 0xED then 0x9F else 0xBF) b1
         && in_range 0x80 0xBF b2
      then ((c0 - 0xE0) * 4096 + cont b1 * 64 + cont b2, s3) else (RuneError, s1)
    | _ => (RuneError, s1)
    end
  else if (0xF0 <=? c0) && (c0 <=? 0xF4) then
    match s1 with
    | b1 :: b2 :: b3 :: s4 =>
      if in_range (if c0 =? 0xF0 then 0x90 else 0x80) (if c0 =? 0xF4 then 0x8F else 0xBF) b1
         && in_range 0x80 0xBF b2 && in_range 0x80 0xBF b3
      then ((c0 - 0xF0) * 262144 + cont b1 * 4096 + cont b2 * 64 + cont b3, s4)
      else (RuneError, s1)
    | _ => (RuneError, s1)
    end
  else (RuneError, s1).

Lemma runes_cons b0 s1 :
  runes (b0 :: s1) = (decode1 b0 s1).1 :: runes (decode1 b0 s1).2.
Proof. unfold decode1. cbn [runes]. repeat case_match; done. Qed.

Lemma decode1_rest b0 s1 : (length (decode1 b0 s1).2 ≤ length s1)%nat.
Proof. unfold decode1. repeat case_match; simpl; lia. Qed.

Lemma decode1_ascii b0 s1 : Z_of_byte b0 < 0x80 → decode1 b0 s1 = (Z_of_byte b0, s1).
Proof. intros. unfold decode1. by destruct (Z.ltb_spec (Z_of_byte b0) 0x80); [|lia]. Qed.

Lemma decode1_app b0 a c b :
  Z_of_byte c < 0x80 →
  decode1 b0 (a ++ c :: b) = ((decode1 b0 a).1, (decode1 b0 a).2 ++ c :: b).
Proof.
  intros Hc. unfold decode1. cbv zeta.
  assert (∀ hi (x : bool), in_range (if x then 0xA0 else 0x80) hi c = false) as R2
    by (intros hi []; apply in_range_ascii; lia).
  assert (∀ hi (x : bool), in_range (if x then 0x90 else 0x80) hi c = false) as R3
    by (intros hi []; apply in_range_ascii; lia).
  pose proof (R2 0xBF false) as R1. cbn beta iota in R1.
  destruct (Z_of_byte b0 <? 0x80); [done|].
  destruct ((0xC2 <=? Z_of_byte b0) && (Z_of_byte b0 <=? 0xDF)).
  { destruct a as [|b1 a]; cbn [app]; [by rewrite R1|].
    destruct (in_range 0x80 0xBF b1); done. }
  destruct ((0xE0 <=? Z_of_byte b0) && (Z_of_byte b0 <=? 0xEF)).
  { destruct a as [|b1 [|b2 a]]; cbn [app].
    - destruct b; [done|]. by rewrite R2.
    - by rewrite R1, andb_false_r.
    - match goal with |- context [if ?t then _ else _] => destruct t end; done. }
  destruct ((0xF0 <=? Z_of_byte b0) && (Z_of_byte b0 <=? 0xF4)); [|done].
  destruct a as [|b1 [|b2 [|b3 a]]]; cbn [app].
  - destruct b as [|? [|? ?]]; [done..|]. by rewrite R3.
  - destruct b; [done|]. by rewrite R1, andb_false_r.
  - by rewrite R1, andb_false_r.
  - match goal with |- context [if ?t then _ else _] => destruct t end; done.
Qed.

(** An ASCII byte decodes to itself and separates what surrounds it. *)
Lemma runes_ascii_split a c b :
  Z_of_byte c < 0x80 → runes (a ++ c :: b) = runes a ++ Z_of_byte c :: runes b.
Proof.
  intros Hc. remember (length a) as n eqn:Hn. revert a Hn.
  induction (lt_wf n) as [n _ IH]. intros [|b0 a] ->.
  { cbn [app]. by rewrite runes_cons, decode1_ascii. }
  cbn [app]. rewrite !runes_cons, decode1_app by done. cbn [fst snd app]. f_equal.
  eapply IH; [|reflexivity]. pose proof (decode1_rest b0 a). simpl. lia.
Qed.

Lemma decode1_bounds b0 s1 :
  is_scalar (decode1 b0 s1).1 = true
  ∧ ((decode1 b0 s1).1 < 0x80 → decode1 b0 s1 = (Z_of_byte b0, s1)).
Proof.
  pose proof (Z_of_byte_range b0).
  unfold decode1, cont, RuneError. cbv zeta.
  repeat match goal with
  | |- context [match ?x with _ => _ end] => destruct x eqn:?
  end; rewrite ?andb_true_iff, ?in_range_spec in *;
    repeat match goal with
    | H : context [if ?x then _ else _] |- _ => destruct x eqn:?
    end; rewrite ?Z.leb_le, ?Z.ltb_lt, ?Z.ltb_ge, ?Z.eqb_eq, ?Z.eqb_neq in *;
    cbn [fst snd]; (split; [apply is_scalar_spec; lia|]; intros; first [done | lia]).
Qed.

Lemma runes_scalars s : scalars (runes s).
Proof.
  remember (length s) as n eqn:Hn. revert s Hn.
  induction (lt_wf n) as [n _ IH]. intros [|b0 s] ->; [constructor|].
  rewrite runes_cons. constructor; [apply decode1_bounds|].
  eapply IH; [|reflexivity]. pose proof (decode1_rest b0 s). simpl. lia.
Qed.

(** An ASCII rune of a string is one of its bytes. *)
Lemma runes_ascii_elem s c :
  Z_of_byte c < 0x80 → Z_of_byte c ∈ runes s → c ∈ s.
Proof.
  intros Hc. remember (length s) as n eqn:Hn. revert s Hn.
  induction (lt_wf n) as [n _ IH]. intros [|b0 s] ->; [by intros ?%elem_of_nil|].
  rewrite runes_cons. destruct (decode1_bounds b0 s) as [_ Hd].
  intros [E|Hin]%elem_of_cons.
  - rewrite Hd in E by lia. simpl in E. apply (inj Z_of_byte) in E as ->. constructor.
  - destruct (decide ((decode1 b0 s).1 < 0x80)) as [Hlt|].
    + rewrite Hd in Hin by done. constructor 2. eapply IH; [|reflexivity|done]. simpl; lia.
    + assert (c ∈ (decode1 b0 s).2) as Hc2.
      { eapply IH; [|reflexivity|done]. pose proof (decode1_rest b0 s). simpl. lia. }
      constructor 2. clear -Hc2. unfold decode1 in Hc2. revert Hc2.
      repeat case_match; cbn [snd]; set_solver.
Qed.

Lemma runes_all_ascii s :
  Forall (λ r, r < 0x80) (runes s) → s = map byte_of_Z (runes s).
Proof.
  remember (length s) as n eqn:Hn. revert s Hn.
  induction (lt_wf n) as [n _ IH]. intros [|b0 s] -> Hall; [done|].
  rewrite runes_cons in Hall. inversion Hall as [|?? H1 H2]; subst.
  destruct (decode1_bounds b0 s) as [_ Hd]. specialize (Hd H1).
  rewrite runes_cons, Hd. rewrite Hd in H2. cbn [fst snd map] in *.
  rewrite byte_of_Z_of_byte. f_equal. eapply IH; [|reflexivity|done]. simpl; lia.
Qed.

Lemma utf8_rune_nonempty r : utf8_rune r ≠ [].
Proof. unfold utf8_rune. repeat case_match; done. Qed.

Lemma utf8_rune_ascii_elem r c :
  Z_of_byte c < 0x80 → c ∈ utf8_rune r → r = Z_of_byte c.
Proof.
  intros Hc. unfold utf8_rune. destruct (is_scalar r) eqn:Hr; cycle 1.
  { intros Hin. exfalso. revert Hin Hc. unfold RuneError. simpl.
    rewrite !elem_of_cons, elem_of_nil. intros [->|[->|[->|[]]]]; vm_compute; done. }
  apply is_scalar_spec in Hr.
  repeat case_match; rewrite ?Z.ltb_lt, ?Z.ltb_ge in *;
    rewrite ?elem_of_cons, elem_of_nil; intros Hin;
    repeat destruct Hin as [->|Hin]; try done;
    rewrite ?Z_of_byte_of_Z_small in * by (Z.to_euclidean_division_equations; lia);
    first [done | exfalso; Z.to_euclidean_division_equations; lia].
Qed.

Lemma utf8_encode_app a b : utf8_encode (a ++ b) = utf8_encode a ++ utf8_encode b.
Proof. apply flat_map_app. Qed.

Lemma utf8_encode_ascii_elem rs c :
  Z_of_byte c < 0x80 → c ∈ utf8_encode rs → Z_of_byte c ∈ rs.
Proof.
  intros Hc. unfold utf8_encode. induction rs as [|r rs IH]; cbn [flat_map];
    [by intros ?%elem_of_nil|].
  intros [H|H]%elem_of_app; [|set_solver].
  apply utf8_rune_ascii_elem in H; [|done]. set_solver.
Qed.

Lemma utf8_rune_ascii c : Z_of_byte c < 0x80 → utf8_rune (Z_of_byte c) = [c].
Proof.
  intros Hc. pose proof (Z_of_byte_range c). unfold utf8_rune.
  assert (is_scalar (Z_of_byte c) = true) as -> by (apply is_scalar_spec; lia).
  destruct (Z.ltb_spec (Z_of_byte c) 0x80); [|lia]. by rewrite byte_of_Z_of_byte.
Qed.

(** ** Properties *)

(** A valid UTF-8 name that does not end in a NUL character survives the
    conversion to the UTF-16LE wire form and back. *)
Theorem utf16le_roundtrip (rs : list Z) :
  scalars rs → last rs ≠ Some 0 →
  DecodeUTF16LEToString (EncodeStringToUTF16LE (utf8_encode rs)) = utf8_encode rs.
Proof. apply decode_encode_scalars. Qed.

Lemma utf16le_roundtrip_witness :
  DecodeUTF16LEToString (EncodeStringToUTF16LE (utf8_encode [0x61; 0xE9; 0x20AC; 0x1F600]))
  = utf8_encode [0x61; 0xE9; 0x20AC; 0x1F600].
Proof.
  apply utf16le_roundtrip; [repeat constructor | done].
Defined.
