(* ===== verification/Constants.v ===== *)
(** * Protocol constants

    The constants of [smb2_types.go], [smb2_commands.go], [attributes.go],
    [smb2_ioctl.go], [smb2_negotiate.go], [smb2_session.go],
    [smb2_signing.go], [smb2_dir.go] and [server_config.go], under their Go names. *)

From stdpp Require Import base numbers list.
From S2P Require Import Prelude.

Open Scope Z_scope.

(* ------------------------------------------------------------------ *)
(** ** [smb2_types.go] *)

(** SMB2 Protocol constants *)
Definition SMB2HeaderSize : Z := 64.
Definition MaxTransactSize : Z := 8 * 1024 * 1024.
Definition MaxReadSize : Z := 8 * 1024 * 1024.
Definition MaxWriteSize : Z := 8 * 1024 * 1024.
Definition MaxBufferSize : Z := 64 * 1024.

Definition SMB2_0_2 : Z := 0x0202.
Definition SMB2_1 : Z := 0x0210.
Definition SMB3_0 : Z := 0x0300.
Definition SMB3_0_2 : Z := 0x0302.
Definition SMB3_1_1 : Z := 0x0311.

Definition STATUS_SUCCESS : Z := 0x00000000.
Definition STATUS_PENDING : Z := 0x00000103.
Definition STATUS_BUFFER_OVERFLOW : Z := 0x80000005.
Definition STATUS_NO_MORE_FILES : Z := 0x80000006.
Definition STATUS_INVALID_PARAMETER : Z := 0xC000000D.
Definition STATUS_NO_SUCH_FILE : Z := 0xC000000F.
Definition STATUS_END_OF_FILE : Z := 0xC0000011.
Definition STATUS_MORE_PROCESSING_REQUIRED : Z := 0xC0000016.
Definition STATUS_ACCESS_DENIED : Z := 0xC0000022.
Definition STATUS_OBJECT_NAME_INVALID : Z := 0xC0000033.
Definition STATUS_OBJECT_NAME_NOT_FOUND : Z := 0xC0000034.
Definition STATUS_OBJECT_NAME_COLLISION : Z := 0xC0000035.
Definition STATUS_OBJECT_PATH_NOT_FOUND : Z := 0xC000003A.
Definition STATUS_SHARING_VIOLATION : Z := 0xC0000043.
Definition STATUS_DELETE_PENDING : Z := 0xC0000056.
Definition STATUS_PRIVILEGE_NOT_HELD : Z := 0xC0000061.
Definition STATUS_LOGON_FAILURE : Z := 0xC000006D.
Definition STATUS_ACCOUNT_RESTRICTION : Z := 0xC000006E.
Definition STATUS_PASSWORD_EXPIRED : Z := 0xC0000071.
Definition STATUS_INSUFFICIENT_RESOURCES : Z := 0xC000009A.
Definition STATUS_FILE_IS_A_DIRECTORY : Z := 0xC00000BA.
Definition STATUS_BAD_NETWORK_NAME : Z := 0xC00000CC.
Definition STATUS_NOT_SAME_DEVICE : Z := 0xC00000D4.
Definition STATUS_FILE_RENAMED : Z := 0xC00000D5.
Definition STATUS_NOT_A_DIRECTORY : Z := 0xC0000103.
Definition STATUS_FILE_CLOSED : Z := 0xC0000128.
Definition STATUS_CANCELLED : Z := 0xC0000120.
Definition STATUS_NETWORK_NAME_DELETED : Z := 0xC00000C9.
Definition STATUS_USER_SESSION_DELETED : Z := 0xC0000203.
Definition STATUS_NOT_FOUND : Z := 0xC0000225.
Definition STATUS_INVALID_DEVICE_REQUEST : Z := 0xC0000010.
Definition STATUS_DIRECTORY_NOT_EMPTY : Z := 0xC0000101.
Definition STATUS_NOT_SUPPORTED : Z := 0xC00000BB.

(** SMB2 Header flags *)
Definition SMB2_FLAGS_SERVER_TO_REDIR : Z := 0x00000001.
Definition SMB2_FLAGS_ASYNC_COMMAND : Z := 0x00000002.
Definition SMB2_FLAGS_RELATED_OPERATIONS : Z := 0x00000004.
Definition SMB2_FLAGS_SIGNED : Z := 0x00000008.
Definition SMB2_FLAGS_PRIORITY_MASK : Z := 0x00000070.
Definition SMB2_FLAGS_DFS_OPERATIONS : Z := 0x10000000.
Definition SMB2_FLAGS_REPLAY_OPERATION : Z := 0x20000000.

(** SMB2 Access Mask (desired access rights) *)
Definition FILE_READ_DATA : Z := 0x00000001.
Definition FILE_WRITE_DATA : Z := 0x00000002.
Definition FILE_APPEND_DATA : Z := 0x00000004.
Definition FILE_READ_EA : Z := 0x00000008.
Definition FILE_WRITE_EA : Z := 0x00000010.
Definition FILE_EXECUTE : Z := 0x00000020.
Definition FILE_DELETE_CHILD : Z := 0x00000040.
Definition FILE_READ_ATTRIBUTES : Z := 0x00000080.
Definition FILE_WRITE_ATTRIBUTES : Z := 0x00000100.
Definition DELETE : Z := 0x00010000.
Definition READ_CONTROL : Z := 0x00020000.
Definition WRITE_DAC : Z := 0x00040000.
Definition WRITE_OWNER : Z := 0x00080000.
Definition SYNCHRONIZE : Z := 0x00100000.
Definition ACCESS_SYSTEM_SECURITY : Z := 0x01000000.
Definition MAXIMUM_ALLOWED : Z := 0x02000000.
Definition GENERIC_ALL : Z := 0x10000000.
Definition GENERIC_EXECUTE : Z := 0x20000000.
Definition GENERIC_WRITE : Z := 0x40000000.
Definition GENERIC_READ : Z := 0x80000000.

(** SMB2 Share Access *)
Definition FILE_SHARE_READ : Z := 0x00000001.
Definition FILE_SHARE_WRITE : Z := 0x00000002.
Definition FILE_SHARE_DELETE : Z := 0x00000004.

(** SMB2 Create Disposition *)
Definition FILE_SUPERSEDE : Z := 0x00000000.
Definition FILE_OPEN : Z := 0x00000001.
Definition FILE_CREATE : Z := 0x00000002.
Definition FILE_OPEN_IF : Z := 0x00000003.
Definition FILE_OVERWRITE : Z := 0x00000004.
Definition FILE_OVERWRITE_IF : Z := 0x00000005.

(** SMB2 Create Options *)
Definition FILE_DIRECTORY_FILE : Z := 0x00000001.
Definition FILE_WRITE_THROUGH : Z := 0x00000002.
Definition FILE_SEQUENTIAL_ONLY : Z := 0x00000004.
Definition FILE_NO_INTERMEDIATE_BUFFERING : Z := 0x00000008.
Definition FILE_SYNCHRONOUS_IO_ALERT : Z := 0x00000010.
Definition FILE_SYNCHRONOUS_IO_NONALERT : Z := 0x00000020.
Definition FILE_NON_DIRECTORY_FILE : Z := 0x00000040.
Definition FILE_COMPLETE_IF_OPLOCKED : Z := 0x00000100.
Definition FILE_NO_EA_KNOWLEDGE : Z := 0x00000200.
Definition FILE_RANDOM_ACCESS : Z := 0x00000800.
Definition FILE_DELETE_ON_CLOSE : Z := 0x00001000.
Definition FILE_OPEN_BY_FILE_ID : Z := 0x00002000.
Definition FILE_OPEN_FOR_BACKUP_INTENT : Z := 0x00004000.
Definition FILE_NO_COMPRESSION : Z := 0x00008000.
Definition FILE_OPEN_REPARSE_POINT : Z := 0x00200000.
Definition FILE_OPEN_NO_RECALL : Z := 0x00400000.

(** SMB2 Create Action (returned in CREATE response) *)
Definition FILE_SUPERSEDED : Z := 0x00000000.
Definition FILE_OPENED : Z := 0x00000001.
Definition FILE_CREATED : Z := 0x00000002.
Definition FILE_OVERWRITTEN : Z := 0x00000003.

(** SMB2 Security Mode *)
Definition SMB2_NEGOTIATE_SIGNING_ENABLED : Z := 0x0001.
Definition SMB2_NEGOTIATE_SIGNING_REQUIRED : Z := 0x0002.

(** SMB2 Capabilities *)
Definition SMB2_GLOBAL_CAP_DFS : Z := 0x00000001.
Definition SMB2_GLOBAL_CAP_LEASING : Z := 0x00000002.
Definition SMB2_GLOBAL_CAP_LARGE_MTU : Z := 0x00000004.
Definition SMB2_GLOBAL_CAP_MULTI_CHANNEL : Z := 0x00000008.
Definition SMB2_GLOBAL_CAP_PERSISTENT_HANDLES : Z := 0x00000010.
Definition SMB2_GLOBAL_CAP_DIRECTORY_LEASING : Z := 0x00000020.
Definition SMB2_GLOBAL_CAP_ENCRYPTION : Z := 0x00000040.

(** SMB2 Share Type *)
Definition SMB2_SHARE_TYPE_DISK : Z := 0x01.
Definition SMB2_SHARE_TYPE_PIPE : Z := 0x02.
Definition SMB2_SHARE_TYPE_PRINT : Z := 0x03.

(** SMB2 Share Flags *)
Definition SMB2_SHAREFLAG_MANUAL_CACHING : Z := 0x00000000.
Definition SMB2_SHAREFLAG_AUTO_CACHING : Z := 0x00000010.
Definition SMB2_SHAREFLAG_VDO_CACHING : Z := 0x00000020.
Definition SMB2_SHAREFLAG_NO_CACHING : Z := 0x00000030.
Definition SMB2_SHAREFLAG_DFS : Z := 0x00000001.
Definition SMB2_SHAREFLAG_DFS_ROOT : Z := 0x00000002.
Definition SMB2_SHAREFLAG_RESTRICT_EXCLUSIVE_OPENS : Z := 0x00000100.
Definition SMB2_SHAREFLAG_FORCE_SHARED_DELETE : Z := 0x00000200.
Definition SMB2_SHAREFLAG_ALLOW_NAMESPACE_CACHING : Z := 0x00000400.
Definition SMB2_SHAREFLAG_ACCESS_BASED_DIRECTORY_ENUM : Z := 0x00000800.
Definition SMB2_SHAREFLAG_FORCE_LEVELII_OPLOCK : Z := 0x00001000.
Definition SMB2_SHAREFLAG_ENABLE_HASH_V1 : Z := 0x00002000.
Definition SMB2_SHAREFLAG_ENABLE_HASH_V2 : Z := 0x00004000.
Definition SMB2_SHAREFLAG_ENCRYPT_DATA : Z := 0x00008000.

(** SMB2 Share Capabilities *)
Definition SMB2_SHARE_CAP_DFS : Z := 0x00000008.
Definition SMB2_SHARE_CAP_CONTINUOUS_AVAILABILITY : Z := 0x00000010.
Definition SMB2_SHARE_CAP_SCALEOUT : Z := 0x00000020.
Definition SMB2_SHARE_CAP_CLUSTER : Z := 0x00000040.
Definition SMB2_SHARE_CAP_ASYMMETRIC : Z := 0x00000080.

(** SMB2 Info Type (for QUERY_INFO and SET_INFO) *)
Definition SMB2_0_INFO_FILE : Z := 0x01.
Definition SMB2_0_INFO_FILESYSTEM : Z := 0x02.
Definition SMB2_0_INFO_SECURITY : Z := 0x03.
Definition SMB2_0_INFO_QUOTA : Z := 0x04.

(** File Information Classes *)
Definition FileDirectoryInformation : Z := 1.
Definition FileFullDirectoryInformation : Z := 2.
Definition FileBothDirectoryInformation : Z := 3.
Definition FileBasicInformation : Z := 4.
Definition FileStandardInformation : Z := 5.
Definition FileInternalInformation : Z := 6.
Definition FileEaInformation : Z := 7.
Definition FileAccessInformation : Z := 8.
Definition FileNameInformation : Z := 9.
Definition FileRenameInformation : Z := 10.
Definition FileLinkInformation : Z := 11.
Definition FileNamesInformation : Z := 12.
Definition FileDispositionInformation : Z := 13.
Definition FilePositionInformation : Z := 14.
Definition FileFullEaInformation : Z := 15.
Definition FileModeInformation : Z := 16.
Definition FileAlignmentInformation : Z := 17.
Definition FileAllInformation : Z := 18.
Definition FileAllocationInformation : Z := 19.
Definition FileEndOfFileInformation : Z := 20.
Definition FileAlternateNameInformation : Z := 21.
Definition FileStreamInformation : Z := 22.
Definition FilePipeInformation : Z := 23.
Definition FilePipeLocalInformation : Z := 24.
Definition FilePipeRemoteInformation : Z := 25.
Definition FileMailslotQueryInformation : Z := 26.
Definition FileMailslotSetInformation : Z := 27.
Definition FileCompressionInformation : Z := 28.
Definition FileObjectIdInformation : Z := 29.
Definition FileMoveClusterInformation : Z := 31.
Definition FileQuotaInformation : Z := 32.
Definition FileReparsePointInformation : Z := 33.
Definition FileNetworkOpenInformation : Z := 34.
Definition FileAttributeTagInformation : Z := 35.
Definition FileIdBothDirectoryInformation : Z := 37.
Definition FileIdFullDirectoryInformation : Z := 38.
Definition FileValidDataLengthInformation : Z := 39.
Definition FileShortNameInformation : Z := 40.
Definition FileIdGlobalTxDirectoryInformation : Z := 50.

(** Filesystem Information Classes *)
Definition FileFsVolumeInformation : Z := 1.
Definition FileFsLabelInformation : Z := 2.
Definition FileFsSizeInformation : Z := 3.
Definition FileFsDeviceInformation : Z := 4.
Definition FileFsAttributeInformation : Z := 5.
Definition FileFsControlInformation : Z := 6.
Definition FileFsFullSizeInformation : Z := 7.
Definition FileFsObjectIdInformation : Z := 8.
Definition FileFsSectorSizeInformation : Z := 11.

(* ------------------------------------------------------------------ *)
(** ** [smb2_commands.go] *)

(** SMB2 Command opcodes *)
Definition SMB2_NEGOTIATE : Z := 0x0000.
Definition SMB2_SESSION_SETUP : Z := 0x0001.
Definition SMB2_LOGOFF : Z := 0x0002.
Definition SMB2_TREE_CONNECT : Z := 0x0003.
Definition SMB2_TREE_DISCONNECT : Z := 0x0004.
Definition SMB2_CREATE : Z := 0x0005.
Definition SMB2_CLOSE : Z := 0x0006.
Definition SMB2_FLUSH : Z := 0x0007.
Definition SMB2_READ : Z := 0x0008.
Definition SMB2_WRITE : Z := 0x0009.
Definition SMB2_LOCK : Z := 0x000A.
Definition SMB2_IOCTL : Z := 0x000B.
Definition SMB2_CANCEL : Z := 0x000C.
Definition SMB2_ECHO : Z := 0x000D.
Definition SMB2_QUERY_DIRECTORY : Z := 0x000E.
Definition SMB2_CHANGE_NOTIFY : Z := 0x000F.
Definition SMB2_QUERY_INFO : Z := 0x0010.
Definition SMB2_SET_INFO : Z := 0x0011.
Definition SMB2_OPLOCK_BREAK : Z := 0x0012.

(* ------------------------------------------------------------------ *)
(** ** [attributes.go] *)

(** Windows file attribute flags as defined in MS-FSCC. *)
Definition FILE_ATTRIBUTE_READONLY : Z := 0x00000001.
Definition FILE_ATTRIBUTE_HIDDEN : Z := 0x00000002.
Definition FILE_ATTRIBUTE_SYSTEM : Z := 0x00000004.
Definition FILE_ATTRIBUTE_DIRECTORY : Z := 0x00000010.
Definition FILE_ATTRIBUTE_ARCHIVE : Z := 0x00000020.
Definition FILE_ATTRIBUTE_DEVICE : Z := 0x00000040.
Definition FILE_ATTRIBUTE_NORMAL : Z := 0x00000080.
Definition FILE_ATTRIBUTE_TEMPORARY : Z := 0x00000100.
Definition FILE_ATTRIBUTE_SPARSE_FILE : Z := 0x00000200.
Definition FILE_ATTRIBUTE_REPARSE_POINT : Z := 0x00000400.
Definition FILE_ATTRIBUTE_COMPRESSED : Z := 0x00000800.
Definition FILE_ATTRIBUTE_OFFLINE : Z := 0x00001000.
Definition FILE_ATTRIBUTE_NOT_CONTENT_INDEXED : Z := 0x00002000.
Definition FILE_ATTRIBUTE_ENCRYPTED : Z := 0x00004000.

(* ------------------------------------------------------------------ *)
(** ** [smb2_ioctl.go] *)

(** IOCTL control codes *)
Definition FSCTL_DFS_GET_REFERRALS : Z := 0x00060194.
Definition FSCTL_DFS_GET_REFERRALS_EX : Z := 0x000601B0.
Definition FSCTL_PIPE_PEEK : Z := 0x0011400C.
Definition FSCTL_PIPE_WAIT : Z := 0x00110018.
Definition FSCTL_PIPE_TRANSCEIVE : Z := 0x0011C017.
Definition FSCTL_SRV_COPYCHUNK : Z := 0x001440F2.
Definition FSCTL_SRV_ENUMERATE_SNAPSHOTS : Z := 0x00144064.
Definition FSCTL_SRV_REQUEST_RESUME_KEY : Z := 0x00140078.
Definition FSCTL_SRV_READ_HASH : Z := 0x001441BB.
Definition FSCTL_SRV_COPYCHUNK_WRITE : Z := 0x001480F2.
Definition FSCTL_LMR_REQUEST_RESILIENCY : Z := 0x001401D4.
Definition FSCTL_QUERY_NETWORK_INTERFACE_INFO : Z := 0x001401FC.
Definition FSCTL_SET_REPARSE_POINT : Z := 0x000900A4.
Definition FSCTL_GET_REPARSE_POINT : Z := 0x000900A8.
Definition FSCTL_VALIDATE_NEGOTIATE_INFO : Z := 0x00140204.

(* ------------------------------------------------------------------ *)
(** ** [smb2_negotiate.go] *)

(** SMB 3.1.1 Negotiate Context Types *)
Definition SMB2_PREAUTH_INTEGRITY_CAPABILITIES : Z := 0x0001.
Definition SMB2_ENCRYPTION_CAPABILITIES : Z := 0x0002.
Definition SMB2_SIGNING_CAPABILITIES : Z := 0x0008.

(** SMB 3.1.1 Hash Algorithms *)
Definition SMB2_PREAUTH_INTEGRITY_SHA512 : Z := 0x0001.

(** SMB 3.1.1 Cipher IDs *)
Definition SMB2_ENCRYPTION_AES128_CCM : Z := 0x0001.
Definition SMB2_ENCRYPTION_AES128_GCM : Z := 0x0002.

(** SMB 3.1.1 Signing Algorithm IDs *)
Definition SMB2_SIGNING_AES_CMAC : Z := 0x0001.
Definition SMB2_SIGNING_AES_GMAC : Z := 0x0002.
Definition SMB2_SIGNING_HMAC_SHA256 : Z := 0x0000.

(* ------------------------------------------------------------------ *)
(** ** [smb2_session.go] *)

(** SMB2 Session Setup flags *)
Definition SMB2_SESSION_FLAG_BINDING : Z := 0x01.

(** SMB2 Session Flags (in response) *)
Definition SMB2_SESSION_FLAG_IS_GUEST : Z := 0x0001.
Definition SMB2_SESSION_FLAG_IS_NULL : Z := 0x0002.
Definition SMB2_SESSION_FLAG_ENCRYPT : Z := 0x0004.

(* ------------------------------------------------------------------ *)
(** ** [smb2_signing.go] *)

(** SMB2 signature field is at offset 48 in the SMB2 header (16 bytes) *)
Definition SignatureOffset : Z := 48.
Definition SignatureLength : Z := 16.

(* ------------------------------------------------------------------ *)
(** ** [smb2_dir.go] *)

(** SMB2 QUERY_DIRECTORY flags *)
Definition SMB2_RESTART_SCANS : Z := 0x01.
Definition SMB2_RETURN_SINGLE_ENTRY : Z := 0x02.
Definition SMB2_INDEX_SPECIFIED : Z := 0x04.
Definition SMB2_REOPEN : Z := 0x10.

(* ------------------------------------------------------------------ *)
(** ** [server_config.go] *)

Definition SMBShareTypeDisk : Z := 0x01.
Definition SMBShareTypePipe : Z := 0x02.
Definition SMBShareTypePrint : Z := 0x03.

Definition CachingModeManual : Z := 0x00.
Definition CachingModeAuto : Z := 0x10.
Definition CachingModeVDO : Z := 0x20.
Definition CachingModeNone : Z := 0x30.
