(* ===== verification/Types.v ===== *)
(** * Protocol data: headers, file identifiers, FILETIME

    Models the types and functions of [smb2_types.go] and
    [smb2_commands.go]: the 64-byte SMB2 header with [Marshal] and
    [UnmarshalSMB2Header], [FileID], the NT status predicates, dialect and
    command names, and the FILETIME conversions. *)

From stdpp Require Import base numbers list gmap strings.
From S2P Require Import Prelude Constants.

Open Scope Z_scope.

(* ------------------------------------------------------------------ *)
(** ** Dialects and statuses *)

Definition SMBDialect_String (d : Z) : gostring :=
  if d =? SMB2_0_2 then str "SMB 2.0.2"
  else if d =? SMB2_1 then str "SMB 2.1"
  else if d =? SMB3_0 then str "SMB 3.0"
  else if d =? SMB3_0_2 then str "SMB 3.0.2"
  else if d =? SMB3_1_1 then str "SMB 3.1.1"
  else str "Unknown".

(** Highest to lowest preference. *)
Definition SupportedDialects : list Z := [SMB3_1_1; SMB3_0_2; SMB3_0; SMB2_1; SMB2_0_2].

Definition NTStatus_IsSuccess (s : Z) : bool := s =? STATUS_SUCCESS.

Definition NTStatus_IsError (s : Z) : bool := Z.land s 0xC0000000 =? 0xC0000000.

Definition NTStatus_String (s : Z) : gostring :=
  if s =? STATUS_SUCCESS then str "STATUS_SUCCESS"
  else if s =? STATUS_PENDING then str "STATUS_PENDING"
  else if s =? STATUS_BUFFER_OVERFLOW then str "STATUS_BUFFER_OVERFLOW"
  else if s =? STATUS_NO_MORE_FILES then str "STATUS_NO_MORE_FILES"
  else if s =? STATUS_INVALID_PARAMETER then str "STATUS_INVALID_PARAMETER"
  else if s =? STATUS_NO_SUCH_FILE then str "STATUS_NO_SUCH_FILE"
  else if s =? STATUS_END_OF_FILE then str "STATUS_END_OF_FILE"
  else if s =? STATUS_MORE_PROCESSING_REQUIRED then str "STATUS_MORE_PROCESSING_REQUIRED"
  else if s =? STATUS_ACCESS_DENIED then str "STATUS_ACCESS_DENIED"
  else if s =? STATUS_OBJECT_NAME_INVALID then str "STATUS_OBJECT_NAME_INVALID"
  else if s =? STATUS_OBJECT_NAME_NOT_FOUND then str "STATUS_OBJECT_NAME_NOT_FOUND"
  else if s =? STATUS_OBJECT_NAME_COLLISION then str "STATUS_OBJECT_NAME_COLLISION"
  else if s =? STATUS_OBJECT_PATH_NOT_FOUND then str "STATUS_OBJECT_PATH_NOT_FOUND"
  else if s =? STATUS_SHARING_VIOLATION then str "STATUS_SHARING_VIOLATION"
  else if s =? STATUS_LOGON_FAILURE then str "STATUS_LOGON_FAILURE"
  else if s =? STATUS_FILE_IS_A_DIRECTORY then str "STATUS_FILE_IS_A_DIRECTORY"
  else if s =? STATUS_BAD_NETWORK_NAME then str "STATUS_BAD_NETWORK_NAME"
  else if s =? STATUS_NOT_A_DIRECTORY then str "STATUS_NOT_A_DIRECTORY"
  else if s =? STATUS_FILE_CLOSED then str "STATUS_FILE_CLOSED"
  else if s =? STATUS_CANCELLED then str "STATUS_CANCELLED"
  else if s =? STATUS_NOT_FOUND then str "STATUS_NOT_FOUND"
  else if s =? STATUS_DIRECTORY_NOT_EMPTY then str "STATUS_DIRECTORY_NOT_EMPTY"
  else if s =? STATUS_NOT_SUPPORTED then str "STATUS_NOT_SUPPORTED"
  else str "STATUS_UNKNOWN".

Definition CommandName (cmd : Z) : gostring :=
  if cmd =? SMB2_NEGOTIATE then str "NEGOTIATE"
  else if cmd =? SMB2_SESSION_SETUP then str "SESSION_SETUP"
  else if cmd =? SMB2_LOGOFF then str "LOGOFF"
  else if cmd =? SMB2_TREE_CONNECT then str "TREE_CONNECT"
  else if cmd =? SMB2_TREE_DISCONNECT then str "TREE_DISCONNECT"
  else if cmd =? SMB2_CREATE then str "CREATE"
  else if cmd =? SMB2_CLOSE then str "CLOSE"
  else if cmd =? SMB2_FLUSH then str "FLUSH"
  else if cmd =? SMB2_READ then str "READ"
  else if cmd =? SMB2_WRITE then str "WRITE"
  else if cmd =? SMB2_LOCK then str "LOCK"
  else if cmd =? SMB2_IOCTL then str "IOCTL"
  else if cmd =? SMB2_CANCEL then str "CANCEL"
  else if cmd =? SMB2_ECHO then str "ECHO"
  else if cmd =? SMB2_QUERY_DIRECTORY then str "QUERY_DIRECTORY"
  else if cmd =? SMB2_CHANGE_NOTIFY then str "CHANGE_NOTIFY"
  else if cmd =? SMB2_QUERY_INFO then str "QUERY_INFO"
  else if cmd =? SMB2_SET_INFO then str "SET_INFO"
  else if cmd =? SMB2_OPLOCK_BREAK then str "OPLOCK_BREAK"
  else str "UNKNOWN".

Definition IsValidCommand (cmd : Z) : bool := cmd <=? SMB2_OPLOCK_BREAK.

(* ------------------------------------------------------------------ *)
(** ** The SMB2 header *)

(** ["\xFESMB"] *)
Definition SMB2ProtocolID : bytes := Byte.xfe :: str "SMB".

Record SMB2Header := mkHeader {
  h_ProtocolID : bytes;      (* [4]byte *)
  h_StructureSize : Z;       (* uint16 *)
  h_CreditCharge : Z;        (* uint16 *)
  h_Status : Z;              (* NTStatus, uint32 *)
  h_Command : Z;             (* uint16 *)
  h_CreditRequest : Z;       (* uint16 *)
  h_Flags : Z;               (* uint32 *)
  h_NextCommand : Z;         (* uint32 *)
  h_MessageID : Z;           (* uint64 *)
  h_Reserved : Z;            (* uint32 *)
  h_TreeID : Z;              (* uint32 *)
  h_SessionID : Z;           (* uint64 *)
  h_Signature : bytes;       (* [16]byte *)
}.

(** The ranges the Go types impose. *)
Record header_ok (h : SMB2Header) : Prop := {
  ok_ProtocolID : length (h_ProtocolID h) = 4%nat;
  ok_StructureSize : 0 ≤ h_StructureSize h < 2 ^ 16;
  ok_CreditCharge : 0 ≤ h_CreditCharge h < 2 ^ 16;
  ok_Status : 0 ≤ h_Status h < 2 ^ 32;
  ok_Command : 0 ≤ h_Command h < 2 ^ 16;
  ok_CreditRequest : 0 ≤ h_CreditRequest h < 2 ^ 16;
  ok_Flags : 0 ≤ h_Flags h < 2 ^ 32;
  ok_NextCommand : 0 ≤ h_NextCommand h < 2 ^ 32;
  ok_MessageID : 0 ≤ h_MessageID h < 2 ^ 64;
  ok_Reserved : 0 ≤ h_Reserved h < 2 ^ 32;
  ok_TreeID : 0 ≤ h_TreeID h < 2 ^ 32;
  ok_SessionID : 0 ≤ h_SessionID h < 2 ^ 64;
  ok_Signature : length (h_Signature h) = 16%nat;
}.

Definition IsResponse (h : SMB2Header) : bool := has_flag (h_Flags h) SMB2_FLAGS_SERVER_TO_REDIR.
Definition IsSigned (h : SMB2Header) : bool := has_flag (h_Flags h) SMB2_FLAGS_SIGNED.

(** [Marshal] writes the constant protocol id, whatever the field holds. *)
Definition Header_Marshal (h : SMB2Header) : bytes :=
  SMB2ProtocolID
  ++ le_put 2 (h_StructureSize h)
  ++ le_put 2 (h_CreditCharge h)
  ++ le_put 4 (h_Status h)
  ++ le_put 2 (h_Command h)
  ++ le_put 2 (h_CreditRequest h)
  ++ le_put 4 (h_Flags h)
  ++ le_put 4 (h_NextCommand h)
  ++ le_put 8 (h_MessageID h)
  ++ le_put 4 (h_Reserved h)
  ++ le_put 4 (h_TreeID h)
  ++ le_put 8 (h_SessionID h)
  ++ h_Signature h.

(** [None] is [ErrInvalidMessage]. *)
Definition UnmarshalSMB2Header (data : bytes) : option SMB2Header :=
  if len data <? SMB2HeaderSize then None
  else Some {|
    h_ProtocolID := sub data 0 4;
    h_StructureSize := le_get (sub data 4 2);
    h_CreditCharge := le_get (sub data 6 2);
    h_Status := le_get (sub data 8 4);
    h_Command := le_get (sub data 12 2);
    h_CreditRequest := le_get (sub data 14 2);
    h_Flags := le_get (sub data 16 4);
    h_NextCommand := le_get (sub data 20 4);
    h_MessageID := le_get (sub data 24 8);
    h_Reserved := le_get (sub data 32 4);
    h_TreeID := le_get (sub data 36 4);
    h_SessionID := le_get (sub data 40 8);
    h_Signature := sub data 48 16;
  |}.

(** A message: header, payload, the raw bytes (for the preauth hash), and the
    signing request the handler leaves for [writeMessage]. [SigningKey = None]
    is the nil slice. *)
Record SMB2Message := mkMessage {
  m_Header : SMB2Header;
  m_Payload : bytes;
  m_RawBytes : bytes;
  m_SigningKey : option bytes;
  m_Dialect : Z;
}.

(* ------------------------------------------------------------------ *)
(** ** File identifiers *)

Record FileID := mkFileID { Persistent : Z; Volatile : Z }.

#[global] Instance FileID_eq_dec : EqDecision FileID.
Proof. solve_decision. Defined.

#[global] Program Instance FileID_countable : Countable FileID :=
  inj_countable' (λ f, (Persistent f, Volatile f)) (λ p, mkFileID p.1 p.2) _.
Next Obligation. by intros []. Qed.

Definition FileID_Marshal (f : FileID) : bytes :=
  le_put 8 (Persistent f) ++ le_put 8 (Volatile f).

(** Slicing [data[0:8]], [data[8:16]] panics on short input. *)
Definition UnmarshalFileID (data : bytes) : outcome FileID :=
  if len data <? 16 then Panic
  else Ok (mkFileID (le_get (sub data 0 8)) (le_get (sub data 8 8))).

Definition FileID_IsZero (f : FileID) : bool := (Persistent f =? 0) && (Volatile f =? 0).

(* ------------------------------------------------------------------ *)
(** ** FILETIME

    A [time.Time] is its number of nanoseconds since the Unix epoch;
    [zero_time] is the zero [Time] (January 1 of year 1). *)
Definition zero_time : Z := -62135596800 * 1000000000.

Definition windowsEpochOffset : Z := 116444736000000000.

(** [t.UnixNano()] is an [int64]; [nsec/100] truncates toward zero. *)
Definition TimeToFiletime (t : Z) : Z :=
  if t =? zero_time then 0
  else u64 (u64 (Z.quot (s64 t) 100) + windowsEpochOffset).

Definition FiletimeToTime (ft : Z) : Z :=
  if ft =? 0 then zero_time
  else s64 (s64 (u64 (ft - windowsEpochOffset)) * 100).

(* ------------------------------------------------------------------ *)
(** ** Lemmas *)

Lemma sub_sub_app {A} (l : list A) off n m :
  sub l off n ++ sub l (off + n) m = sub l off (n + m).
Proof.
  unfold sub. rewrite <-drop_drop.
  rewrite <-(take_drop n (take (n + m) (drop off l))).
  rewrite take_take, Nat.min_l by lia. f_equal.
  rewrite skipn_firstn_comm. f_equal. lia.
Qed.

Lemma sub_0 {A} (l : list A) n : sub l 0 n = take n l.
Proof. done. Qed.

(** Re-encoding the decoded integer gives the bytes back. *)
Lemma le_put_get_sub data off n :
  (off + n ≤ length data)%nat → le_put n (le_get (sub data off n)) = sub data off n.
Proof. intros. apply le_put_get_n, length_sub. done. Qed.

Lemma le_get_sub_range data off n :
  (off + n ≤ length data)%nat → 0 ≤ le_get (sub data off n) < 256 ^ Z.of_nat n.
Proof.
  intros H. pose proof (le_get_range (sub data off n)) as Hr.
  unfold len in Hr. by rewrite length_sub in Hr.
Qed.

Lemma length_Header_Marshal h : header_ok h → length (Header_Marshal h) = 64%nat.
Proof.
  intros H. unfold Header_Marshal. rewrite !length_app, !length_le_put, (ok_Signature h H).
  done.
Qed.

Lemma marshal_unmarshal_header h :
  header_ok h → h_ProtocolID h = SMB2ProtocolID →
  UnmarshalSMB2Header (Header_Marshal h) = Some h.
Proof.
  intros Hok Hid. unfold UnmarshalSMB2Header.
  assert (len (Header_Marshal h) = 64) as -> by (unfold len; by rewrite length_Header_Marshal).
  cbn [Z.ltb SMB2HeaderSize Z.compare Pos.compare Pos.compare_cont].
  destruct Hok; destruct h; simpl in *; subst. f_equal.
  f_equal; first [ by apply le_get_put_u16 | by apply le_get_put_u32
                 | by apply le_get_put_u64 | done | idtac ].
  apply take_ge. lia.
Qed.

Lemma unmarshal_header_ok data h : UnmarshalSMB2Header data = Some h → header_ok h.
Proof.
  unfold UnmarshalSMB2Header. destruct (Z.ltb_spec (len data) SMB2HeaderSize) as [|Hlen]; [done|].
  intros [= <-]. unfold len, SMB2HeaderSize in Hlen.
  split; simpl; first [ apply length_sub; lia | apply (le_get_sub_range data); lia ].
Qed.

Lemma unmarshal_marshal_header data h :
  UnmarshalSMB2Header data = Some h → sub data 0 4 = SMB2ProtocolID →
  Header_Marshal h = take 64 data.
Proof.
  unfold UnmarshalSMB2Header. destruct (Z.ltb_spec (len data) SMB2HeaderSize) as [|Hlen]; [done|].
  intros [= <-] Hid. unfold len, SMB2HeaderSize in Hlen.
  unfold Header_Marshal; cbn [h_StructureSize h_CreditCharge h_Status h_Command h_CreditRequest
    h_Flags h_NextCommand h_MessageID h_Reserved h_TreeID h_SessionID h_Signature].
  rewrite <-Hid, !le_put_get_sub by lia.
  repeat (rewrite (sub_sub_app data); cbn [Nat.add]). apply sub_0.
Qed.

Lemma UnmarshalFileID_Marshal f :
  0 ≤ Persistent f < 2 ^ 64 → 0 ≤ Volatile f < 2 ^ 64 →
  UnmarshalFileID (FileID_Marshal f) = Ok f.
Proof.
  intros. destruct f as [p v]. unfold UnmarshalFileID, FileID_Marshal; simpl in *.
  f_equal. f_equal; by apply le_get_put_u64.
Qed.

(* ------------------------------------------------------------------ *)
(** ** Properties *)

(** Decoding the header the server writes gives it back, field by field. *)
Theorem header_roundtrip h :
  header_ok h → h_ProtocolID h = SMB2ProtocolID →
  UnmarshalSMB2Header (Header_Marshal h) = Some h ∧ length (Header_Marshal h) = 64%nat.
Proof. auto using marshal_unmarshal_header, length_Header_Marshal. Qed.

Definition sample_header : SMB2Header :=
  mkHeader SMB2ProtocolID 64 1 STATUS_ACCESS_DENIED SMB2_CREATE 10 1 0 7 0 3 0xDEADBEEF (zeros 16).

Lemma header_roundtrip_witness :
  UnmarshalSMB2Header (Header_Marshal sample_header) = Some sample_header
  ∧ length (Header_Marshal sample_header) = 64%nat.
Proof. apply header_roundtrip; [split; vm_compute; intuition congruence | reflexivity]. Defined.

(** Conversely, every 64-byte prefix with the SMB2 magic is reproduced by
    decoding and re-encoding it; the decoder accepts exactly the messages of at
    least 64 bytes. *)
Theorem header_reencode data :
  (UnmarshalSMB2Header data = None ↔ len data < 64) ∧
  ∀ h, UnmarshalSMB2Header data = Some h → sub data 0 4 = SMB2ProtocolID →
       header_ok h ∧ Header_Marshal h = take 64 data.
Proof.
  split.
  - unfold UnmarshalSMB2Header, SMB2HeaderSize. destruct (Z.ltb_spec (len data) 64); split; try done; lia.
  - eauto using unmarshal_header_ok, unmarshal_marshal_header.
Qed.

Lemma s64_diff_offset ft :
  0 < ft < 2 ^ 64 → - 2 ^ 63 ≤ (ft - windowsEpochOffset) * 100 < 2 ^ 63 →
  s64 (u64 (ft - windowsEpochOffset)) = ft - windowsEpochOffset.
Proof.
  intros Hft Hr. unfold s64, u64, windowsEpochOffset in *.
  Z.to_euclidean_division_equations. lia.
Qed.

(** FILETIME and [time.Time] convert into each other: a FILETIME whose
    time is representable comes back exactly, and a representable time comes
    back truncated toward the epoch to 100 ns. *)
Theorem filetime_roundtrip :
  (∀ ft, 0 < ft < 2 ^ 64 → - 2 ^ 63 ≤ (ft - windowsEpochOffset) * 100 < 2 ^ 63 →
     TimeToFiletime (FiletimeToTime ft) = ft) ∧
  (∀ t, - 2 ^ 63 ≤ t < 2 ^ 63 →
     FiletimeToTime (TimeToFiletime t) = 100 * Z.quot t 100).
Proof.
  split.
  - intros ft Hft Hr. unfold TimeToFiletime, FiletimeToTime.
    destruct (Z.eqb_spec ft 0); [lia|].
    rewrite s64_diff_offset, s64_small by lia.
    destruct (Z.eqb_spec ((ft - windowsEpochOffset) * 100) zero_time) as [E|];
      [unfold zero_time in *; lia|].
    rewrite s64_small, Z.quot_mul by lia.
    unfold u64, windowsEpochOffset in *. Z.to_euclidean_division_equations. lia.
  - intros t Ht. unfold TimeToFiletime.
    destruct (Z.eqb_spec t zero_time); [unfold zero_time in *; lia|].
    rewrite (s64_small t) by lia.
    assert (- 2 ^ 63 ≤ 100 * Z.quot t 100 < 2 ^ 63) by (Z.to_euclidean_division_equations; lia).
    assert (u64 (u64 (Z.quot t 100) + windowsEpochOffset) = Z.quot t 100 + windowsEpochOffset) as ->.
    { unfold u64, windowsEpochOffset. rewrite Zplus_mod_idemp_l. apply Z.mod_small. lia. }
    unfold FiletimeToTime. destruct (Z.eqb_spec (Z.quot t 100 + windowsEpochOffset) 0);
      [unfold windowsEpochOffset in *; lia|].
    rewrite s64_diff_offset by (unfold windowsEpochOffset in *; lia).
    rewrite s64_small by lia. lia.
Qed.

Lemma filetime_roundtrip_witness :
  TimeToFiletime (FiletimeToTime 133500000000000001) = 133500000000000001 ∧
  FiletimeToTime (TimeToFiletime (-1234567890123)) = -1234567890100.
Proof.
  split.
  - apply (proj1 filetime_roundtrip); unfold windowsEpochOffset; lia.
  - rewrite (proj2 filetime_roundtrip) by lia. reflexivity.
Defined.
