(* ===== verification/Wire.v ===== *)
(** * Wire encoding: ByteReader, ByteWriter, alignment

    Models [smb2_encoding.go].  A [ByteReader] is a buffer and a position and
    its operations are computations of the [M] monad over it; a [ByteWriter]
    is the buffer written so far and its operations are functions on it. *)

From stdpp Require Import base numbers list gmap strings.
From S2P Require Import Prelude Unicode Constants Types.

Open Scope Z_scope.

(* ------------------------------------------------------------------ *)
(** ** Alignment *)

(** [%] is the truncated remainder of Go. *)
Definition PadTo8ByteBoundary (offset : Z) : Z :=
  let remainder := Z.rem offset 8 in
  if remainder =? 0 then 0 else 8 - remainder.

Definition AlignTo8 (v : Z) : Z := andnot (v + 7) 7.

(* ------------------------------------------------------------------ *)
(** ** ByteReader *)

Record ByteReader := mkReader { r_data : bytes; r_pos : Z }.

Definition NewByteReader (data : bytes) : ByteReader := mkReader data 0.

Definition Remaining (r : ByteReader) : Z := len (r_data r) - r_pos r.
Definition Skip (n : Z) (r : ByteReader) : ByteReader := mkReader (r_data r) (r_pos r + n).
Definition Seek (pos : Z) (r : ByteReader) : ByteReader := mkReader (r_data r) pos.
Definition Position (r : ByteReader) : Z := r_pos r.

(** [None] is the nil slice. *)
Definition ReadBytes (n : Z) : M ByteReader (option bytes) := λ r,
  if len (r_data r) <? r_pos r + n then Ok (None, r)
  else match slice (r_data r) (r_pos r) (r_pos r + n) with
       | Some result => Ok (Some result, Skip n r)
       | None => Panic
       end.

Definition ReadOneByte : M ByteReader Z := λ r,
  if len (r_data r) <=? r_pos r then Ok (0, r)
  else if r_pos r <? 0 then Panic
  else Ok (le_get (sub (r_data r) (Z.to_nat (r_pos r)) 1), Skip 1 r).

(** The common body of [ReadUint16], [ReadUint32] and [ReadUint64]. *)
Definition ReadUint (n : nat) : M ByteReader Z := λ r,
  if len (r_data r) <? r_pos r + Z.of_nat n then Ok (0, r)
  else if r_pos r <? 0 then Panic
  else Ok (le_get (sub (r_data r) (Z.to_nat (r_pos r)) n), Skip (Z.of_nat n) r).

Definition ReadUint16 : M ByteReader Z := ReadUint 2.
Definition ReadUint32 : M ByteReader Z := ReadUint 4.
Definition ReadUint64 : M ByteReader Z := ReadUint 8.

Definition ReadFileID : M ByteReader FileID :=
  p ← ReadUint64; v ← ReadUint64; mret (mkFileID p v).

(** [copy(guid[:], ...)]: short input leaves zeros. *)
Definition copy_array (n : nat) (src : bytes) : bytes := take n (src ++ zeros n).

Definition ReadGUID : M ByteReader bytes :=
  b ← ReadBytes 16; mret (copy_array 16 (default [] b)).

Definition ReadUTF16String (byteLen : Z) : M ByteReader gostring :=
  b ← ReadBytes byteLen; mret (DecodeUTF16LEToString (default [] b)).

(* ------------------------------------------------------------------ *)
(** ** ByteWriter *)

Definition ByteWriter := bytes.

Definition NewByteWriter : ByteWriter := [].
Definition Bytes (w : ByteWriter) : bytes := w.
Definition WLen (w : ByteWriter) : Z := len w.
Definition WReset (w : ByteWriter) : ByteWriter := take 0 w.

Definition WriteBytes (b : bytes) (w : ByteWriter) : ByteWriter := w ++ b.
Definition WriteOneByte (b : Z) (w : ByteWriter) : ByteWriter := w ++ [byte_of_Z b].
Definition WriteUint16 (v : Z) (w : ByteWriter) : ByteWriter := w ++ le_put 2 v.
Definition WriteUint32 (v : Z) (w : ByteWriter) : ByteWriter := w ++ le_put 4 v.
Definition WriteUint64 (v : Z) (w : ByteWriter) : ByteWriter := w ++ le_put 8 v.

Definition WriteFileID (f : FileID) (w : ByteWriter) : ByteWriter :=
  w |> WriteUint64 (Persistent f) |> WriteUint64 (Volatile f).

Definition WriteGUID (guid : bytes) (w : ByteWriter) : ByteWriter := w ++ guid.

Definition WriteUTF16String (s : gostring) (w : ByteWriter) : ByteWriter :=
  WriteBytes (EncodeStringToUTF16LE s) w.

(** [for i := 0; i < n; i++ { append 0 }]: nothing for [n <= 0]. *)
Definition WriteZeros (n : Z) (w : ByteWriter) : ByteWriter := w ++ zeros (Z.to_nat n).

Definition WritePadTo8 (w : ByteWriter) : ByteWriter :=
  WriteZeros (PadTo8ByteBoundary (len w)) w.

(** Backpatching; a negative position panics in the slice expression. *)
Definition SetUintAt (n : nat) (pos v : Z) (w : ByteWriter) : outcome ByteWriter :=
  if pos + Z.of_nat n <=? len w
  then if pos <? 0 then Panic else Ok (put_at (Z.to_nat pos) (le_put n v) w)
  else Ok w.

Definition SetUint16At : Z → Z → ByteWriter → outcome ByteWriter := SetUintAt 2.
Definition SetUint32At : Z → Z → ByteWriter → outcome ByteWriter := SetUintAt 4.

(* ------------------------------------------------------------------ *)
(** ** GUID text *)

Definition NewGUID : bytes := zeros 16.

Definition hexDigit (b : Z) : byte :=
  if b <? 10 then byte_of_Z (48 + b) else byte_of_Z (97 + b - 10).

Definition hexByte (guid : bytes) (i : nat) : bytes :=
  let b := Z_of_byte (nth i guid Byte.x00) in [hexDigit (b / 16); hexDigit (b mod 16)].

Definition GUIDToString (guid : bytes) : gostring :=
  hexByte guid 3 ++ hexByte guid 2 ++ hexByte guid 1 ++ hexByte guid 0 ++ str "-"
  ++ hexByte guid 5 ++ hexByte guid 4 ++ str "-"
  ++ hexByte guid 7 ++ hexByte guid 6 ++ str "-"
  ++ hexByte guid 8 ++ hexByte guid 9 ++ str "-"
  ++ hexByte guid 10 ++ hexByte guid 11 ++ hexByte guid 12 ++ hexByte guid 13
  ++ hexByte guid 14 ++ hexByte guid 15.

(* ------------------------------------------------------------------ *)
(** ** Reader lemmas *)

(** A reader inside its buffer: what every handler starts from. *)
Definition reader_ok (r : ByteReader) : Prop := 0 ≤ r_pos r ≤ len (r_data r).

Lemma NewByteReader_ok data : reader_ok (NewByteReader data).
Proof. unfold reader_ok. simpl. pose proof (len_nonneg data). lia. Qed.

Lemma ReadUint_in n r :
  reader_ok r → r_pos r + Z.of_nat n ≤ len (r_data r) →
  ReadUint n r = Ok (le_get (sub (r_data r) (Z.to_nat (r_pos r)) n), Skip (Z.of_nat n) r).
Proof.
  unfold reader_ok. intros H Hn. unfold ReadUint.
  destruct (Z.ltb_spec (len (r_data r)) (r_pos r + Z.of_nat n)); [lia|].
  destruct (Z.ltb_spec (r_pos r) 0); [lia|]. done.
Qed.

Lemma ReadUint_short n r :
  len (r_data r) < r_pos r + Z.of_nat n → ReadUint n r = Ok (0, r).
Proof.
  intros. unfold ReadUint. destruct (Z.ltb_spec (len (r_data r)) (r_pos r + Z.of_nat n)); [done|lia].
Qed.

Lemma ReadUint_total n r :
  reader_ok r → ∃ v r', ReadUint n r = Ok (v, r') ∧ reader_ok r' ∧ r_data r' = r_data r
    ∧ 0 ≤ v < 256 ^ Z.of_nat n.
Proof.
  intros Hr. destruct (decide (r_pos r + Z.of_nat n ≤ len (r_data r))) as [H|H].
  - rewrite ReadUint_in by done.
    refine (ex_intro _ _ (ex_intro _ _ (conj eq_refl (conj _ (conj eq_refl _))))).
    + unfold reader_ok in *. simpl. lia.
    + apply le_get_sub_range. unfold reader_ok, len in *. lia.
  - rewrite ReadUint_short by lia.
    refine (ex_intro _ _ (ex_intro _ _ (conj eq_refl (conj Hr (conj eq_refl _))))). lia.
Qed.

Lemma ReadOneByte_total r :
  reader_ok r → ∃ v r', ReadOneByte r = Ok (v, r') ∧ reader_ok r' ∧ r_data r' = r_data r
    ∧ 0 ≤ v < 256.
Proof.
  unfold ReadOneByte, reader_ok. intros Hr.
  destruct (Z.leb_spec (len (r_data r)) (r_pos r)).
  { refine (ex_intro _ _ (ex_intro _ _ (conj eq_refl (conj Hr (conj eq_refl _))))). lia. }
  destruct (Z.ltb_spec (r_pos r) 0); [lia|].
  refine (ex_intro _ _ (ex_intro _ _ (conj eq_refl (conj _ (conj eq_refl _))))); simpl; [lia|].
  apply (le_get_sub_range (r_data r) (Z.to_nat (r_pos r)) 1). unfold len in *; lia.
Qed.

Lemma ReadBytes_total n r :
  reader_ok r → 0 ≤ n →
  ∃ v r', ReadBytes n r = Ok (v, r') ∧ reader_ok r' ∧ r_data r' = r_data r
    ∧ (∀ b, v = Some b → len b = n).
Proof.
  unfold ReadBytes, reader_ok. intros Hr Hn.
  destruct (Z.ltb_spec (len (r_data r)) (r_pos r + n)).
  { eexists _, _. split_and!; try done; lia. }
  destruct (slice (r_data r) (r_pos r) (r_pos r + n)) as [b|] eqn:E.
  - eexists _, _. split_and!; try done; simpl; try lia.
    intros ? [= <-]. apply len_slice in E. lia.
  - apply slice_None in E. lia.
Qed.

Lemma ReadFileID_total r :
  reader_ok r → ∃ v r', ReadFileID r = Ok (v, r') ∧ reader_ok r' ∧ r_data r' = r_data r.
Proof.
  intros Hr. unfold ReadFileID, ReadUint64. m_simpl.
  destruct (ReadUint_total 8 r Hr) as (p & r1 & -> & Hr1 & Hd1 & _).
  destruct (ReadUint_total 8 r1 Hr1) as (v & r2 & -> & Hr2 & Hd2 & _).
  eexists _, _. split_and!; [done|done|congruence].
Qed.

Lemma ReadGUID_total r :
  reader_ok r → ∃ v r', ReadGUID r = Ok (v, r') ∧ reader_ok r' ∧ r_data r' = r_data r.
Proof.
  intros Hr. unfold ReadGUID. m_simpl.
  destruct (ReadBytes_total 16 r Hr) as (b & r1 & -> & Hr1 & Hd1 & _); [lia|]. eauto.
Qed.

(** The reader operations inside a parser: each keeps the reader inside its
    buffer. *)
Definition r_inv (data : bytes) (r : ByteReader) : Prop := reader_ok r ∧ r_data r = data.

Section reader_wpp.
Context (P : Prop) (data : bytes).

Lemma wpp_ReadUint n (Q : Z → ByteReader → Prop) r :
  r_inv data r → (∀ v r', r_inv data r' → 0 ≤ v < 256 ^ Z.of_nat n → Q v r') → wpp P (ReadUint n) Q r.
Proof.
  intros [Hr <-] HQ. unfold wpp. destruct (ReadUint_total n r Hr) as (v & r' & -> & Hr' & Hd & Hv).
  by apply HQ.
Qed.

Lemma wpp_ReadOneByte (Q : Z → ByteReader → Prop) r :
  r_inv data r → (∀ v r', r_inv data r' → 0 ≤ v < 256 → Q v r') → wpp P ReadOneByte Q r.
Proof.
  intros [Hr <-] HQ. unfold wpp. destruct (ReadOneByte_total r Hr) as (v & r' & -> & Hr' & Hd & Hv).
  by apply HQ.
Qed.

Lemma wpp_ReadFileID (Q : FileID → ByteReader → Prop) r :
  r_inv data r → (∀ v r', r_inv data r' → Q v r') → wpp P ReadFileID Q r.
Proof.
  intros [Hr <-] HQ. unfold wpp. destruct (ReadFileID_total r Hr) as (v & r' & -> & Hr' & Hd).
  by apply HQ.
Qed.

Lemma wpp_ReadGUID (Q : bytes → ByteReader → Prop) r :
  r_inv data r → (∀ v r', r_inv data r' → Q v r') → wpp P ReadGUID Q r.
Proof.
  intros [Hr <-] HQ. unfold wpp. destruct (ReadGUID_total r Hr) as (v & r' & -> & Hr' & Hd).
  by apply HQ.
Qed.

Lemma wpp_ReadBytes n (Q : option bytes → ByteReader → Prop) r :
  r_inv data r → 0 ≤ n → (∀ v r', r_inv data r' → Q v r') → wpp P (ReadBytes n) Q r.
Proof.
  intros [Hr <-] Hn HQ. unfold wpp. destruct (ReadBytes_total n r Hr Hn) as (v & r' & -> & Hr' & Hd & _).
  by apply HQ.
Qed.
End reader_wpp.

Lemma NewByteReader_inv data : r_inv data (NewByteReader data).
Proof. split; [apply NewByteReader_ok|done]. Qed.

(** Run a parser symbolically; the postconditions are left for its results. *)
Ltac r_inv_tac := first [eassumption | apply NewByteReader_inv].
Ltac wp_parse :=
  unfold ReadUint16, ReadUint32, ReadUint64;
  repeat match goal with
  | |- wpp _ (_ ≫= _) _ _ => apply wpp_bind
  | |- wpp _ (ReadUint _) _ _ => eapply wpp_ReadUint; [r_inv_tac|intros ? ? ? ?]
  | |- wpp _ ReadOneByte _ _ => eapply wpp_ReadOneByte; [r_inv_tac|intros ? ? ? ?]
  | |- wpp _ ReadFileID _ _ => eapply wpp_ReadFileID; [r_inv_tac|intros ? ? ?]
  | |- wpp _ ReadGUID _ _ => eapply wpp_ReadGUID; [r_inv_tac|intros ? ? ?]
  | |- wpp _ (mret _) _ _ => apply wpp_ret
  | |- wpp _ (if ?b then _ else _) _ _ => destruct b
  end.

(** Reading at the point where [v] was written. *)
Lemma ReadUint_at n v pre post :
  0 ≤ v < 256 ^ Z.of_nat n →
  ReadUint n (mkReader (pre ++ le_put n v ++ post) (len pre))
  = Ok (v, mkReader (pre ++ le_put n v ++ post) (len (pre ++ le_put n v))).
Proof.
  intros Hv. rewrite ReadUint_in; simpl.
  - rewrite sub_app_here; [| unfold len; lia | by rewrite length_le_put].
    rewrite le_get_put, Z.mod_small by done.
    unfold Skip; simpl. by rewrite len_app, len_le_put.
  - unfold reader_ok; simpl. autorewrite with len.
    pose proof (len_nonneg pre); pose proof (len_nonneg post). lia.
  - autorewrite with len. pose proof (len_nonneg post). lia.
Qed.

Lemma ReadBytes_at b pre post :
  ReadBytes (len b) (mkReader (pre ++ b ++ post) (len pre))
  = Ok (Some b, mkReader (pre ++ b ++ post) (len (pre ++ b))).
Proof.
  unfold ReadBytes; simpl. autorewrite with len.
  pose proof (len_nonneg pre); pose proof (len_nonneg post); pose proof (len_nonneg b).
  destruct (Z.ltb_spec (len pre + (len b + len post)) (len pre + len b)); [lia|].
  rewrite slice_ok by (autorewrite with len; lia).
  replace (Z.to_nat (len pre)) with (length pre) by (unfold len; lia).
  replace (Z.to_nat (len pre + len b - len pre)) with (length b) by (unfold len; lia).
  rewrite drop_app_length, take_app_length. unfold Skip; simpl. done.
Qed.

(* ------------------------------------------------------------------ *)
(** ** The writer/reader contract

    A packet is a sequence of fields; [write_field] and [read_field] are the
    writer and reader operation of each kind. *)
Inductive field :=
| FByte (v : Z)
| FU16 (v : Z)
| FU32 (v : Z)
| FU64 (v : Z)
| FFileID (f : FileID)
| FGUID (g : bytes).

Definition field_ok (f : field) : Prop :=
  match f with
  | FByte v => 0 ≤ v < 2 ^ 8
  | FU16 v => 0 ≤ v < 2 ^ 16
  | FU32 v => 0 ≤ v < 2 ^ 32
  | FU64 v => 0 ≤ v < 2 ^ 64
  | FFileID f => 0 ≤ Persistent f < 2 ^ 64 ∧ 0 ≤ Volatile f < 2 ^ 64
  | FGUID g => length g = 16%nat
  end.

Definition write_field (f : field) : ByteWriter → ByteWriter :=
  match f with
  | FByte v => WriteOneByte v
  | FU16 v => WriteUint16 v
  | FU32 v => WriteUint32 v
  | FU64 v => WriteUint64 v
  | FFileID f => WriteFileID f
  | FGUID g => WriteGUID g
  end.

(** Read a field of the same kind as [f]. *)
Definition read_field (f : field) : M ByteReader field :=
  match f with
  | FByte _ => v ← ReadOneByte; mret (FByte v)
  | FU16 _ => v ← ReadUint16; mret (FU16 v)
  | FU32 _ => v ← ReadUint32; mret (FU32 v)
  | FU64 _ => v ← ReadUint64; mret (FU64 v)
  | FFileID _ => f ← ReadFileID; mret (FFileID f)
  | FGUID _ => g ← ReadGUID; mret (FGUID g)
  end.

Fixpoint read_fields (fs : list field) : M ByteReader (list field) :=
  match fs with
  | [] => mret []
  | f :: fs => f' ← read_field f; fs' ← read_fields fs; mret (f' :: fs')
  end.

Definition write_fields (fs : list field) (w : ByteWriter) : ByteWriter :=
  foldl (λ w f, write_field f w) w fs.

Lemma write_field_app f w : write_field f w = w ++ write_field f [].
Proof.
  destruct f; try done. simpl. unfold WriteFileID, WriteUint64. simpl. by rewrite <-app_assoc.
Qed.

Lemma write_fields_app fs w : write_fields fs w = w ++ write_fields fs [].
Proof.
  unfold write_fields. revert w; induction fs as [|f fs IH]; intros w; simpl.
  - by rewrite app_nil_r.
  - rewrite IH, (IH (write_field f [])), (write_field_app f w). by rewrite app_assoc.
Qed.

Lemma read_field_at f pre post :
  field_ok f →
  read_field f (mkReader (pre ++ write_field f [] ++ post) (len pre))
  = Ok (f, mkReader (pre ++ write_field f [] ++ post) (len (pre ++ write_field f []))).
Proof.
  intros Hf. destruct f as [v|v|v|v|[p v]|g];
    cbn [read_field write_field field_ok Persistent Volatile] in *; m_simpl;
    unfold WriteOneByte, WriteUint16, WriteUint32, WriteFileID, WriteUint64, WriteGUID;
    cbn [app Persistent Volatile].
  - assert (ReadOneByte (mkReader (pre ++ byte_of_Z v :: post) (len pre))
            = ReadUint 1 (mkReader (pre ++ le_put 1 v ++ post) (len pre))) as ->.
    { unfold ReadOneByte, ReadUint; simpl. change (Z.of_nat 1) with 1.
      destruct (Z.leb_spec (len (pre ++ byte_of_Z v :: post)) (len pre)),
               (Z.ltb_spec (len (pre ++ byte_of_Z v :: post)) (len pre + 1)); try done; lia. }
    by rewrite ReadUint_at.
  - unfold ReadUint16. by rewrite ReadUint_at.
  - unfold ReadUint32. by rewrite ReadUint_at.
  - unfold ReadUint64. by rewrite ReadUint_at.
  - destruct Hf. unfold ReadFileID, ReadUint64. m_simpl.
    rewrite <-(app_assoc (le_put 8 p)), ReadUint_at by done.
    rewrite (app_assoc pre (le_put 8 p)), ReadUint_at by done.
    by rewrite <-!app_assoc.
  - unfold ReadGUID. m_simpl.
    replace 16 with (len g) by (unfold len; lia). rewrite ReadBytes_at. simpl.
    unfold copy_array. rewrite take_app_le by lia. rewrite take_ge by lia. done.
Qed.

Lemma read_fields_at fs pre post :
  Forall field_ok fs →
  read_fields fs (mkReader (pre ++ write_fields fs [] ++ post) (len pre))
  = Ok (fs, mkReader (pre ++ write_fields fs [] ++ post) (len (pre ++ write_fields fs []))).
Proof.
  intros Hfs. revert pre; induction Hfs as [|f fs Hf _ IH]; intros pre; cbn [read_fields].
  - simpl. by rewrite app_nil_r.
  - assert (write_fields (f :: fs) [] = write_field f [] ++ write_fields fs []) as ->
      by exact (write_fields_app fs (write_field f [])).
    m_simpl. rewrite <-!app_assoc, read_field_at by done.
    rewrite (app_assoc pre (write_field f [])), IH. by rewrite <-!app_assoc.
Qed.

(** ** Alignment lemmas *)

Lemma AlignTo8_eq v : AlignTo8 v = 8 * ((v + 7) / 8).
Proof.
  unfold AlignTo8, andnot. change 7 with (Z.ones 3) at 2.
  rewrite Z.ldiff_ones_r, Z.shiftr_div_pow2, Z.shiftl_mul_pow2 by lia.
  change (2 ^ 3) with 8. apply Z.mul_comm.
Qed.

Lemma PadTo8_eq v : 0 ≤ v → v + PadTo8ByteBoundary v = AlignTo8 v.
Proof.
  intros. rewrite AlignTo8_eq. unfold PadTo8ByteBoundary.
  rewrite Z.rem_mod_nonneg by lia.
  destruct (Z.eqb_spec (v mod 8) 0); Z.to_euclidean_division_equations; lia.
Qed.

Lemma len_WritePadTo8 w : len (WritePadTo8 w) = AlignTo8 (len w).
Proof.
  unfold WritePadTo8, WriteZeros. pose proof (PadTo8_eq (len w) (len_nonneg w)) as H.
  rewrite len_app, len_zeros. rewrite AlignTo8_eq in *.
  Z.to_euclidean_division_equations; lia.
Qed.

(* ------------------------------------------------------------------ *)
(** ** Properties *)

(** The reader inverts the writer: any sequence of fields, written one
    after the other and followed by any further data, is read back value for
    value, and the reader stops right behind it. *)
Theorem reader_inverts_writer fs rest :
  Forall field_ok fs →
  read_fields fs (NewByteReader (write_fields fs NewByteWriter ++ rest))
  = Ok (fs, mkReader (write_fields fs NewByteWriter ++ rest) (len (write_fields fs NewByteWriter))).
Proof. intros H. exact (read_fields_at fs [] rest H). Qed.

Lemma reader_inverts_writer_witness :
  read_fields [FU16 57; FByte 3; FFileID (mkFileID 7 9); FU32 70000; FGUID NewGUID]
    (NewByteReader (write_fields
       [FU16 57; FByte 3; FFileID (mkFileID 7 9); FU32 70000; FGUID NewGUID] NewByteWriter ++ []))
  = Ok ([FU16 57; FByte 3; FFileID (mkFileID 7 9); FU32 70000; FGUID NewGUID],
        mkReader (write_fields
          [FU16 57; FByte 3; FFileID (mkFileID 7 9); FU32 70000; FGUID NewGUID] NewByteWriter ++ [])
          39).
Proof. apply reader_inverts_writer. repeat constructor; simpl; lia. Defined.

(** A reader that starts inside its buffer never panics, never reads
    past the end and stays inside the buffer, whatever kind of value is read;
    a value that does not fit is read as zero without moving. *)
Theorem reader_total fs r :
  reader_ok r → ∃ fs' r', read_fields fs r = Ok (fs', r') ∧ reader_ok r' ∧ r_data r' = r_data r.
Proof.
  revert r; induction fs as [|f fs IH]; intros r Hr; cbn [read_fields]; [eauto|].
  assert (∃ f' r', read_field f r = Ok (f', r') ∧ reader_ok r' ∧ r_data r' = r_data r)
    as (f' & r1 & E & Hr1 & Hd1).
  { destruct f; cbn [read_field]; m_simpl.
    - destruct (ReadOneByte_total r Hr) as (?&?&->&?&?&?); eauto.
    - destruct (ReadUint_total 2 r Hr) as (?&?&E&?&?&?). unfold ReadUint16. rewrite E. eauto.
    - destruct (ReadUint_total 4 r Hr) as (?&?&E&?&?&?). unfold ReadUint32. rewrite E. eauto.
    - destruct (ReadUint_total 8 r Hr) as (?&?&E&?&?&?). unfold ReadUint64. rewrite E. eauto.
    - destruct (ReadFileID_total r Hr) as (?&?&->&?&?); eauto.
    - destruct (ReadGUID_total r Hr) as (?&?&->&?&?); eauto. }
  m_simpl. rewrite E. destruct (IH r1 Hr1) as (fs' & r2 & -> & Hr2 & Hd2).
  eexists _, _. split; [done|]. split; [done|congruence].
Qed.

Lemma reader_total_witness :
  ∃ fs' r', read_fields [FU64 0; FU32 0] (NewByteReader (zeros 9)) = Ok (fs', r')
    ∧ reader_ok r' ∧ r_data r' = zeros 9.
Proof. apply (reader_total [FU64 0; FU32 0] (NewByteReader (zeros 9))), NewByteReader_ok. Defined.

(** Padding brings the buffer to the 8-byte boundary the directory
    formatter computed with [AlignTo8], adding only zero bytes and fewer than
    eight of them. *)
Lemma pad_reaches_alignment w :
  len (WritePadTo8 w) = AlignTo8 (len w) ∧ len (WritePadTo8 w) mod 8 = 0
  ∧ ∃ n, (n < 8)%nat ∧ WritePadTo8 w = w ++ zeros n.
Proof.
  rewrite len_WritePadTo8, AlignTo8_eq. split; [done|]. split.
  - rewrite Z.mul_comm. apply Z_mod_mult.
  - eexists. split; [|reflexivity].
    pose proof (PadTo8_eq (len w) (len_nonneg w)) as H. rewrite AlignTo8_eq in H.
    Z.to_euclidean_division_equations; lia.
Qed.
