(* ===== verification/Path.v ===== *)
(** * Path handling

    Models [path.go] and what it uses of the Go packages [path] and
    [strings].  A path is a byte string; [path.Clean] works on its
    slash-separated components. *)

From stdpp Require Import base numbers list gmap sets strings.
From S2P Require Import Prelude Unicode.

Open Scope Z_scope.

Notation slash := Byte.x2f.
Notation backslash := Byte.x5c.
Notation dot := Byte.x2e.
Notation nul := Byte.x00.

(* ------------------------------------------------------------------ *)
(** ** Package strings *)

(** [strings.ReplaceAll(s, a, b)] for one-byte [a] and [b]. *)
Definition replace_all (a b : byte) (s : gostring) : gostring :=
  map (λ c, if bool_decide (c = a) then b else c) s.

(** [strings.Contains(s, c)] for a one-byte [c]. *)
Definition contains_byte (c : byte) (s : gostring) : bool := bool_decide (c ∈ s).

(** [strings.Contains] *)
Fixpoint contains (s t : gostring) : bool :=
  has_prefix t s || match s with [] => false | _ :: s => contains s t end.

Definition TrimPrefix (s pre : gostring) : gostring :=
  if has_prefix pre s then drop (length pre) s else s.

(** [strings.Split(s, c)] for a one-byte separator. *)
Fixpoint split_on (c : byte) (s : gostring) : list gostring :=
  match s with
  | [] => [[]]
  | x :: s =>
    if bool_decide (x = c) then [] :: split_on c s
    else match split_on c s with
         | w :: ws => (x :: w) :: ws
         | [] => [[x]]
         end
  end.

(** [strings.Join(l, c)] *)
Fixpoint join_with (c : byte) (l : list gostring) : gostring :=
  match l with
  | [] => []
  | [w] => w
  | w :: ws => w ++ c :: join_with c ws
  end.

(* ------------------------------------------------------------------ *)
(** ** Package path *)

Definition dotdot : gostring := [dot; dot].

(** The effect of one component on the stack of components kept so far
    (innermost first): empty and ["."] vanish, [".."] removes the last kept
    component, and is kept itself only where nothing can be removed and the
    path is not rooted. *)
Definition clean_step (rooted : bool) (st : list gostring) (c : gostring) : list gostring :=
  if bool_decide (c = []) || bool_decide (c = [dot]) then st
  else if bool_decide (c = dotdot) then
    match st with
    | top :: st' =>
      if bool_decide (top = dotdot) then (if rooted then st else c :: st) else st'
    | [] => if rooted then st else c :: st
    end
  else c :: st.

Definition clean_stack (rooted : bool) (p : gostring) : list gostring :=
  foldl (clean_step rooted) [] (split_on slash p).

(** [path.Clean] *)
Definition Clean (p : gostring) : gostring :=
  let rooted := has_prefix [slash] p in
  let out := join_with slash (rev (clean_stack rooted p)) in
  if rooted then slash :: out
  else if bool_decide (out = []) then [dot] else out.

(** The part up to and including the last slash, and the rest
    ([path.Split]). *)
Fixpoint Split (p : gostring) : gostring * gostring :=
  match p with
  | [] => ([], [])
  | c :: p =>
    let '(d, f) := Split p in
    if bool_decide (d = []) then (if bool_decide (c = slash) then ([c], f) else ([], c :: f))
    else (c :: d, f)
  end.

Definition Dir (p : gostring) : gostring := Clean (Split p).1.

Fixpoint trim_right (c : byte) (s : gostring) : gostring :=
  match s with
  | [] => []
  | x :: s =>
    match trim_right c s with
    | [] => if bool_decide (x = c) then [] else [x]
    | s' => x :: s'
    end
  end.

Definition Base (p : gostring) : gostring :=
  if bool_decide (p = []) then [dot]
  else match trim_right slash p with
       | [] => [slash]
       | p => (Split p).2
       end.

Definition Join (elem : list gostring) : gostring :=
  match filter (λ e, e ≠ []) elem with
  | [] => []
  | es => Clean (join_with slash es)
  end.

(* ------------------------------------------------------------------ *)
(** ** path.go *)

Section path_go.
Context `{UnicodeTables}.

(** [caseSensitive] is the only field of [pathNormalizer]. *)
Definition normalize (caseSensitive : bool) (p : gostring) : gostring :=
  if bool_decide (p = []) then [slash]
  else
    let p := Clean (replace_all backslash slash p) in
    let p := if bool_decide (p = [dot]) then [slash] else p in
    let p := if has_prefix [slash] p then p else slash :: p in
    if caseSensitive then p else ToLower p.

Definition pn_join (cs : bool) (elem : list gostring) : gostring := normalize cs (Join elem).
Definition pn_dir (cs : bool) (p : gostring) : gostring := Dir (normalize cs p).
Definition pn_base (cs : bool) (p : gostring) : gostring := Base (normalize cs p).
Definition pn_split (cs : bool) (p : gostring) : gostring * gostring := Split (normalize cs p).
End path_go.

Definition isAbs (p : gostring) : bool := has_prefix [slash] p || has_prefix [backslash] p.

(** [true] is a nil error, [false] is [ErrInvalidPath]. *)
Definition validatePath (p : gostring) : bool :=
  if bool_decide (p = []) then false
  else if contains_byte nul p then false
  else
    let cleaned := Clean (replace_all backslash slash p) in
    if has_prefix dotdot cleaned || contains cleaned (slash :: dotdot) then false
    else true.

Definition toSMBPath (p : gostring) : gostring :=
  replace_all slash backslash (TrimPrefix p [slash]).

Definition fromSMBPath (p : gostring) : gostring :=
  let p := replace_all backslash slash p in
  let p := if has_prefix [slash] p then p else slash :: p in
  Clean p.

(** Paths of the shape the share sees. *)
Definition good_comp (c : gostring) : Prop :=
  c ≠ [] ∧ c ≠ [dot] ∧ c ≠ dotdot ∧ slash ∉ c.

Definition absolute (cs : list gostring) : gostring := slash :: join_with slash cs.

(** Absolute, clean and free of [".."] and of backslashes. *)
Definition normal_path (p : gostring) : Prop :=
  ∃ cs, p = absolute cs ∧ Forall good_comp cs ∧ backslash ∉ p.

(* ------------------------------------------------------------------ *)
(** ** Lemmas: split and join *)

Lemma split_on_nonempty c s : split_on c s ≠ [].
Proof. destruct s; simpl; repeat case_match; done. Qed.

Lemma split_on_no_sep c s : Forall (λ w, c ∉ w) (split_on c s).
Proof.
  induction s as [|x s IH]; simpl; [repeat constructor; by intros ?%elem_of_nil|].
  case_bool_decide.
  - constructor; [by intros ?%elem_of_nil|done].
  - inversion IH; subst; [repeat constructor|constructor; [|done]]; set_solver.
Qed.

Lemma split_on_app_sep c a b : c ∉ a → split_on c (a ++ c :: b) = a :: split_on c b.
Proof.
  induction a as [|x a IH]; intros Ha; simpl.
  - by rewrite bool_decide_true.
  - rewrite bool_decide_false by set_solver. rewrite IH by set_solver. done.
Qed.

Lemma split_on_single c a : c ∉ a → split_on c a = [a].
Proof.
  induction a as [|x a IH]; intros Ha; simpl; [done|].
  rewrite bool_decide_false by set_solver. rewrite IH by set_solver. done.
Qed.

Lemma split_join c ws :
  ws ≠ [] → Forall (λ w, c ∉ w) ws → split_on c (join_with c ws) = ws.
Proof.
  intros Hne Hws. induction Hws as [|w ws Hw Hws IH]; [done|].
  destruct ws as [|w' ws]; [by apply split_on_single|].
  cbn [join_with]. rewrite split_on_app_sep by done. f_equal. by apply IH.
Qed.

Lemma split_on_app c a b : split_on c (a ++ c :: b) = split_on c a ++ split_on c b.
Proof.
  induction a as [|x a IH]; cbn [app split_on]; [by rewrite bool_decide_true by done|].
  rewrite IH. destruct (bool_decide (x = c)); [done|].
  by destruct (split_on c a) as [|w ws] eqn:E; [apply split_on_nonempty in E|].
Qed.

Lemma join_split c a : join_with c (split_on c a) = a.
Proof.
  induction a as [|x a IH]; [done|]. cbn [split_on].
  destruct (split_on c a) as [|w ws] eqn:E; [by apply split_on_nonempty in E|].
  case_bool_decide as Hx.
  - rewrite Hx. change (join_with c ([] :: w :: ws)) with (c :: join_with c (w :: ws)). by rewrite IH.
  - destruct ws; cbn [join_with app] in *; by rewrite IH.
Qed.

Lemma join_app c ws vs :
  ws ≠ [] → vs ≠ [] → join_with c (ws ++ vs) = join_with c ws ++ c :: join_with c vs.
Proof.
  intros Hws Hvs. induction ws as [|w ws IH]; [done|]. destruct ws as [|w' ws].
  - by destruct vs.
  - change (join_with c ((w :: w' :: ws) ++ vs)) with (w ++ c :: join_with c ((w' :: ws) ++ vs)).
    rewrite IH by done. change (join_with c (w :: w' :: ws)) with (w ++ c :: join_with c (w' :: ws)).
    by rewrite <-app_assoc.
Qed.

Lemma elem_of_join c d ws : d ≠ c → d ∈ join_with c ws ↔ ∃ w, w ∈ ws ∧ d ∈ w.
Proof.
  intros Hne. induction ws as [|w ws IH]; [set_solver|].
  destruct ws as [|w' ws]; [set_solver|].
  change (join_with c (w :: w' :: ws)) with (w ++ c :: join_with c (w' :: ws)).
  rewrite elem_of_app, elem_of_cons, IH. set_solver.
Qed.

Lemma replace_all_elem a b s c : c ∈ replace_all a b s → c = b ∨ (c ≠ a ∧ c ∈ s).
Proof.
  unfold replace_all. induction s as [|x s IH]; cbn [map]; [by intros ?%elem_of_nil|].
  intros [->|Hc]%elem_of_cons; [case_bool_decide; set_solver|].
  destruct (IH Hc); set_solver.
Qed.

Lemma replace_all_id a b s : a ∉ s → replace_all a b s = s.
Proof.
  unfold replace_all. induction s as [|x s IH]; intros Ha; cbn [map]; [done|].
  rewrite bool_decide_false by set_solver. f_equal. apply IH. set_solver.
Qed.

Lemma replace_all_join a b ws :
  Forall (λ w, a ∉ w) ws → replace_all a b (join_with a ws) = join_with b ws.
Proof.
  induction 1 as [|w ws Hw Hws IH]; [done|].
  destruct ws as [|w' ws]; [by apply replace_all_id|].
  change (join_with a (w :: w' :: ws)) with (w ++ a :: join_with a (w' :: ws)).
  change (join_with b (w :: w' :: ws)) with (w ++ b :: join_with b (w' :: ws)).
  rewrite <-IH. unfold replace_all. rewrite map_app. cbn [map].
  rewrite bool_decide_true by done. f_equal. by apply (replace_all_id a b).
Qed.

(* ------------------------------------------------------------------ *)
(** ** Lemmas: Clean *)

(** What [clean_step] keeps: good components on top of a run of [".."],
    which is empty for a rooted path. *)
Definition stack_ok (rooted : bool) (st : list gostring) : Prop :=
  ∃ gs n, st = gs ++ replicate n dotdot ∧ Forall good_comp gs ∧ (rooted = true → n = 0%nat).

Lemma good_comp_intro c :
  c ≠ [] → c ≠ [dot] → c ≠ dotdot → slash ∉ c → good_comp c.
Proof. by repeat split. Qed.

Lemma clean_step_ok rooted st c :
  stack_ok rooted st → slash ∉ c → stack_ok rooted (clean_step rooted st c).
Proof.
  intros (gs & n & -> & Hgs & Hr) Hc. unfold clean_step.
  case_bool_decide; [by exists gs, n|]. case_bool_decide; [by exists gs, n|]. cbn [orb].
  case_bool_decide as Hdd; cycle 1.
  { exists (c :: gs), n. split; [done|]. split; [|done]. constructor; [|done].
    by apply good_comp_intro. }
  subst c. destruct gs as [|g gs]; cbn [app].
  - destruct n as [|n]; cbn [replicate].
    + destruct rooted; [by exists [], 0%nat|]. exists [], 1%nat. by repeat split.
    + rewrite bool_decide_true by done.
      destruct rooted; [by specialize (Hr eq_refl)|].
      exists [], (S (S n)). by repeat split.
  - inversion Hgs as [|?? Hg Hgs']; subst.
    rewrite bool_decide_false by apply Hg. by exists gs, n.
Qed.

Lemma clean_fold_ok rooted ws st :
  stack_ok rooted st → Forall (λ w, slash ∉ w) ws →
  stack_ok rooted (foldl (clean_step rooted) st ws).
Proof.
  intros Hst Hws. revert st Hst. induction Hws as [|w ws Hw _ IH]; intros st Hst; [done|].
  simpl. apply IH. by apply clean_step_ok.
Qed.

Lemma clean_stack_ok rooted p : stack_ok rooted (clean_stack rooted p).
Proof.
  apply clean_fold_ok; [|apply split_on_no_sep].
  exists [], 0%nat. by repeat split.
Qed.

Lemma clean_fold_good rooted cs st :
  Forall good_comp cs → foldl (clean_step rooted) st cs = rev cs ++ st.
Proof.
  intros Hcs. revert st. induction Hcs as [|c cs (H1 & H2 & H3 & _) _ IH]; intros st; [done|].
  cbn [foldl]. rewrite IH. unfold clean_step.
  rewrite !bool_decide_false by done. cbn [orb rev]. by rewrite <-app_assoc.
Qed.

Lemma clean_stack_absolute cs :
  Forall good_comp cs → clean_stack true (absolute cs) = rev cs.
Proof.
  intros Hcs. unfold clean_stack, absolute. cbn [split_on].
  rewrite bool_decide_true by done. cbn [foldl].
  change (clean_step true [] []) with (@nil gostring).
  destruct (decide (cs = [])) as [->|Hne]; [done|].
  rewrite split_join, clean_fold_good, app_nil_r; try done.
  eapply Forall_impl; [done|]. by intros ? (?&?&?&?).
Qed.

Lemma Clean_absolute cs : Forall good_comp cs → Clean (absolute cs) = absolute cs.
Proof.
  intros Hcs. unfold Clean.
  assert (has_prefix [slash] (absolute cs) = true) as -> by done.
  by rewrite clean_stack_absolute, rev_involutive by done.
Qed.

Lemma Forall_rev_stdpp {A} (P : A → Prop) l : Forall P l → Forall P (rev l).
Proof. intros. by apply Forall_rev. Qed.

Lemma Clean_rooted p :
  has_prefix [slash] p = true → ∃ cs, Clean p = absolute cs ∧ Forall good_comp cs.
Proof.
  intros Hp. unfold Clean. rewrite Hp.
  destruct (clean_stack_ok true p) as (gs & n & E & Hgs & Hn).
  rewrite (Hn eq_refl), app_nil_r in E. rewrite E.
  exists (rev gs). split; [done|]. by apply Forall_rev_stdpp.
Qed.

Lemma join_nonempty c w ws : w ≠ [] → join_with c (w :: ws) ≠ [].
Proof. destruct ws; cbn [join_with]; [done|]. by destruct w. Qed.

Lemma Clean_relative p :
  has_prefix [slash] p = false →
  ∃ n gs, Forall good_comp gs ∧
    Clean p = if bool_decide (replicate n dotdot ++ gs = []) then [dot]
              else join_with slash (replicate n dotdot ++ gs).
Proof.
  intros Hp. unfold Clean. rewrite Hp.
  destruct (clean_stack_ok false p) as (gs & n & E & Hgs & _).
  exists n, (rev gs). split; [by apply Forall_rev_stdpp|].
  rewrite E, rev_app_distr, rev_replicate.
  destruct (replicate n dotdot ++ rev gs) as [|w ws] eqn:E'; [done|].
  rewrite !bool_decide_false; [done..|]. apply join_nonempty. intros ->.
  assert (([] : gostring) ∈ replicate n dotdot ++ rev gs) as Hin by (rewrite E'; set_solver).
  apply elem_of_app in Hin as [[? _]%elem_of_replicate|Hin]; [done|].
  rewrite Forall_forall in Hgs. rewrite elem_of_rev in Hin.
  by apply Hgs in Hin as [].
Qed.

Lemma has_prefix_slash c p : has_prefix [slash] (c :: p) = bool_decide (slash = c).
Proof. simpl. apply andb_true_r. Qed.

(** Cleaning introduces no bytes but slashes and dots. *)
Lemma split_on_elem c s w d : w ∈ split_on c s → d ∈ w → d ∈ s.
Proof.
  revert w; induction s as [|x s IH]; intros w; simpl.
  - intros ->%list_elem_of_singleton. by intros ?%elem_of_nil.
  - case_bool_decide.
    + intros [->|Hw]%elem_of_cons; [by intros ?%elem_of_nil|]. set_solver.
    + destruct (split_on c s) as [|w0 ws] eqn:E; [by apply split_on_nonempty in E|].
      intros [->|Hw]%elem_of_cons; [|set_solver].
      intros [->|Hd]%elem_of_cons; [set_solver|].
      constructor 2. eapply IH; [|done]. set_solver.
Qed.

Lemma clean_step_elem rooted st c w : w ∈ clean_step rooted st c → w ∈ st ∨ w = c.
Proof. unfold clean_step. repeat case_match; set_solver. Qed.

Lemma clean_stack_elem rooted p w : w ∈ clean_stack rooted p → w ∈ split_on slash p.
Proof.
  unfold clean_stack. generalize (split_on slash p) as ws. intros ws.
  assert (∀ st, w ∈ foldl (clean_step rooted) st ws → w ∈ st ∨ w ∈ ws) as H.
  { induction ws as [|v ws IH]; intros st; simpl; [auto|].
    intros [Hst|]%IH; [|set_solver]. apply clean_step_elem in Hst. set_solver. }
  intros [?%elem_of_nil|]%H; done.
Qed.

Lemma Clean_elem p d : d ≠ slash → d ≠ dot → d ∈ Clean p → d ∈ p.
Proof.
  intros Hs Hd. unfold Clean. cbv zeta.
  assert (∀ r, d ∈ join_with slash (rev (clean_stack r p)) → d ∈ p) as H.
  { intros r (w & Hw & Hdw)%elem_of_join; [|done].
    rewrite elem_of_rev in Hw.
    apply clean_stack_elem in Hw. by eapply split_on_elem. }
  repeat case_match; rewrite ?elem_of_cons, ?elem_of_nil; naive_solver.
Qed.

(* ------------------------------------------------------------------ *)
(** ** Lemmas: letter case *)

Section lower.
Context `{UnicodeTables}.

(** ASCII bytes other than capital letters. *)
Definition caseless (c : byte) : Prop :=
  Z_of_byte c < 0x80 ∧ ¬ 65 ≤ Z_of_byte c ≤ 90 ∧ ¬ 97 ≤ Z_of_byte c ≤ 122.

Lemma lower_caseless c : caseless c → unicode_ToLower (Z_of_byte c) = Z_of_byte c.
Proof. intros (?&?&?). unfold unicode_ToLower. case_bools; lia. Qed.

Lemma lower_caseless_inv r c :
  caseless c → unicode_ToLower r = Z_of_byte c → r = Z_of_byte c.
Proof.
  intros (?&?&?). unfold unicode_ToLower. case_bools; try lia.
  pose proof (lower_table_hi r). lia.
Qed.

Lemma lower_scalar r : is_scalar r = true → is_scalar (unicode_ToLower r) = true.
Proof.
  intros Hr. unfold unicode_ToLower. pose proof Hr as Hr'.
  apply is_scalar_spec in Hr'. case_bools; try done.
  - apply is_scalar_spec. lia.
  - by apply lower_table_scalar.
Qed.

Lemma lower_idem r : unicode_ToLower (unicode_ToLower r) = unicode_ToLower r.
Proof.
  pose proof (lower_table_hi r). pose proof (lower_table_idem r).
  unfold unicode_ToLower.
  repeat match goal with |- context [if ?t then _ else _] => destruct t eqn:? end;
    rewrite ?andb_true_iff, ?andb_false_iff, ?Z.ltb_lt, ?Z.ltb_ge, ?Z.leb_le, ?Z.leb_gt in *; lia.
Qed.

Lemma map_lower_scalars rs : scalars rs → scalars (map unicode_ToLower rs).
Proof. induction 1; constructor; auto using lower_scalar. Qed.

Lemma runes_ToLower s : runes (ToLower s) = map unicode_ToLower (runes s).
Proof. apply runes_utf8_encode, map_lower_scalars, runes_scalars. Qed.

Lemma ToLower_idem s : ToLower (ToLower s) = ToLower s.
Proof.
  unfold ToLower at 1. rewrite runes_ToLower, map_map. unfold ToLower. f_equal.
  apply map_ext. intros. apply lower_idem.
Qed.

Lemma ToLower_split a c b :
  caseless c → ToLower (a ++ c :: b) = ToLower a ++ c :: ToLower b.
Proof.
  intros Hc. unfold ToLower. rewrite runes_ascii_split by apply Hc.
  rewrite map_app. cbn [map]. rewrite lower_caseless by done.
  rewrite utf8_encode_app. f_equal. unfold utf8_encode. cbn [flat_map].
  rewrite utf8_rune_ascii by apply Hc. done.
Qed.

Lemma ToLower_caseless_elem c s : caseless c → c ∈ ToLower s → c ∈ s.
Proof.
  intros Hc Hin. apply utf8_encode_ascii_elem in Hin; [|apply Hc].
  apply runes_ascii_elem; [apply Hc|].
  apply list_elem_of_In, in_map_iff in Hin as (r & E & Hr%list_elem_of_In).
  by apply lower_caseless_inv in E as ->.
Qed.

(** Lowering never produces a caseless string from another one. *)
Lemma ToLower_caseless_inv s l : Forall caseless l → ToLower s = l → s = l.
Proof.
  intros Hl E.
  assert (runes s = map Z_of_byte l) as Hs.
  { assert (map unicode_ToLower (runes s) = map Z_of_byte l) as Hm.
    { rewrite <-runes_ToLower, E. clear -Hl. induction Hl as [|c l Hc _ IH]; [done|].
      rewrite runes_cons, decode1_ascii by apply Hc. cbn [fst snd map]. by rewrite IH. }
    clear E. revert Hm. generalize (runes s). induction Hl as [|c l Hc _ IH]; intros [|r rs]; try done.
    cbn [map]. intros [= E ?]. f_equal; [by apply lower_caseless_inv|auto]. }
  rewrite (runes_all_ascii s), Hs.
  - rewrite map_map. rewrite <-(map_id l) at 2. apply map_ext. apply byte_of_Z_of_byte.
  - rewrite Hs. clear -Hl. induction Hl as [|? ? [? ?]]; constructor; auto.
Qed.

Lemma good_comp_ToLower c : good_comp c → good_comp (ToLower c).
Proof.
  assert (caseless dot) as Hdot by (vm_compute; intuition congruence).
  assert (caseless slash) as Hsl by (vm_compute; intuition congruence).
  intros (G1 & G2 & G3 & G4). apply good_comp_intro.
  - intros E. apply G1. by apply (ToLower_caseless_inv c []).
  - intros E. apply G2. apply (ToLower_caseless_inv c [dot]); [|done].
    by apply Forall_cons_2.
  - intros E. apply G3. apply (ToLower_caseless_inv c dotdot); [|done].
    by apply Forall_cons_2; [|apply Forall_cons_2].
  - intros Hin. apply G4. by apply ToLower_caseless_elem.
Qed.

Lemma ToLower_absolute cs : ToLower (absolute cs) = absolute (map ToLower cs).
Proof.
  assert (caseless slash) as Hsl by (vm_compute; intuition congruence).
  unfold absolute. etransitivity; [exact (ToLower_split [] slash _ Hsl)|].
  change (ToLower []) with (@nil byte). cbn [app]. f_equal.
  induction cs as [|c cs IH]; [done|].
  destruct cs as [|c' cs]; [done|].
  change (join_with slash (c :: c' :: cs)) with (c ++ slash :: join_with slash (c' :: cs)).
  rewrite ToLower_split, IH by done. done.
Qed.

Lemma normal_path_ToLower p : normal_path p → normal_path (ToLower p).
Proof.
  intros (cs & -> & Hcs & Hb). rewrite ToLower_absolute.
  exists (map ToLower cs). split; [done|]. split.
  - clear Hb. induction Hcs; constructor; auto using good_comp_ToLower.
  - rewrite <-ToLower_absolute. intros Hin. apply Hb.
    apply ToLower_caseless_elem; [|done]. vm_compute; intuition congruence.
Qed.
End lower.

(* ------------------------------------------------------------------ *)
(** ** Lemmas: validation *)

Lemma normal_path_absolute p : normal_path p → has_prefix [slash] p = true.
Proof. by intros (cs & -> & _). Qed.

Lemma has_prefix_dotdot_join n gs :
  has_prefix dotdot (join_with slash (replicate (S n) dotdot ++ gs)) = true.
Proof.
  cbn [replicate app]. destruct (replicate n dotdot ++ gs); [done|].
  change (join_with slash (dotdot :: ?l :: ?k)) with (dotdot ++ slash :: join_with slash (l :: k)).
  apply has_prefix_spec. eauto.
Qed.

(** What [normalize] computes before case folding, on accepted paths. *)
Lemma validated_clean p :
  validatePath p = true →
  let q := Clean (replace_all backslash slash p) in
  ∃ cs, Forall good_comp cs ∧ backslash ∉ absolute cs ∧
    ((q = absolute cs) ∨ (q = [dot] ∧ cs = []) ∨ (cs ≠ [] ∧ q = join_with slash cs)).
Proof.
  intros Hv q. unfold validatePath in Hv. fold q in Hv.
  assert (backslash ∉ q) as Hb.
  { intros Hin. apply Clean_elem in Hin; [|done..].
    apply replace_all_elem in Hin as [?|[? _]]; done. }
  destruct (has_prefix [slash] (replace_all backslash slash p)) eqn:Hr.
  - destruct (Clean_rooted _ Hr) as (cs & E & Hcs). fold q in E.
    exists cs. split; [done|]. rewrite <-E. auto.
  - destruct (Clean_relative _ Hr) as (n & gs & Hgs & E). fold q in E.
    destruct n as [|n]; cycle 1.
    { rewrite bool_decide_false in E by done. rewrite E, has_prefix_dotdot_join in Hv.
      repeat case_bool_decide; [done|]. by destruct (contains_byte nul p). }
    cbn [replicate app] in E. exists gs. split; [done|].
    destruct gs as [|g gs].
    + split; [by intros ?%list_elem_of_singleton|]. right; left. by rewrite bool_decide_true in E.
    + rewrite bool_decide_false in E by done. split; [|right; right; by split].
      unfold absolute. rewrite <-E. by apply not_elem_of_cons.
Qed.

Section normalize.
Context `{UnicodeTables}.

Lemma normalize_cs_normal p : validatePath p = true → normal_path (normalize true p).
Proof.
  intros Hv. destruct (validated_clean p Hv) as (cs & Hcs & Hb & Hq).
  unfold normalize. case_bool_decide; [by subst|].
  destruct Hq as [->|[[-> ->]|[Hne ->]]].
  - exists cs. rewrite bool_decide_false by (destruct cs; done). done.
  - rewrite bool_decide_true by done. by exists [].
  - exists cs. destruct cs as [|c cs]; [done|].
    inversion Hcs as [|?? (Hc1 & Hc2 & Hc3 & Hc4) Hcs']; subst.
    rewrite bool_decide_false.
    + destruct (has_prefix [slash] (join_with slash (c :: cs))) eqn:Hp; [|done].
      apply has_prefix_spec in Hp as [k Hk]. exfalso. apply Hc4.
      destruct c; [done|]. destruct cs; cbn [join_with app] in Hk; injection Hk as ->; constructor.
    + destruct c as [|x c]; [done|]. destruct cs; cbn [join_with app]; [done|].
      destruct c; done.
Qed.

Lemma normalize_normal b p : validatePath p = true → normal_path (normalize b p).
Proof.
  intros Hv. pose proof (normalize_cs_normal p Hv) as Hn. destruct b; [done|].
  apply normal_path_ToLower in Hn. revert Hn. unfold normalize.
  case_bool_decide; [by subst|]. done.
Qed.

Lemma normalize_of_normal p : normal_path p → normalize true p = p.
Proof.
  intros (cs & -> & Hcs & Hb). unfold normalize.
  rewrite bool_decide_false by done. rewrite replace_all_id by done.
  rewrite Clean_absolute by done.
  rewrite bool_decide_false by done. done.
Qed.

Lemma normalize_false_eq p : p ≠ [] → normalize false p = ToLower (normalize true p).
Proof. intros. unfold normalize. by rewrite bool_decide_false. Qed.

Lemma normalize_idem b p :
  validatePath p = true → normalize b (normalize b p) = normalize b p.
Proof.
  intros Hv. pose proof (normalize_normal b p Hv) as Hn. destruct b.
  - by apply normalize_of_normal.
  - assert (p ≠ []) by (intros ->; done).
    rewrite normalize_false_eq by (by destruct Hn as (? & -> & _)).
    rewrite normalize_of_normal by done.
    rewrite normalize_false_eq by done. apply ToLower_idem.
Qed.
End normalize.

Lemma toSMBPath_absolute cs :
  Forall good_comp cs → toSMBPath (absolute cs) = join_with backslash cs.
Proof.
  intros Hcs. unfold toSMBPath, TrimPrefix, absolute.
  rewrite has_prefix_slash, bool_decide_true by done. cbn [length drop].
  apply replace_all_join. eapply Forall_impl; [done|]. by intros ? (?&?&?&?).
Qed.

Lemma fromSMB_toSMB p : normal_path p → fromSMBPath (toSMBPath p) = p.
Proof.
  intros (cs & -> & Hcs & Hb). rewrite toSMBPath_absolute by done.
  unfold fromSMBPath. rewrite replace_all_join.
  - destruct (has_prefix [slash] (join_with slash cs)) eqn:Hp; [|by apply Clean_absolute].
    apply has_prefix_spec in Hp as [k Hk]. destruct cs as [|c cs]; [done|].
    inversion Hcs as [|?? (Hc1 & _ & _ & Hc4) _]; subst. exfalso. apply Hc4.
    destruct c; [done|]. destruct cs; cbn [join_with app] in Hk; injection Hk as ->; constructor.
  - apply Forall_forall. intros w Hw Hin. apply Hb. unfold absolute. constructor 2.
    apply elem_of_join; [done|]. eauto.
Qed.

(** A component that makes [validatePath] refuse. *)
Definition dotted (w : gostring) : bool := has_prefix dotdot w.

Lemma split_on_cons c s : ∃ w ws, split_on c s = w :: ws.
Proof. pose proof (split_on_nonempty c s). destruct (split_on c s) as [|w ws]; [done|]. by exists w, ws. Qed.

Lemma dotted_head s w ws : split_on slash s = w :: ws → has_prefix dotdot s = dotted w.
Proof.
  unfold dotted, dotdot. destruct s as [|x s]; cbn [split_on]; [by intros [= <- _]|].
  case_bool_decide as Hx.
  { intros [= <- _]. subst. done. }
  destruct (split_on_cons slash s) as (v & vs & E). rewrite E. intros [= <- _].
  cbn [has_prefix]. f_equal. destruct s as [|y s]; cbn [split_on] in E; [by injection E as <- _|].
  case_bool_decide as Hy.
  - injection E as <- _. subst. done.
  - destruct (split_on_cons slash s) as (u & us & E'). rewrite E' in E. injection E as <- _.
    cbn [has_prefix]. by rewrite !andb_true_r.
Qed.

Lemma contains_dotted s w ws :
  split_on slash s = w :: ws →
  contains s (slash :: dotdot) = true ↔ Exists (λ w, dotted w = true) ws.
Proof.
  revert w ws. induction s as [|x s IH]; intros w ws; cbn [split_on].
  { intros [= <- <-]. cbn. rewrite Exists_nil. done. }
  destruct (split_on_cons slash s) as (v & vs & E). rewrite E.
  cbn [contains has_prefix]. rewrite orb_true_iff, (IH v vs E).
  case_bool_decide as Hx.
  - intros [= <- <-]. subst. rewrite bool_decide_true by done. cbn [andb].
    rewrite (dotted_head s v vs E), Exists_cons. done.
  - intros [= <- <-]. rewrite bool_decide_false by congruence. naive_solver.
Qed.

(* ------------------------------------------------------------------ *)
(** ** Properties *)

(** C28: no path traversal: every path that [validatePath] accepts is turned by
    [normalize], with or without case folding, into an absolute clean path
    whose components are non-empty and neither ["."] nor [".."], with no
    backslash left; normalising again changes nothing. *)
Theorem validated_path_stays_in_share `{UnicodeTables} (caseSensitive : bool) (p : gostring) :
  validatePath p = true →
  normal_path (normalize caseSensitive p)
  ∧ normalize caseSensitive (normalize caseSensitive p) = normalize caseSensitive p.
Proof. auto using normalize_normal, normalize_idem. Qed.

Lemma validated_path_stays_in_share_witness :
  validatePath (str "a\..\.\Dir//x.TXT") = true ∧
  normal_path (normalize false (str "a\..\.\Dir//x.TXT")) ∧
  normalize false (str "a\..\.\Dir//x.TXT") = str "/dir/x.txt".
Proof.
  split; [reflexivity|]. split; [|reflexivity].
  apply (validated_path_stays_in_share false (str "a\..\.\Dir//x.TXT")). reflexivity.
Defined.

(** [validatePath] accepts exactly the non-empty paths without NUL bytes of
    which, after cleaning, no component begins with two dots (so a file name
    such as ["..x"] is refused with the traversals). *)
Theorem validatePath_accepts p :
  validatePath p = true ↔
  p ≠ [] ∧ nul ∉ p ∧
  Forall (λ w, has_prefix dotdot w = false)
    (split_on slash (Clean (replace_all backslash slash p))).
Proof.
  unfold validatePath, contains_byte.
  destruct (split_on_cons slash (Clean (replace_all backslash slash p))) as (w & ws & E).
  rewrite E, (dotted_head _ w ws E). pose proof (contains_dotted _ w ws E) as Hc.
  rewrite Forall_cons. fold (dotted w).
  assert (Forall (λ w, has_prefix dotdot w = false) ws ↔ ¬ Exists (λ w, dotted w = true) ws) as Hf.
  { rewrite <-Forall_Exists_neg. apply Forall_proper; [|done]. intros v.
    unfold dotted. destruct (has_prefix dotdot v); naive_solver. }
  rewrite Hf. repeat case_bool_decide; [naive_solver..|].
  destruct (dotted w) eqn:Ew; cbn [orb]; [naive_solver|].
  destruct (contains _ (slash :: dotdot)); naive_solver.
Qed.

(** What lowering leaves in front was there. *)
Lemma ToLower_cons_inv `{UnicodeTables} c s t : caseless c → ToLower s = c :: t → ∃ s', s = c :: s' ∧ t = ToLower s'.
Proof.
  intros Hc E. assert (c ∈ s) as Hin by (apply ToLower_caseless_elem; [done|rewrite E; constructor]).
  apply list_elem_of_split_l in Hin as (a & b & -> & Ha). rewrite ToLower_split in E by done.
  destruct (ToLower a) as [|x la] eqn:Ela.
  - apply ToLower_caseless_inv in Ela; [|done]. subst a. injection E as <-. by exists b.
  - injection E as -> _. destruct Ha. apply ToLower_caseless_elem; [done|]. rewrite Ela. constructor.
Qed.

Lemma dotted_ToLower `{UnicodeTables} w : dotted w = false → dotted (ToLower w) = false.
Proof.
  assert (caseless dot) as Hdot by (vm_compute; intuition congruence).
  unfold dotted. intros Hw. apply not_true_iff_false. intros [k Hk]%has_prefix_spec. revert Hw.
  apply not_false_iff_true, has_prefix_spec. cbn in Hk.
  destruct (ToLower_cons_inv _ _ _ Hdot Hk) as (w1 & -> & Hk1). symmetry in Hk1.
  destruct (ToLower_cons_inv _ _ _ Hdot Hk1) as (w2 & -> & _). by exists w2.
Qed.

(** The components of a normalised path are those of the cleaned one. *)
Definition fine_comp (w : gostring) : Prop := good_comp w ∧ dotted w = false ∧ nul ∉ w.

Lemma normalize_comps p :
  validatePath p = true → ∃ cs, (∀ `{UnicodeTables}, normalize true p = absolute cs) ∧ backslash ∉ absolute cs ∧ Forall fine_comp cs.
Proof.
  intros Hv. destruct (proj1 (validatePath_accepts p) Hv) as (Hne & Hnul & Hdots).
  destruct (validated_clean p Hv) as (cs & Hcs & Hb & Hq).
  assert (∀ w, w ∈ cs → nul ∈ w → False) as Hn.
  { intros w Hw Hx. apply Hnul. assert (nul ∈ Clean (replace_all backslash slash p)) as Hc.
    - destruct Hq as [->|[[-> ->]|[_ ->]]]; [apply list_elem_of_further| |]; [|by apply elem_of_nil in Hw|];
        (apply elem_of_join; [done|]; by exists w).
    - apply Clean_elem in Hc; [|done..]. by apply replace_all_elem in Hc as [?|[_ ?]]. }
  exists cs. split; [|split; [done|]].
  - intros ?. destruct (normalize_cs_normal p Hv) as (cs' & Ecs & Hcs' & _). rewrite Ecs.
    unfold normalize in Ecs. rewrite bool_decide_false in Ecs by done.
    destruct Hq as [Eq|[[Eq ->]|[Hne' Eq]]]; rewrite Eq in Ecs.
    + by rewrite bool_decide_false in Ecs by (by destruct cs).
    + by rewrite bool_decide_true in Ecs.
    + destruct (bool_decide (join_with slash cs = [dot])) eqn:Ed.
      { apply bool_decide_eq_true in Ed. destruct cs as [|c [|]]; [done| |].
        - cbn in Ed. subst c. inversion Hcs as [|?? (_ & Hd & _)]; subst. done.
        - cbn in Ed. destruct c as [|x [|]]; [|done..]. done. }
      rewrite <-Ecs. destruct (has_prefix [slash] (join_with slash cs)) eqn:Hp; [|done].
      apply has_prefix_spec in Hp as [k Hk]. exfalso. destruct cs as [|c cs]; [done|].
      inversion Hcs as [|?? (Hc1 & _ & _ & Hc4)]; subst. apply Hc4. destruct c; [done|].
      destruct cs; cbn [join_with app] in Hk; injection Hk as ->; constructor.
  - apply Forall_forall. intros w Hw. rewrite Forall_forall in Hcs, Hdots. split; [by apply Hcs|]. split; [|by intros ?%Hn].
    apply Hdots. destruct Hq as [->|[[-> ->]|[Hne' ->]]]; [| by apply elem_of_nil in Hw|].
    + cbn [absolute split_on]. rewrite bool_decide_true by done. apply list_elem_of_further.
      rewrite split_join; [done|by intros ->; apply elem_of_nil in Hw|]. apply Forall_forall. by intros v (_ & _ & _ & ?)%Hcs.
    + rewrite split_join; [done|done|]. apply Forall_forall. by intros v (_ & _ & _ & ?)%Hcs.
Qed.

Lemma validatePath_absolute cs : backslash ∉ absolute cs → Forall fine_comp cs → validatePath (absolute cs) = true.
Proof.
  intros Hb Hcs. rewrite Forall_forall in Hcs. assert (Forall good_comp cs) as Hg by (apply Forall_forall; intros w Hw; by apply Hcs).
  apply validatePath_accepts. split; [done|]. split.
  - unfold absolute. intros [?|Hin]%elem_of_cons; [done|]. apply elem_of_join in Hin as (w & Hw & Hx); [|done]. by apply (Hcs w Hw).
  - rewrite replace_all_id, Clean_absolute by done. unfold absolute. cbn [split_on]. rewrite bool_decide_true by done.
    apply Forall_cons. split; [done|]. destruct cs as [|c cs]; [by constructor|].
    rewrite split_join; [|done|]; apply Forall_forall; intros w Hw; apply (Hcs w Hw).
Qed.

(** A normalised path is valid again. *)
Lemma validatePath_normalize `{UnicodeTables} b p : validatePath p = true → validatePath (normalize b p) = true.
Proof.
  intros Hv. destruct (normalize_comps p Hv) as (cs & E & Hb & Hcs). destruct b.
  { rewrite E. by apply validatePath_absolute. }
  assert (p ≠ []) by (intros ->; done). rewrite normalize_false_eq, E, ToLower_absolute by done.
  apply validatePath_absolute.
  - rewrite <-ToLower_absolute. intros Hin. apply Hb. apply ToLower_caseless_elem; [|done]. vm_compute; intuition congruence.
  - apply Forall_map. eapply Forall_impl; [exact Hcs|]. intros w (Hg & Hd & Hn).
    split; [by apply good_comp_ToLower|]. split; [by apply dotted_ToLower|].
    intros Hin. apply Hn. apply ToLower_caseless_elem; [|done]. vm_compute; intuition congruence.
Qed.

(** The conversion to the backslash form sent to the share and back is the
    identity on every path the client produces. *)
Theorem smb_path_roundtrip `{UnicodeTables} (caseSensitive : bool) (p : gostring) :
  validatePath p = true →
  fromSMBPath (toSMBPath (normalize caseSensitive p)) = normalize caseSensitive p.
Proof. auto using fromSMB_toSMB, normalize_normal. Qed.

Lemma smb_path_roundtrip_witness :
  fromSMBPath (toSMBPath (normalize true (str "docs/./Q1/report.pdf"))) = str "/docs/Q1/report.pdf".
Proof. rewrite smb_path_roundtrip; reflexivity. Defined.
