(* ===== verification/Errors.v ===== *)
(** * Errors

    Models [errors.go] and [mapGoErrorToNTStatus] of [smb2_file.go], with the
    error values of Go: an error is a chain of nodes linked by [Unwrap], and
    [errors.Is], [errors.As] walk the chain. *)

From stdpp Require Import base numbers list gmap sets strings.
From S2P Require Import Prelude Constants Types.

Open Scope Z_scope.

(** The sentinel error values the program compares against. *)
Inductive sentinel :=
| ErrNotExist | ErrExist | ErrPermission | ErrInvalid | ErrClosed
| EOF | ErrUnexpectedEOF
| ErrNotImplemented | ErrInvalidConfig | ErrConnectionClosed | ErrPoolExhausted
| ErrAuthenticationFailed | ErrUnsupportedDialect | ErrInvalidPath | ErrNotDirectory
| ErrIsDirectory | ErrInvalidMessage | ErrServerClosed
| ContextCanceled.

#[global] Instance sentinel_eq_dec : EqDecision sentinel.
Proof. solve_decision. Defined.

(** A Go error value. [OtherError] and [OtherWrap] are errors of other
    packages: what their [Is] method answers yes to, and their [Temporary] and
    [Timeout] methods if they have them. *)
Inductive error :=
| Sentinel (s : sentinel)
| PathError (op path : gostring) (err : error)
| WrapError (msg : gostring) (err : error)
| OtherError (msg : gostring) (iss : list sentinel) (net : option (bool * bool))
| OtherWrap (msg : gostring) (iss : list sentinel) (net : option (bool * bool)) (err : error).

Definition Unwrap (e : error) : option error :=
  match e with
  | Sentinel _ | OtherError _ _ _ => None
  | PathError _ _ e | WrapError _ e | OtherWrap _ _ _ e => Some e
  end.

(** [errors.Is] against a sentinel. *)
Fixpoint errors_Is (e : error) (t : sentinel) : bool :=
  match e with
  | Sentinel s => bool_decide (s = t)
  | PathError _ _ e => errors_Is e t
  | WrapError _ e => errors_Is e t
  | OtherError _ iss _ => bool_decide (t ∈ iss)
  | OtherWrap _ iss _ e => bool_decide (t ∈ iss) || errors_Is e t
  end.

(** [errors.As] to [*fs.PathError]: the path of the first one in the chain. *)
Fixpoint as_PathError (e : error) : option gostring :=
  match e with
  | PathError _ p _ => Some p
  | WrapError _ e | OtherWrap _ _ _ e => as_PathError e
  | Sentinel _ | OtherError _ _ _ => None
  end.

(** [errors.As] to the [netError] interface. A [*fs.PathError] has no
    [Temporary] method. *)
Fixpoint as_netError (e : error) : option (bool * bool) :=
  match e with
  | Sentinel _ => None
  | PathError _ _ e | WrapError _ e => as_netError e
  | OtherError _ _ net => net
  | OtherWrap _ _ net e => match net with Some _ => net | None => as_netError e end
  end.

(** [os.IsNotExist]: looks through one [PathError] and no other wrapper. *)
Definition os_IsNotExist (e : error) : bool :=
  let e := match e with PathError _ _ e => e | _ => e end in
  match e with
  | Sentinel s => bool_decide (s = ErrNotExist)
  | OtherError _ iss _ | OtherWrap _ iss _ _ => bool_decide (ErrNotExist ∈ iss)
  | _ => false
  end.

Definition wrapPathError (op path : gostring) (err : option error) : option error :=
  match err with
  | None => None
  | Some e =>
    match as_PathError e with
    | Some p => if bool_decide (p = path) then Some e else Some (PathError op path e)
    | None => Some (PathError op path e)
    end
  end.

Definition convertError (err : option error) : option error :=
  match err with
  | None => None
  | Some e =>
    if errors_Is e ErrNotExist || errors_Is e ErrExist || errors_Is e ErrPermission
       || errors_Is e ErrInvalid || errors_Is e ErrClosed then Some e
    else if errors_Is e ErrConnectionClosed then Some (Sentinel ErrClosed)
    else if errors_Is e ErrInvalidPath then Some (Sentinel ErrInvalid)
    else if errors_Is e ErrAuthenticationFailed then Some (Sentinel ErrPermission)
    else Some e
  end.

(** The recursion follows [Unwrap]. *)
Fixpoint isRetryable (e : error) : bool :=
  match as_netError e with
  | Some (temporary, timeout) => temporary || timeout
  | None => false
  end
  || errors_Is e ErrConnectionClosed
  || errors_Is e ErrPoolExhausted
  || match e with
     | Sentinel _ | OtherError _ _ _ => false
     | PathError _ _ e' | WrapError _ e' | OtherWrap _ _ _ e' => isRetryable e'
     end.

Definition mapGoErrorToNTStatus (err : option error) : Z :=
  match err with
  | None => STATUS_SUCCESS
  | Some e =>
    if errors_Is e ErrNotExist then STATUS_OBJECT_NAME_NOT_FOUND
    else if errors_Is e ErrExist then STATUS_OBJECT_NAME_COLLISION
    else if errors_Is e ErrPermission then STATUS_ACCESS_DENIED
    else if errors_Is e ErrInvalid then STATUS_INVALID_PARAMETER
    else if errors_Is e ErrClosed then STATUS_FILE_CLOSED
    else if errors_Is e EOF then STATUS_END_OF_FILE
    else if errors_Is e ErrIsDirectory then STATUS_FILE_IS_A_DIRECTORY
    else if errors_Is e ErrNotDirectory then STATUS_NOT_A_DIRECTORY
    else STATUS_INVALID_DEVICE_REQUEST
  end.

(** The nodes of an error chain, outermost first. *)
Fixpoint chain (e : error) : list error :=
  e :: match e with
       | Sentinel _ | OtherError _ _ _ => []
       | PathError _ _ e' | WrapError _ e' | OtherWrap _ _ _ e' => chain e'
       end.

(** What one node contributes to [isRetryable]. *)
Definition node_retryable (e : error) : bool :=
  match e with
  | Sentinel s => bool_decide (s = ErrConnectionClosed) || bool_decide (s = ErrPoolExhausted)
  | PathError _ _ _ | WrapError _ _ => false
  | OtherError _ iss net | OtherWrap _ iss net _ =>
    match net with Some (temporary, timeout) => temporary || timeout | None => false end
    || bool_decide (ErrConnectionClosed ∈ iss) || bool_decide (ErrPoolExhausted ∈ iss)
  end.

(* ------------------------------------------------------------------ *)
(** ** Lemmas *)

Lemma wrapPathError_Is op p e t :
  ∃ e', wrapPathError op p (Some e) = Some e' ∧ errors_Is e' t = errors_Is e t.
Proof. unfold wrapPathError. repeat case_match; eauto. Qed.

Lemma wrapPathError_path op p e :
  ∃ e', wrapPathError op p (Some e) = Some e' ∧ as_PathError e' = Some p.
Proof. unfold wrapPathError. repeat case_match; eauto; case_bool_decide; naive_solver. Qed.

(** Being retryable from the first netError of the chain, or by [Is], is
    subsumed by the nodes of the chain. *)
Lemma as_netError_chain e t o :
  as_netError e = Some (t, o) → t || o = true → existsb node_retryable (chain e) = true.
Proof.
  induction e as [s|op p e IH|msg e IH|msg iss net|msg iss net e IH]; cbn; intros H Hto.
  - done.
  - by apply IH.
  - by apply IH.
  - subst net. by rewrite Hto.
  - destruct net as [[a b]|]; [injection H as -> ->; by rewrite Hto|].
    rewrite IH by done. apply orb_true_r.
Qed.

Lemma Is_chain e t :
  (t = ErrConnectionClosed ∨ t = ErrPoolExhausted) →
  errors_Is e t = true → existsb node_retryable (chain e) = true.
Proof.
  intros Ht. induction e as [s|op p e IH|msg e IH|msg iss net|msg iss net e IH]; cbn; intros H.
  - rewrite bool_decide_eq_true in H. subst. by destruct Ht as [->| ->].
  - by apply IH.
  - by apply IH.
  - destruct Ht as [->| ->]; rewrite H; by rewrite ?orb_true_r.
  - apply orb_true_iff in H as [H|H]; [|rewrite IH by done; apply orb_true_r].
    destruct Ht as [->| ->]; rewrite H; by rewrite ?orb_true_r.
Qed.

Lemma node_isRetryable e : node_retryable e = true → isRetryable e = true.
Proof.
  destruct e as [s| | |msg iss net|msg iss net e]; try done; cbn;
    repeat match goal with
    | |- context [bool_decide ?P] => destruct (bool_decide P)
    end; try destruct net as [[[] []]|]; cbn; rewrite ?orb_true_r; done.
Qed.

Lemma isRetryable_chain e : isRetryable e = existsb node_retryable (chain e).
Proof.
  apply eq_true_iff_eq. split.
  - induction e as [s|op p e IH|msg e IH|msg iss net|msg iss net e IH]; intros H;
      cbn [isRetryable] in H; rewrite !orb_true_iff in H;
      (destruct H as [[[H|H]|H]|H];
       [ destruct (as_netError _) as [[t o]|] eqn:E; [|done]; eapply as_netError_chain; eassumption
       | eapply Is_chain; [|eassumption]; auto
       | eapply Is_chain; [|eassumption]; auto
       | try done; cbn [chain existsb]; rewrite IH by done; apply orb_true_r ]).
  - induction e as [s|op p e IH|msg e IH|msg iss net|msg iss net e IH]; cbn [chain existsb];
      intros [H|H]%orb_true_iff; try (by apply node_isRetryable); try done;
      cbn [isRetryable]; rewrite (IH H); apply orb_true_r.
Qed.

Lemma wrapPathError_retryable op p e :
  ∃ e', wrapPathError op p (Some e) = Some e' ∧ isRetryable e' = isRetryable e.
Proof.
  unfold wrapPathError. repeat case_match; eauto;
    (eexists; split; [done|]; by rewrite !isRetryable_chain).
Qed.

(* ------------------------------------------------------------------ *)
(** ** Properties *)

(** Wrapping with path information is invisible to the callers' error
    tests: [errors.Is] answers and retryability are unchanged, the result
    carries the path, and wrapping again for the same path adds nothing. *)
Theorem wrapPathError_transparent op p e :
  ∃ e', wrapPathError op p (Some e) = Some e'
    ∧ (∀ t, errors_Is e' t = errors_Is e t)
    ∧ isRetryable e' = isRetryable e
    ∧ as_PathError e' = Some p
    ∧ ∀ op', wrapPathError op' p (Some e') = Some e'.
Proof.
  destruct (wrapPathError_path op p e) as (e' & E & Hp). exists e'. split; [done|].
  split_and!.
  - intros t. destruct (wrapPathError_Is op p e t) as (e'' & E' & H). by simplify_eq.
  - destruct (wrapPathError_retryable op p e) as (e'' & E' & H). by simplify_eq.
  - done.
  - intros op'. unfold wrapPathError. rewrite Hp. by rewrite bool_decide_true.
Qed.

(** [isRetryable] holds exactly when some node of the error chain is a
    temporary or timed-out network error, or reports a closed connection or
    an exhausted pool: where in the chain the node sits does not matter. *)
Theorem isRetryable_iff_chain e :
  isRetryable e = true ↔ ∃ n, n ∈ chain e ∧ node_retryable n = true.
Proof.
  rewrite isRetryable_chain, existsb_exists. setoid_rewrite list_elem_of_In. done.
Qed.
