(* ===== verification/Retry.v ===== *)
(** * Retry with exponential backoff

    Models [retry.go].  The operation, the context and the timer are
    parameters over an abstract state; the run returns its event log beside
    the result.  [Multiplier] is the map from one delay to the next computed
    by [time.Duration(float64(delay) * policy.Multiplier)]. *)

From stdpp Require Import base numbers list gmap sets strings.
From S2P Require Import Prelude Errors.

Open Scope Z_scope.

Record RetryPolicy := mkPolicy {
  MaxAttempts : Z;
  InitialDelay : Z;   (* nanoseconds *)
  MaxDelay : Z;
  Multiplier : Z → Z;
}.

Definition defaultRetryPolicy : RetryPolicy := {|
  MaxAttempts := 3;
  InitialDelay := 100 * 1000000;
  MaxDelay := 5 * 1000000000;
  Multiplier := λ d, 2 * d;
|}.

Inductive event :=
| Attempt (r : option error)
| Sleep (d : Z).

Section retry.
Context {S : Type}.
(** The retried operation. *)
Variable operation : S → option error * S.
(** [ctx.Err()] at a state. *)
Variable ctx_Err : S → option error.
(** [select { case <-ctx.Done(): ...; case <-time.After(d): }]: the context's
    error if it ends the wait. *)
Variable wait : Z → S → option error * S.

Definition next_delay (policy : RetryPolicy) (delay : Z) : Z :=
  let delay := Multiplier policy delay in
  if MaxDelay policy <? delay then MaxDelay policy else delay.

(** The loop from [attempt] on; [fuel] is the number of iterations the loop
    condition still admits, [MaxAttempts - attempt + 1]. *)
Fixpoint retry_loop (policy : RetryPolicy) (fuel : nat) (attempt delay : Z)
    (lastErr : option error) (s : S) : option error * S * list event :=
  match fuel with
  | O => (lastErr, s, [])
  | Datatypes.S fuel =>
    match ctx_Err s with
    | Some e => (Some e, s, [])
    | None =>
      let '(err, s) := operation s in
      match err with
      | None => (None, s, [Attempt None])
      | Some e =>
        if negb (isRetryable e) then (Some e, s, [Attempt (Some e)])
        else if attempt =? MaxAttempts policy then (Some e, s, [Attempt (Some e)])
        else
          let '(cancelled, s) := wait delay s in
          match cancelled with
          | Some c => (Some c, s, [Attempt (Some e); Sleep delay])
          | None =>
            let '(r, s, log) :=
              retry_loop policy fuel (attempt + 1) (next_delay policy delay) (Some e) s in
            (r, s, Attempt (Some e) :: Sleep delay :: log)
          end
      end
    end
  end.

Definition withRetry (policy : option RetryPolicy) (s : S) : option error * S * list event :=
  let policy := default defaultRetryPolicy policy in
  if MaxAttempts policy <=? 1
  then let '(r, s) := operation s in (r, s, [Attempt r])
  else retry_loop policy (Z.to_nat (MaxAttempts policy)) 1 (InitialDelay policy) None s.

(* ---------------------------------------------------------------- *)
(** ** Specification *)

(** The log of the failed attempts [es], each followed by its delay, when
    the first delay is [d]. *)
Fixpoint failures (policy : RetryPolicy) (d : Z) (es : list error) : list event :=
  match es with
  | [] => []
  | e :: es => Attempt (Some e) :: Sleep d :: failures policy (next_delay policy d) es
  end.

(** The outcome of a run over [es] retryable failures with [n] attempts
    allowed: either one more attempt settles it, and a retryable failure is
    final only if it was the last allowed attempt, or the context does. *)
Definition settled (n : nat) (es : list error) (final : list event) (r : option error) : Prop :=
  (final = [Attempt r] ∧ ∀ e, r = Some e → isRetryable e = true → Datatypes.S (length es) = n)
  ∨ (final = [] ∧ ∃ c, r = Some c ∧ ((∃ s', ctx_Err s' = Some c) ∨ ∃ d s', (wait d s').1 = Some c)).

Lemma retry_loop_spec policy fuel attempt delay lastErr s r s' log :
  attempt + Z.of_nat fuel = MaxAttempts policy + 1 → (0 < fuel)%nat →
  retry_loop policy fuel attempt delay lastErr s = (r, s', log) →
  ∃ es final, log = failures policy delay es ++ final
    ∧ Forall (λ e, isRetryable e = true) es ∧ (length es < fuel)%nat
    ∧ settled fuel es final r.
Proof.
  revert attempt delay lastErr s log.
  induction fuel as [|fuel IH]; intros attempt delay lastErr s log Hf Hpos; [lia|].
  cbn [retry_loop].
  assert (∀ final, settled (Datatypes.S fuel) [] final r →
    ∃ es final', final = failures policy delay es ++ final'
    ∧ Forall (λ e, isRetryable e = true) es ∧ (length es < Datatypes.S fuel)%nat
    ∧ settled (Datatypes.S fuel) es final' r) as Hnow.
  { intros final ?. exists [], final. repeat split; [constructor|simpl; lia|done]. }
  destruct (ctx_Err s) as [c|] eqn:Hctx.
  { intros [= <- <- <-]. apply Hnow. right. eauto 6. }
  destruct (operation s) as [[e|] s1]; cycle 1.
  { intros [= <- <- <-]. apply Hnow. by left. }
  destruct (isRetryable e) eqn:Hre; cbn [negb]; cycle 1.
  { intros [= <- <- <-]. apply Hnow. left. split; [done|]. intros e0 [= <-]. by rewrite Hre. }
  destruct (Z.eqb_spec attempt (MaxAttempts policy)) as [->|Hne].
  { intros [= <- <- <-]. apply Hnow. left. split; [done|]. simpl. intros. lia. }
  destruct (wait delay s1) as [[c|] s2] eqn:Hw.
  { intros [= <- <- <-]. exists [e], []. repeat split; [by repeat constructor|simpl; lia|].
    right. split; [done|]. exists c. split; [done|]. right. exists delay, s1. by rewrite Hw. }
  destruct (retry_loop _ _ _ _ _ _) as [[r' s3] log'] eqn:E. intros [= <- <- <-].
  eapply IH in E as (es & final & -> & Hes & Hlen & Hset); [|lia|lia].
  exists (e :: es), final. repeat split; [by constructor|simpl; lia|].
  destruct Hset as [[-> Hr]|[-> Hc]]; [left|right; done].
  split; [done|]. intros e' ? ?. simpl. f_equal. by eapply Hr.
Qed.

Definition attempts (log : list event) : nat :=
  length (List.filter (λ ev, match ev with Attempt _ => true | Sleep _ => false end) log).

Lemma attempts_failures policy d es : attempts (failures policy d es) = length es.
Proof.
  unfold attempts. revert d; induction es as [|e es IH]; intros d; [done|].
  cbn [failures length List.filter]. by rewrite IH.
Qed.

Lemma attempts_app l1 l2 : attempts (l1 ++ l2) = (attempts l1 + attempts l2)%nat.
Proof. unfold attempts. by rewrite List.filter_app, length_app. Qed.

Lemma failures_sleep policy d es x B :
  d ≤ B → MaxDelay policy ≤ B → Sleep x ∈ failures policy d es → x ≤ B.
Proof.
  revert d; induction es as [|e es IH]; intros d Hd HB; cbn [failures]; [set_solver|].
  rewrite !elem_of_cons. intros [?|[[= ->]|H]]; [done|done|].
  eapply IH; [|done|done]. unfold next_delay. case_bools; lia.
Qed.

Lemma settled_final n es final r :
  settled n es final r → (attempts final ≤ 1)%nat ∧ (∀ x, Sleep x ∉ final)
    ∧ (r = None ↔ final = [Attempt None]).
Proof.
  intros [[-> _]|[-> (c & -> & _)]]; (split; [|split]); cbn; try lia; try set_solver;
    naive_solver.
Qed.

(** Invariant reasoning: [J] holds as long as the attempts fail, [K] once one
    succeeds. *)
Lemma retry_loop_rule (J K : S → Prop) policy fuel attempt delay lastErr s :
  (∀ s, J s → match operation s with (None, s') => K s' | (Some _, s') => J s' end) →
  (∀ d s, J s → J (wait d s).2) →
  J s → (fuel = 0%nat → is_Some lastErr) →
  match retry_loop policy fuel attempt delay lastErr s with
  | (None, s', _) => K s' | (Some _, s', _) => J s'
  end.
Proof.
  intros Hop Hw. revert attempt delay lastErr s.
  induction fuel as [|fuel IH]; intros attempt delay lastErr s Hs Hl; cbn [retry_loop].
  { destruct (Hl eq_refl) as [e ->]. done. }
  destruct (ctx_Err s); [done|]. specialize (Hop s Hs). destruct (operation s) as [[e|] s1]; [|done].
  destruct (negb _); [done|]. destruct (_ =? _); [done|].
  specialize (Hw delay s1 Hop). destruct (wait delay s1) as [[c|] s2]; [done|].
  specialize (IH (attempt + 1) (next_delay policy delay) (Some e) s2 Hw ltac:(done)).
  by destruct (retry_loop _ _ _ _ _ _) as [[[?|] s3] log].
Qed.

Lemma withRetry_rule (J K : S → Prop) policy s :
  (∀ s, J s → match operation s with (None, s') => K s' | (Some _, s') => J s' end) →
  (∀ d s, J s → J (wait d s).2) → J s →
  match withRetry policy s with (None, s', _) => K s' | (Some _, s', _) => J s' end.
Proof.
  intros Hop Hw Hs. unfold withRetry. destruct (Z.leb_spec (MaxAttempts (default defaultRetryPolicy policy)) 1).
  - specialize (Hop s Hs). by destruct (operation s) as [[e|] s1].
  - apply retry_loop_rule; [done..|]. lia.
Qed.

(* ---------------------------------------------------------------- *)
(** ** Properties *)

(** C38: every run of [withRetry] consists of some retryable failures, each
    followed by the backoff delay of its round, and one settling step.  At
    most [max 1 MaxAttempts] attempts are made, no delay exceeds the larger
    of [InitialDelay] and [MaxDelay], a retryable error is returned from an
    attempt only when the attempts are used up, and success is reported
    exactly when the last attempt succeeded.  The delays are fixed by the
    policy; the jitter that a comment of the code announces is not there. *)
Theorem withRetry_run policy s :
  let p := default defaultRetryPolicy policy in
  let '(r, s', log) := withRetry policy s in
  ∃ es final, log = failures p (InitialDelay p) es ++ final
    ∧ Forall (λ e, isRetryable e = true) es
    ∧ settled (Nat.max 1 (Z.to_nat (MaxAttempts p))) es final r
    ∧ (attempts log ≤ Nat.max 1 (Z.to_nat (MaxAttempts p)))%nat
    ∧ (∀ x, Sleep x ∈ log → x ≤ Z.max (InitialDelay p) (MaxDelay p))
    ∧ (r = None ↔ final = [Attempt None]).
Proof.
  intros p. destruct (withRetry policy s) as [[r s'] log] eqn:E.
  assert (∃ es final, log = failures p (InitialDelay p) es ++ final
    ∧ Forall (λ e, isRetryable e = true) es
    ∧ (length es < Nat.max 1 (Z.to_nat (MaxAttempts p)))%nat
    ∧ settled (Nat.max 1 (Z.to_nat (MaxAttempts p))) es final r) as (es & final & -> & Hes & Hlen & Hset).
  { revert E. unfold withRetry. fold p. destruct (Z.leb_spec (MaxAttempts p) 1).
    - destruct (operation s) as [r0 s0]. intros [= -> -> <-]. exists [], [Attempt r].
      repeat split; [constructor|simpl; lia|]. left. split; [done|]. simpl. intros. lia.
    - rewrite Nat.max_r by lia. intros E. eapply retry_loop_spec; [| |exact E]; lia. }
  pose proof (settled_final _ _ _ _ Hset) as (Hf1 & Hf2 & Hf3).
  exists es, final. split; [done|]. split; [done|]. split; [done|]. split; [|split; [|done]].
  - rewrite attempts_app, attempts_failures. lia.
  - intros x [Hx|Hx]%elem_of_app; [|by apply Hf2 in Hx].
    eapply failures_sleep; [| |exact Hx]; lia.
Qed.
End retry.
