(* ===== verification/HandleMap.v ===== *)
(** * File handle map

    Models [file_handle_map.go].  The [*OpenFile] values are shared: the maps
    [handles] and [byPath] hold pointers, and the handlers keep and mutate
    the same objects; so the objects live in a heap and the maps hold
    addresses.  The random persistent id, the clock and the iteration order
    of a Go map are inputs.  Each operation takes the map's lock for its
    whole body (the release of several handles takes it once per handle), so
    an operation is one atomic step.

    The abstract specification is the finite map from [FileID] to open file;
    [hm_wf] is the representation invariant. *)

From stdpp Require Import base numbers list gmap sets fin_maps strings.
From S2P Require Import Prelude Constants Types Errors.

Open Scope Z_scope.

Notation ptr := nat.

Section handle_map.
(** The files of the underlying file system and its state. *)
Context {F W : Type}.
Variable f_Close : F → W → option error * W.

Record OpenFile := mkOpenFile {
  of_ID : FileID;
  of_File : option F;
  of_Path : gostring;
  of_IsDir : bool;
  of_Access : Z;
  of_ShareAccess : Z;
  of_Disposition : Z;
  of_Options : Z;
  of_CreatedAt : Z;
  of_LastAccess : Z;
  of_TreeID : Z;
  of_SessionID : Z;
  of_DeleteOnClose : bool;
}.

Record FileHandleMap := mkHandleMap {
  hm_heap : gmap ptr OpenFile;
  hm_nextPtr : ptr;
  hm_handles : gmap FileID ptr;
  hm_byPath : gmap gostring (list ptr);
  hm_nextHandle : Z;
}.

Definition NewFileHandleMap : FileHandleMap := {|
  hm_heap := ∅; hm_nextPtr := 0; hm_handles := ∅; hm_byPath := ∅; hm_nextHandle := 1;
|}.

(** [m.byPath[path]], the nil slice when absent. *)
Definition at_path (m : FileHandleMap) (path : gostring) : list ptr :=
  default [] (hm_byPath m !! path).

(** [random] is what [rand.Read] delivered, [None] when it failed. *)
Definition Allocate (random : option Z) (now : Z) (file : option F) (path : gostring)
    (isDir : bool) (access shareAccess disposition options treeID sessionID : Z)
    (m : FileHandleMap) : ptr * FileHandleMap :=
  let persistentID := default 0 random in
  let volatileID := hm_nextHandle m in
  let id := mkFileID persistentID volatileID in
  let p := hm_nextPtr m in
  let o := {|
    of_ID := id; of_File := file; of_Path := path; of_IsDir := isDir;
    of_Access := access; of_ShareAccess := shareAccess; of_Disposition := disposition;
    of_Options := options; of_CreatedAt := now; of_LastAccess := now;
    of_TreeID := treeID; of_SessionID := sessionID; of_DeleteOnClose := false;
  |} in
  (p, {|
    hm_heap := <[p := o]> (hm_heap m);
    hm_nextPtr := S p;
    hm_handles := <[id := p]> (hm_handles m);
    hm_byPath := <[path := at_path m path ++ [p]]> (hm_byPath m);
    hm_nextHandle := u64 (volatileID + 1);
  |}).

(** Dereference. *)
Definition deref (m : FileHandleMap) (p : ptr) : option OpenFile := hm_heap m !! p.

Definition Get (id : FileID) (m : FileHandleMap) : option ptr := hm_handles m !! id.

Definition GetBySession (id : FileID) (sessionID : Z) (m : FileHandleMap) : option ptr :=
  p ← hm_handles m !! id;
  o ← deref m p;
  if negb (of_SessionID o =? sessionID) then None else Some p.

Definition GetByTree (id : FileID) (treeID sessionID : Z) (m : FileHandleMap) : option ptr :=
  p ← hm_handles m !! id;
  o ← deref m p;
  if negb (of_TreeID o =? treeID) || negb (of_SessionID o =? sessionID) then None else Some p.

(** The part of [Release] under the lock: removal from both maps, giving
    the file to close. *)
Definition unlink (id : FileID) (m : FileHandleMap) : option OpenFile * FileHandleMap :=
  match p ← hm_handles m !! id; deref m p with
  | None => (None, m)
  | Some o =>
    let handles := at_path m (of_Path o) in
    let is_id p := match deref m p with
                   | Some h => bool_decide (of_ID h = id)
                   | None => false
                   end in
    let handles' := remove_first is_id handles in
    (Some o, {|
      hm_heap := hm_heap m;
      hm_nextPtr := hm_nextPtr m;
      hm_handles := delete id (hm_handles m);
      hm_byPath := match handles' with
                   | [] => delete (of_Path o) (hm_byPath m)
                   | _ => <[of_Path o := handles']> (hm_byPath m)
                   end;
      hm_nextHandle := hm_nextHandle m;
    |})
  end.

Definition close_file (o : option OpenFile) (w : W) : option error * W :=
  match o ≫= of_File with
  | Some f => f_Close f w
  | None => (None, w)
  end.

Definition Release (id : FileID) (m : FileHandleMap) (w : W)
    : option error * FileHandleMap * W :=
  let '(o, m) := unlink id m in
  let '(err, w) := close_file o w in
  (err, m, w).

(** [for _, id := range toRelease { ... }] *)
Fixpoint release_all (ids : list FileID) (m : FileHandleMap) (w : W)
    : list error * FileHandleMap * W :=
  match ids with
  | [] => ([], m, w)
  | id :: ids =>
    let '(err, m, w) := Release id m w in
    let '(errs, m, w) := release_all ids m w in
    (match err with Some e => e :: errs | None => errs end, m, w)
  end.

(** The ids of the handles whose open file satisfies [f], in the order the
    map iteration delivers them. *)
Definition ids_where (order : list FileID → list FileID) (f : OpenFile → bool)
    (m : FileHandleMap) : list FileID :=
  List.filter (λ id, match p ← hm_handles m !! id; deref m p with
                     | Some o => f o
                     | None => false
                     end)
    (order (map_to_list (hm_handles m)).*1).

Definition ReleaseBySession (order : list FileID → list FileID) (sessionID : Z)
    (m : FileHandleMap) (w : W) : list error * FileHandleMap * W :=
  release_all (ids_where order (λ o, of_SessionID o =? sessionID) m) m w.

Definition ReleaseByTree (order : list FileID → list FileID) (treeID sessionID : Z)
    (m : FileHandleMap) (w : W) : list error * FileHandleMap * W :=
  release_all
    (ids_where order (λ o, (of_TreeID o =? treeID) && (of_SessionID o =? sessionID)) m) m w.

Definition Count (m : FileHandleMap) : Z := Z.of_nat (size (hm_handles m)).

Definition GetOpenHandlesForPath (path : gostring) (m : FileHandleMap) : list ptr :=
  at_path m path.

Definition checkShareCompatibility (newAccess newShare existingAccess existingShare : Z) : bool :=
  if has_flag newAccess FILE_READ_DATA && negb (has_flag existingShare FILE_SHARE_READ) then false
  else if has_flag newAccess FILE_WRITE_DATA && negb (has_flag existingShare FILE_SHARE_WRITE) then false
  else if has_flag newAccess DELETE && negb (has_flag existingShare FILE_SHARE_DELETE) then false
  else if has_flag existingAccess FILE_READ_DATA && negb (has_flag newShare FILE_SHARE_READ) then false
  else if has_flag existingAccess FILE_WRITE_DATA && negb (has_flag newShare FILE_SHARE_WRITE) then false
  else if has_flag existingAccess DELETE && negb (has_flag newShare FILE_SHARE_DELETE) then false
  else true.

Definition compatible_with (desiredAccess shareAccess : Z) (o : OpenFile) : bool :=
  checkShareCompatibility desiredAccess shareAccess (of_Access o) (of_ShareAccess o).

Definition CheckShareAccess (path : gostring) (desiredAccess shareAccess : Z)
    (m : FileHandleMap) : bool :=
  forallb (λ p, match deref m p with
                | Some o => compatible_with desiredAccess shareAccess o
                | None => true
                end) (at_path m path).

(** Mutation of the object behind a pointer. *)
Definition update (p : ptr) (f : OpenFile → OpenFile) (m : FileHandleMap) : FileHandleMap := {|
  hm_heap := alter f p (hm_heap m); hm_nextPtr := hm_nextPtr m; hm_handles := hm_handles m;
  hm_byPath := hm_byPath m; hm_nextHandle := hm_nextHandle m;
|}.

Definition set_LastAccess (t : Z) (o : OpenFile) : OpenFile :=
  mkOpenFile (of_ID o) (of_File o) (of_Path o) (of_IsDir o) (of_Access o)
    (of_ShareAccess o) (of_Disposition o) (of_Options o) (of_CreatedAt o) t
    (of_TreeID o) (of_SessionID o) (of_DeleteOnClose o).

Definition set_DeleteOnClose (b : bool) (o : OpenFile) : OpenFile :=
  mkOpenFile (of_ID o) (of_File o) (of_Path o) (of_IsDir o) (of_Access o)
    (of_ShareAccess o) (of_Disposition o) (of_Options o) (of_CreatedAt o) (of_LastAccess o)
    (of_TreeID o) (of_SessionID o) b.

(** [of.Path = newPath], done by the rename of [smb2_info.go]. *)
Definition set_Path (path : gostring) (o : OpenFile) : OpenFile :=
  mkOpenFile (of_ID o) (of_File o) path (of_IsDir o) (of_Access o)
    (of_ShareAccess o) (of_Disposition o) (of_Options o) (of_CreatedAt o) (of_LastAccess o)
    (of_TreeID o) (of_SessionID o) (of_DeleteOnClose o).

Definition UpdateLastAccess (now : Z) (id : FileID) (m : FileHandleMap) : FileHandleMap :=
  match hm_handles m !! id with
  | Some p => update p (set_LastAccess now) m
  | None => m
  end.

Definition SetDeleteOnClose (id : FileID) (b : bool) (m : FileHandleMap) : FileHandleMap :=
  match hm_handles m !! id with
  | Some p => update p (set_DeleteOnClose b) m
  | None => m
  end.

Definition GetDeleteOnClose (id : FileID) (m : FileHandleMap) : bool :=
  match p ← hm_handles m !! id; deref m p with
  | Some o => of_DeleteOnClose o
  | None => false
  end.

(* ---------------------------------------------------------------- *)
(** ** Abstract specification *)

(** The open files by id. *)
Definition abs (m : FileHandleMap) : gmap FileID OpenFile := omap (deref m) (hm_handles m).

(** The handle [p] is live: reachable by its own id. *)
Definition live (m : FileHandleMap) (p : ptr) (o : OpenFile) : Prop :=
  deref m p = Some o ∧ hm_handles m !! of_ID o = Some p.

Record hm_wf (m : FileHandleMap) : Prop := {
  wf_handles : ∀ id p, hm_handles m !! id = Some p →
    ∃ o, deref m p = Some o ∧ of_ID o = id ∧ 0 ≤ Volatile id < hm_nextHandle m;
  wf_byPath : ∀ path p, p ∈ at_path m path ↔ ∃ o, live m p o ∧ of_Path o = path;
  wf_nodup : ∀ path, NoDup (at_path m path);
  wf_nonempty : ∀ path, hm_byPath m !! path ≠ Some [];
  wf_heap : ∀ p, (hm_nextPtr m ≤ p)%nat → deref m p = None;
  wf_next : 1 ≤ hm_nextHandle m < 2 ^ 64;
}.

Definition spec_CheckShareAccess (path : gostring) (a s : Z) (opens : gmap FileID OpenFile) : Prop :=
  map_Forall (λ _ o, of_Path o = path → compatible_with a s o = true) opens.

(** Share modes by their bits: an access mask asks for reading, writing or
    deleting with its bits 0, 1 and 16, and a share mode permits them to others
    with its bits 0, 1 and 2. *)
Definition permits (share access : Z) : Prop :=
  ∀ right grant, (right, grant) ∈ [(0, 0); (1, 1); (16, 2)] →
    Z.testbit access right = true → Z.testbit share grant = true.

(** Two opens agree: each permits what the other asks for. *)
Definition agree (access1 share1 access2 share2 : Z) : Prop := permits share2 access1 ∧ permits share1 access2.

(** No two live handles on one path conflict. *)
Definition shares_ok (opens : gmap FileID OpenFile) : Prop :=
  ∀ id1 id2 of1 of2, opens !! id1 = Some of1 → opens !! id2 = Some of2 →
    id1 ≠ id2 → of_Path of1 = of_Path of2 →
    compatible_with (of_Access of1) (of_ShareAccess of1) of2 = true.
End handle_map.

Arguments OpenFile F : clear implicits.
Arguments FileHandleMap F : clear implicits.

Section handle_map_lemmas.
Context {F W : Type}.
Variable f_Close : F → W → option error * W.
Implicit Types m : FileHandleMap F.

Lemma lookup_abs m id : abs m !! id = p ← hm_handles m !! id; deref m p.
Proof. apply lookup_omap. Qed.

Lemma abs_live m id o :
  hm_wf m → abs m !! id = Some o ↔ ∃ p, live m p o ∧ of_ID o = id.
Proof.
  intros Hwf. rewrite lookup_abs. unfold live. split.
  - destruct (hm_handles m !! id) as [p|] eqn:E; simpl; [|done]. intros Hp.
    destruct (wf_handles m Hwf _ _ E) as (o' & Ho' & <- & _). simplify_eq. eauto.
  - intros (p & (Hp & Hid) & <-). by rewrite Hid.
Qed.

Lemma live_det m p o1 o2 : live m p o1 → live m p o2 → o1 = o2.
Proof. intros [??] [??]. by simplify_eq. Qed.

Lemma NewFileHandleMap_wf : hm_wf (@NewFileHandleMap F).
Proof.
  split; unfold NewFileHandleMap, at_path, live, deref; simpl; intros;
    rewrite ?lookup_empty in *; simpl in *; try done; try lia.
  - split; [set_solver|]. intros (o & [? ?] & ?). by rewrite lookup_empty in *.
  - constructor.
Qed.

Lemma at_path_insert m path path' l heap np hs nh :
  at_path (mkHandleMap (F := F) heap np hs (<[path := l]> (hm_byPath m)) nh) path'
  = if decide (path' = path) then l else at_path m path'.
Proof.
  unfold at_path; simpl. destruct (decide (path' = path)) as [->|Hne].
  - by rewrite lookup_insert_eq.
  - by rewrite lookup_insert_ne.
Qed.

Section allocate.
Context (random : option Z) (now : Z) (file : option F) (path : gostring) (isDir : bool)
  (access shareAccess disposition options treeID sessionID : Z) (m : FileHandleMap F).
Hypothesis Hwf : hm_wf m.
Hypothesis Hnext : hm_nextHandle m + 1 < 2 ^ 64.
Let r := Allocate random now file path isDir access shareAccess disposition options
           treeID sessionID m.
Let id := mkFileID (default 0 random) (hm_nextHandle m).
Let o := mkOpenFile id file path isDir access shareAccess disposition options now now
           treeID sessionID false.

Lemma Allocate_fresh : hm_handles m !! id = None ∧ deref m (hm_nextPtr m) = None.
Proof.
  split; [|apply (wf_heap m Hwf); done].
  destruct (hm_handles m !! id) as [p|] eqn:E; [|done].
  destruct (wf_handles m Hwf _ _ E) as (? & _ & _ & Hv). simpl in Hv. lia.
Qed.

Lemma Allocate_live p o' :
  live r.2 p o' ↔ (p = r.1 ∧ o' = o) ∨ live m p o'.
Proof.
  destruct Allocate_fresh as [Hid Hp]. unfold live, deref in *. simpl in *. split.
  - intros [Hp' Hid']. destruct (decide (p = hm_nextPtr m)) as [->|Hne].
    + rewrite lookup_insert_eq in Hp'. injection Hp' as <-. by left.
    + rewrite lookup_insert_ne in Hp' by done. right. split; [done|].
      destruct (decide (of_ID o' = id)) as [E|E].
      * rewrite E in Hid'. rewrite lookup_insert_eq in Hid'. congruence.
      * by rewrite lookup_insert_ne in Hid'.
  - intros [[-> ->]|[Hp' Hid']].
    + rewrite lookup_insert_eq. split; [done|]. simpl. by rewrite lookup_insert_eq.
    + unfold id in Hid. rewrite !lookup_insert_ne; [done|congruence..].
Qed.

Lemma Allocate_abs : abs r.2 = <[id := o]> (abs m) ∧ abs m !! id = None.
Proof.
  destruct Allocate_fresh as [Hid Hp]. split; [|by rewrite lookup_abs, Hid].
  unfold abs. apply map_eq. intros id'. rewrite lookup_omap. unfold r, deref; simpl.
  fold id. destruct (decide (id' = id)) as [->|Hne].
  - rewrite !lookup_insert_eq. simpl. by rewrite lookup_insert_eq.
  - rewrite !lookup_insert_ne by done. rewrite lookup_omap.
    destruct (hm_handles m !! id') as [p|] eqn:E; [simpl|done].
    rewrite lookup_insert_ne; [done|]. intros <-.
    destruct (wf_handles m Hwf _ _ E) as (o' & Ho' & _). unfold deref in *. simpl in *. congruence.
Qed.

Lemma Allocate_wf : hm_wf r.2.
Proof.
  destruct Allocate_fresh as [Hid Hp]. pose proof (wf_next m Hwf) as Hn.
  assert (u64 (hm_nextHandle m + 1) = hm_nextHandle m + 1) as Hu by (apply u64_small; lia).
  split.
  - intros id' p Hp'. unfold r in *; simpl in *. rewrite Hu.
    destruct (decide (id' = id)) as [->|Hne].
    + rewrite lookup_insert_eq in Hp'. injection Hp' as <-. exists o.
      unfold deref; simpl. rewrite lookup_insert_eq. split; [done|]. split; [done|]. simpl. lia.
    + rewrite lookup_insert_ne in Hp' by done.
      destruct (wf_handles m Hwf _ _ Hp') as (o' & Ho' & E & Hv). exists o'.
      unfold deref in *; simpl in *. rewrite lookup_insert_ne by congruence.
      split; [done|]. split; [done|]. lia.
  - intros path' p. setoid_rewrite Allocate_live. unfold r; simpl.
    rewrite at_path_insert. destruct (decide (path' = path)) as [->|Hne].
    + rewrite elem_of_app, (wf_byPath m Hwf), list_elem_of_singleton. naive_solver.
    + rewrite (wf_byPath m Hwf). naive_solver.
  - intros path'. unfold r; simpl. rewrite at_path_insert.
    destruct (decide (path' = path)) as [->|Hne]; [|apply (wf_nodup m Hwf)].
    apply NoDup_app. split; [apply (wf_nodup m Hwf)|]. split; [|apply NoDup_singleton].
    intros p Hp' ->%list_elem_of_singleton.
    apply (wf_byPath m Hwf) in Hp' as (o' & [Ho' _] & _). congruence.
  - intros path'. unfold r; simpl. destruct (decide (path' = path)) as [->|Hne].
    + rewrite lookup_insert_eq. by destruct (at_path m path).
    + rewrite lookup_insert_ne by done. apply (wf_nonempty m Hwf).
  - intros p Hle. unfold r, deref in *; simpl in *. rewrite lookup_insert_ne by lia.
    apply (wf_heap m Hwf). lia.
  - unfold r; simpl. lia.
Qed.
End allocate.

(** *** Unlinking *)

Definition points_to_id m (id : FileID) (p : ptr) : bool :=
  match deref m p with Some h => bool_decide (of_ID h = id) | None => false end.

Lemma unlink_absent id m : abs m !! id = None → unlink id m = (None, m).
Proof. unfold unlink. rewrite lookup_abs. by intros ->. Qed.

Lemma unlink_present id m o :
  abs m !! id = Some o →
  let l := remove_first (points_to_id m id) (at_path m (of_Path o)) in
  unlink id m = (Some o, mkHandleMap (hm_heap m) (hm_nextPtr m) (delete id (hm_handles m))
    match l with
    | [] => delete (of_Path o) (hm_byPath m)
    | _ => <[of_Path o := l]> (hm_byPath m)
    end (hm_nextHandle m)).
Proof. unfold unlink. rewrite lookup_abs. by intros ->. Qed.

Lemma unlink_spec id m :
  (unlink id m).1 = abs m !! id ∧ abs (unlink id m).2 = delete id (abs m).
Proof.
  destruct (abs m !! id) as [o|] eqn:E.
  - rewrite (unlink_present id m o E). split; [done|]. unfold abs; simpl. apply omap_delete.
  - rewrite unlink_absent by done. split; [done|]. simpl. by rewrite delete_id.
Qed.

Lemma unlink_live id m p o :
  hm_wf m → live (unlink id m).2 p o ↔ live m p o ∧ of_ID o ≠ id.
Proof.
  intros Hwf. destruct (abs m !! id) as [o0|] eqn:E.
  - rewrite (unlink_present id m o0 E). unfold live, deref; simpl.
    rewrite lookup_delete_Some. naive_solver.
  - rewrite unlink_absent by done; simpl. split; [|tauto]. intros Hl. split; [done|].
    intros <-. assert (abs m !! of_ID o = Some o) by (apply abs_live; eauto). congruence.
Qed.

Lemma unlink_at_path id m o path :
  hm_wf m → abs m !! id = Some o →
  at_path (unlink id m).2 path
  = if decide (path = of_Path o) then remove_first (points_to_id m id) (at_path m path)
    else at_path m path.
Proof.
  intros Hwf E. rewrite (unlink_present id m o E). unfold at_path at 1; simpl.
  destruct (remove_first (points_to_id m id) (at_path m (of_Path o))) as [|q l] eqn:El;
    (destruct (decide (path = of_Path o)) as [->|Hne];
     [rewrite ?lookup_delete_eq, ?lookup_insert_eq, El; done
     |rewrite ?lookup_delete_ne, ?lookup_insert_ne; done]).
Qed.

Lemma remove_path_gone id m path :
  hm_wf m →
  ∀ p, p ∈ remove_first (points_to_id m id) (at_path m path)
       ↔ p ∈ at_path m path ∧ points_to_id m id p = false.
Proof.
  intros Hwf p. split.
  - intros Hp. split; [by eapply elem_of_remove_first|].
    assert (Forall (λ x, points_to_id m id x = false)
      (remove_first (points_to_id m id) (at_path m path))) as HF; [|by eapply Forall_forall in HF].
    apply remove_first_gone; [|apply (wf_nodup m Hwf)].
    intros x y (ox & [Hx Hxid] & _)%(wf_byPath m Hwf) (oy & [Hy Hyid] & _)%(wf_byPath m Hwf).
    unfold points_to_id. rewrite Hx, Hy, !bool_decide_eq_true. intros. congruence.
  - intros [Hp ?]. by apply elem_of_remove_first_ne.
Qed.

Lemma unlink_wf id m : hm_wf m → hm_wf (unlink id m).2.
Proof.
  intros Hwf. destruct (abs m !! id) as [o|] eqn:E; [|by rewrite unlink_absent].
  split.
  - rewrite (unlink_present id m o E); simpl. intros id' p [_ Hp]%lookup_delete_Some.
    apply (wf_handles m Hwf _ _ Hp).
  - intros path p. setoid_rewrite unlink_live; [|done]. rewrite (unlink_at_path id m o) by done.
    assert (p ∈ remove_first (points_to_id m id) (at_path m path)
      ↔ ∃ o0, (live m p o0 ∧ of_ID o0 ≠ id) ∧ of_Path o0 = path) as Hrm.
    { rewrite remove_path_gone, (wf_byPath m Hwf) by done. unfold points_to_id. split.
      - intros [(o0 & Hl & <-) Hf]. exists o0. rewrite (proj1 Hl) in Hf.
        rewrite bool_decide_eq_false in Hf. auto.
      - intros (o0 & [Hl Hne] & <-). split; [eauto|]. rewrite (proj1 Hl). by rewrite bool_decide_false. }
    destruct (decide (path = of_Path o)) as [->|Hne]; [done|].
    rewrite (wf_byPath m Hwf). split; [|naive_solver].
    intros (o0 & Hl & <-). exists o0. split; [|done]. split; [done|]. intros <-.
    assert (abs m !! of_ID o0 = Some o0) by (apply abs_live; eauto). congruence.
  - intros path. rewrite (unlink_at_path id m o) by done.
    destruct (decide _); [apply NoDup_remove_first|]; apply (wf_nodup m Hwf).
  - intros path. rewrite (unlink_present id m o E); simpl.
    destruct (remove_first _ _) eqn:El.
    + intros [_ H]%lookup_delete_Some. by apply (wf_nonempty m Hwf) in H.
    + destruct (decide (of_Path o = path)) as [<-|Hne].
      * by rewrite lookup_insert_eq.
      * rewrite lookup_insert_ne by done. apply (wf_nonempty m Hwf).
  - rewrite (unlink_present id m o E). apply (wf_heap m Hwf).
  - rewrite (unlink_present id m o E). apply (wf_next m Hwf).
Qed.

Lemma Release_unlink id m w :
  ∃ e w', Release f_Close id m w = (e, (unlink id m).2, w')
    ∧ (e, w') = close_file f_Close (abs m !! id) w.
Proof.
  unfold Release. destruct (unlink id m) as [o m'] eqn:E.
  pose proof (unlink_spec id m) as [H _]. rewrite E in H. simpl in H. subst o.
  destruct (close_file f_Close (abs m !! id) w) as [e w']. eauto.
Qed.

(** *** Mutation through a handle *)

Definition keeps_key (f : OpenFile F → OpenFile F) : Prop :=
  ∀ o, of_ID (f o) = of_ID o ∧ of_Path (f o) = of_Path o.

Lemma update_live p f m q o :
  keeps_key f →
  live (update p f m) q o ↔ ∃ o0, live m q o0 ∧ o = if decide (q = p) then f o0 else o0.
Proof.
  intros Hf. unfold live, deref; simpl. destruct (decide (q = p)) as [->|Hne].
  - rewrite lookup_alter_eq. destruct (hm_heap m !! p) as [o0|]; simpl.
    + split.
      * intros [[= <-] H]. rewrite (proj1 (Hf o0)) in H. eauto.
      * intros (? & [[= <-] ?] & ->). by rewrite (proj1 (Hf o0)).
    + naive_solver.
  - rewrite lookup_alter_ne by done. naive_solver.
Qed.

Lemma update_wf p f m : keeps_key f → hm_wf m → hm_wf (update p f m).
Proof.
  intros Hf Hwf. split; try apply Hwf.
  - intros id q Hq. destruct (wf_handles m Hwf _ _ Hq) as (o & Ho & <- & Hv).
    unfold deref in *; simpl in *. destruct (decide (q = p)) as [->|Hne].
    + rewrite lookup_alter_eq, Ho. exists (f o). simpl. split; [done|]. by rewrite (proj1 (Hf o)).
    + rewrite lookup_alter_ne by done. eauto.
  - intros path q. setoid_rewrite update_live; [|done].
    change (at_path (update p f m) path) with (at_path m path). rewrite (wf_byPath m Hwf). split.
    + intros (o & Hl & <-). eexists. split; [eauto|]. destruct (decide _); [apply Hf|done].
    + intros (o & (o0 & Hl & ->) & <-). exists o0. split; [done|].
      destruct (decide _); [symmetry; apply Hf|done].
  - intros q Hq. unfold deref; simpl. destruct (decide (q = p)) as [->|Hne].
    + rewrite lookup_alter_eq. assert (hm_heap m !! p = None) as -> by exact (wf_heap m Hwf p Hq). done.
    + rewrite lookup_alter_ne by done. by apply (wf_heap m Hwf).
Qed.

Lemma update_abs p f m id :
  hm_wf m → hm_handles m !! id = Some p → abs (update p f m) = alter f id (abs m).
Proof.
  intros Hwf Hp. apply map_eq. intros id'. rewrite lookup_abs; simpl.
  destruct (decide (id' = id)) as [->|Hne].
  - rewrite lookup_alter_eq, lookup_abs, Hp. unfold deref; simpl. by rewrite lookup_alter_eq.
  - rewrite lookup_alter_ne, lookup_abs by done.
    destruct (hm_handles m !! id') as [q|] eqn:Hq; [simpl|done].
    unfold deref; simpl. rewrite lookup_alter_ne; [done|]. intros <-.
    destruct (wf_handles m Hwf _ _ Hq) as (? & ? & ? & _), (wf_handles m Hwf _ _ Hp) as (? & ? & ? & _).
    congruence.
Qed.

(** *** Releasing many handles *)

Lemma release_all_wf ids m w : hm_wf m → hm_wf (release_all f_Close ids m w).1.2.
Proof.
  revert m w; induction ids as [|id ids IH]; intros m w Hwf; cbn [release_all]; [done|].
  destruct (Release_unlink id m w) as (e & w' & -> & _).
  specialize (IH (unlink id m).2 w' (unlink_wf id m Hwf)).
  destruct (release_all _ _ _ _) as [[errs m2] w2]. done.
Qed.

Lemma release_all_abs ids m w id :
  abs (release_all f_Close ids m w).1.2 !! id = if decide (id ∈ ids) then None else abs m !! id.
Proof.
  revert m w; induction ids as [|i ids IH]; intros m w; cbn [release_all]; [done|].
  destruct (Release_unlink i m w) as (e & w' & -> & _).
  specialize (IH (unlink i m).2 w').
  destruct (release_all _ _ _ _) as [[errs m2] w2]. simpl in *. rewrite IH.
  rewrite (proj2 (unlink_spec i m)). destruct (decide (id = i)) as [->|Hne].
  - rewrite lookup_delete_eq. repeat destruct (decide _); set_solver.
  - rewrite lookup_delete_ne by done. repeat destruct (decide _); set_solver.
Qed.

(** A Go map iteration visits every key, in some order. *)
Definition is_order (order : list FileID → list FileID) : Prop := ∀ l, order l ≡ₚ l.

Lemma elem_of_ids_where order f m id :
  is_order order → id ∈ ids_where order f m ↔ ∃ o, abs m !! id = Some o ∧ f o = true.
Proof.
  intros Hord. unfold ids_where. rewrite list_elem_of_In, List.filter_In, <-list_elem_of_In.
  unfold is_order in Hord. rewrite Hord, list_elem_of_fmap. setoid_rewrite lookup_abs. split.
  - intros [_ H]. destruct (_ ≫= _) as [o|]; [eauto|done].
  - intros (o & Ho & Hf). rewrite Ho. split; [|done].
    destruct (hm_handles m !! id) as [p|] eqn:E; [|done].
    exists (id, p). split; [done|]. by apply elem_of_map_to_list.
Qed.

Lemma release_where_abs order f m w :
  is_order order →
  abs (release_all f_Close (ids_where order f m) m w).1.2
  = filter (λ x, f x.2 = false) (abs m).
Proof.
  intros Hord. apply map_eq. intros id. rewrite release_all_abs.
  destruct (decide _) as [H|H]; rewrite elem_of_ids_where in H by done; symmetry.
  - destruct H as (o & Ho & Hf). apply map_lookup_filter_None. right.
    intros o' Ho'. simplify_eq. simpl. congruence.
  - destruct (abs m !! id) as [o|] eqn:E.
    + apply map_lookup_filter_Some. split; [done|]. simpl. destruct (f o) eqn:Ef; [|done].
      exfalso. eauto.
    + apply map_lookup_filter_None. by left.
Qed.

Lemma NoDup_ids_where order f m : is_order order → NoDup (ids_where order f m).
Proof.
  intros Hord. unfold ids_where. apply NoDup_ListNoDup, List.NoDup_filter, NoDup_ListNoDup.
  rewrite (Hord _). apply NoDup_fst_map_to_list.
Qed.

Definition close_all (os : list (OpenFile F)) (w : W) : W :=
  foldl (λ w o, (close_file f_Close (Some o) w).2) w os.

Lemma release_all_world ids m w :
  NoDup ids →
  (release_all f_Close ids m w).2 = close_all (omap (λ id, abs m !! id) ids) w.
Proof.
  intros Hnd. revert m w; induction Hnd as [|id ids Hid _ IH]; intros m w; [done|].
  cbn [release_all]. destruct (Release_unlink id m w) as (e & w' & -> & Hcl).
  specialize (IH (unlink id m).2 w').
  destruct (release_all _ _ _ _) as [[errs m2] w2]. simpl in *. subst w2.
  assert (omap (λ i, abs (unlink id m).2 !! i) ids = omap (λ i, abs m !! i) ids) as ->.
  { apply list_omap_ext, Forall2_same_length_lookup_2 with (l := ids) (k := ids); [done|].
    intros i x y ? ?; simplify_eq. rewrite (proj2 (unlink_spec id m)).
    rewrite lookup_delete_ne; [done|]. intros <-. by eapply Hid, list_elem_of_lookup_2. }
  destruct (abs m !! id) as [o|] eqn:E; simpl.
  - unfold close_all. cbn [foldl]. by rewrite <-Hcl.
  - by injection Hcl as _ ->.
Qed.

Lemma omap_ids_where order f m :
  is_order order →
  omap (λ id, abs m !! id) (ids_where order f m)
  ≡ₚ (map_to_list (filter (λ x, f x.2 = true) (abs m))).*2.
Proof.
  intros Hord.
  assert (ids_where order f m ≡ₚ (map_to_list (filter (λ x, f x.2 = true) (abs m))).*1) as ->.
  { apply NoDup_Permutation;
      [by apply NoDup_ids_where|apply NoDup_fst_map_to_list|].
    intros id. rewrite elem_of_ids_where by done. rewrite list_elem_of_fmap. split.
    - intros (o & Ho & Hf). exists (id, o). split; [done|].
      apply elem_of_map_to_list, map_lookup_filter_Some. done.
    - intros ([id' o] & -> & [Ho Hf]%elem_of_map_to_list%map_lookup_filter_Some). eauto. }
  assert (∀ i o, (i, o) ∈ map_to_list (filter (λ x, f x.2 = true) (abs m)) → abs m !! i = Some o) as H.
  { intros i o Hio%elem_of_map_to_list. by apply map_lookup_filter_Some in Hio as [? _]. }
  induction (map_to_list _) as [|[i o] l IH]; [done|]. simpl.
  rewrite (H i o) by set_solver. simpl. constructor. apply IH. intros. apply H. set_solver.
Qed.

(** *** Share modes *)

Lemma CheckShareAccess_iff path a sh m :
  hm_wf m → CheckShareAccess path a sh m = true ↔ spec_CheckShareAccess path a sh (abs m).
Proof.
  intros Hwf. unfold CheckShareAccess, spec_CheckShareAccess.
  rewrite forallb_forall. setoid_rewrite <-list_elem_of_In. split.
  - intros H id o (p & Hl & <-)%abs_live Hpath; [|done].
    assert (p ∈ at_path m path) as Hp by (apply (wf_byPath m Hwf); eauto).
    specialize (H p Hp). by rewrite (proj1 Hl) in H.
  - intros H p (o & Hl & Hpath)%(wf_byPath m Hwf). rewrite (proj1 Hl).
    apply (H (of_ID o)); [|done]. apply abs_live; eauto.
Qed.

Lemma checkShareCompatibility_sym a1 s1 a2 s2 :
  checkShareCompatibility a1 s1 a2 s2 = checkShareCompatibility a2 s2 a1 s1.
Proof.
  unfold checkShareCompatibility.
  repeat match goal with |- context [has_flag ?x ?y] => destruct (has_flag x y) end; done.
Qed.

Lemma checkShareCompatibility_agree a1 s1 a2 s2 :
  checkShareCompatibility a1 s1 a2 s2 = true ↔ agree a1 s1 a2 s2.
Proof.
  unfold agree.
  assert (∀ s a, permits s a ↔
    (has_flag a FILE_READ_DATA && negb (has_flag s FILE_SHARE_READ))
    || (has_flag a FILE_WRITE_DATA && negb (has_flag s FILE_SHARE_WRITE))
    || (has_flag a DELETE && negb (has_flag s FILE_SHARE_DELETE)) = false) as Hp.
  { intros s a. change FILE_READ_DATA with (2 ^ 0). change FILE_WRITE_DATA with (2 ^ 1). change DELETE with (2 ^ 16).
    change FILE_SHARE_READ with (2 ^ 0). change FILE_SHARE_WRITE with (2 ^ 1). change FILE_SHARE_DELETE with (2 ^ 2).
    rewrite !has_flag_bit by lia. unfold permits. rewrite !orb_false_iff, !andb_false_iff, !negb_false_iff. split.
    - intros Hs. pose proof (Hs 0 0 ltac:(set_solver)). pose proof (Hs 1 1 ltac:(set_solver)).
      pose proof (Hs 16 2 ltac:(set_solver)).
      destruct (Z.testbit a 0), (Z.testbit a 1), (Z.testbit a 16); auto.
    - intros Hs right grant Hin. repeat (apply elem_of_cons in Hin as [[= -> ->]|Hin]; [intuition congruence|]).
      by apply not_elem_of_nil in Hin. }
  rewrite !Hp. unfold checkShareCompatibility.
  repeat match goal with |- context [?x && negb ?y] => destruct (x && negb y) end; simpl; intuition congruence.
Qed.

Lemma shares_ok_insert opens id (o : OpenFile F) :
  shares_ok opens → opens !! id = None →
  spec_CheckShareAccess (of_Path o) (of_Access o) (of_ShareAccess o) opens →
  shares_ok (<[id := o]> opens).
Proof.
  intros Hs Hid Hc id1 id2 o1 o2 H1 H2 Hne Hp.
  apply lookup_insert_Some in H1 as [[<- <-]|[Hn1 H1]];
    apply lookup_insert_Some in H2 as [[<- <-]|[Hn2 H2]]; [done|..].
  - by eapply Hc.
  - unfold compatible_with. rewrite checkShareCompatibility_sym. by eapply (Hc id1).
  - by eapply Hs.
Qed.

Lemma shares_ok_subseteq (o1 o2 : gmap FileID (OpenFile F)) :
  o1 ⊆ o2 → shares_ok o2 → shares_ok o1.
Proof.
  intros Hsub Hs id1 id2 x y H1 H2. eapply Hs; by eapply lookup_weaken.
Qed.

(** Updates that keep the path and the modes. *)
Lemma shares_ok_alter (f : OpenFile F → OpenFile F) id opens :
  (∀ o, of_Path (f o) = of_Path o ∧ of_Access (f o) = of_Access o ∧ of_ShareAccess (f o) = of_ShareAccess o) →
  shares_ok opens → shares_ok (alter f id opens).
Proof.
  intros Hf Hs.
  assert (∀ i o, alter f id opens !! i = Some o → ∃ o0, opens !! i = Some o0 ∧ of_Path o = of_Path o0
    ∧ of_Access o = of_Access o0 ∧ of_ShareAccess o = of_ShareAccess o0) as Hl.
  { intros i o. destruct (decide (i = id)) as [->|Hne].
    - rewrite lookup_alter_eq. destruct (opens !! id) as [o0|]; [|done]. intros [= <-]. exists o0. split; [done|apply Hf].
    - rewrite lookup_alter_ne by done. eauto. }
  intros id1 id2 o1 o2 (x & Hx & Px & Ax & Sx)%Hl (y & Hy & Py & Ay & Sy)%Hl Hne Hp.
  unfold compatible_with. rewrite Ax, Sx, Ay, Sy. eapply (Hs id1 id2); [done..|congruence].
Qed.
End handle_map_lemmas.

(* ------------------------------------------------------------------ *)
(** ** Traces of operations *)

Section handle_map_traces.
Context {F W : Type}.
Variable f_Close : F → W → option error * W.
Implicit Types m : FileHandleMap F.

(** The state-changing operations, with their inputs. *)
Inductive hop :=
| OpAllocate (random : option Z) (now : Z) (file : option F) (path : gostring) (isDir : bool)
    (access shareAccess disposition options treeID sessionID : Z)
| OpRelease (id : FileID)
| OpReleaseBySession (order : list FileID → list FileID) (sessionID : Z)
| OpReleaseByTree (order : list FileID → list FileID) (treeID sessionID : Z)
| OpUpdateLastAccess (now : Z) (id : FileID)
| OpSetDeleteOnClose (id : FileID) (b : bool).

Definition run_op (op : hop) (m : FileHandleMap F) (w : W) : FileHandleMap F * W :=
  match op with
  | OpAllocate random now file path isDir a sh disp opt t sid =>
    ((Allocate random now file path isDir a sh disp opt t sid m).2, w)
  | OpRelease id => let '(_, m, w) := Release f_Close id m w in (m, w)
  | OpReleaseBySession order sid => let '(_, m, w) := ReleaseBySession f_Close order sid m w in (m, w)
  | OpReleaseByTree order t sid => let '(_, m, w) := ReleaseByTree f_Close order t sid m w in (m, w)
  | OpUpdateLastAccess now id => (UpdateLastAccess now id m, w)
  | OpSetDeleteOnClose id b => (SetDeleteOnClose id b m, w)
  end.

(** The same operations on the abstract map; [n] is the next volatile id. *)
Definition spec_op (op : hop) (n : Z) (opens : gmap FileID (OpenFile F))
    : gmap FileID (OpenFile F) :=
  match op with
  | OpAllocate random now file path isDir a sh disp opt t sid =>
    let id := mkFileID (default 0 random) n in
    <[id := mkOpenFile id file path isDir a sh disp opt now now t sid false]> opens
  | OpRelease id => delete id opens
  | OpReleaseBySession _ sid => filter (λ x, (of_SessionID x.2 =? sid) = false) opens
  | OpReleaseByTree _ t sid =>
    filter (λ x, (of_TreeID x.2 =? t) && (of_SessionID x.2 =? sid) = false) opens
  | OpUpdateLastAccess now id => alter (set_LastAccess now) id opens
  | OpSetDeleteOnClose id b => alter (set_DeleteOnClose b) id opens
  end.

Definition next_id (op : hop) (n : Z) : Z :=
  match op with OpAllocate _ _ _ _ _ _ _ _ _ _ _ => n + 1 | _ => n end.

Definition op_ok (op : hop) : Prop :=
  match op with
  | OpReleaseBySession order _ | OpReleaseByTree order _ _ => is_order order
  | _ => True
  end.

Fixpoint run_ops (ops : list hop) (m : FileHandleMap F) (w : W) : FileHandleMap F * W :=
  match ops with
  | [] => (m, w)
  | op :: ops => let '(m, w) := run_op op m w in run_ops ops m w
  end.

Fixpoint spec_ops (ops : list hop) (n : Z) (opens : gmap FileID (OpenFile F))
    : gmap FileID (OpenFile F) :=
  match ops with
  | [] => opens
  | op :: ops => spec_ops ops (next_id op n) (spec_op op n opens)
  end.

Lemma hm_nextHandle_unlink id m : hm_nextHandle (unlink id m).2 = hm_nextHandle m.
Proof. unfold unlink. by destruct (_ ≫= _). Qed.

Lemma hm_nextHandle_release_all ids m w :
  hm_nextHandle (release_all f_Close ids m w).1.2 = hm_nextHandle m.
Proof.
  revert m w; induction ids as [|id ids IH]; intros m w; cbn [release_all]; [done|].
  destruct (Release_unlink f_Close id m w) as (e & w' & -> & _).
  specialize (IH (unlink id m).2 w'). rewrite hm_nextHandle_unlink in IH.
  destruct (release_all _ _ _ _) as [[errs m2] w2]. done.
Qed.

Lemma set_LastAccess_keeps t : keeps_key (F := F) (set_LastAccess t).
Proof. done. Qed.
Lemma set_DeleteOnClose_keeps b : keeps_key (F := F) (set_DeleteOnClose b).
Proof. done. Qed.

Lemma update_handle_refines (f : OpenFile F → OpenFile F) id m :
  keeps_key f → hm_wf m →
  let m' := match hm_handles m !! id with Some p => update p f m | None => m end in
  hm_wf m' ∧ abs m' = alter f id (abs m) ∧ hm_nextHandle m' = hm_nextHandle m.
Proof.
  intros Hf Hwf. destruct (hm_handles m !! id) as [p|] eqn:E; simpl.
  - split; [by apply update_wf|]. split; [by apply update_abs|done].
  - split; [done|]. split; [|done]. apply map_eq. intros id'.
    destruct (decide (id' = id)) as [->|Hne]; [|by rewrite lookup_alter_ne].
    rewrite lookup_alter_eq. by rewrite lookup_abs, E.
Qed.

Lemma run_op_refines op m w :
  hm_wf m → op_ok op → hm_nextHandle m + 1 < 2 ^ 64 →
  let m' := (run_op op m w).1 in
  hm_wf m' ∧ abs m' = spec_op op (hm_nextHandle m) (abs m)
  ∧ hm_nextHandle m' = next_id op (hm_nextHandle m).
Proof.
  intros Hwf Hop Hn. pose proof (wf_next m Hwf).
  destruct op as [random now file path isDir a sh disp opt t sid|id|order sid|order t sid|now id|id b];
    cbn [run_op spec_op next_id op_ok] in *.
  - split; [by apply Allocate_wf|]. split; [by apply Allocate_abs|]. simpl. apply u64_small. lia.
  - destruct (Release_unlink f_Close id m w) as (e & w' & -> & _). simpl.
    split; [by apply unlink_wf|]. split; [apply unlink_spec|apply hm_nextHandle_unlink].
  - pose proof (release_where_abs f_Close order (λ o, of_SessionID o =? sid) m w Hop) as Ha.
    pose proof (release_all_wf f_Close (ids_where order (λ o, of_SessionID o =? sid) m) m w Hwf) as Hw.
    pose proof (hm_nextHandle_release_all (ids_where order (λ o, of_SessionID o =? sid) m) m w).
    unfold ReleaseBySession. destruct (release_all _ _ _ _) as [[errs m2] w2]. done.
  - set (f := λ o : OpenFile F, (of_TreeID o =? t) && (of_SessionID o =? sid)).
    pose proof (release_where_abs f_Close order f m w Hop) as Ha.
    pose proof (release_all_wf f_Close (ids_where order f m) m w Hwf) as Hw.
    pose proof (hm_nextHandle_release_all (ids_where order f m) m w).
    unfold ReleaseByTree. fold f. destruct (release_all _ _ _ _) as [[errs m2] w2]. done.
  - apply update_handle_refines; auto using set_LastAccess_keeps.
  - apply update_handle_refines; auto using set_DeleteOnClose_keeps.
Qed.

(* ---------------------------------------------------------------- *)
(** ** Properties *)

(** C6: the handle map implements the finite map from file ids to open
    files: from the empty map, any sequence of allocations, releases (of one
    handle, a tree or a session, in any map iteration order) and updates
    keeps the representation invariant (the path index holds exactly the
    live handles of each path, each once) and gives the contents the
    abstract operations give, as long as the 64-bit counter has room. *)
Theorem handle_map_refines ops m w :
  hm_wf m → Forall op_ok ops → hm_nextHandle m + len ops < 2 ^ 64 →
  hm_wf (run_ops ops m w).1
  ∧ abs (run_ops ops m w).1 = spec_ops ops (hm_nextHandle m) (abs m).
Proof.
  intros Hwf Hops. revert m w Hwf; induction Hops as [|op ops Hop _ IH]; intros m w Hwf Hn; [done|].
  rewrite len_cons in Hn. pose proof (len_nonneg ops).
  destruct (run_op_refines op m w Hwf Hop) as (Hwf' & Habs & Hnext); [lia|].
  cbn [run_ops spec_ops]. destruct (run_op op m w) as [m' w']. simpl in *.
  rewrite <-Habs, <-Hnext. apply IH; [done|]. rewrite Hnext. destruct op; simpl; lia.
Qed.

(** A handle is only reachable from the session and tree it was opened
    on: [GetByTree] finds exactly the open file of that id whose session and
    tree are the caller's, and [GetBySession] the one of the caller's session. *)
Theorem handle_isolation m id t sid p :
  hm_wf m →
  (GetByTree id t sid m = Some p ↔
    ∃ o, live m p o ∧ of_ID o = id ∧ of_TreeID o = t ∧ of_SessionID o = sid)
  ∧ (GetBySession id sid m = Some p ↔
    ∃ o, live m p o ∧ of_ID o = id ∧ of_SessionID o = sid).
Proof.
  intros Hwf. unfold GetByTree, GetBySession, live.
  destruct (hm_handles m !! id) as [q|] eqn:E; simpl.
  - destruct (wf_handles m Hwf _ _ E) as (o & Ho & Hid & _). rewrite Ho. simpl.
    destruct (Z.eqb_spec (of_TreeID o) t), (Z.eqb_spec (of_SessionID o) sid); simpl;
      split; split; naive_solver congruence.
  - split; split; naive_solver congruence.
Qed.

(** Ending a session releases its handles and no others, and closes
    each of its files exactly once, whatever order the map is iterated in. *)
Theorem ReleaseBySession_complete order sid m w :
  hm_wf m → is_order order →
  let '(errs, m', w') := ReleaseBySession f_Close order sid m w in
  hm_wf m'
  ∧ abs m' = filter (λ x, (of_SessionID x.2 =? sid) = false) (abs m)
  ∧ ∃ closed, closed ≡ₚ (map_to_list (filter (λ x, (of_SessionID x.2 =? sid) = true) (abs m))).*2
      ∧ w' = close_all f_Close closed w.
Proof.
  intros Hwf Hord. set (f := λ o : OpenFile F, of_SessionID o =? sid).
  pose proof (release_where_abs f_Close order f m w Hord) as Ha.
  pose proof (release_all_wf f_Close (ids_where order f m) m w Hwf) as Hw.
  pose proof (release_all_world f_Close _ m w (NoDup_ids_where order f m Hord)) as Hc.
  unfold ReleaseBySession. fold f. destruct (release_all _ _ _ _) as [[errs m2] w2].
  split; [done|]. split; [done|]. eexists. split; [by apply (omap_ids_where order f m)|done].
Qed.

(** An operation as the server asks for it: an open is refused unless
    [CheckShareAccess] admits it. *)
Definition run_checked (op : hop) (m : FileHandleMap F) (w : W) : FileHandleMap F * W :=
  match op with
  | OpAllocate _ _ _ path _ a sh _ _ _ _ => if CheckShareAccess path a sh m then run_op op m w else (m, w)
  | _ => run_op op m w
  end.

Fixpoint run_checked_ops (ops : list hop) (m : FileHandleMap F) (w : W) : FileHandleMap F * W :=
  match ops with
  | [] => (m, w)
  | op :: ops => let '(m, w) := run_checked op m w in run_checked_ops ops m w
  end.

Lemma run_checked_ok op m w :
  hm_wf m → op_ok op → hm_nextHandle m + 1 < 2 ^ 64 → shares_ok (abs m) →
  let m' := (run_checked op m w).1 in
  hm_wf m' ∧ shares_ok (abs m') ∧ hm_nextHandle m' ≤ hm_nextHandle m + 1.
Proof.
  intros Hwf Hop Hn Hs. destruct (run_op_refines op m w Hwf Hop Hn) as (Hwf' & Habs & Hnext).
  assert ((∀ random now file path isDir a sh disp opt t sid, op = OpAllocate random now file path isDir a sh disp opt t sid →
      CheckShareAccess path a sh m = true) →
    shares_ok (abs (run_op op m w).1) ∧ hm_nextHandle (run_op op m w).1 ≤ hm_nextHandle m + 1) as Hrun.
  { intros Hc. rewrite Habs, Hnext.
    destruct op as [random now file path isDir a sh disp opt t sid|id|order sid|order t sid|now id|id b];
      cbn [spec_op next_id]; (split; [|lia]).
    - specialize (Hc _ _ _ _ _ _ _ _ _ _ _ eq_refl). rewrite CheckShareAccess_iff in Hc by done.
      destruct (Allocate_abs random now file path isDir a sh disp opt t sid m Hwf) as [_ Hf]. by apply shares_ok_insert.
    - eapply shares_ok_subseteq; [apply delete_subseteq|done].
    - eapply shares_ok_subseteq; [apply map_filter_subseteq|done].
    - eapply shares_ok_subseteq; [apply map_filter_subseteq|done].
    - by apply shares_ok_alter.
    - by apply shares_ok_alter. }
  destruct op as [random now file path isDir a sh disp opt t sid| | | | |]; cbn [run_checked] in *;
    try (split; [done|]; by apply Hrun; intros; discriminate).
  destruct (CheckShareAccess path a sh m) eqn:Ec; [|split_and!; [done|done|simpl; lia]].
  split; [done|]. apply Hrun. intros. congruence.
Qed.

Lemma run_checked_ops_ok ops m w :
  hm_wf m → Forall op_ok ops → hm_nextHandle m + len ops < 2 ^ 64 → shares_ok (abs m) →
  hm_wf (run_checked_ops ops m w).1 ∧ shares_ok (abs (run_checked_ops ops m w).1).
Proof.
  intros Hwf Hops. revert m w Hwf; induction Hops as [|op ops Hop _ IH]; intros m w Hwf Hn Hs; [done|].
  rewrite len_cons in Hn. pose proof (len_nonneg ops).
  destruct (run_checked_ok op m w Hwf Hop) as (Hwf' & Hs' & Hnext); [lia|done|].
  cbn [run_checked_ops]. destruct (run_checked op m w) as [m' w']. simpl in *. apply IH; [done|lia|done].
Qed.

(** C37: the share-mode check is complete and keeps the share modes
    consistent.  From the empty map, after any sequence of operations in which
    every open is checked and allocated in one step: [CheckShareAccess]
    accepts an open exactly if it and every open handle of that path permit
    each other what they ask for (reading, writing, deleting), and any two
    open handles of a path do.  (The 64-bit counter has room; the operations
    are those of the map, without the assignment of [of.Path] by a rename.
    The server checks and allocates in two critical sections; what can happen
    between them is [interleaved_opens_conflict].) *)
Theorem checked_open_keeps_shares ops w :
  Forall op_ok ops → 1 + len ops < 2 ^ 64 →
  let m := (run_checked_ops ops NewFileHandleMap w).1 in
  (∀ path a sh, CheckShareAccess path a sh m = true ↔
     ∀ id o, abs m !! id = Some o → of_Path o = path → agree a sh (of_Access o) (of_ShareAccess o))
  ∧ (∀ id1 id2 o1 o2, abs m !! id1 = Some o1 → abs m !! id2 = Some o2 → id1 ≠ id2 → of_Path o1 = of_Path o2 →
       agree (of_Access o1) (of_ShareAccess o1) (of_Access o2) (of_ShareAccess o2)).
Proof.
  intros Hops Hn m.
  destruct (run_checked_ops_ok ops NewFileHandleMap w NewFileHandleMap_wf Hops Hn) as [Hwf Hs];
    [by intros id1 id2 o1 o2; rewrite lookup_abs; unfold NewFileHandleMap; simpl; rewrite lookup_empty|].
  split.
  - intros path a sh. rewrite CheckShareAccess_iff by done. unfold spec_CheckShareAccess, compatible_with.
    split; intros Hc id o Ho Hp; apply checkShareCompatibility_agree; by eapply Hc.
  - intros id1 id2 o1 o2 H1 H2 Hne Hp. apply checkShareCompatibility_agree. by eapply (Hs id1 id2).
Qed.
End handle_map_traces.

(* ------------------------------------------------------------------ *)
(** ** Witnesses: files are numbers, the world is the log of closed files *)

Definition log_close (f : nat) (w : list nat) : option error * list nat := (None, w ++ [f]).

Definition sample_open (path : string) (f : nat) (sid : Z) : hop (F := nat) :=
  OpAllocate (Some 77) 5 (Some f) (str path) false FILE_READ_DATA FILE_SHARE_READ 1 0 3 sid.

Definition sample_map : FileHandleMap nat :=
  (run_ops log_close [sample_open "/a" 1 10; sample_open "/a" 2 11] NewFileHandleMap []).1.

Lemma sample_map_wf : hm_wf sample_map.
Proof.
  refine (proj1 (run_op_refines log_close (sample_open "/a" 2 11) _ [] _ _ _)); [|done|by vm_compute].
  refine (proj1 (run_op_refines log_close (sample_open "/a" 1 10) _ [] _ _ _)); [|done|by vm_compute].
  apply NewFileHandleMap_wf.
Qed.

Lemma handle_map_refines_witness :
  hm_wf (run_ops log_close
    [sample_open "/a" 1 10; sample_open "/b" 2 11; OpRelease (mkFileID 77 1);
     OpReleaseBySession (λ l, l) 11] NewFileHandleMap []).1
  ∧ abs (run_ops log_close
    [sample_open "/a" 1 10; sample_open "/b" 2 11; OpRelease (mkFileID 77 1);
     OpReleaseBySession (λ l, l) 11] NewFileHandleMap []).1 = ∅.
Proof.
  refine (handle_map_refines log_close _ NewFileHandleMap [] NewFileHandleMap_wf _ _);
    [|by vm_compute].
  repeat (constructor; [first [exact I | by intros l]|]). constructor.
Defined.

Lemma handle_isolation_witness :
  GetByTree (mkFileID 77 2) 3 11 sample_map = Some 1%nat
  ∧ GetByTree (mkFileID 77 2) 3 10 sample_map = None
  ∧ (∃ o, live sample_map 1 o ∧ of_ID o = mkFileID 77 2 ∧ of_TreeID o = 3 ∧ of_SessionID o = 11).
Proof.
  split; [by vm_compute|]. split; [by vm_compute|].
  apply (handle_isolation sample_map (mkFileID 77 2) 3 11 1 sample_map_wf). by vm_compute.
Defined.

Lemma ReleaseBySession_complete_witness :
  let '(errs, m', w') := ReleaseBySession log_close (@rev FileID) 11 sample_map [] in
  hm_wf m'
  ∧ abs m' = filter (λ x, (of_SessionID x.2 =? 11) = false) (abs sample_map)
  ∧ ∃ closed, closed ≡ₚ (map_to_list (filter (λ x, (of_SessionID x.2 =? 11) = true) (abs sample_map))).*2
      ∧ w' = close_all log_close closed [].
Proof.
  apply (ReleaseBySession_complete log_close (@rev FileID) 11 sample_map []); [exact sample_map_wf|].
  intros l. symmetry. apply Permutation_rev.
Defined.

(** A reader that shares reading, a writer (refused), a second reader. *)
Definition sample_opens : list (hop (F := nat)) :=
  [sample_open "/a" 1 10;
   OpAllocate (Some 78) 5 (Some 2%nat) (str "/a") false FILE_WRITE_DATA FILE_SHARE_READ 1 0 3 11;
   sample_open "/a" 3 12].

Lemma checked_open_keeps_shares_witness :
  let m := (run_checked_ops log_close sample_opens NewFileHandleMap []).1 in
  size (abs m) = 2%nat
  ∧ ∃ o1 o2, abs m !! mkFileID 77 1 = Some o1 ∧ abs m !! mkFileID 77 2 = Some o2
      ∧ agree (of_Access o1) (of_ShareAccess o1) (of_Access o2) (of_ShareAccess o2).
Proof.
  intros m. split; [by vm_compute|].
  destruct (abs m !! mkFileID 77 1) as [o1|] eqn:E1; [|exfalso; by vm_compute in E1].
  destruct (abs m !! mkFileID 77 2) as [o2|] eqn:E2; [|exfalso; by vm_compute in E2].
  exists o1, o2. split; [reflexivity|]. split; [reflexivity|].
  refine (proj2 (checked_open_keeps_shares log_close sample_opens [] _ _) (mkFileID 77 1) (mkFileID 77 2) o1 o2 E1 E2 _ _).
  - repeat (constructor; [exact I|]). constructor.
  - by vm_compute.
  - done.
  - vm_compute in E1, E2. injection E1 as <-. injection E2 as <-. reflexivity.
Defined.

(** Check and allocation are two critical sections, so two opens of one
    path that both check before either allocates leave two conflicting
    handles: an exclusive open does not exclude a concurrent one. *)
Theorem interleaved_opens_conflict :
  ∃ m1 m2 : FileHandleMap nat,
    let open f m := (Allocate (Some f) 0 (Some (Z.to_nat f)) (str "/a") false FILE_WRITE_DATA 0
                       1 0 3 10 m).2 in
    m1 = open 1 NewFileHandleMap ∧ m2 = open 2 m1
    ∧ CheckShareAccess (str "/a") FILE_WRITE_DATA 0 (@NewFileHandleMap nat) = true
    ∧ CheckShareAccess (str "/a") FILE_WRITE_DATA 0 m1 = false
    ∧ hm_wf m2 ∧ ¬ shares_ok (abs m2).
Proof.
  eexists _, _. cbv zeta. split; [reflexivity|]. split; [reflexivity|].
  split; [by vm_compute|]. split; [by vm_compute|]. split.
  - apply Allocate_wf; [|by vm_compute]. apply Allocate_wf; [|by vm_compute].
    apply NewFileHandleMap_wf.
  - intros H. specialize (H (mkFileID 1 1) (mkFileID 2 2)).
    set (o f id := mkOpenFile (F := nat) (mkFileID f id) (Some (Z.to_nat f)) (str "/a") false
      FILE_WRITE_DATA 0 1 0 0 0 3 10 false).
    specialize (H (o 1 1) (o 2 2)). discriminate H; by vm_compute.
Qed.

(** A rename through an open handle changes [of.Path] but not the path
    index, so the release looks the handle up under the new path: the entry
    under the old path stays, and an exclusive open there is refused for ever
    although no file is open. *)
Theorem rename_leaves_stale_path :
  let m := (Allocate (F := nat) (Some 1) 0 (Some 1%nat) (str "/a") false FILE_READ_DATA 0 1 0 3 10
              NewFileHandleMap).2 in
  let m' := (unlink (mkFileID 1 1) (update 0 (set_Path (str "/b")) m)).2 in
  abs m' = ∅ ∧ Count m' = 0
  ∧ CheckShareAccess (str "/a") FILE_READ_DATA FILE_SHARE_READ m' = false
  ∧ ¬ hm_wf m'.
Proof.
  cbv zeta. split; [by vm_compute|]. split; [by vm_compute|].
  assert (CheckShareAccess (str "/a") FILE_READ_DATA FILE_SHARE_READ
    (unlink (mkFileID 1 1) (update 0 (set_Path (str "/b")) (Allocate (F := nat) (Some 1) 0 (Some 1%nat)
      (str "/a") false FILE_READ_DATA 0 1 0 3 10 NewFileHandleMap).2)).2 = false) as Hc by by vm_compute.
  split; [done|]. intros Hwf. apply not_true_iff_false in Hc. apply Hc, CheckShareAccess_iff; [done|].
  assert (abs (unlink (mkFileID 1 1) (update 0 (set_Path (str "/b")) (Allocate (F := nat) (Some 1) 0
    (Some 1%nat) (str "/a") false FILE_READ_DATA 0 1 0 3 10 NewFileHandleMap).2)).2 = ∅) as -> by by vm_compute.
  apply map_Forall_empty.
Qed.
