(* ===== verification/Attributes.v ===== *)
(** * Windows file attributes

    Models [attributes.go]: the [WindowsAttributes] accessors and the
    conversions between attributes and [fs.FileMode]. *)

From stdpp Require Import base numbers list strings.
From S2P Require Import Prelude Constants Path.

Open Scope Z_scope.

(** The mode bits of [io/fs]. *)
Definition ModeDir : Z := 2 ^ 31.
Definition ModeSymlink : Z := 2 ^ 27.
Definition ModeDevice : Z := 2 ^ 26.
Definition ModeNamedPipe : Z := 2 ^ 25.
Definition ModeSocket : Z := 2 ^ 24.
Definition ModeCharDevice : Z := 2 ^ 21.
Definition ModeIrregular : Z := 2 ^ 19.
Definition ModeType : Z :=
  Z.lor ModeDir (Z.lor ModeSymlink (Z.lor ModeNamedPipe (Z.lor ModeSocket
    (Z.lor ModeDevice (Z.lor ModeCharDevice ModeIrregular))))).

(** The octal permission literals of the source. *)
Definition perm_666 : Z := 0x1b6.
Definition perm_444 : Z := 0x124.
Definition perm_555 : Z := 0x16d.
Definition perm_777 : Z := 0x1ff.
Definition perm_222 : Z := 0x92.

Definition Mode_IsDir (m : Z) : bool := has_flag m ModeDir.
Definition Mode_IsRegular (m : Z) : bool := Z.land m ModeType =? 0.

(** [WindowsAttributes] is its [attrs] field. *)
Definition WindowsAttributes := Z.

Definition IsHidden (wa : WindowsAttributes) : bool := has_flag wa FILE_ATTRIBUTE_HIDDEN.
Definition IsSystem (wa : WindowsAttributes) : bool := has_flag wa FILE_ATTRIBUTE_SYSTEM.
Definition IsReadOnly (wa : WindowsAttributes) : bool := has_flag wa FILE_ATTRIBUTE_READONLY.
Definition IsArchive (wa : WindowsAttributes) : bool := has_flag wa FILE_ATTRIBUTE_ARCHIVE.
Definition IsTemporary (wa : WindowsAttributes) : bool := has_flag wa FILE_ATTRIBUTE_TEMPORARY.
Definition IsSparse (wa : WindowsAttributes) : bool := has_flag wa FILE_ATTRIBUTE_SPARSE_FILE.
Definition IsReparsePoint (wa : WindowsAttributes) : bool := has_flag wa FILE_ATTRIBUTE_REPARSE_POINT.
Definition IsCompressed (wa : WindowsAttributes) : bool := has_flag wa FILE_ATTRIBUTE_COMPRESSED.
Definition IsOffline (wa : WindowsAttributes) : bool := has_flag wa FILE_ATTRIBUTE_OFFLINE.
Definition IsEncrypted (wa : WindowsAttributes) : bool := has_flag wa FILE_ATTRIBUTE_ENCRYPTED.

(** The common body of the setters. *)
Definition set_attr (flag : Z) (on : bool) (wa : WindowsAttributes) : WindowsAttributes :=
  if on then Z.lor wa flag else andnot wa flag.

Definition SetHidden : bool → WindowsAttributes → WindowsAttributes := set_attr FILE_ATTRIBUTE_HIDDEN.
Definition SetSystem : bool → WindowsAttributes → WindowsAttributes := set_attr FILE_ATTRIBUTE_SYSTEM.
Definition SetReadOnly : bool → WindowsAttributes → WindowsAttributes := set_attr FILE_ATTRIBUTE_READONLY.
Definition SetArchive : bool → WindowsAttributes → WindowsAttributes := set_attr FILE_ATTRIBUTE_ARCHIVE.

Definition Attributes_String (wa : WindowsAttributes) : gostring :=
  let add (b : bool) (n : string) := if b then [str n] else [] in
  let attrs :=
    add (IsReadOnly wa) "ReadOnly" ++ add (IsHidden wa) "Hidden" ++ add (IsSystem wa) "System"
    ++ add (IsArchive wa) "Archive" ++ add (IsTemporary wa) "Temporary" ++ add (IsSparse wa) "Sparse"
    ++ add (IsReparsePoint wa) "ReparsePoint" ++ add (IsCompressed wa) "Compressed"
    ++ add (IsOffline wa) "Offline" ++ add (IsEncrypted wa) "Encrypted" in
  match attrs with
  | [] => str "Normal"
  | a :: rest => a ++ concat (map (λ x, str ", " ++ x) rest)
  end.

(** [GetWindowsAttributes]: [infoEx] is the method of [FileInfoEx] applied,
    when the file information has it. *)
Definition GetWindowsAttributes (infoEx : option (option WindowsAttributes)) : option WindowsAttributes :=
  match infoEx with Some attrs => attrs | None => None end.

Definition attributesToMode (attrs : Z) (isDir : bool) : Z :=
  let mode := perm_666 in
  let mode := if has_flag attrs FILE_ATTRIBUTE_READONLY then perm_444 else mode in
  let mode :=
    if isDir || has_flag attrs FILE_ATTRIBUTE_DIRECTORY then
      if has_flag attrs FILE_ATTRIBUTE_READONLY then Z.lor ModeDir perm_555 else Z.lor ModeDir perm_777
    else mode in
  let mode := if has_flag attrs FILE_ATTRIBUTE_REPARSE_POINT then Z.lor mode ModeSymlink else mode in
  if has_flag attrs FILE_ATTRIBUTE_DEVICE then Z.lor mode ModeDevice else mode.

Definition modeToAttributes (mode : Z) : Z :=
  let attrs := FILE_ATTRIBUTE_NORMAL in
  let attrs := if Z.land mode perm_222 =? 0 then Z.lor attrs FILE_ATTRIBUTE_READONLY else attrs in
  let attrs := if Mode_IsDir mode then Z.lor attrs FILE_ATTRIBUTE_DIRECTORY else attrs in
  let attrs := if has_flag mode ModeSymlink then Z.lor attrs FILE_ATTRIBUTE_REPARSE_POINT else attrs in
  let attrs := if has_flag mode ModeDevice then Z.lor attrs FILE_ATTRIBUTE_DEVICE else attrs in
  if Mode_IsRegular mode then Z.lor attrs FILE_ATTRIBUTE_ARCHIVE else attrs.

(* ------------------------------------------------------------------ *)
(** ** Lemmas *)

Lemma has_flag_set_attr wa on n m :
  0 ≤ n → 0 ≤ m →
  has_flag (set_attr (2 ^ n) on wa) (2 ^ m) = if decide (m = n) then on else has_flag wa (2 ^ m).
Proof.
  intros Hn Hm. rewrite !has_flag_bit by done. unfold set_attr, andnot.
  destruct on; [rewrite Z.lor_spec|rewrite Z.ldiff_spec];
    (destruct (decide (m = n)) as [->|Hne];
     [rewrite Z.pow2_bits_true by done|rewrite Z.pow2_bits_false by lia]);
    by repeat match goal with |- context [Z.testbit wa ?k] => destruct (Z.testbit wa k) end.
Qed.

(* ------------------------------------------------------------------ *)
(** ** Properties *)

(** Converting attributes to a mode and back keeps exactly what the mode
    can express: read-only, directory, reparse point and device survive for
    every attribute word, and a file is marked for archiving exactly when it
    is regular. *)
Theorem attributes_mode_roundtrip attrs isDir :
  let attrs' := modeToAttributes (attributesToMode attrs isDir) in
  has_flag attrs' FILE_ATTRIBUTE_READONLY = has_flag attrs FILE_ATTRIBUTE_READONLY
  ∧ has_flag attrs' FILE_ATTRIBUTE_DIRECTORY = (isDir || has_flag attrs FILE_ATTRIBUTE_DIRECTORY)
  ∧ has_flag attrs' FILE_ATTRIBUTE_REPARSE_POINT = has_flag attrs FILE_ATTRIBUTE_REPARSE_POINT
  ∧ has_flag attrs' FILE_ATTRIBUTE_DEVICE = has_flag attrs FILE_ATTRIBUTE_DEVICE
  ∧ has_flag attrs' FILE_ATTRIBUTE_ARCHIVE
    = negb (isDir || has_flag attrs FILE_ATTRIBUTE_DIRECTORY
            || has_flag attrs FILE_ATTRIBUTE_REPARSE_POINT || has_flag attrs FILE_ATTRIBUTE_DEVICE).
Proof.
  unfold attributesToMode.
  destruct isDir, (has_flag attrs FILE_ATTRIBUTE_READONLY), (has_flag attrs FILE_ATTRIBUTE_DIRECTORY),
    (has_flag attrs FILE_ATTRIBUTE_REPARSE_POINT), (has_flag attrs FILE_ATTRIBUTE_DEVICE);
    vm_compute; done.
Qed.

(** A setter changes its own attribute to the given value and leaves
    every other bit of the word alone. *)
Theorem attribute_setters_exact on wa m :
  0 ≤ m →
  has_flag (SetReadOnly on wa) (2 ^ m) = (if decide (m = 0) then on else has_flag wa (2 ^ m))
  ∧ has_flag (SetHidden on wa) (2 ^ m) = (if decide (m = 1) then on else has_flag wa (2 ^ m))
  ∧ has_flag (SetSystem on wa) (2 ^ m) = (if decide (m = 2) then on else has_flag wa (2 ^ m))
  ∧ has_flag (SetArchive on wa) (2 ^ m) = (if decide (m = 5) then on else has_flag wa (2 ^ m)).
Proof.
  intros Hm. split_and!;
    [exact (has_flag_set_attr wa on 0 m ltac:(lia) Hm)|exact (has_flag_set_attr wa on 1 m ltac:(lia) Hm)
    |exact (has_flag_set_attr wa on 2 m ltac:(lia) Hm)|exact (has_flag_set_attr wa on 5 m ltac:(lia) Hm)].
Qed.

Lemma attribute_setters_exact_witness :
  IsHidden (SetHidden true 0x21) = true ∧ IsArchive (SetHidden true 0x21) = true.
Proof.
  split; [exact (proj1 (proj2 (attribute_setters_exact true 0x21 1 ltac:(lia))))
         |exact (proj1 (proj2 (attribute_setters_exact true 0x21 5 ltac:(lia))))].
Defined.
