(* ===== verification/Cache.v ===== *)
(** * Metadata cache

    Models [cache.go].  The cache is a record of two maps and the access
    order; every operation runs under the cache's lock, so a history of the
    cache is a sequence of operations, each with the clock reading it made.
    The cached values (directory listings, file infos) are type parameters. *)

From stdpp Require Import base numbers list gmap sets fin_maps strings.
From S2P Require Import Prelude Path.

Open Scope Z_scope.

Record CacheConfig := mkCacheConfig {
  EnableCache : bool;
  DirCacheTTL : Z;      (* nanoseconds *)
  StatCacheTTL : Z;
  MaxCacheEntries : Z;
}.

Definition second : Z := 1000000000.

Definition DefaultCacheConfig : CacheConfig := {|
  EnableCache := false; DirCacheTTL := 5 * second; StatCacheTTL := 5 * second;
  MaxCacheEntries := 1000;
|}.

(** The index of the last slash. *)
Fixpoint last_slash (p : gostring) : option nat :=
  match p with
  | [] => None
  | c :: p =>
    match last_slash p with
    | Some i => Some (S i)
    | None => if bool_decide (c = slash) then Some 0%nat else None
    end
  end.

Definition getParentPath (path : gostring) : gostring :=
  if bool_decide (path = [slash]) || bool_decide (path = []) then [slash]
  else match last_slash path with
       | Some 0%nat => [slash]
       | Some i => take i path
       | None => [slash]
       end.

(** The directory a path lies in, on the elements of the path: all but the
    last, and the root when none is left.  The specifications of the cache use
    it; [getParentPath_eq] shows that the scan of the code computes it. *)
Definition parent_dir (path : gostring) : gostring :=
  match join_with slash (removelast (split_on slash path)) with
  | [] => [slash]
  | d => d
  end.

Lemma last_slash_none l : slash ∉ l → last_slash l = None.
Proof.
  induction l as [|x l IH]; intros Hl; [done|]. simpl. rewrite IH by set_solver.
  by rewrite bool_decide_false by set_solver.
Qed.

Lemma last_slash_app a b : slash ∉ b → last_slash (a ++ slash :: b) = Some (length a).
Proof.
  intros Hb. induction a as [|x a IH]; simpl; [by rewrite last_slash_none|]. by rewrite IH.
Qed.

Lemma last_slash_split p : slash ∉ p ∨ ∃ a b, p = a ++ slash :: b ∧ slash ∉ b.
Proof.
  induction p as [|x p [IH|(a & b & -> & Hb)]]; [left; set_solver| |right; by exists (x :: a), b].
  destruct (decide (x = slash)) as [->|]; [right; by exists [], p|left; set_solver].
Qed.

(** The scan for the last separator finds the parent directory, of any path. *)
Lemma getParentPath_eq p : getParentPath p = parent_dir p.
Proof.
  unfold getParentPath, parent_dir. destruct (last_slash_split p) as [Hp|(a & b & -> & Hb)].
  - rewrite last_slash_none, split_on_single by done. by destruct (_ || _).
  - rewrite last_slash_app, split_on_app, (split_on_single slash b), removelast_last, join_split by done.
    destruct a as [|x a]; cbn [length app]; [by destruct (_ || _)|].
    rewrite !bool_decide_false by (by destruct a). cbn [orb take]. by rewrite take_app_length.
Qed.

Section cache.
Context {D I : Type}.   (* []fs.DirEntry, fs.FileInfo *)

Record metadataCache := mkCache {
  c_config : CacheConfig;
  c_dirCache : gmap gostring (D * Z);
  c_statCache : gmap gostring (I * Z);
  c_accessOrder : list gostring;
  c_enabled : bool;
}.

(** [make] panics on a negative capacity of the access order. *)
Definition newMetadataCache (config : CacheConfig) : outcome metadataCache :=
  let config := {|
    EnableCache := EnableCache config;
    DirCacheTTL := if DirCacheTTL config =? 0 then 5 * second else DirCacheTTL config;
    StatCacheTTL := if StatCacheTTL config =? 0 then 5 * second else StatCacheTTL config;
    MaxCacheEntries := if MaxCacheEntries config =? 0 then 1000 else MaxCacheEntries config;
  |} in
  if MaxCacheEntries config <? 0 then Panic
  else Ok (mkCache config ∅ ∅ [] (EnableCache config)).

Definition getDirEntries (now : Z) (path : gostring) (c : metadataCache) : option D :=
  if negb (c_enabled c) || (DirCacheTTL (c_config c) =? 0) then None
  else match c_dirCache c !! path with
       | None => None
       | Some (entries, cachedAt) =>
         if DirCacheTTL (c_config c) <? now - cachedAt then None else Some entries
       end.

Definition getStatInfo (now : Z) (path : gostring) (c : metadataCache) : option I :=
  if negb (c_enabled c) || (StatCacheTTL (c_config c) =? 0) then None
  else match c_statCache c !! path with
       | None => None
       | Some (info, cachedAt) =>
         if StatCacheTTL (c_config c) <? now - cachedAt then None else Some info
       end.

Definition trackAccess (path : gostring) (c : metadataCache) : metadataCache := {|
  c_config := c_config c; c_dirCache := c_dirCache c; c_statCache := c_statCache c;
  c_accessOrder := remove_first (λ p, bool_decide (p = path)) (c_accessOrder c) ++ [path];
  c_enabled := c_enabled c;
|}.

Definition total (c : metadataCache) : Z :=
  Z.of_nat (size (c_dirCache c)) + Z.of_nat (size (c_statCache c)).

(** [for i := 0; i < n && len(c.accessOrder) > 0; i++] *)
Fixpoint evict (n : nat) (c : metadataCache) : metadataCache :=
  match n, c_accessOrder c with
  | S n, oldestPath :: rest =>
    evict n {|
      c_config := c_config c;
      c_dirCache := delete oldestPath (c_dirCache c);
      c_statCache := delete oldestPath (c_statCache c);
      c_accessOrder := rest;
      c_enabled := c_enabled c;
    |}
  | _, _ => c
  end.

Definition evictIfNeeded (c : metadataCache) : metadataCache :=
  if total c <=? MaxCacheEntries (c_config c) then c
  else evict (Z.to_nat (total c - MaxCacheEntries (c_config c))) c.

Definition putDirEntries (now : Z) (path : gostring) (entries : D) (c : metadataCache) : metadataCache :=
  if negb (c_enabled c) || (DirCacheTTL (c_config c) =? 0) then c
  else
    mkCache (c_config c) (<[path := (entries, now)]> (c_dirCache c)) (c_statCache c)
      (c_accessOrder c) (c_enabled c)
    |> trackAccess path |> evictIfNeeded.

Definition putStatInfo (now : Z) (path : gostring) (info : I) (c : metadataCache) : metadataCache :=
  if negb (c_enabled c) || (StatCacheTTL (c_config c) =? 0) then c
  else
    mkCache (c_config c) (c_dirCache c) (<[path := (info, now)]> (c_statCache c))
      (c_accessOrder c) (c_enabled c)
    |> trackAccess path |> evictIfNeeded.

Definition invalidate (path : gostring) (c : metadataCache) : metadataCache :=
  if negb (c_enabled c) then c
  else {|
    c_config := c_config c;
    c_dirCache := delete (getParentPath path) (delete path (c_dirCache c));
    c_statCache := delete path (c_statCache c);
    c_accessOrder := c_accessOrder c;
    c_enabled := c_enabled c;
  |}.

Definition invalidateAll (c : metadataCache) : metadataCache :=
  if negb (c_enabled c) then c
  else {|
    c_config := c_config c; c_dirCache := ∅; c_statCache := ∅; c_accessOrder := [];
    c_enabled := c_enabled c;
  |}.

Record CacheStats := mkStats {
  st_Enabled : bool; st_DirCacheEntries : Z; st_StatCacheEntries : Z;
  st_TotalEntries : Z; st_MaxEntries : Z;
}.

Definition Cache_Stats (c : metadataCache) : CacheStats := {|
  st_Enabled := c_enabled c;
  st_DirCacheEntries := Z.of_nat (size (c_dirCache c));
  st_StatCacheEntries := Z.of_nat (size (c_statCache c));
  st_TotalEntries := Z.of_nat (size (c_dirCache c)) + Z.of_nat (size (c_statCache c));
  st_MaxEntries := MaxCacheEntries (c_config c);
|}.

(* ---------------------------------------------------------------- *)
(** ** Histories and their specification *)

Inductive cop :=
| PutDir (now : Z) (path : gostring) (entries : D)
| PutStat (now : Z) (path : gostring) (info : I)
| Invalidate (path : gostring)
| InvalidateAll.

Definition run_cop (op : cop) (c : metadataCache) : metadataCache :=
  match op with
  | PutDir now p d => putDirEntries now p d c
  | PutStat now p i => putStatInfo now p i c
  | Invalidate p => invalidate p c
  | InvalidateAll => invalidateAll c
  end.

Definition run_cops (ops : list cop) (c : metadataCache) : metadataCache :=
  foldl (λ c op, run_cop op c) c ops.

(** What was last stored for each path and not invalidated since. *)
Definition spec_cop (op : cop) (m : gmap gostring (D * Z) * gmap gostring (I * Z))
    : gmap gostring (D * Z) * gmap gostring (I * Z) :=
  match op with
  | PutDir now p d => (<[p := (d, now)]> m.1, m.2)
  | PutStat now p i => (m.1, <[p := (i, now)]> m.2)
  | Invalidate p => (delete (parent_dir p) (delete p m.1), delete p m.2)
  | InvalidateAll => (∅, ∅)
  end.

Definition spec_cops (ops : list cop) : gmap gostring (D * Z) * gmap gostring (I * Z) :=
  foldl (λ m op, spec_cop op m) (∅, ∅) ops.

Definition below (c : metadataCache) (m : gmap gostring (D * Z) * gmap gostring (I * Z)) : Prop :=
  c_dirCache c ⊆ m.1 ∧ c_statCache c ⊆ m.2.

(* ---------------------------------------------------------------- *)
(** ** Lemmas *)

Lemma evict_below n c m : below c m → below (evict n c) m.
Proof.
  revert c; induction n as [|n IH]; intros c Hb; simpl; [done|].
  destruct (c_accessOrder c) as [|p rest]; [done|]. apply IH. destruct Hb. split; simpl;
    (etrans; [apply delete_subseteq|done]).
Qed.

Lemma evictIfNeeded_below c m : below c m → below (evictIfNeeded c) m.
Proof. intros. unfold evictIfNeeded. case_match; [done|]. by apply evict_below. Qed.

(** A cache that stores what it is given. *)
Definition ready (c : metadataCache) : Prop :=
  c_enabled c = true ∧ DirCacheTTL (c_config c) ≠ 0 ∧ StatCacheTTL (c_config c) ≠ 0.

Lemma evict_config n c : c_config (evict n c) = c_config c ∧ c_enabled (evict n c) = c_enabled c.
Proof.
  revert c; induction n as [|n IH]; intros c; simpl; [done|].
  destruct (c_accessOrder c); [done|]. by rewrite !(proj1 (IH _)), (proj2 (IH _)).
Qed.

Lemma evictIfNeeded_config c :
  c_config (evictIfNeeded c) = c_config c ∧ c_enabled (evictIfNeeded c) = c_enabled c.
Proof. unfold evictIfNeeded. case_match; [done|]. apply evict_config. Qed.

Lemma run_cop_config op c :
  c_config (run_cop op c) = c_config c ∧ c_enabled (run_cop op c) = c_enabled c.
Proof.
  destruct op; simpl; unfold putDirEntries, putStatInfo, invalidate, invalidateAll;
    case_match; try done; rewrite (proj1 (evictIfNeeded_config _)), (proj2 (evictIfNeeded_config _)); done.
Qed.

Lemma run_cop_ready op c : ready c → ready (run_cop op c).
Proof. unfold ready. by rewrite (proj1 (run_cop_config op c)), (proj2 (run_cop_config op c)). Qed.

Lemma putDirEntries_ready now p d c :
  ready c → putDirEntries now p d c
  = evictIfNeeded (trackAccess p (mkCache (c_config c) (<[p := (d, now)]> (c_dirCache c))
      (c_statCache c) (c_accessOrder c) (c_enabled c))).
Proof. intros (He & H & _). unfold putDirEntries. rewrite He, (proj2 (Z.eqb_neq _ _) H). done. Qed.

Lemma putStatInfo_ready now p i c :
  ready c → putStatInfo now p i c
  = evictIfNeeded (trackAccess p (mkCache (c_config c) (c_dirCache c)
      (<[p := (i, now)]> (c_statCache c)) (c_accessOrder c) (c_enabled c))).
Proof. intros (He & _ & H). unfold putStatInfo. rewrite He, (proj2 (Z.eqb_neq _ _) H). done. Qed.

Lemma run_cop_below op c m : ready c → below c m → below (run_cop op c) (spec_cop op m).
Proof.
  intros Hr [Hd Hs]. destruct op as [now p d|now p i|p|]; cbn [run_cop spec_cop].
  - rewrite putDirEntries_ready by done. apply evictIfNeeded_below.
    split; simpl; [by apply insert_mono|done].
  - rewrite putStatInfo_ready by done. apply evictIfNeeded_below.
    split; simpl; [done|by apply insert_mono].
  - unfold invalidate. rewrite (proj1 Hr), getParentPath_eq. split; simpl; by repeat apply delete_mono.
  - unfold invalidateAll. rewrite (proj1 Hr). done.
Qed.

Lemma run_cops_below ops c m :
  ready c → below c m → below (run_cops ops c) (foldl (λ m op, spec_cop op m) m ops).
Proof.
  revert c m; induction ops as [|op ops IH]; intros c m Hr Hb; [done|].
  apply IH; [by apply run_cop_ready|by apply run_cop_below].
Qed.

Lemma run_cops_config ops c :
  c_config (run_cops ops c) = c_config c ∧ c_enabled (run_cops ops c) = c_enabled c.
Proof.
  revert c; induction ops as [|op ops IH]; intros c; [done|]. unfold run_cops; simpl.
  fold (run_cops ops (run_cop op c)). destruct (IH (run_cop op c)) as [-> ->].
  apply run_cop_config.
Qed.

Lemma newMetadataCache_new config c :
  newMetadataCache config = Ok c →
  c_dirCache c = ∅ ∧ c_statCache c = ∅ ∧ c_accessOrder c = [] ∧ c_enabled c = EnableCache config
  ∧ 0 ≤ MaxCacheEntries (c_config c) ∧ (EnableCache config = true → ready c).
Proof.
  unfold newMetadataCache. cbn [MaxCacheEntries]. destruct (Z.ltb_spec (if MaxCacheEntries config =? 0 then 1000 else MaxCacheEntries config) 0); [done|].
  intros [= <-]. cbn. split_and!; [done..|].
  intros He. unfold ready; simpl. rewrite He. case_bools; unfold second; lia.
Qed.

(** The keys that hold an entry. *)
Definition keys (c : metadataCache) : gset gostring := dom (c_dirCache c) ∪ dom (c_statCache c).

(** The access order lists exactly the cached paths, each once. *)
Definition order_exact (c : metadataCache) : Prop :=
  NoDup (c_accessOrder c) ∧ ∀ p, p ∈ c_accessOrder c ↔ p ∈ keys c.

Lemma size_delete_le {A} (m : gmap gostring A) p : (size (delete p m) ≤ size m)%nat.
Proof. rewrite map_size_delete. case_match; unfold id; lia. Qed.

Lemma size_delete_lt {A} (m : gmap gostring A) p :
  p ∈ dom m → (size (delete p m) < size m)%nat.
Proof.
  intros [x Hx]%elem_of_dom. rewrite map_size_delete_Some by by rewrite Hx.
  assert (size m ≠ 0%nat); [|lia]. intros ->%map_size_empty_inv. by rewrite lookup_empty in Hx.
Qed.

Lemma evict_exact n c :
  order_exact c → order_exact (evict n c) ∧ total (evict n c) ≤ Z.max 0 (total c - Z.of_nat n).
Proof.
  revert c; induction n as [|n IH]; intros c Ho; [unfold total; simpl; split; [done|lia]|].
  cbn [evict]. destruct (c_accessOrder c) as [|p rest] eqn:E.
  - split; [done|]. destruct Ho as [_ Hk]. rewrite E in Hk. unfold total.
    assert (c_dirCache c = ∅) as ->.
    { apply dom_empty_inv_L, set_eq. intros p. specialize (Hk p). unfold keys in Hk. set_solver. }
    assert (c_statCache c = ∅) as ->.
    { apply dom_empty_inv_L, set_eq. intros p. specialize (Hk p). unfold keys in Hk. set_solver. }
    rewrite !map_size_empty. lia.
  - set (c' := mkCache _ _ _ _ _). destruct Ho as [Hnd Hk]. rewrite E in Hnd, Hk.
    apply NoDup_cons in Hnd as [Hp Hnd].
    assert (order_exact c') as Ho'.
    { split; [done|]. intros q. specialize (Hk q). unfold keys in *. simpl.
      rewrite !dom_delete_L. destruct (decide (q = p)) as [->|Hne]; set_solver. }
    destruct (IH c' Ho') as [H1 H2]. split; [done|]. etrans; [exact H2|].
    assert (total c' < total c); [|lia]. unfold total, c'; simpl.
    pose proof (size_delete_le (c_dirCache c) p). pose proof (size_delete_le (c_statCache c) p).
    assert (p ∈ keys c) as [Hd|Hs]%elem_of_union by (apply Hk; set_solver).
    + pose proof (size_delete_lt _ _ Hd). lia.
    + pose proof (size_delete_lt _ _ Hs). lia.
Qed.

Lemma elem_of_track p q (l : list gostring) :
  NoDup l → q ∈ remove_first (λ x, bool_decide (x = p)) l ++ [p] ↔ q ∈ l ∨ q = p.
Proof.
  intros Hnd. rewrite elem_of_app, list_elem_of_singleton. split.
  - intros [H|H]; [left; by eapply elem_of_remove_first|by right].
  - intros [H| ->]; [|by right]. destruct (decide (q = p)); [by right|left].
    apply elem_of_remove_first_ne; [done|]. by rewrite bool_decide_false.
Qed.

Lemma trackAccess_exact c c0 p :
  NoDup (c_accessOrder c0) → (∀ q, q ∈ c_accessOrder c0 ∨ q = p ↔ q ∈ keys c) →
  c_accessOrder c = c_accessOrder c0 → order_exact (trackAccess p c).
Proof.
  intros Hnd Hk E. split; simpl; rewrite E.
  - apply NoDup_app. split; [by apply NoDup_remove_first|]. split; [|apply NoDup_singleton].
    intros q Hq ->%list_elem_of_singleton.
    assert (Forall (λ x, bool_decide (x = p) = false)
      (remove_first (λ x, bool_decide (x = p)) (c_accessOrder c0))) as HF.
    { apply remove_first_gone; [|done]. intros x y _ _. rewrite !bool_decide_eq_true. congruence. }
    rewrite Forall_forall in HF. specialize (HF p Hq). by rewrite bool_decide_true in HF.
  - intros q. rewrite elem_of_track by done. apply Hk.
Qed.

Lemma evictIfNeeded_exact c :
  order_exact c → 0 ≤ MaxCacheEntries (c_config c) →
  order_exact (evictIfNeeded c) ∧ total (evictIfNeeded c) ≤ MaxCacheEntries (c_config c).
Proof.
  intros Ho Hm. unfold evictIfNeeded. case_bools; [done|].
  destruct (evict_exact (Z.to_nat (total c - MaxCacheEntries (c_config c))) c Ho) as [H1 H2].
  split; [done|]. lia.
Qed.

Definition stores (op : cop) : Prop :=
  match op with Invalidate _ => False | _ => True end.

Lemma run_cop_bounded op c :
  ready c → stores op → 0 ≤ MaxCacheEntries (c_config c) → order_exact c →
  order_exact (run_cop op c) ∧ total (run_cop op c) ≤ MaxCacheEntries (c_config c).
Proof.
  intros Hr Hop Hm [Hnd Hk]. destruct op as [now p d|now p i|p|]; cbn [run_cop]; [| |done|].
  - rewrite putDirEntries_ready by done.
    match goal with |- context [evictIfNeeded ?x] => apply (evictIfNeeded_exact x); [|done] end.
    apply (trackAccess_exact _ c); [done| |done]. intros q. rewrite Hk. unfold keys; simpl. set_solver.
  - rewrite putStatInfo_ready by done.
    match goal with |- context [evictIfNeeded ?x] => apply (evictIfNeeded_exact x); [|done] end.
    apply (trackAccess_exact _ c); [done| |done]. intros q. rewrite Hk. unfold keys; simpl. set_solver.
  - unfold invalidateAll. rewrite (proj1 Hr). unfold order_exact, total, keys; simpl.
    rewrite !map_size_empty. split; [|lia]. split; [constructor|]. set_solver.
Qed.
End cache.
Arguments metadataCache D I : clear implicits.
Arguments cop D I : clear implicits.

(* ------------------------------------------------------------------ *)
(** ** Parent directories *)

Lemma absolute_snoc cs c :
  cs ≠ [] → absolute (cs ++ [c]) = absolute cs ++ slash :: c.
Proof.
  intros Hne. unfold absolute. simpl. f_equal.
  induction cs as [|w cs IH]; [done|]. destruct cs as [|w' cs]; [done|].
  cbn [app join_with] in *. rewrite IH by done. by rewrite <-app_assoc.
Qed.

Lemma getParentPath_absolute cs c :
  Forall good_comp (cs ++ [c]) → getParentPath (absolute (cs ++ [c])) = absolute cs.
Proof.
  intros Hcs. apply Forall_app in Hcs as [_ Hc]. apply Forall_singleton in Hc as (Hne & _ & _ & Hs).
  unfold getParentPath. destruct cs as [|w cs].
  - cbn [app]. unfold absolute. cbn [join_with].
    rewrite (bool_decide_false (slash :: c = [slash])) by congruence. cbn [bool_decide orb].
    pose proof (last_slash_app [] c Hs) as H. cbn [app length] in H. by rewrite H.
  - rewrite absolute_snoc by done. rewrite last_slash_app by done.
    rewrite !bool_decide_false.
    + cbn [orb]. unfold absolute at 1. cbn [length]. by rewrite take_app_length.
    + done.
    + unfold absolute. cbn [app]. intros [= H%app_nil]. naive_solver.
Qed.

Lemma Split_app a b : slash ∉ b → Split (a ++ slash :: b) = (a ++ [slash], b).
Proof.
  intros Hb.
  assert (∀ l, slash ∉ l → Split l = ([], l)) as Hnone.
  { induction l as [|x l IH]; intros Hl; [done|]. simpl. rewrite IH by set_solver.
    simpl. by rewrite bool_decide_false by set_solver. }
  induction a as [|x a IH]; simpl.
  - rewrite Hnone by done. simpl. done.
  - rewrite IH. rewrite bool_decide_false; [done|]. by destruct a.
Qed.

Lemma Clean_absolute_slash cs : cs ≠ [] → Forall good_comp cs → Clean (absolute cs ++ [slash]) = absolute cs.
Proof.
  intros Hne Hcs. rewrite <-(absolute_snoc cs []) by done.
  assert (clean_stack true (absolute (cs ++ [[]])) = rev cs) as Hst.
  { unfold clean_stack, absolute. cbn [split_on]. rewrite bool_decide_true by done.
    rewrite split_join; [|by destruct cs|].
    - cbn [foldl]. change (clean_step true [] []) with (@nil gostring).
      rewrite foldl_app, (clean_fold_good true cs), app_nil_r by done. done.
    - apply Forall_app. split; [|apply Forall_singleton; by intros ?%elem_of_nil].
      eapply Forall_impl; [exact Hcs|]. by intros w (_ & _ & _ & ?). }
  unfold Clean. change (has_prefix [slash] (absolute (cs ++ [[]]))) with true. cbv zeta.
  rewrite Hst, rev_involutive. done.
Qed.

Lemma Dir_absolute cs c :
  Forall good_comp (cs ++ [c]) → Dir (absolute (cs ++ [c])) = absolute cs.
Proof.
  intros H. pose proof H as Hcs. apply Forall_app in Hcs as [Hcs Hc].
  apply Forall_singleton in Hc as (Hne & _ & _ & Hs). unfold Dir. destruct cs as [|w cs].
  - unfold absolute. cbn [app join_with]. pose proof (Split_app [] c Hs) as HS. cbn [app] in HS.
    by rewrite HS.
  - rewrite absolute_snoc by done. rewrite Split_app by done. by apply Clean_absolute_slash.
Qed.

(* ------------------------------------------------------------------ *)
(** ** Properties *)

(** C7: a cache is created unless its configured maximum is negative (the
    allocation of the access order panics), and it never serves a value that
    was invalidated or replaced: in every history, a hit returns the value of
    the last put for that path that no invalidation of the path (for a
    listing: of the path or of a path directly inside it) followed, and only
    within its time to live. *)
Theorem cache_coherent {D I} config (ops : list (cop D I)) now path :
  match newMetadataCache config with
  | Panic => MaxCacheEntries config < 0
  | Ok c0 =>
    let c := run_cops ops c0 in
    (∀ d, getDirEntries now path c = Some d →
       ∃ t, (spec_cops ops).1 !! path = Some (d, t) ∧ now - t ≤ DirCacheTTL (c_config c))
    ∧ (∀ i, getStatInfo now path c = Some i →
       ∃ t, (spec_cops ops).2 !! path = Some (i, t) ∧ now - t ≤ StatCacheTTL (c_config c))
  end.
Proof.
  destruct (newMetadataCache config) as [c0|] eqn:Hn; cycle 1.
  { unfold newMetadataCache in Hn. cbn [MaxCacheEntries] in Hn.
    destruct (Z.eqb_spec (MaxCacheEntries config) 0); [done|].
    by destruct (Z.ltb_spec (MaxCacheEntries config) 0). }
  apply newMetadataCache_new in Hn as (Hd0 & Hs0 & _ & He0 & _ & Hr).
  intros c. destruct (run_cops_config ops c0) as [_ He]. fold c in He.
  destruct (EnableCache config); cycle 1.
  { unfold getDirEntries, getStatInfo. by rewrite He, He0. }
  destruct (run_cops_below ops c0 (∅, ∅)) as [Hd Hs];
    [by apply Hr|by split; rewrite ?Hd0, ?Hs0|]. fold c in Hd, Hs.
  unfold getDirEntries, getStatInfo. split; intros x; (case_match; [done|]).
  - destruct (c_dirCache c !! path) as [[d t]|] eqn:E; [|done]. case_bools; [done|].
    intros [= <-]. exists t. split; [by eapply lookup_weaken|lia].
  - destruct (c_statCache c !! path) as [[i t]|] eqn:E; [|done]. case_bools; [done|].
    intros [= <-]. exists t. split; [by eapply lookup_weaken|lia].
Qed.

(** As long as entries leave the cache by eviction or by a full reset,
    the configured maximum bounds it after every operation, and the access
    order lists exactly the cached paths. *)
Theorem cache_bounded {D I} config (ops : list (cop D I)) c0 :
  newMetadataCache config = Ok c0 → EnableCache config = true → Forall stores ops →
  let c := run_cops ops c0 in
  order_exact c ∧ st_TotalEntries (Cache_Stats c) ≤ st_MaxEntries (Cache_Stats c).
Proof.
  intros (Hd0 & Hs0 & Ha0 & _ & Hm0 & Hr)%newMetadataCache_new He Hops. specialize (Hr He).
  assert (order_exact c0 ∧ total c0 ≤ MaxCacheEntries (c_config c0)) as [Ho Ht].
  { unfold order_exact, total, keys. rewrite Hd0, Hs0, Ha0, !map_size_empty.
    split; [split; [constructor|set_solver]|lia]. }
  clear Hd0 Hs0 Ha0. simpl. change (order_exact (run_cops ops c0) ∧
    total (run_cops ops c0) ≤ MaxCacheEntries (c_config (run_cops ops c0))).
  rewrite (proj1 (run_cops_config ops c0)).
  revert c0 Hr Hm0 Ho Ht; induction Hops as [|op ops Hop _ IH]; intros c0 Hr Hm0 Ho Ht; [done|].
  destruct (run_cop_bounded op c0 Hr Hop Hm0 Ho) as [Ho' Ht'].
  pose proof (proj1 (run_cop_config op c0)) as Hc. rewrite <-Hc in *.
  apply IH; [by apply run_cop_ready|done..].
Qed.

(** An enabled cache of at most [max] entries. *)
Definition demo_cache (max : Z) : @metadataCache nat nat :=
  mkCache (mkCacheConfig true (5 * second) (5 * second) max) ∅ ∅ [] true.

Lemma cache_bounded_witness :
  let c := run_cops [PutStat 1 (str "/a") 1%nat; PutDir 2 (str "/b") 2%nat; PutStat 3 (str "/c") 3%nat]
    (demo_cache 2) in
  order_exact c ∧ st_TotalEntries (Cache_Stats c) ≤ st_MaxEntries (Cache_Stats c).
Proof. apply (cache_bounded (mkCacheConfig true 0 0 2)); [reflexivity..|by repeat constructor]. Defined.

(** Invalidation leaves the path in the access order, and an eviction
    that pops such a stale path frees nothing: the cache ends up holding more
    entries than its maximum. *)
Theorem stale_order_exceeds_maximum :
  newMetadataCache (mkCacheConfig true 0 0 1) = Ok (demo_cache 1) ∧
  let c := run_cops
    [PutStat 1 (str "/a") 1%nat; Invalidate (str "/a");
     PutStat 2 (str "/b") 2%nat; PutStat 3 (str "/c") 3%nat] (demo_cache 1) in
  st_TotalEntries (Cache_Stats c) = 2 ∧ st_MaxEntries (Cache_Stats c) = 1.
Proof. by vm_compute. Qed.

(** The parent whose listing [invalidate] drops is also the directory
    [path.Dir] names, for every path the client operations pass (the
    normalized ones). *)
Theorem getParentPath_is_Dir p : normal_path p → getParentPath p = Dir p.
Proof.
  intros (cs & -> & Hcs & _). destruct cs as [|c cs _] using rev_ind; [by vm_compute|].
  by rewrite getParentPath_absolute, Dir_absolute.
Qed.

Lemma getParentPath_is_Dir_witness : getParentPath (str "/docs/q1") = Dir (str "/docs/q1").
Proof.
  apply getParentPath_is_Dir. exists [str "docs"; str "q1"]. vm_compute.
  repeat split; try done; repeat constructor; try done; by vm_compute; set_solver.
Defined.
