(* ===== verification/Signing.v ===== *)
(** * Message signing

    Models [smb2_signing.go].  The hash, HMAC and block-cipher primitives of
    [crypto/...] are the parameters of the [Crypto] class, with the output
    lengths the code relies on; CMAC, the SP800-108 key derivation and the
    handling of the signature field are the program's own and are defined
    here. *)

From Stdlib Require Import ZifyNat.
From stdpp Require Import base numbers list strings.
From S2P Require Import Prelude Constants Types.

Open Scope Z_scope.

(** [aes_encrypt key block] is one block encryption; [rc4 key data] is [None]
    when [rc4.NewCipher] refuses the key. *)
Class Crypto := {
  hmac_sha256 : bytes → bytes → bytes;
  hmac_md5 : bytes → bytes → bytes;
  md4 : bytes → bytes;
  sha512 : bytes → bytes;
  aes_encrypt : bytes → bytes → bytes;
  rc4 : bytes → bytes → option bytes;
}.

Class CryptoLaws `{Crypto} : Prop := {
  length_hmac_sha256 : ∀ k m, length (hmac_sha256 k m) = 32%nat;
  length_hmac_md5 : ∀ k m, length (hmac_md5 k m) = 16%nat;
  length_md4 : ∀ m, length (md4 m) = 16%nat;
  length_sha512 : ∀ m, length (sha512 m) = 64%nat;
  length_aes : ∀ k b, length (aes_encrypt k b) = 16%nat;
  rc4_key : ∀ k d, (1 ≤ length k ≤ 256)%nat → ∃ r, rc4 k d = Some r ∧ length r = length d;
}.

(** A concrete instance, for the witnesses. *)
#[local] Definition toy_hash (n : nat) (m : bytes) : bytes := take n (rev m ++ zeros n).
Definition toy_crypto : Crypto := {|
  hmac_sha256 k m := toy_hash 32 (k ++ m); hmac_md5 k m := toy_hash 16 (k ++ m);
  md4 := toy_hash 16; sha512 := toy_hash 64; aes_encrypt k b := toy_hash 16 (k ++ b);
  rc4 k d := if bool_decide (1 ≤ length k ≤ 256)%nat then Some d else None;
|}.

Lemma toy_crypto_laws : @CryptoLaws toy_crypto.
Proof.
  assert (∀ n m, length (toy_hash n m) = n) as H.
  { intros. unfold toy_hash, zeros. rewrite length_take, length_app, length_replicate. lia. }
  split; intros; simpl; try apply H. rewrite bool_decide_true by done. eauto.
Qed.

Definition SignatureOffset : Z := 48.
Definition SignatureLength : Z := 16.

(** [xorBytes(dst, src)] *)
Fixpoint xorBytes (dst src : bytes) : bytes :=
  match dst, src with
  | d :: dst, s :: src => byte_of_Z (Z.lxor (Z_of_byte d) (Z_of_byte s)) :: xorBytes dst src
  | _, _ => dst
  end.

(** [shiftLeft]: from the last byte to the first, carrying the overflow. *)
Fixpoint shift_le (overflow : Z) (src : bytes) : bytes :=
  match src with
  | [] => []
  | b :: src =>
    byte_of_Z (Z.lor (u8 (Z.shiftl (Z_of_byte b) 1)) overflow)
    :: shift_le (Z.shiftr (Z_of_byte b) 7) src
  end.

Definition shiftLeft (src : bytes) : bytes := rev (shift_le 0 (rev src)).

(** [make([]byte, n)] then [copy(dst, src)] *)
Definition copy_zeroed (n : nat) (src : bytes) : bytes := take n (src ++ zeros n).

(** [k[15] ^= 0x87] *)
Definition xor_last (k : bytes) : bytes :=
  take 15 k ++ xorBytes (drop 15 k) [byte_of_Z 0x87].

Section signing.
Context `{Crypto}.

(** [block] is the cipher for a key. *)
Definition double (l : bytes) : bytes :=
  let k := shiftLeft l in
  if has_flag (le_get (take 1 l)) 0x80 then xor_last k else k.

Definition generateCMACSubkeys (block : bytes → bytes) : bytes * bytes :=
  let l := block (zeros 16) in
  let k1 := double l in
  let k2 := double k1 in
  (k1, k2).

Definition cmac_blocks (message : bytes) : nat :=
  let n := Nat.div (length message + 15) 16 in
  if Nat.eqb n 0 then 1%nat else n.

Definition cmac_last (message k1 k2 : bytes) : bytes :=
  let n := cmac_blocks message in
  if negb (Nat.eqb (length message) 0) && Nat.eqb (Nat.modulo (length message) 16) 0
  then xorBytes (copy_zeroed 16 (drop ((n - 1) * 16) message)) k1
  else
    let remaining := Nat.modulo (length message) 16 in
    let lastBlock := if negb (Nat.eqb (length message) 0)
                     then copy_zeroed 16 (drop ((n - 1) * 16) message) else zeros 16 in
    xorBytes (put_at remaining [byte_of_Z 0x80] lastBlock) k2.

Definition computeAESCMAC (message key : bytes) : bytes :=
  let block := aes_encrypt (copy_zeroed 16 key) in
  let '(k1, k2) := generateCMACSubkeys block in
  let n := cmac_blocks message in
  let lastBlock := cmac_last message k1 k2 in
  let x := foldl (λ x i, block (xorBytes x (sub message (i * 16) 16))) (zeros 16) (seq 0 (n - 1)) in
  block (xorBytes x lastBlock).

Definition computeHMACSHA256 (message key : bytes) : bytes :=
  take 16 (hmac_sha256 (copy_zeroed 16 key) message).

(** [None] is the nil slice. *)
Definition SignMessage (message signingKey : bytes) (dialect : Z) : option bytes :=
  if (len signingKey =? 0) || (len message <? SMB2HeaderSize) then None
  else
    let msgCopy := put_at (Z.to_nat SignatureOffset) (zeros (Z.to_nat SignatureLength)) message in
    if SMB3_0 <=? dialect then Some (computeAESCMAC msgCopy signingKey)
    else Some (computeHMACSHA256 msgCopy signingKey).

Definition VerifySignature (message signingKey : bytes) (dialect : Z) : bool :=
  if (len signingKey =? 0) || (len message <? SMB2HeaderSize) then false
  else
    let existingSig := sub message (Z.to_nat SignatureOffset) (Z.to_nat SignatureLength) in
    match SignMessage message signingKey dialect with
    | None => false
    | Some expectedSig => bool_decide (existingSig = expectedSig)
    end.

(** The SP800-108 loop; each round appends 32 bytes, so [lengthBytes] rounds
    are more than enough fuel. *)
Fixpoint kdf_loop (fuel : nat) (ki label context : bytes) (lengthBytes : nat) (counter : Z)
    (result : bytes) : bytes :=
  match fuel with
  | O => result
  | S fuel =>
    if (length result <? lengthBytes)%nat
    then
      let h := hmac_sha256 ki (be_put 4 counter ++ label ++ [Byte.x00] ++ context
                               ++ be_put 4 (u32 (Z.of_nat lengthBytes * 8))) in
      kdf_loop fuel ki label context lengthBytes (u32 (counter + 1)) (result ++ h)
    else result
  end.

Definition kdfSP800108 (ki label context : bytes) (lengthBytes : nat) : bytes :=
  take lengthBytes (kdf_loop lengthBytes ki label context lengthBytes 1 []).

Definition DeriveSigningKey (sessionKey : bytes) (dialect : Z) (preauthHash : bytes) : bytes :=
  if dialect <? SMB3_0 then sessionKey
  else
    let '(label, context) :=
      if (SMB3_1_1 <=? dialect) && (0 <? len preauthHash)
      then (str "SMBSigningKey" ++ [Byte.x00], preauthHash)
      else (str "SMB2AESCMAC" ++ [Byte.x00], str "SmbSign" ++ [Byte.x00]) in
    kdfSP800108 sessionKey label context 16.

Definition ApplySignature (message signature : bytes) : bytes :=
  if (SMB2HeaderSize <=? len message) && (SignatureLength <=? len signature)
  then put_at (Z.to_nat SignatureOffset) (take (Z.to_nat SignatureLength) signature) message
  else message.

Definition SetSignedFlag (message : bytes) : bytes :=
  if 20 <=? len message
  then put_at 16 (le_put 4 (Z.lor (le_get (sub message 16 4)) SMB2_FLAGS_SIGNED)) message
  else message.

Definition IsMessageSigned (message : bytes) : bool :=
  if len message <? 20 then false else has_flag (le_get (sub message 16 4)) SMB2_FLAGS_SIGNED.

Definition InitPreauthHash : bytes := zeros 64.

(** The log line slices [currentHash[:16]], which panics on a shorter hash;
    every hash here is 64 bytes. *)
Definition UpdatePreauthHash (currentHash message : bytes) : outcome bytes :=
  let currentHash := if len currentHash =? 0 then InitPreauthHash else currentHash in
  let newHash := sha512 (currentHash ++ message) in
  match slice currentHash 0 16, slice newHash 0 16 with
  | Some _, Some _ => Ok newHash
  | _, _ => Panic
  end.
End signing.

(* ------------------------------------------------------------------ *)
(** ** Reference definition of CMAC (RFC 4493)

    Subkeys by doubling in GF(2^128) on the integer value of the block; the
    message cut into blocks; the last block completed and masked. *)
Definition gf_double (v : Z) : Z :=
  Z.lxor ((2 * v) mod 2 ^ 128) (if Z.testbit v 127 then 0x87 else 0).

(** The full blocks before the last block, and the last block. *)
Fixpoint rfc_split (fuel : nat) (msg : bytes) : list bytes * bytes :=
  match fuel with
  | O => ([], msg)
  | S fuel =>
    if (length msg <=? 16)%nat then ([], msg)
    else let '(bs, l) := rfc_split fuel (drop 16 msg) in (take 16 msg :: bs, l)
  end.

Definition rfc_cmac (E : bytes → bytes) (msg : bytes) : bytes :=
  let k1 := be_put 16 (gf_double (be_get (E (zeros 16)))) in
  let k2 := be_put 16 (gf_double (be_get k1)) in
  let '(bs, l) := rfc_split (length msg) msg in
  let l := if (length l =? 16)%nat then xorBytes l k1
           else xorBytes (l ++ [byte_of_Z 0x80] ++ zeros (15 - length l)) k2 in
  E (xorBytes (foldl (λ x b, E (xorBytes x b)) (zeros 16) bs) l).

(* ------------------------------------------------------------------ *)
(** ** Lemmas: subkeys *)

Lemma length_xorBytes d s : length (xorBytes d s) = length d.
Proof. revert s; induction d; intros []; simpl; auto. Qed.

Lemma length_shift_le o l : length (shift_le o l) = length l.
Proof. revert o; induction l; intros; simpl; auto. Qed.

Lemma le_get_shift_le o l :
  0 ≤ o ≤ 1 → le_get (shift_le o l) = (2 * le_get l + o) mod 256 ^ len l.
Proof.
  revert o; induction l as [|b l IH]; intros o Ho; cbn [shift_le le_get].
  - change (len []) with 0. by rewrite Z.pow_0_r, Z.mod_1_r.
  - pose proof (Z_of_byte_range b) as Hb. rewrite IH; cycle 1.
    { rewrite Z.shiftr_div_pow2 by lia. change (2 ^ 7) with 128.
      Z.to_euclidean_division_equations; lia. }
    rewrite Z.shiftr_div_pow2, Z.shiftl_mul_pow2 by lia. change (2 ^ 7) with 128. change (2 ^ 1) with 2.
    unfold u8. change (2 ^ 8) with 256.
    assert (Z.lor ((Z_of_byte b * 2) mod 256) o = (Z_of_byte b * 2) mod 256 + o) as ->.
    { assert (Z.land ((Z_of_byte b * 2) mod 256) o = 0) as Hl.
      { assert (o = 0 ∨ o = 1) as [->| ->] by lia; [apply Z.land_0_r|].
        change 1 with (Z.ones 1). rewrite Z.land_ones by lia. change (2 ^ 1) with 2.
        Z.to_euclidean_division_equations; lia. }
      rewrite Z.add_nocarry_lxor by done. by rewrite Z.lxor_lor. }
    rewrite Z_of_byte_of_Z_small by (Z.to_euclidean_division_equations; lia).
    rewrite len_cons, Z.pow_add_r by (pose proof (len_nonneg l); lia). change (256 ^ 1) with 256.
    set (B := 256 ^ len l). assert (0 < B) by (apply Z.pow_pos_nonneg; pose proof (len_nonneg l); lia).
    rewrite Z.rem_mul_r by lia.
    set (x := Z_of_byte b) in *. set (r := le_get l).
    replace (2 * (x + 256 * r) + o) with (2 * x + o + (2 * r) * 256) by lia.
    rewrite Z.mod_add, Z.div_add by lia.
    replace ((2 * x + o) / 256) with (x / 128) by (Z.to_euclidean_division_equations; lia).
    replace ((2 * x + o) mod 256) with ((x * 2) mod 256 + o)
      by (Z.to_euclidean_division_equations; lia).
    replace (x / 128 + 2 * r) with (2 * r + x / 128) by lia. lia.
Qed.

Lemma be_get_shiftLeft l : be_get (shiftLeft l) = (2 * be_get l) mod 256 ^ len l.
Proof.
  unfold be_get, shiftLeft. rewrite rev_involutive, le_get_shift_le by lia.
  rewrite Z.add_0_r. unfold len. by rewrite length_rev.
Qed.

Lemma length_shiftLeft l : length (shiftLeft l) = length l.
Proof. unfold shiftLeft. by rewrite length_rev, length_shift_le, length_rev. Qed.

Lemma Z_of_byte_lxor b c : 0 ≤ Z.lxor (Z_of_byte b) (Z_of_byte c) < 256.
Proof.
  pose proof (Z_of_byte_range b); pose proof (Z_of_byte_range c).
  split; [apply Z.lxor_nonneg; lia|].
  destruct (decide (Z.lxor (Z_of_byte b) (Z_of_byte c) = 0)) as [->|Hne]; [lia|].
  apply Z.log2_lt_cancel. change (Z.log2 256) with 8.
  eapply Z.le_lt_trans; [apply Z.log2_lxor; lia|].
  apply Z.max_lub_lt.
  - destruct (decide (Z_of_byte b = 0)) as [->|]; [done|]. apply Z.log2_lt_pow2; lia.
  - destruct (decide (Z_of_byte c = 0)) as [->|]; [done|]. apply Z.log2_lt_pow2; lia.
Qed.

(** Changing the lowest byte is an exclusive or on the value. *)
Lemma le_get_xor_head b c l :
  le_get (byte_of_Z (Z.lxor (Z_of_byte b) (Z_of_byte c)) :: l)
  = Z.lxor (le_get (b :: l)) (Z_of_byte c).
Proof.
  cbn [le_get]. rewrite Z_of_byte_of_Z_small by apply Z_of_byte_lxor.
  assert (∀ x, 0 ≤ x < 256 → x + 256 * le_get l = Z.lxor x (Z.shiftl (le_get l) 8)) as Hx.
  { intros x Hx. rewrite <-Z.add_nocarry_lxor; [rewrite Z.shiftl_mul_pow2 by lia; lia|].
    apply Z.bits_inj'. intros n Hn. rewrite Z.land_spec, Z.bits_0.
    destruct (Z.ltb_spec n 8).
    - rewrite Z.shiftl_spec_low by lia. apply andb_false_r.
    - rewrite Z.bits_above_log2 with (a := x); [done|lia|].
      destruct (decide (x = 0)) as [->|]; [simpl; lia|].
      apply Z.log2_lt_pow2; [lia|]. eapply Z.lt_le_trans; [apply Hx|].
      change 256 with (2 ^ 8). apply Z.pow_le_mono_r; lia. }
  rewrite (Hx (Z.lxor _ _)) by apply Z_of_byte_lxor.
  rewrite (Hx (Z_of_byte b)) by apply Z_of_byte_range.
  rewrite !Z.lxor_assoc. f_equal. apply Z.lxor_comm.
Qed.

Lemma be_get_xor_last k :
  length k = 16%nat → be_get (xor_last k) = Z.lxor (be_get k) 0x87 ∧ length (xor_last k) = 16%nat.
Proof.
  intros Hk. unfold xor_last.
  destruct (drop 15 k) as [|b [|b' r]] eqn:E.
  - apply (f_equal length) in E. rewrite length_drop, Hk in E. discriminate E.
  - split; [|by rewrite length_app, length_xorBytes, length_take, Hk].
    assert (k = take 15 k ++ [b]) as Hkb by (by rewrite <-E, take_drop).
    rewrite Hkb at 2. unfold be_get. cbn [xorBytes].
    rewrite !rev_app_distr. cbn [rev app].
    rewrite le_get_xor_head. by rewrite Z_of_byte_of_Z_small by lia.
  - apply (f_equal length) in E. rewrite length_drop, Hk in E. discriminate E.
Qed.

Lemma be_get_msb l :
  length l = 16%nat → has_flag (le_get (take 1 l)) 0x80 = Z.testbit (be_get l) 127.
Proof.
  intros Hl. destruct l as [|b l]; [done|]. simpl in Hl. injection Hl as Hl.
  change 0x80 with (2 ^ 7). rewrite has_flag_bit by lia.
  cbn [take le_get]. rewrite Z.mul_0_r, Z.add_0_r.
  unfold be_get. cbn [rev].
  assert (∀ r x, le_get (r ++ [x]) = le_get r + Z_of_byte x * 256 ^ len r) as Happ.
  { induction r as [|y r IH]; intros x; cbn [app le_get].
    - change (len []) with 0. lia.
    - rewrite IH, len_cons, Z.pow_add_r by (pose proof (len_nonneg r); lia). lia. }
  rewrite Happ. pose proof (le_get_range (rev l)) as Hr.
  assert (len (rev l) = 15) as E by (unfold len; rewrite length_rev; lia). rewrite E in *.
  change (256 ^ 15) with (2 ^ 120) in *.
  change 127 with (7 + 120). rewrite <-Z.div_pow2_bits by lia.
  rewrite Z.div_add, Z.div_small by lia. done.
Qed.

Lemma double_spec l :
  length l = 16%nat → double l = be_put 16 (gf_double (be_get l)) ∧ length (double l) = 16%nat.
Proof.
  intros Hl. assert (be_get (double l) = gf_double (be_get l) ∧ length (double l) = 16%nat) as [Hg Hlen].
  { unfold double, gf_double. rewrite be_get_msb by done.
    assert (length (shiftLeft l) = 16%nat) as Hs by by rewrite length_shiftLeft.
    assert (be_get (shiftLeft l) = (2 * be_get l) mod 2 ^ 128) as Hb.
    { rewrite be_get_shiftLeft. unfold len. by rewrite Hl. }
    destruct (Z.testbit (be_get l) 127).
    - destruct (be_get_xor_last _ Hs) as [-> ?]. by rewrite Hb.
    - by rewrite Hb, Z.lxor_0_r. }
  split; [|done]. rewrite <-Hg. unfold be_put, be_get.
  rewrite <-(rev_involutive (double l)) at 1. f_equal. symmetry. apply le_put_get_n.
  by rewrite length_rev.
Qed.

(* ------------------------------------------------------------------ *)
(** ** Lemmas: blocks *)

Ltac nat_div_lia := zify; Z.to_euclidean_division_equations; lia.

(** The code's block loop and last block, over any block function. *)
Definition cmac_fold (E : bytes → bytes) (x message : bytes) : bytes :=
  foldl (λ x i, E (xorBytes x (sub message (i * 16) 16))) x (seq 0 (cmac_blocks message - 1)).

Lemma foldl_same {A B} (f g : A → B → A) x l :
  (∀ y b, f y b = g y b) → foldl f x l = foldl g x l.
Proof. intros Hfg. revert x; induction l as [|b l IH]; intros x; simpl; [done|]. by rewrite Hfg. Qed.

Lemma cmac_blocks_short msg : (length msg ≤ 16)%nat → cmac_blocks msg = 1%nat.
Proof.
  intros. unfold cmac_blocks. destruct (decide (length msg = 0%nat)) as [->|]; [done|].
  assert ((length msg + 15) / 16 = 1)%nat as -> by (nat_div_lia). done.
Qed.

Lemma cmac_blocks_long msg :
  (16 < length msg)%nat → cmac_blocks msg = S (cmac_blocks (drop 16 msg)).
Proof.
  intros. unfold cmac_blocks. rewrite length_drop.
  assert ((length msg + 15) / 16 = S ((length msg - 16 + 15) / 16))%nat as ->
    by (nat_div_lia).
  destruct (Nat.eqb_spec ((length msg - 16 + 15) / 16) 0) as [E|E]; [|done].
  exfalso. revert E. nat_div_lia.
Qed.

Lemma cmac_blocks_pos msg : (1 ≤ cmac_blocks msg)%nat.
Proof. unfold cmac_blocks. destruct (Nat.eqb_spec ((length msg + 15) / 16) 0); lia. Qed.

Lemma cmac_fold_split E fuel x msg :
  (length msg ≤ fuel)%nat →
  cmac_fold E x msg = foldl (λ x b, E (xorBytes x b)) x (rfc_split fuel msg).1.
Proof.
  revert x msg; induction fuel as [|fuel IH]; intros x msg Hf; cbn [rfc_split].
  - unfold cmac_fold. by rewrite cmac_blocks_short by lia.
  - destruct (Nat.leb_spec (length msg) 16) as [Hs|Hl].
    + unfold cmac_fold. by rewrite cmac_blocks_short by done.
    + specialize (IH (E (xorBytes x (take 16 msg))) (drop 16 msg)).
      rewrite length_drop in IH. specialize (IH ltac:(lia)).
      destruct (rfc_split fuel (drop 16 msg)) as [bs l]. simpl in *. rewrite <-IH.
      unfold cmac_fold. rewrite (cmac_blocks_long msg Hl). pose proof (cmac_blocks_pos (drop 16 msg)).
      destruct (cmac_blocks (drop 16 msg)) as [|n] eqn:En; [lia|].
      replace (S (S n) - 1)%nat with (S n) by lia. replace (S n - 1)%nat with n by lia.
      cbn [seq foldl]. rewrite <-fmap_S_seq, foldl_fmap.
      apply foldl_same. intros y i. f_equal.
      unfold sub. rewrite drop_drop. done.
Qed.

Lemma cmac_last_short msg k1 k2 :
  (length msg ≤ 16)%nat →
  cmac_last msg k1 k2 =
  if (length msg =? 16)%nat then xorBytes msg k1
  else xorBytes (msg ++ [byte_of_Z 0x80] ++ zeros (15 - length msg)) k2.
Proof.
  intros Hl. unfold cmac_last. rewrite cmac_blocks_short by done. simpl (_ * 16)%nat.
  assert (copy_zeroed 16 msg = msg ++ zeros (16 - length msg)) as Hc.
  { unfold copy_zeroed, zeros. rewrite take_app, take_ge, take_replicate by lia.
    f_equal. f_equal. lia. }
  destruct (Nat.eqb_spec (length msg) 16) as [E|E].
  - rewrite E. simpl. change (drop 0 msg) with msg. rewrite Hc, E. simpl. by rewrite app_nil_r.
  - rewrite Nat.mod_small by lia.
    destruct (Nat.eqb_spec (length msg) 0) as [E0|E0].
    + destruct msg; [done|done].
    + cbn [negb andb]. rewrite drop_0, Hc. f_equal. unfold put_at.
      rewrite take_app_length, drop_app_ge by (simpl; lia). f_equal. f_equal.
      unfold zeros. rewrite drop_replicate. f_equal. simpl. lia.
Qed.

Lemma cmac_last_long msg k1 k2 :
  (16 < length msg)%nat → cmac_last msg k1 k2 = cmac_last (drop 16 msg) k1 k2.
Proof.
  intros Hl. unfold cmac_last. rewrite (cmac_blocks_long msg Hl), length_drop.
  pose proof (cmac_blocks_pos (drop 16 msg)).
  destruct (Nat.eqb_spec (length msg) 0); [lia|].
  destruct (Nat.eqb_spec (length msg - 16) 0); [lia|]. cbn [negb andb].
  replace ((length msg - 16) mod 16)%nat with (length msg mod 16)%nat by nat_div_lia.
  rewrite drop_drop.
  replace (16 + (cmac_blocks (drop 16 msg) - 1) * 16)%nat
    with ((S (cmac_blocks (drop 16 msg)) - 1) * 16)%nat by lia. done.
Qed.

Lemma cmac_last_split fuel msg k1 k2 :
  (length msg ≤ fuel)%nat → cmac_last msg k1 k2 = cmac_last (rfc_split fuel msg).2 k1 k2
  ∧ (length (rfc_split fuel msg).2 ≤ 16)%nat.
Proof.
  revert msg; induction fuel as [|fuel IH]; intros msg Hf; cbn [rfc_split]; [simpl; split; [done|lia]|].
  destruct (Nat.leb_spec (length msg) 16) as [Hs|Hl]; [done|].
  rewrite (cmac_last_long msg) by done. specialize (IH (drop 16 msg)). rewrite length_drop in IH.
  specialize (IH ltac:(lia)). destruct (rfc_split fuel (drop 16 msg)). done.
Qed.

(* ------------------------------------------------------------------ *)
(** ** Lemmas: the signature field *)

Lemma put_at_twice off v v' (l : bytes) :
  length v = length v' → (off + length v ≤ length l)%nat →
  put_at off v (put_at off v' l) = put_at off v l.
Proof.
  intros Hv Hl. unfold put_at at 1.
  assert (take off (put_at off v' l) = take off l) as ->.
  { unfold put_at. rewrite take_app_le by (rewrite length_take; lia).
    rewrite take_take. f_equal. lia. }
  assert (drop (off + length v) (put_at off v' l) = drop (off + length v) l) as ->; [|done].
  unfold put_at. rewrite app_assoc, drop_app_ge; rewrite length_app, length_take.
  - rewrite Nat.min_l by lia. rewrite Hv. by rewrite Nat.sub_diag, drop_0.
  - lia.
Qed.

Section signing_lemmas.
Context `{CryptoLaws}.

Lemma length_SignMessage m k d s : SignMessage m k d = Some s → length s = 16%nat.
Proof.
  unfold SignMessage, computeAESCMAC, computeHMACSHA256.
  destruct (_ || _); [done|]. destruct (SMB3_0 <=? d).
  - destruct (generateCMACSubkeys _) as [k1 k2]. intros [= <-]. apply length_aes.
  - intros [= <-]. by rewrite length_take, length_hmac_sha256.
Qed.

Lemma SignMessage_field m k d s :
  length s = 16%nat → SMB2HeaderSize ≤ len m → SignMessage (put_at 48 s m) k d = SignMessage m k d.
Proof.
  intros Hs Hm. unfold SMB2HeaderSize, len in *. unfold SignMessage.
  assert (len (put_at 48 s m) = len m) as -> by (unfold len; rewrite length_put_at; lia).
  change (Z.to_nat SignatureOffset) with 48%nat. change (Z.to_nat SignatureLength) with 16%nat.
  rewrite put_at_twice; [done| |]; unfold zeros; rewrite length_replicate; lia.
Qed.

Lemma kdf_loop_enough fuel ki label context n counter result :
  (n ≤ length result + fuel)%nat →
  (n ≤ length (kdf_loop fuel ki label context n counter result))%nat.
Proof.
  revert counter result; induction fuel as [|fuel IH]; intros counter result Hn; cbn [kdf_loop]; [lia|].
  destruct (Nat.ltb_spec (length result) n); [|done].
  apply IH. rewrite length_app, length_hmac_sha256. lia.
Qed.

Lemma kdfSP800108_length ki label context n : length (kdfSP800108 ki label context n) = n.
Proof.
  unfold kdfSP800108. rewrite length_take.
  pose proof (kdf_loop_enough n ki label context n 1 []). simpl in *. lia.
Qed.

(* ---------------------------------------------------------------- *)
(** ** Properties *)

(** The derivation loop always delivers a key of the requested length,
    and the SMB 3.x signing key is the first 16 bytes of one HMAC-SHA256 call
    over counter 1, label, zero byte, context and the bit length 128: with
    the preauthentication hash as context exactly for 3.1.1 sessions that
    have one; SMB 2.x uses the session key itself. *)
Theorem signing_key_derivation sessionKey dialect preauthHash :
  (∀ label context n, length (kdfSP800108 sessionKey label context n) = n)
  ∧ DeriveSigningKey sessionKey dialect preauthHash =
    if dialect <? SMB3_0 then sessionKey
    else
      let prf label context := take 16 (hmac_sha256 sessionKey
        (be_put 4 1 ++ label ++ [Byte.x00] ++ context ++ be_put 4 128)) in
      if (SMB3_1_1 <=? dialect) && negb (bool_decide (preauthHash = []))
      then prf (str "SMBSigningKey" ++ [Byte.x00]) preauthHash
      else prf (str "SMB2AESCMAC" ++ [Byte.x00]) (str "SmbSign" ++ [Byte.x00]).
Proof.
  split; [intros; apply kdfSP800108_length|]. unfold DeriveSigningKey. destruct (dialect <? SMB3_0); [done|].
  assert (0 <? len preauthHash = negb (bool_decide (preauthHash = []))) as ->.
  { destruct preauthHash as [|b l]; [done|]. rewrite len_cons. pose proof (len_nonneg l).
    rewrite bool_decide_false by done. apply Z.ltb_lt. lia. }
  assert (∀ label context, kdfSP800108 sessionKey label context 16 = take 16 (hmac_sha256 sessionKey
      (be_put 4 1 ++ label ++ [Byte.x00] ++ context ++ be_put 4 128))) as Hk.
  { intros label context. unfold kdfSP800108. cbn [kdf_loop length Nat.ltb Nat.leb app].
    rewrite length_hmac_sha256. done. }
  cbv zeta. rewrite <-!Hk. by destruct (_ && _).
Qed.

(** Signing fills the signature field, and nothing else. *)
Lemma SignMessage_signs m k d :
  SMB2HeaderSize ≤ len m → k ≠ [] →
  ∃ s, SignMessage m k d = Some s ∧ length s = 16%nat ∧ ApplySignature m s = put_at 48 s m
    ∧ len k =? 0 = false ∧ len m <? SMB2HeaderSize = false.
Proof.
  intros Hm Hk. pose proof Hm as Hm'. unfold SMB2HeaderSize, len in Hm'.
  assert (len k =? 0 = false) as Hk0
    by (destruct k; [done|by apply Z.eqb_neq; rewrite len_cons; pose proof (len_nonneg k); lia]).
  assert (len m <? SMB2HeaderSize = false) as Hlt by (by apply Z.ltb_ge).
  assert (∃ s, SignMessage m k d = Some s) as [s Hs].
  { unfold SignMessage. rewrite Hk0, Hlt by done. simpl. case_match; eauto. }
  pose proof (length_SignMessage _ _ _ _ Hs) as Hl. exists s. split_and!; try done.
  unfold ApplySignature. rewrite (proj2 (Z.leb_le _ _) Hm).
  assert (SignatureLength <=? len s = true) as -> by (apply Z.leb_le; unfold SignatureLength, len; lia).
  cbn [andb]. change (Z.to_nat SignatureOffset) with 48%nat. by rewrite take_ge by (rewrite Hl; done).
Qed.

Lemma put_signature m s :
  SMB2HeaderSize ≤ len m → length s = 16%nat →
  len (put_at 48 s m) = len m ∧ sub (put_at 48 s m) 48 16 = s
  ∧ take 48 (put_at 48 s m) = take 48 m ∧ drop 64 (put_at 48 s m) = drop 64 m.
Proof.
  intros Hm Hl. unfold SMB2HeaderSize, len in *. split_and!.
  - rewrite length_put_at; lia.
  - rewrite <-Hl. apply sub_put_at. lia.
  - unfold put_at. rewrite take_app_le by (rewrite length_take; lia). rewrite take_take. f_equal.
  - unfold put_at. rewrite app_assoc, drop_app_ge; rewrite length_app, length_take; [|lia].
    rewrite Hl, Nat.min_l by lia. done.
Qed.

Lemma signed_verifies m k d s :
  SMB2HeaderSize ≤ len m → k ≠ [] → SignMessage m k d = Some s → VerifySignature (put_at 48 s m) k d = true.
Proof.
  intros Hm Hk Hs. destruct (SignMessage_signs m k d Hm Hk) as (s' & Hs' & Hl & _ & Hk0 & Hlt).
  rewrite Hs in Hs'. injection Hs' as <-. destruct (put_signature m s Hm Hl) as (Hlen & Hsub & _).
  unfold VerifySignature. rewrite Hlen, Hk0, Hlt. simpl. rewrite SignMessage_field, Hs by done.
  by rewrite bool_decide_true.
Qed.

(** C29: signing and verification agree: for a message with a full header
    and a non-empty key, the computed signature has 16 bytes, applying it
    changes the signature field and nothing else, and the signed message
    verifies under the same key and dialect; and a message verifies only if
    its signature field is the one signing would put there. *)
Theorem sign_then_verify m k d :
  SMB2HeaderSize ≤ len m → k ≠ [] →
  ∃ s, SignMessage m k d = Some s ∧ length s = 16%nat
    ∧ VerifySignature (ApplySignature m s) k d = true
    ∧ take 48 (ApplySignature m s) = take 48 m ∧ drop 64 (ApplySignature m s) = drop 64 m
    ∧ (VerifySignature m k d = true ↔ ApplySignature m s = m).
Proof.
  intros Hm Hk. destruct (SignMessage_signs m k d Hm Hk) as (s & Hs & Hl & Happ & Hk0 & Hlt).
  destruct (put_signature m s Hm Hl) as (_ & Hsub & Ht & Hd).
  exists s. rewrite Happ. split_and!; [done|done|by apply signed_verifies|done|done|].
  unfold VerifySignature. rewrite Hk0, Hlt. simpl. rewrite Hs, bool_decide_eq_true.
  split; [|by intros E; rewrite <-E at 1].
  intros E. unfold put_at. rewrite <-E at 1. rewrite Hl. unfold sub.
  rewrite <-(take_drop 48 m) at 4. f_equal. rewrite <-drop_drop. apply take_drop.
Qed.

(** C30: [computeAESCMAC] is AES-CMAC of RFC 4493: the byte-wise subkey
    generation is doubling in GF(2^128), and the block loop with its last
    block is the chaining over the message's blocks, for messages of every
    length including the empty one. *)
Theorem computeAESCMAC_is_rfc4493 message key :
  computeAESCMAC message key = rfc_cmac (aes_encrypt (copy_zeroed 16 key)) message.
Proof.
  unfold computeAESCMAC, rfc_cmac, generateCMACSubkeys. cbv zeta.
  set (E := aes_encrypt (copy_zeroed 16 key)).
  destruct (double_spec (E (zeros 16))) as [H1 Hl1]; [apply length_aes|].
  destruct (double_spec (double (E (zeros 16)))) as [H2 _]; [done|].
  rewrite <-H1, <-H2.
  pose proof (cmac_fold_split E (length message) (zeros 16) message (Nat.le_refl _)) as Hf.
  destruct (cmac_last_split (length message) message (double (E (zeros 16)))
    (double (double (E (zeros 16)))) (Nat.le_refl _)) as [Hlast Hshort].
  destruct (rfc_split (length message) message) as [bs l]. simpl in Hf, Hlast, Hshort.
  rewrite Hlast, cmac_last_short by done. unfold cmac_fold in Hf. by rewrite Hf.
Qed.
End signing_lemmas.

Lemma sign_then_verify_witness :
  ∃ s, SignMessage (H := toy_crypto) (zeros 70) (str "key") SMB2_1 = Some s ∧ length s = 16%nat
    ∧ VerifySignature (H := toy_crypto) (ApplySignature (zeros 70) s) (str "key") SMB2_1 = true
    ∧ take 48 (ApplySignature (zeros 70) s) = take 48 (zeros 70)
    ∧ drop 64 (ApplySignature (zeros 70) s) = drop 64 (zeros 70)
    ∧ (VerifySignature (H := toy_crypto) (zeros 70) (str "key") SMB2_1 = true
       ↔ ApplySignature (zeros 70) s = zeros 70).
Proof.
  apply (@sign_then_verify toy_crypto toy_crypto_laws (zeros 70) (str "key") SMB2_1); [|done].
  by vm_compute.
Defined.

Lemma signing_key_derivation_witness :
  DeriveSigningKey (H := toy_crypto) (str "0123456789abcdef") SMB3_0 [] =
  take 16 (hmac_sha256 (Crypto := toy_crypto) (str "0123456789abcdef")
    (be_put 4 1 ++ (str "SMB2AESCMAC" ++ [Byte.x00]) ++ [Byte.x00]
     ++ (str "SmbSign" ++ [Byte.x00]) ++ be_put 4 128)).
Proof.
  exact (proj2 (@signing_key_derivation toy_crypto toy_crypto_laws (str "0123456789abcdef") SMB3_0 [])).
Defined.

Lemma computeAESCMAC_is_rfc4493_witness :
  computeAESCMAC (H := toy_crypto) (str "hello, world: more than one block") (str "key")
  = rfc_cmac (aes_encrypt (Crypto := toy_crypto) (copy_zeroed 16 (str "key")))
      (str "hello, world: more than one block").
Proof. apply (@computeAESCMAC_is_rfc4493 toy_crypto toy_crypto_laws). Defined.
