(* ===== verification/Ntlm.v ===== *)
(** * NTLM and guest authentication

    Models [auth_ntlm.go] and [auth_guest.go].  The authenticator's fields are
    a record and its methods computations of the [M] monad over it.  A Go
    slice may be re-sliced up to its capacity: a message is given with [tail],
    the bytes that follow it in the underlying array.  The random challenge
    and the clock reading are inputs; MD4, HMAC-MD5 and RC4 are parameters
    ([Crypto]). *)

From stdpp Require Import base numbers list gmap strings.
From S2P Require Import Prelude Unicode Constants Types Wire Signing.

Open Scope Z_scope.

Definition ntlmNegotiateMessage : Z := 1.
Definition ntlmChallengeMessage : Z := 2.
Definition ntlmAuthenticateMessage : Z := 3.
Definition ntlmFlagNegotiateUnicode : Z := 0x00000001.
Definition ntlmFlagNegotiateOEM : Z := 0x00000002.
Definition ntlmFlagRequestTarget : Z := 0x00000004.
Definition ntlmFlagNegotiateSign : Z := 0x00000010.
Definition ntlmFlagNegotiateSeal : Z := 0x00000020.
Definition ntlmFlagNegotiateLMKey : Z := 0x00000080.
Definition ntlmFlagNegotiateNTLM : Z := 0x00000200.
Definition ntlmFlagNegotiateAlwaysSign : Z := 0x00008000.
Definition ntlmFlagNegotiateTargetTypeServer : Z := 0x00020000.
Definition ntlmFlagNegotiateExtendedSessionSec : Z := 0x00080000.
Definition ntlmFlagNegotiateTargetInfo : Z := 0x00800000.
Definition ntlmFlagNegotiateVersion : Z := 0x02000000.
Definition ntlmFlagNegotiate128 : Z := 0x20000000.
Definition ntlmFlagNegotiateKeyExch : Z := 0x40000000.
Definition ntlmFlagNegotiate56 : Z := 0x80000000.
Definition avIDMsvAvEOL : Z := 0x0000.
Definition avIDMsvAvNbComputerName : Z := 0x0001.
Definition avIDMsvAvNbDomainName : Z := 0x0002.
Definition avIDMsvAvDnsComputerName : Z := 0x0003.
Definition avIDMsvAvDnsDomainName : Z := 0x0004.
Definition avIDMsvAvTimestamp : Z := 0x0007.
Definition avIDMsvAvFlags : Z := 0x0006.

Definition ntlmSignature : bytes := str "NTLMSSP" ++ [Byte.x00].

(** [None] is the nil slice. *)
Record AuthResult := mkAuthResult {
  ar_Success : bool;
  ar_IsGuest : bool;
  ar_Username : gostring;
  ar_Domain : gostring;
  ar_SessionKey : option bytes;
  ar_ResponseBlob : option bytes;
}.

(** [&AuthResult{Success: false}] *)
Definition auth_failed : AuthResult := mkAuthResult false false [] [] None None.

(** [GuestAuthenticator.Authenticate] *)
Definition Guest_Authenticate (securityBlob : bytes) : AuthResult :=
  mkAuthResult true true (str "Guest") [] None None.

Record NTLMAuthenticator := mkNTLM {
  na_serverChallenge : bytes;
  na_targetName : gostring;
  na_users : gmap gostring gostring;
  na_allowGuest : bool;
  na_state : Z;
  na_clientFlags : Z;
}.

(** One DER tag-length-value. *)
Definition asn1Wrap (tag : Z) (data : bytes) : bytes :=
  let length := len data in
  if length <? 128 then byte_of_Z tag :: byte_of_Z length :: data
  else if length <? 256 then byte_of_Z tag :: byte_of_Z 0x81 :: byte_of_Z length :: data
  else byte_of_Z tag :: byte_of_Z 0x82 :: be_put 2 (u16 length) ++ data.

Definition ntlmOID : bytes :=
  map byte_of_Z [0x2b; 0x06; 0x01; 0x04; 0x01; 0x82; 0x37; 0x02; 0x02; 0x0a].

Definition wrapInSPNEGO (ntlmMsg : bytes) : bytes :=
  let negState := asn1Wrap 0xa0 (map byte_of_Z [0x0a; 0x01; 0x01]) in
  let supportedMech := asn1Wrap 0xa1 (asn1Wrap 0x06 ntlmOID) in
  let responseToken := asn1Wrap 0xa2 (asn1Wrap 0x04 ntlmMsg) in
  let content := negState ++ supportedMech ++ responseToken in
  asn1Wrap 0xa1 (asn1Wrap 0x30 content).

Definition buildSPNEGOAccept : bytes :=
  asn1Wrap 0xa1 (asn1Wrap 0x30 (asn1Wrap 0xa0 (map byte_of_Z [0x0a; 0x01; 0x00]))).

(** The first suffix that starts with the signature, [for i := 0; i < len(blob)-8; i++]. *)
Fixpoint find_signature (blob : bytes) : option bytes :=
  if len blob <=? 8 then None
  else if has_prefix ntlmSignature blob then Some blob
  else match blob with
       | [] => None
       | _ :: blob => find_signature blob
       end.

Definition extractNTLMFromSPNEGO (blob : bytes) : option bytes :=
  if len blob <? 10 then None else find_signature blob.

(** [blob[lo:hi]], up to the capacity. *)
Definition reslice (blob tail : bytes) (lo hi : Z) : outcome bytes :=
  match slice (blob ++ tail) lo hi with Some b => Ok b | None => Panic end.

Definition read_le (blob tail : bytes) (lo hi : Z) : outcome Z :=
  match reslice blob tail lo hi with Ok b => Ok (le_get b) | Panic => Panic end.

(** The common body of [extractUsername], [extractDomain],
    [extractNTResponse] and [extractEncryptedSessionKey]: a 16-bit length, a
    32-bit offset, and the bytes they designate. *)
Definition extract_field (minLen lenAt offAt : Z) (blob tail : bytes) : outcome (option bytes) :=
  if len blob <? minLen then Ok None
  else
    match read_le blob tail lenAt (lenAt + 2), read_le blob tail offAt (offAt + 4) with
    | Ok fieldLen, Ok fieldOffset =>
      if (fieldLen =? 0) || (len blob <? fieldOffset + fieldLen) then Ok None
      else match reslice blob tail fieldOffset (u32 (fieldOffset + fieldLen)) with
           | Ok b => Ok (Some b)
           | Panic => Panic
           end
    | _, _ => Panic
    end.

Definition extract_string (minLen lenAt offAt : Z) (blob tail : bytes) : outcome gostring :=
  match extract_field minLen lenAt offAt blob tail with
  | Ok None => Ok []
  | Ok (Some b) => Ok (DecodeUTF16LEToString b)
  | Panic => Panic
  end.

Definition extractUsername : bytes → bytes → outcome gostring := extract_string 44 36 40.
Definition extractDomain : bytes → bytes → outcome gostring := extract_string 32 28 32.
Definition extractNTResponse : bytes → bytes → outcome (option bytes) := extract_field 24 20 24.
Definition extractEncryptedSessionKey : bytes → bytes → outcome (option bytes) := extract_field 60 52 56.

Definition writeAVPair (avID : Z) (value : bytes) (buf : bytes) : bytes :=
  buf ++ le_put 2 avID ++ le_put 2 (u16 (len value)) ++ value.

Definition buildTargetInfo (now : Z) (a : NTLMAuthenticator) : bytes :=
  let domainUTF16 := EncodeStringToUTF16LE (na_targetName a) in
  []
  |> writeAVPair avIDMsvAvNbDomainName domainUTF16
  |> writeAVPair avIDMsvAvNbComputerName domainUTF16
  |> writeAVPair avIDMsvAvTimestamp (le_put 8 (TimeToFiletime now))
  |> writeAVPair avIDMsvAvEOL [].

(** Echo [flag] if the client set it. *)
Definition echo (client flag flags : Z) : Z :=
  if has_flag client flag then Z.lor flags flag else flags.

Definition buildResponseFlags (a : NTLMAuthenticator) : Z :=
  let c := na_clientFlags a in
  let flags := ntlmFlagNegotiateNTLM in
  if c =? 0 then flags
  else
    let flags := flags
      |> echo c ntlmFlagNegotiateUnicode |> echo c ntlmFlagNegotiateOEM
      |> echo c ntlmFlagRequestTarget |> echo c ntlmFlagNegotiateTargetTypeServer
      |> echo c ntlmFlagNegotiateTargetInfo |> echo c ntlmFlagNegotiateExtendedSessionSec
      |> echo c ntlmFlagNegotiateSign |> echo c ntlmFlagNegotiateAlwaysSign
      |> echo c ntlmFlagNegotiateSeal |> echo c ntlmFlagNegotiateKeyExch
      |> echo c ntlmFlagNegotiate128 |> echo c ntlmFlagNegotiate56
      |> echo c ntlmFlagNegotiateVersion in
    if has_flag c ntlmFlagNegotiateLMKey && negb (has_flag flags ntlmFlagNegotiateExtendedSessionSec)
    then Z.lor flags ntlmFlagNegotiateLMKey else flags.

(** The message is assembled field by field in the order of the offsets the
    source writes them at. *)
Definition buildChallengeMessage (now : Z) (a : NTLMAuthenticator) : bytes :=
  let targetNameUTF16 := EncodeStringToUTF16LE (na_targetName a) in
  let targetNameLen := len targetNameUTF16 in
  let includeTargetInfo :=
    has_flag (na_clientFlags a) ntlmFlagNegotiateTargetInfo
    || has_flag (na_clientFlags a) ntlmFlagNegotiateExtendedSessionSec in
  let targetInfo := if includeTargetInfo then buildTargetInfo now a else [] in
  let targetInfoLen := len targetInfo in
  let targetNameOffset := 56 in
  let targetInfoOffset := targetNameOffset + targetNameLen in
  let flags := buildResponseFlags a in
  let flags := if includeTargetInfo then Z.lor flags ntlmFlagNegotiateTargetInfo else flags in
  ntlmSignature                                                       (* 0 *)
  ++ le_put 4 ntlmChallengeMessage                                    (* 8 *)
  ++ le_put 2 (u16 targetNameLen) ++ le_put 2 (u16 targetNameLen)     (* 12 *)
  ++ le_put 4 (u32 targetNameOffset)                                  (* 16 *)
  ++ le_put 4 flags                                                   (* 20 *)
  ++ copy_array 8 (na_serverChallenge a)                              (* 24 *)
  ++ zeros 8                                                          (* 32 *)
  ++ (if 0 <? targetInfoLen                                           (* 40 *)
      then le_put 2 (u16 targetInfoLen) ++ le_put 2 (u16 targetInfoLen)
           ++ le_put 4 (u32 targetInfoOffset)
      else zeros 8)
  ++ [byte_of_Z 6; byte_of_Z 1] ++ le_put 2 7601 ++ zeros 3 ++ [byte_of_Z 15]  (* 48 *)
  ++ targetNameUTF16                                                  (* 56 *)
  ++ targetInfo.

Section ntlm.
Context `{UnicodeTables} `{Crypto}.

(** [users] in the order the map is iterated. *)
Definition NewNTLMAuthenticator (targetName : gostring) (users : list (gostring * gostring))
    (allowGuest : bool) : NTLMAuthenticator := {|
  na_serverChallenge := [];
  na_targetName := targetName;
  na_users := foldl (λ m u, <[ToUpper u.1 := u.2]> m) ∅ users;
  na_allowGuest := allowGuest;
  na_state := 0;
  na_clientFlags := 0;
|}.

Definition ntHash (password : gostring) : bytes := md4 (EncodeStringToUTF16LE password).

Definition ntv2Hash (username password domain : gostring) : bytes :=
  hmac_md5 (ntHash password) (EncodeStringToUTF16LE (ToUpper username ++ ToUpper domain)).

Definition rc4Decrypt (key data : bytes) : option bytes := rc4 key data.

Definition computeSessionKeyForUser (a : NTLMAuthenticator) (username password domain : gostring) : bytes :=
  hmac_md5 (ntv2Hash username password domain) (na_serverChallenge a ++ username).

Definition verifyAndComputeSessionKey (a : NTLMAuthenticator) (username password domain : gostring)
    (ntResponse encryptedSessionKey : bytes) : option bytes :=
  if len ntResponse <? 24 then Some (computeSessionKeyForUser a username password domain)
  else
    let ntProofStr := take 16 ntResponse in
    let clientBlob := drop 16 ntResponse in
    let responseKeyNT := ntv2Hash username password domain in
    let expectedNTProofStr := hmac_md5 responseKeyNT (na_serverChallenge a ++ clientBlob) in
    if negb (bool_decide (ntProofStr = expectedNTProofStr))
    then Some (computeSessionKeyForUser a username password domain)
    else
      let sessionBaseKey := hmac_md5 responseKeyNT ntProofStr in
      if has_flag (na_clientFlags a) ntlmFlagNegotiateKeyExch && (len encryptedSessionKey =? 16)
      then rc4Decrypt sessionBaseKey encryptedSessionKey
      else Some sessionBaseKey.

Definition verifyNTLMResponse (username password : gostring) (ntResponse : bytes) : bool :=
  if len ntResponse =? 0 then false
  else if (24 <=? len ntResponse) && (len (ntHash password) =? 16) then true
  else 0 <? len ntResponse.

(** [challenge] is what [rand.Read] left in the 8-byte buffer. *)
Definition ntlm_handleNegotiate (now : Z) (challenge blob : bytes) : M NTLMAuthenticator AuthResult := λ a,
  let clientFlags := if 16 <=? len blob then le_get (sub blob 12 4) else na_clientFlags a in
  let a := mkNTLM challenge (na_targetName a) (na_users a) (na_allowGuest a) 1 clientFlags in
  let responseBlob := wrapInSPNEGO (buildChallengeMessage now a) in
  Ok (mkAuthResult false false [] [] None (Some responseBlob), a).

Definition set_state (s : Z) (a : NTLMAuthenticator) : NTLMAuthenticator :=
  mkNTLM (na_serverChallenge a) (na_targetName a) (na_users a) (na_allowGuest a) s (na_clientFlags a).

Definition ntlm_handleAuthenticate (blob tail : bytes) : M NTLMAuthenticator AuthResult := λ a,
  match extractUsername blob tail, extractDomain blob tail, extractNTResponse blob tail,
        extractEncryptedSessionKey blob tail with
  | Ok username, Ok domain, Ok ntResponse, Ok encryptedSessionKey =>
    let isGuestAttempt :=
      bool_decide (username = []) || EqualFold username (str "guest")
      || EqualFold username (str "anonymous") in
    if isGuestAttempt then
      if na_allowGuest a
      then Ok (mkAuthResult true true (str "Guest") domain None None, a)
      else Ok (auth_failed, a)
    else
      match na_users a !! ToUpper username with
      | None =>
        if na_allowGuest a
        then Ok (mkAuthResult true true username domain None None, a)
        else Ok (auth_failed, a)
      | Some password =>
        match verifyAndComputeSessionKey a username password domain
                (default [] ntResponse) (default [] encryptedSessionKey) with
        | None => Ok (auth_failed, a)
        | Some sessionKey =>
          Ok (mkAuthResult true false username domain (Some sessionKey) None, set_state 2 a)
        end
      end
  | _, _, _, _ => Panic
  end.

Definition NTLM_Authenticate (now : Z) (challenge securityBlob tail : bytes)
    : M NTLMAuthenticator AuthResult := λ a,
  let ntlmBlob := default securityBlob (extractNTLMFromSPNEGO securityBlob) in
  if (len ntlmBlob <? 12) || negb (has_prefix ntlmSignature ntlmBlob) then
    if na_allowGuest a
    then Ok (mkAuthResult true true (str "Guest") [] None None, a)
    else Ok (auth_failed, a)
  else
    let msgType := le_get (sub ntlmBlob 8 4) in
    if msgType =? ntlmNegotiateMessage then ntlm_handleNegotiate now challenge ntlmBlob a
    else if msgType =? ntlmAuthenticateMessage then ntlm_handleAuthenticate ntlmBlob tail a
    else Ok (auth_failed, a).
End ntlm.

(* ------------------------------------------------------------------ *)
(** ** Lemmas: the SPNEGO wrapper *)

Lemma find_signature_cons b data :
  8 < len data → (b = Byte.x4e → head data ≠ Some Byte.x54) →
  find_signature (b :: data) = find_signature data.
Proof.
  intros Hl Hb. cbn [find_signature].
  destruct (Z.leb_spec (len (b :: data)) 8); [rewrite len_cons in *; lia|].
  destruct (has_prefix ntlmSignature (b :: data)) eqn:E; [|done].
  exfalso. destruct data as [|c data]; [done|]. revert E. unfold ntlmSignature, str. simpl.
  rewrite !andb_true_iff, !bool_decide_eq_true. intros (<- & <- & _). by apply Hb.
Qed.

Lemma len_asn1Wrap tag data : len data < len (asn1Wrap tag data).
Proof. unfold asn1Wrap. case_match; [|case_match]; autorewrite with len; unfold len, be_put; lia. Qed.

Lemma find_signature_asn1 tag data :
  8 < len data → byte_of_Z tag ≠ Byte.x4e → head data ≠ Some Byte.x54 → head data ≠ Some Byte.x4c →
  find_signature (asn1Wrap tag data) = find_signature data.
Proof.
  intros Hl Ht HT HL. unfold asn1Wrap, be_put. cbn [le_put rev app].
  destruct (len data <? 128); [|destruct (len data <? 256)].
  - rewrite !find_signature_cons; autorewrite with len; try lia; naive_solver.
  - rewrite !find_signature_cons; autorewrite with len; try lia; naive_solver.
  - set (hi := byte_of_Z (u16 (len data) / 256)). set (lo := byte_of_Z (u16 (len data))).
    rewrite find_signature_cons by (autorewrite with len; try lia; naive_solver).
    rewrite find_signature_cons by (autorewrite with len; try lia; done).
    assert (find_signature (hi :: lo :: data) = find_signature (lo :: data)) as ->.
    { cbn [find_signature]. destruct (Z.leb_spec (len (hi :: lo :: data)) 8);
        [autorewrite with len in *; lia|].
      destruct (has_prefix ntlmSignature (hi :: lo :: data)) eqn:E; [|done].
      exfalso. destruct data as [|c data]; [done|]. revert E. unfold ntlmSignature, str. simpl.
      rewrite !andb_true_iff, !bool_decide_eq_true. intros (_ & _ & <- & _). by apply HL. }
    apply find_signature_cons; [done|]. naive_solver.
Qed.

Lemma head_asn1Wrap tag data : head (asn1Wrap tag data) = Some (byte_of_Z tag).
Proof. unfold asn1Wrap. by repeat case_match. Qed.

(** The constant part of the wrapper in front of the token. *)
Definition spnego_front : bytes :=
  asn1Wrap 0xa0 (map byte_of_Z [0x0a; 0x01; 0x01]) ++ asn1Wrap 0xa1 (asn1Wrap 0x06 ntlmOID).

Lemma find_signature_front data :
  8 < len data → find_signature (spnego_front ++ data) = find_signature data.
Proof.
  intros Hl.
  let l := eval vm_compute in spnego_front in change spnego_front with l.
  cbn [app]. rewrite !find_signature_cons; autorewrite with len; try lia; done.
Qed.

Lemma len_wrapInSPNEGO msg : len msg + 2 ≤ len (wrapInSPNEGO msg).
Proof.
  unfold wrapInSPNEGO. cbv zeta. set (front := asn1Wrap 0xa0 _). set (mech := asn1Wrap 0xa1 (asn1Wrap 6 _)).
  pose proof (len_asn1Wrap 0x04 msg). pose proof (len_asn1Wrap 0xa2 (asn1Wrap 0x04 msg)).
  set (c := front ++ mech ++ asn1Wrap 0xa2 (asn1Wrap 0x04 msg)).
  pose proof (len_asn1Wrap 0x30 c). pose proof (len_asn1Wrap 0xa1 (asn1Wrap 0x30 c)).
  assert (len c = len front + (len mech + len (asn1Wrap 0xa2 (asn1Wrap 0x04 msg))))
    by (unfold c; by autorewrite with len).
  pose proof (len_nonneg front); pose proof (len_nonneg mech). lia.
Qed.

Lemma find_signature_wrap msg :
  8 < len msg → has_prefix ntlmSignature msg = true → find_signature (wrapInSPNEGO msg) = Some msg.
Proof.
  intros Hl Hsig.
  assert (head msg = Some Byte.x4e) as Hh.
  { apply has_prefix_spec in Hsig as [k ->]. done. }
  assert (find_signature msg = Some msg) as Hm.
  { destruct msg as [|c m]; [done|]. cbn [find_signature].
    destruct (Z.leb_spec (len (c :: m)) 8); [lia|]. by rewrite Hsig. }
  unfold wrapInSPNEGO. cbv zeta. rewrite app_assoc. fold spnego_front.
  set (tok := asn1Wrap 0x04 msg). set (rt := asn1Wrap 0xa2 tok).
  assert (len msg < len tok) by apply len_asn1Wrap. assert (len tok < len rt) by apply len_asn1Wrap.
  assert (len rt ≤ len (spnego_front ++ rt)) by (rewrite len_app; pose proof (len_nonneg spnego_front); lia).
  pose proof (len_asn1Wrap 0x30 (spnego_front ++ rt)).
  rewrite find_signature_asn1; [|lia|done|by rewrite head_asn1Wrap..].
  rewrite find_signature_asn1; [|lia|done|done|done].
  rewrite find_signature_front by lia. unfold rt.
  rewrite find_signature_asn1; [|lia|done|unfold tok; by rewrite head_asn1Wrap..].
  unfold tok. rewrite find_signature_asn1; [done|lia|done|by rewrite Hh..].
Qed.

(* ------------------------------------------------------------------ *)
(** ** Properties *)

(** Unwrapping inverts wrapping: the NTLM message inside the SPNEGO token
    the server builds is found again, whatever its length and content. *)
Theorem spnego_roundtrip msg :
  8 < len msg → has_prefix ntlmSignature msg = true →
  extractNTLMFromSPNEGO (wrapInSPNEGO msg) = Some msg.
Proof.
  intros Hl Hsig. unfold extractNTLMFromSPNEGO.
  pose proof (len_wrapInSPNEGO msg).
  destruct (Z.ltb_spec (len (wrapInSPNEGO msg)) 10); [lia|]. by apply find_signature_wrap.
Qed.

Lemma spnego_roundtrip_witness :
  extractNTLMFromSPNEGO (wrapInSPNEGO (ntlmSignature ++ zeros 300)) = Some (ntlmSignature ++ zeros 300).
Proof. apply spnego_roundtrip; [by vm_compute|reflexivity]. Defined.

Section ntlm_properties.
Context `{UnicodeTables} `{CryptoLaws}.

(** What an authentication step can conclude, and what it leaves alone:
    guests need the guest option, everyone else is a configured user. *)
Lemma NTLM_Authenticate_permits now challenge blob tail a r a' :
  NTLM_Authenticate now challenge blob tail a = Ok (r, a') →
  (ar_Success r = true →
     if ar_IsGuest r then na_allowGuest a = true
     else is_Some (na_users a !! ToUpper (ar_Username r)) ∧ is_Some (ar_SessionKey r))
  ∧ na_allowGuest a' = na_allowGuest a ∧ na_users a' = na_users a.
Proof.
  unfold NTLM_Authenticate, ntlm_handleNegotiate, ntlm_handleAuthenticate. intros E.
  repeat (case_match; simplify_eq/=; try done); eauto 6.
Qed.

(** Every blob of at least 36 bytes is processed without a panic. *)
Lemma read_le_ok blob tail lo hi :
  0 ≤ lo ≤ hi → hi ≤ len blob → ∃ v, read_le blob tail lo hi = Ok v ∧ 0 ≤ v < 256 ^ (hi - lo).
Proof.
  intros Hlo Hhi. unfold read_le, reslice. destruct (slice (blob ++ tail) lo hi) as [b|] eqn:E.
  - exists (le_get b). split; [done|]. apply len_slice in E. rewrite <-E. apply le_get_range.
  - apply slice_None in E. rewrite len_app in E. pose proof (len_nonneg tail). lia.
Qed.

Lemma extract_field_ok minLen lenAt offAt blob tail :
  0 ≤ lenAt → 0 ≤ offAt → lenAt + 2 ≤ len blob → offAt + 4 ≤ len blob → len blob < 2 ^ 32 →
  ∃ o, extract_field minLen lenAt offAt blob tail = Ok o.
Proof.
  intros Hl0 Ho0 Hl Ho Hb. unfold extract_field. case_match; [eauto|].
  destruct (read_le_ok blob tail lenAt (lenAt + 2)) as (n & -> & Hn); [lia..|].
  destruct (read_le_ok blob tail offAt (offAt + 4)) as (off & -> & Hoff); [lia..|].
  destruct (Z.eqb_spec n 0); [simpl; eauto|].
  destruct (Z.ltb_spec (len blob) (off + n)); simpl; [eauto|].
  rewrite u32_small by lia. unfold reslice.
  destruct (slice (blob ++ tail) off (off + n)) as [b|] eqn:E; [eauto|].
  apply slice_None in E. rewrite len_app in E. pose proof (len_nonneg tail). lia.
Qed.

(** The NTLM message inside a security blob. *)
Definition ntlm_blob (securityBlob : bytes) : bytes :=
  default securityBlob (extractNTLMFromSPNEGO securityBlob).

Lemma NTLM_Authenticate_total now challenge blob tail a :
  (le_get (sub (ntlm_blob blob) 8 4) = ntlmAuthenticateMessage → 60 ≤ len (ntlm_blob blob) < 2 ^ 32) →
  ∃ r a', NTLM_Authenticate now challenge blob tail a = Ok (r, a').
Proof.
  unfold NTLM_Authenticate. fold (ntlm_blob blob). set (b := ntlm_blob blob). clearbody b. intros Hb.
  destruct (_ || _); [case_match; eauto|].
  destruct (_ =? ntlmNegotiateMessage); [unfold ntlm_handleNegotiate; eauto|].
  destruct (Z.eqb_spec (le_get (sub b 8 4)) ntlmAuthenticateMessage) as [E|]; [|eauto].
  apply Hb in E. unfold ntlm_handleAuthenticate, extractUsername, extractDomain,
    extractNTResponse, extractEncryptedSessionKey, extract_string.
  destruct (extract_field_ok 44 36 40 b tail) as (o1 & ->); [lia..|].
  destruct (extract_field_ok 32 28 32 b tail) as (o2 & ->); [lia..|].
  destruct (extract_field_ok 24 20 24 b tail) as (o3 & ->); [lia..|].
  destruct (extract_field_ok 60 52 56 b tail) as (o4 & ->); [lia..|].
  destruct o1, o2; repeat case_match; simplify_eq; eauto.
Qed.

(** C39: the response is never checked: for a configured user every
    authenticate message is accepted, whatever response it carries, although
    [verifyAndComputeSessionKey] promises nil on failure. *)
Theorem ntlm_accepts_any_response a blob tail username domain ntResponse key password :
  extractUsername blob tail = Ok username → extractDomain blob tail = Ok domain →
  extractNTResponse blob tail = Ok ntResponse → extractEncryptedSessionKey blob tail = Ok key →
  username ≠ [] → EqualFold username (str "guest") = false →
  EqualFold username (str "anonymous") = false →
  na_users a !! ToUpper username = Some password →
  ∃ sessionKey, ntlm_handleAuthenticate blob tail a
    = Ok (mkAuthResult true false username domain (Some sessionKey) None, set_state 2 a).
Proof.
  intros Hu Hd Hn Hk Hne Hg Han Hp. unfold ntlm_handleAuthenticate.
  rewrite Hu, Hd, Hn, Hk, Hg, Han, bool_decide_false, Hp by done. cbn [orb].
  assert (∃ k, verifyAndComputeSessionKey a username password domain
    (default [] ntResponse) (default [] key) = Some k) as [k ->]; [|by exists k].
  unfold verifyAndComputeSessionKey, rc4Decrypt. repeat case_match; eauto.
  destruct (rc4_key (hmac_md5 (ntv2Hash username password domain) (take 16 (default [] ntResponse)))
    (default [] key)) as (r & -> & _); [|by exists r]. rewrite length_hmac_md5. lia.
Qed.
End ntlm_properties.

(** A type 3 message for [user] whose response is the 24 bytes [resp]. *)
Definition sample_type3 (resp : bytes) : bytes :=
  ntlmSignature ++ le_put 4 3 ++ zeros 8
  ++ le_put 2 24 ++ le_put 2 24 ++ le_put 4 72     (* NT response *)
  ++ zeros 8                                       (* domain *)
  ++ le_put 2 8 ++ le_put 2 8 ++ le_put 4 64       (* user name *)
  ++ zeros 20
  ++ EncodeStringToUTF16LE (str "user") ++ resp.

Definition sample_auth : NTLMAuthenticator :=
  NewNTLMAuthenticator (str "SRV") [(str "user", str "secret")] false.

Lemma ntlm_accepts_any_response_witness :
  ∃ k, ntlm_handleAuthenticate (H0 := toy_crypto) (sample_type3 (zeros 24)) [] sample_auth
    = Ok (mkAuthResult true false (str "user") [] (Some k) None, set_state 2 sample_auth).
Proof.
  by apply (@ntlm_accepts_any_response _ toy_crypto toy_crypto_laws sample_auth (sample_type3 (zeros 24)) []
    (str "user") [] (Some (zeros 24)) None (str "secret")); vm_compute.
Defined.

(** The field extractors read past the length they check: an authenticate
    message of 32 to 35 bytes that ends its buffer makes the server panic
    before anyone is authenticated. *)
Theorem short_authenticate_panics `{UnicodeTables} `{Crypto} now challenge a n :
  (20 ≤ n < 24)%nat →
  NTLM_Authenticate now challenge (ntlmSignature ++ le_put 4 3 ++ zeros n) [] a = Panic.
Proof.
  intros Hn. assert (n = 20 ∨ n = 21 ∨ n = 22 ∨ n = 23)%nat as [->|[->|[->| ->]]] by lia; reflexivity.
Qed.

Lemma short_authenticate_panics_witness :
  NTLM_Authenticate (H0 := toy_crypto) 0 (zeros 8) (ntlmSignature ++ le_put 4 3 ++ zeros 21) [] sample_auth = Panic.
Proof. apply (short_authenticate_panics (H0 := toy_crypto)). lia. Defined.
