(* ===== verification/Sessions.v ===== *)
(** * Session manager

    Models [session_manager.go].  Sessions are shared objects: the manager's
    maps, the tree connections and the connections' states hold pointers to
    them and several goroutines mutate them, so they live in a heap.  A tree
    connection is never mutated after its creation and is a plain value.
    Every operation runs under the manager's or the session's lock. *)

From stdpp Require Import base numbers list gmap sets fin_maps strings.
From S2P Require Import Prelude Constants Types HandleMap Ntlm.

Open Scope Z_scope.

Inductive SessionState := SessionStateInProgress | SessionStateValid | SessionStateExpired.

#[global] Instance SessionState_eq_dec : EqDecision SessionState.
Proof. solve_decision. Defined.

(** The implementations of the [Authenticator] interface. *)
Inductive Authenticator :=
| NTLM (a : NTLMAuthenticator)
| Guest.

Record TreeConnection := mkTree {
  t_ID : Z;
  t_ShareName : gostring;
  t_Share : ptr;
  t_Session : ptr;
  t_CreatedAt : Z;
  t_IsReadOnly : bool;
}.

Record Session := mkSession {
  s_ID : Z;
  s_State : SessionState;
  s_Dialect : Z;
  s_IsGuest : bool;
  s_Username : gostring;
  s_Domain : gostring;
  s_SigningKey : option bytes;
  s_CreatedAt : Z;
  s_LastActivity : Z;
  s_ClientGUID : bytes;
  s_ClientIP : gostring;
  s_Authenticator : option Authenticator;
  s_trees : gmap Z TreeConnection;
  s_nextID : Z;
}.

Record SessionManager := mkManager {
  sm_heap : gmap ptr Session;
  sm_nextPtr : ptr;
  sm_sessions : gmap Z ptr;
  sm_byGUID : gmap bytes ptr;
  sm_nextID : Z;
  sm_idleLimit : Z;
}.

Definition NewSessionManager (idleLimit : Z) : SessionManager := {|
  sm_heap := ∅; sm_nextPtr := 0; sm_sessions := ∅; sm_byGUID := ∅; sm_nextID := 1;
  sm_idleLimit := if idleLimit =? 0 then 15 * 60 * 1000000000 else idleLimit;
|}.

Definition zeroGUID : bytes := zeros 16.

(** [random] is the number read by [rand.Read], [None] when it failed. *)
Definition CreateSession (random : option Z) (now dialect : Z) (clientGUID : bytes)
    (clientIP : gostring) (m : SessionManager) : ptr * SessionManager :=
  let sessionID := default 0 random in
  let '(sessionID, nextID) :=
    if sessionID =? 0 then (sm_nextID m, u64 (sm_nextID m + 1)) else (sessionID, sm_nextID m) in
  let p := sm_nextPtr m in
  let session := {|
    s_ID := sessionID; s_State := SessionStateInProgress; s_Dialect := dialect;
    s_IsGuest := false; s_Username := []; s_Domain := []; s_SigningKey := None;
    s_CreatedAt := now; s_LastActivity := now; s_ClientGUID := clientGUID; s_ClientIP := clientIP;
    s_Authenticator := None; s_trees := ∅; s_nextID := 1;
  |} in
  (p, {|
    sm_heap := <[p := session]> (sm_heap m);
    sm_nextPtr := S p;
    sm_sessions := <[sessionID := p]> (sm_sessions m);
    sm_byGUID := if bool_decide (clientGUID = zeroGUID) then sm_byGUID m
                 else <[clientGUID := p]> (sm_byGUID m);
    sm_nextID := nextID;
    sm_idleLimit := sm_idleLimit m;
  |}).

Definition GetSession (id : Z) (m : SessionManager) : option ptr := sm_sessions m !! id.

Definition GetSessionByGUID (guid : bytes) (m : SessionManager) : option ptr := sm_byGUID m !! guid.

Definition s_deref (m : SessionManager) (p : ptr) : option Session := sm_heap m !! p.

Definition ValidateSession (id : Z) (m : SessionManager) : option ptr * Z :=
  match p ← sm_sessions m !! id; s ← s_deref m p; Some (p, s) with
  | None => (None, STATUS_USER_SESSION_DELETED)
  | Some (p, session) =>
    if negb (bool_decide (s_State session = SessionStateValid))
    then (None, STATUS_USER_SESSION_DELETED)
    else (Some p, STATUS_SUCCESS)
  end.

(** Mutation of the session behind a pointer. *)
Definition s_update (p : ptr) (f : Session → Session) (m : SessionManager) : SessionManager := {|
  sm_heap := alter f p (sm_heap m); sm_nextPtr := sm_nextPtr m; sm_sessions := sm_sessions m;
  sm_byGUID := sm_byGUID m; sm_nextID := sm_nextID m; sm_idleLimit := sm_idleLimit m;
|}.

Definition set_LastActivity (now : Z) (s : Session) : Session :=
  mkSession (s_ID s) (s_State s) (s_Dialect s) (s_IsGuest s) (s_Username s) (s_Domain s)
    (s_SigningKey s) (s_CreatedAt s) now (s_ClientGUID s) (s_ClientIP s) (s_Authenticator s)
    (s_trees s) (s_nextID s).

Definition set_Authenticator (a : Authenticator) (s : Session) : Session :=
  mkSession (s_ID s) (s_State s) (s_Dialect s) (s_IsGuest s) (s_Username s) (s_Domain s)
    (s_SigningKey s) (s_CreatedAt s) (s_LastActivity s) (s_ClientGUID s) (s_ClientIP s) (Some a)
    (s_trees s) (s_nextID s).

Definition set_trees (trees : gmap Z TreeConnection) (nextID : Z) (s : Session) : Session :=
  mkSession (s_ID s) (s_State s) (s_Dialect s) (s_IsGuest s) (s_Username s) (s_Domain s)
    (s_SigningKey s) (s_CreatedAt s) (s_LastActivity s) (s_ClientGUID s) (s_ClientIP s)
    (s_Authenticator s) trees nextID.

Definition UpdateActivity (now id : Z) (m : SessionManager) : SessionManager :=
  match sm_sessions m !! id with
  | Some p => s_update p (set_LastActivity now) m
  | None => m
  end.

(** Removal of an entry and of the session's reconnection entry. *)
Definition drop_session (id : Z) (session : Session) (m : SessionManager) : SessionManager := {|
  sm_heap := sm_heap m; sm_nextPtr := sm_nextPtr m;
  sm_sessions := delete id (sm_sessions m);
  sm_byGUID := if bool_decide (s_ClientGUID session = zeroGUID) then sm_byGUID m
               else delete (s_ClientGUID session) (sm_byGUID m);
  sm_nextID := sm_nextID m; sm_idleLimit := sm_idleLimit m;
|}.

Definition DestroySession (id : Z) (m : SessionManager) : option ptr * SessionManager :=
  match p ← sm_sessions m !! id; s ← s_deref m p; Some (p, s) with
  | None => (None, m)
  | Some (p, session) => (Some p, drop_session id session m)
  end.

(** [for id, session := range m.sessions]: [ids] is the iteration order; Go
    does not visit an entry deleted during the loop. *)
Fixpoint cleanup_loop (cutoff : Z) (ids : list Z) (m : SessionManager) : list ptr * SessionManager :=
  match ids with
  | [] => ([], m)
  | id :: ids =>
    match p ← sm_sessions m !! id; s ← s_deref m p; Some (p, s) with
    | Some (p, session) =>
      if s_LastActivity session <? cutoff
      then let '(expired, m) := cleanup_loop cutoff ids (drop_session id session m) in (p :: expired, m)
      else cleanup_loop cutoff ids m
    | None => cleanup_loop cutoff ids m
    end
  end.

Definition CleanupExpired (order : list Z → list Z) (now : Z) (m : SessionManager)
    : list ptr * SessionManager :=
  cleanup_loop (now - sm_idleLimit m) (order (map_to_list (sm_sessions m)).*1) m.

Definition SessionCount (m : SessionManager) : Z := Z.of_nat (size (sm_sessions m)).

(** ** Session methods *)

Definition SetValid (now : Z) (username domain : gostring) (isGuest : bool)
    (signingKey : option bytes) (s : Session) : Session :=
  mkSession (s_ID s) SessionStateValid (s_Dialect s) isGuest username domain signingKey
    (s_CreatedAt s) now (s_ClientGUID s) (s_ClientIP s) (s_Authenticator s) (s_trees s) (s_nextID s).

(** [self] is the pointer of the session. *)
Definition AddTreeConnection (now : Z) (self : ptr) (shareName : gostring) (share : ptr)
    (readOnly : bool) (s : Session) : TreeConnection * Session :=
  let treeID := s_nextID s in
  let tree := mkTree treeID shareName share self now readOnly in
  (tree, set_trees (<[treeID := tree]> (s_trees s)) (u32 (treeID + 1)) s).

Definition GetTreeConnection (id : Z) (s : Session) : option TreeConnection := s_trees s !! id.

Definition RemoveTreeConnection (id : Z) (s : Session) : option TreeConnection * Session :=
  (s_trees s !! id, set_trees (delete id (s_trees s)) (s_nextID s) s).

Definition TreeCount (s : Session) : Z := Z.of_nat (size (s_trees s)).

Definition GetAllTreeConnections (order : list TreeConnection → list TreeConnection) (s : Session)
    : list TreeConnection := order (map_to_list (s_trees s)).*2.

Definition ValidateTreeConnection (id : Z) (s : Session) : option TreeConnection * Z :=
  match s_trees s !! id with
  | None => (None, STATUS_NETWORK_NAME_DELETED)
  | Some tree => (Some tree, STATUS_SUCCESS)
  end.

(* ------------------------------------------------------------------ *)
(** ** Invariant *)

(** A session's trees: each under its own 32-bit id, pointing back to the
    session. *)
Definition trees_wf (p : ptr) (s : Session) : Prop :=
  map_Forall (λ id t, t_ID t = id ∧ t_Session t = p ∧ 0 ≤ id < 2 ^ 32) (s_trees s)
  ∧ 0 ≤ s_nextID s < 2 ^ 32.

(** The counter has not come round to a tree that is still connected. *)
Definition ids_below (s : Session) : Prop := map_Forall (λ id _, id < s_nextID s) (s_trees s).

Record sm_wf (m : SessionManager) : Prop := {
  smwf_sessions : ∀ id p, sm_sessions m !! id = Some p → ∃ s, s_deref m p = Some s ∧ s_ID s = id;
  smwf_guid : ∀ g p, sm_byGUID m !! g = Some p → ∃ s, s_deref m p = Some s ∧ s_ClientGUID s = g;
  smwf_heap : ∀ p, (sm_nextPtr m ≤ p)%nat → s_deref m p = None;
  smwf_trees : ∀ p s, s_deref m p = Some s → trees_wf p s;
}.

(** The fields the maps depend on. *)
Definition s_keeps (p : ptr) (f : Session → Session) : Prop :=
  ∀ s, s_ID (f s) = s_ID s ∧ s_ClientGUID (f s) = s_ClientGUID s ∧ (trees_wf p s → trees_wf p (f s)).

(* ------------------------------------------------------------------ *)
(** ** Lemmas *)

Lemma NewSessionManager_wf idle : sm_wf (NewSessionManager idle).
Proof.
  split; unfold NewSessionManager, s_deref; simpl; intros *; by rewrite ?lookup_empty.
Qed.

Lemma CreateSession_wf random now dialect guid ip m :
  sm_wf m → sm_wf (CreateSession random now dialect guid ip m).2.
Proof.
  intros Hwf. unfold CreateSession.
  destruct (if default 0 random =? 0 then _ else _) as [id nextID].
  assert (∀ p s, s_deref m p = Some s → p ≠ sm_nextPtr m) as Hold.
  { intros p s Hp ->. by rewrite (smwf_heap m Hwf) in Hp. }
  split; unfold s_deref in *; simpl.
  - intros id' p. destruct (decide (id' = id)) as [->|Hne].
    + rewrite lookup_insert_eq. intros [= <-]. rewrite lookup_insert_eq. by eexists.
    + rewrite lookup_insert_ne by done. intros (s & Hs & ?)%(smwf_sessions m Hwf).
      rewrite lookup_insert_ne by (intros <-; by eapply Hold). eauto.
  - intros g p. assert (sm_byGUID m !! g = Some p → ∃ s, s_deref m p = Some s ∧ s_ClientGUID s = g
      ∧ sm_nextPtr m ≠ p) as Hg.
    { intros (s & Hs & ?)%(smwf_guid m Hwf). exists s. split_and!; [done..|]. intros <-. by eapply Hold. }
    case_bool_decide.
    + intros (s & ? & ? & ?)%Hg. rewrite lookup_insert_ne by done. eauto.
    + destruct (decide (g = guid)) as [->|Hne].
      * rewrite lookup_insert_eq. intros [= <-]. rewrite lookup_insert_eq. by eexists.
      * rewrite lookup_insert_ne by done. intros (s & ? & ? & ?)%Hg.
        rewrite lookup_insert_ne by done. eauto.
  - intros p Hp. rewrite lookup_insert_ne by lia. apply (smwf_heap m Hwf). lia.
  - intros p s [[<- <-]|[Hne Hs]]%lookup_insert_Some; [|by apply (smwf_trees m Hwf)].
    split; simpl; [apply map_Forall_empty|lia].
Qed.

Lemma s_update_wf p f m : s_keeps p f → sm_wf m → sm_wf (s_update p f m).
Proof.
  intros Hf Hwf.
  assert (∀ q s, s_deref m q = Some s → ∃ s', s_deref (s_update p f m) q = Some s'
    ∧ s_ID s' = s_ID s ∧ s_ClientGUID s' = s_ClientGUID s) as Hd.
  { intros q s Hq. unfold s_deref in *; simpl. destruct (decide (q = p)) as [->|Hne].
    - rewrite lookup_alter_eq, Hq. simpl. eexists. split; [done|]. split; apply (Hf s).
    - rewrite lookup_alter_ne by done. eauto. }
  split.
  - intros id q (s & Hs & <-)%(smwf_sessions m Hwf). destruct (Hd q s Hs) as (s' & ? & ? & ?). eauto.
  - intros g q (s & Hs & <-)%(smwf_guid m Hwf). destruct (Hd q s Hs) as (s' & ? & ? & ?). eauto.
  - intros q Hq. unfold s_deref; simpl. apply (smwf_heap m Hwf) in Hq. unfold s_deref in Hq.
    destruct (decide (q = p)) as [->|Hne]; [by rewrite lookup_alter_eq, Hq|by rewrite lookup_alter_ne].
  - intros q s. unfold s_deref; simpl. destruct (decide (q = p)) as [->|Hne].
    + rewrite lookup_alter_eq. destruct (sm_heap m !! p) as [s0|] eqn:E; [|done].
      intros [= <-]. apply (Hf s0). by apply (smwf_trees m Hwf).
    + rewrite lookup_alter_ne by done. apply (smwf_trees m Hwf).
Qed.

Lemma drop_session_wf id s m : sm_wf m → sm_wf (drop_session id s m).
Proof.
  intros Hwf. split; try apply Hwf; simpl.
  - intros id' p [_ Hp]%lookup_delete_Some. by apply (smwf_sessions m Hwf).
  - intros g p Hp. apply (smwf_guid m Hwf). case_bool_decide; [done|].
    by apply lookup_delete_Some in Hp as [_ ?].
Qed.

Lemma cleanup_loop_spec cutoff ids m :
  sm_wf m → NoDup ids →
  let '(expired, m') := cleanup_loop cutoff ids m in
  sm_wf m' ∧ sm_heap m' = sm_heap m ∧
  ∀ id, sm_sessions m' !! id =
    match p ← sm_sessions m !! id; s_deref m p with
    | Some s => if bool_decide (id ∈ ids) && (s_LastActivity s <? cutoff) then None else sm_sessions m !! id
    | None => None
    end.
Proof.
  revert m; induction ids as [|i ids IH]; intros m Hwf Hnd; cbn [cleanup_loop].
  { split; [done|]. split; [done|]. intros id.
    destruct (sm_sessions m !! id) as [p|] eqn:E; [|done]. simpl.
    destruct (smwf_sessions m Hwf _ _ E) as (s & -> & _). done. }
  apply NoDup_cons in Hnd as [Hi Hnd].
  destruct (sm_sessions m !! i) as [p|] eqn:E; simpl; cycle 1.
  { specialize (IH m Hwf Hnd). destruct (cleanup_loop cutoff ids m) as [ex m'].
    destruct IH as (? & ? & IH). split; [done|]. split; [done|]. intros id. rewrite IH.
    destruct (decide (id = i)) as [->|Hne]; [by rewrite E|].
    by rewrite (bool_decide_ext (id ∈ i :: ids) (id ∈ ids)) by set_solver. }
  destruct (smwf_sessions m Hwf _ _ E) as (s & Hs & _). rewrite Hs. simpl.
  destruct (s_LastActivity s <? cutoff) eqn:Ec.
  - specialize (IH (drop_session i s m) (drop_session_wf i s m Hwf) Hnd).
    destruct (cleanup_loop cutoff ids (drop_session i s m)) as [ex m'].
    destruct IH as (? & ? & IH). split; [done|]. split; [done|]. intros id. rewrite IH; simpl.
    destruct (decide (id = i)) as [->|Hne].
    + rewrite lookup_delete_eq, E. simpl. rewrite Hs, Ec. by rewrite bool_decide_true by set_solver.
    + rewrite lookup_delete_ne by done. destruct (sm_sessions m !! id) as [q|]; [|done]. simpl.
      change (s_deref (drop_session i s m) q) with (s_deref m q).
      by rewrite (bool_decide_ext (id ∈ i :: ids) (id ∈ ids)) by set_solver.
  - specialize (IH m Hwf Hnd). destruct (cleanup_loop cutoff ids m) as [ex m'].
    destruct IH as (? & ? & IH). split; [done|]. split; [done|]. intros id. rewrite IH.
    destruct (decide (id = i)) as [->|Hne].
    + rewrite E. simpl. by rewrite Hs, Ec, !andb_false_r.
    + by rewrite (bool_decide_ext (id ∈ i :: ids) (id ∈ ids)) by set_solver.
Qed.

(** The sessions it returns are the ones it dropped. *)
Lemma cleanup_loop_expired cutoff ids m p :
  NoDup ids →
  p ∈ (cleanup_loop cutoff ids m).1 ↔
  ∃ id s, id ∈ ids ∧ sm_sessions m !! id = Some p ∧ s_deref m p = Some s ∧ s_LastActivity s < cutoff.
Proof.
  revert m; induction ids as [|i ids IH]; intros m Hnd; cbn [cleanup_loop].
  { split; [by intros ?%not_elem_of_nil|]. intros (id & s & []%not_elem_of_nil & _). }
  apply NoDup_cons in Hnd as [Hi Hnd].
  assert (∀ P : Z → Prop, (∃ id, id ∈ i :: ids ∧ P id) ↔ P i ∨ ∃ id, id ∈ ids ∧ P id) as Hcons by set_solver.
  assert ((∃ id s, id ∈ i :: ids ∧ sm_sessions m !! id = Some p ∧ s_deref m p = Some s ∧ s_LastActivity s < cutoff)
    ↔ (∃ s, sm_sessions m !! i = Some p ∧ s_deref m p = Some s ∧ s_LastActivity s < cutoff)
      ∨ ∃ id s, id ∈ ids ∧ sm_sessions m !! id = Some p ∧ s_deref m p = Some s ∧ s_LastActivity s < cutoff) as ->
    by set_solver.
  destruct (sm_sessions m !! i) as [q|] eqn:E; simpl; [|rewrite IH by done; naive_solver].
  destruct (s_deref m q) as [s|] eqn:Es; simpl; [|rewrite IH by done; naive_solver].
  destruct (Z.ltb_spec (s_LastActivity s) cutoff); [|rewrite IH by done; naive_solver lia].
  specialize (IH (drop_session i s m) Hnd). destruct (cleanup_loop cutoff ids (drop_session i s m)) as [ex m'].
  simpl in *. rewrite elem_of_cons, IH.
  assert (∀ id, id ∈ ids → delete i (sm_sessions m) !! id = sm_sessions m !! id) as Hdel.
  { intros id Hid. apply lookup_delete_ne. by intros ->. }
  change (s_deref (drop_session i s m) p) with (s_deref m p).
  split.
  - intros [->|(id & s' & Hid & Hs' & ?)]; [left; eauto|right]. rewrite Hdel in Hs' by done. eauto.
  - intros [(s' & [= ->] & ?)|(id & s' & Hid & Hs' & ?)]; [by left|right]. exists id, s'. by rewrite Hdel.
Qed.

Lemma CleanupExpired_spec order now m :
  sm_wf m → (∀ l, order l ≡ₚ l) →
  let '(expired, m') := CleanupExpired order now m in
  sm_wf m' ∧ sm_heap m' = sm_heap m
  ∧ (∀ id p s, sm_sessions m !! id = Some p → s_deref m p = Some s →
       sm_sessions m' !! id = if s_LastActivity s <? now - sm_idleLimit m then None else Some p)
  ∧ (∀ p, p ∈ expired ↔ ∃ id s, sm_sessions m !! id = Some p ∧ s_deref m p = Some s
       ∧ s_LastActivity s < now - sm_idleLimit m).
Proof.
  intros Hwf Hord. unfold CleanupExpired.
  assert (NoDup (order (map_to_list (sm_sessions m)).*1)) as Hnd by (rewrite Hord; apply NoDup_fst_map_to_list).
  assert (∀ id p, sm_sessions m !! id = Some p → id ∈ order (map_to_list (sm_sessions m)).*1) as Hin.
  { intros id p Hp. rewrite Hord, list_elem_of_fmap. exists (id, p). split; [done|]. by apply elem_of_map_to_list. }
  pose proof (cleanup_loop_spec (now - sm_idleLimit m) _ m Hwf Hnd) as Hc.
  pose proof (λ p, cleanup_loop_expired (now - sm_idleLimit m) _ m p Hnd) as He.
  destruct (cleanup_loop _ _ m) as [ex m']. destruct Hc as (Hwf' & Hh & Hs). split_and!; [done|done| |].
  - intros id p s Hp Hd. rewrite Hs, Hp. simpl. by rewrite Hd, bool_decide_true by eauto.
  - intros p. rewrite He. split; [naive_solver|]. intros (id & s & Hp & ?). exists id, s. eauto.
Qed.

Lemma keeps_SetValid p now u d g k : s_keeps p (SetValid now u d g k).
Proof. done. Qed.
Lemma keeps_LastActivity p now : s_keeps p (set_LastActivity now).
Proof. done. Qed.
Lemma keeps_Authenticator p a : s_keeps p (set_Authenticator a).
Proof. done. Qed.
Lemma keeps_RemoveTree p id : s_keeps p (λ s, (RemoveTreeConnection id s).2).
Proof.
  intros s. split; [done|]. split; [done|]. intros [Ht Hn]. split; [|done]. simpl.
  intros i t [_ Hi]%lookup_delete_Some. by apply Ht.
Qed.

Lemma AddTree_wf p now name share ro s :
  trees_wf p s → trees_wf p (AddTreeConnection now p name share ro s).2.
Proof.
  intros [Ht Hn]. split; simpl; [|unfold u32; apply Z.mod_pos_bound; lia].
  intros i t [[<- <-]|[Hne Hi]]%lookup_insert_Some; [done|by apply Ht].
Qed.

(** The counter wraps to zero after [2^32 - 1] connections: until then a new
    connection has a new id. *)
Lemma AddTree_fresh now p name share ro s :
  ids_below s → s_trees s !! s_nextID s = None
  ∧ (0 ≤ s_nextID s → s_nextID s + 1 < 2 ^ 32 → ids_below (AddTreeConnection now p name share ro s).2).
Proof.
  intros Ht. split.
  - destruct (s_trees s !! s_nextID s) as [t|] eqn:E; [|done]. apply Ht in E. lia.
  - intros H0 Hb. unfold ids_below. simpl. rewrite u32_small by lia.
    intros i t [[<- _]|[_ Hi]]%lookup_insert_Some; [lia|]. apply Ht in Hi. lia.
Qed.
#[export] Hint Resolve NewSessionManager_wf CreateSession_wf s_update_wf drop_session_wf
  keeps_SetValid keeps_LastActivity keeps_Authenticator keeps_RemoveTree : smb.

(* ------------------------------------------------------------------ *)
(** ** Reachable states

    The operations that change the manager or a session, as a step relation;
    [A] collects the sessions that were marked authenticated. *)
Inductive sm_step : SessionManager * gset ptr → SessionManager * gset ptr → Prop :=
| step_Create random now dialect guid ip m A :
    sm_step (m, A) ((CreateSession random now dialect guid ip m).2, A)
| step_SetValid p now u d g k m A :
    sm_step (m, A) (s_update p (SetValid now u d g k) m, {[ p ]} ∪ A)
| step_UpdateActivity now id m A :
    sm_step (m, A) (UpdateActivity now id m, A)
| step_Authenticator p a m A :
    sm_step (m, A) (s_update p (set_Authenticator a) m, A)
| step_AddTree p now name share ro m A :
    sm_step (m, A) (s_update p (λ s, (AddTreeConnection now p name share ro s).2) m, A)
| step_RemoveTree p id m A :
    sm_step (m, A) (s_update p (λ s, (RemoveTreeConnection id s).2) m, A)
| step_Destroy id m A :
    sm_step (m, A) ((DestroySession id m).2, A)
| step_Cleanup order now m A :
    (∀ l, order l ≡ₚ l) → sm_step (m, A) ((CleanupExpired order now m).2, A).

(** Sessions in the valid state were marked so. *)
Definition valid_marked (m : SessionManager) (A : gset ptr) : Prop :=
  ∀ p s, s_deref m p = Some s → s_State s = SessionStateValid → p ∈ A.

Lemma s_update_marked p f m A :
  (∀ s, s_State (f s) = SessionStateValid → s_State s = SessionStateValid ∨ p ∈ A) →
  valid_marked m A → valid_marked (s_update p f m) A.
Proof.
  intros Hf Hv q s. unfold s_deref; simpl. destruct (decide (q = p)) as [->|Hne].
  - rewrite lookup_alter_eq. destruct (sm_heap m !! p) as [s0|] eqn:E; [|done].
    intros [= <-] [Hs|Hs]%Hf; [|done]. by apply (Hv p s0).
  - rewrite lookup_alter_ne by done. apply Hv.
Qed.

Lemma s_update_at_wf p f m :
  sm_wf m → (∀ s, s_ID (f s) = s_ID s ∧ s_ClientGUID (f s) = s_ClientGUID s) →
  (∀ s, s_deref m p = Some s → trees_wf p (f s)) → sm_wf (s_update p f m).
Proof.
  intros Hwf Hk Hp. destruct (s_deref m p) as [s0|] eqn:E; cycle 1.
  { assert (s_update p f m = m) as ->; [|done]. destruct m. unfold s_update, s_deref in *; simpl in *.
    f_equal. apply map_eq. intros q. destruct (decide (q = p)) as [->|Hne].
    - by rewrite lookup_alter_eq, E.
    - by rewrite lookup_alter_ne. }
  assert (s_update p f m = s_update p (λ _, f s0) m) as ->.
  { destruct m. unfold s_update, s_deref in *; simpl in *. f_equal. apply map_eq. intros q.
    destruct (decide (q = p)) as [->|Hne]; [by rewrite !lookup_alter_eq, E|by rewrite !lookup_alter_ne]. }
  assert (s_update p (λ _, f s0) m = s_update p (λ s, if decide (s_ID s = s_ID s0 ∧ s_ClientGUID s = s_ClientGUID s0)
    then f s0 else s) m) as ->.
  { destruct m. unfold s_update, s_deref in *; simpl in *. f_equal. apply map_eq. intros q.
    destruct (decide (q = p)) as [->|Hne]; [|by rewrite !lookup_alter_ne].
    rewrite !lookup_alter_eq, E. simpl. by rewrite decide_True. }
  apply s_update_wf; [|done]. intros s. destruct (decide _) as [[H1 H2]|H]; [|done].
  rewrite H1, H2. destruct (Hk s0). split_and!; [done..|]. intros _. by apply Hp.
Qed.

Lemma AddTree_update_wf p now name share ro m :
  sm_wf m → sm_wf (s_update p (λ s, (AddTreeConnection now p name share ro s).2) m).
Proof.
  intros Hwf. apply s_update_at_wf; [done|done|].
  intros s Hs. by apply AddTree_wf, (smwf_trees m Hwf).
Qed.

Lemma sm_step_wf c c' : sm_step c c' → sm_wf c.1 ∧ valid_marked c.1 c.2 → sm_wf c'.1 ∧ valid_marked c'.1 c'.2.
Proof.
  destruct 1 as [random now dialect guid ip m A|p now u d g k m A|now id m A|p a m A
    |p now name share ro m A|p id m A|id m A|order now m A Hord]; simpl; intros [Hwf Hv].
  - split; [by apply CreateSession_wf|]. intros p s. unfold CreateSession.
    destruct (if default 0 random =? 0 then _ else _) as [sid nid]. unfold s_deref; simpl.
    intros [[_ <-]|[_ Hs]]%lookup_insert_Some; [done|by apply Hv].
  - split; [auto with smb|]. apply s_update_marked; [intros; right; set_solver|].
    intros q s Hq Hs. apply elem_of_union_r. by eapply Hv.
  - unfold UpdateActivity. destruct (sm_sessions m !! id); [|done].
    split; [auto with smb|]. apply s_update_marked; auto.
  - split; [auto with smb|]. apply s_update_marked; auto.
  - split; [by apply AddTree_update_wf|apply s_update_marked; auto].
  - split; [by apply s_update_wf; [apply keeps_RemoveTree|]|]. apply s_update_marked; auto.
  - unfold DestroySession. destruct (_ ≫= _) as [[p s]|]; [|done]. split; [by apply drop_session_wf|done].
  - pose proof (cleanup_loop_spec (now - sm_idleLimit m) (order (map_to_list (sm_sessions m)).*1) m Hwf) as H.
    unfold CleanupExpired. destruct (cleanup_loop _ _ m) as [ex m'].
    destruct H as (? & Hh & _); [rewrite Hord; apply NoDup_fst_map_to_list|].
    split; [done|]. intros p s. unfold s_deref; simpl. rewrite Hh. apply Hv.
Qed.

(* ------------------------------------------------------------------ *)
(** ** Properties *)

(** C27: in every state the session manager can reach, the lookup maps point
    to sessions with the key they are stored under and every tree connection
    belongs to its session, and [ValidateSession] accepts an id exactly when
    its session is in the valid state, which only [SetValid] puts it in. *)
Theorem session_manager_sound idle m A id p :
  rtc sm_step (NewSessionManager idle, ∅) (m, A) →
  sm_wf m
  ∧ (ValidateSession id m = (Some p, STATUS_SUCCESS) ↔
     ∃ s, sm_sessions m !! id = Some p ∧ s_deref m p = Some s ∧ s_ID s = id
          ∧ s_State s = SessionStateValid)
  ∧ (ValidateSession id m = (Some p, STATUS_SUCCESS) → p ∈ A).
Proof.
  intros Hr.
  assert (sm_wf m ∧ valid_marked m A) as [Hwf Hv].
  { apply (rtc_preserve sm_step (λ c, sm_wf c.1 ∧ valid_marked c.1 c.2) sm_step_wf _ _ Hr).
    split; [apply NewSessionManager_wf|]. intros q s. unfold s_deref; simpl. by rewrite lookup_empty. }
  assert (ValidateSession id m = (Some p, STATUS_SUCCESS) ↔
     ∃ s, sm_sessions m !! id = Some p ∧ s_deref m p = Some s ∧ s_ID s = id
          ∧ s_State s = SessionStateValid) as Hiff.
  { unfold ValidateSession. destruct (sm_sessions m !! id) as [q|] eqn:E; simpl; [|naive_solver].
    destruct (smwf_sessions m Hwf _ _ E) as (s & Hs & Hid). rewrite Hs. simpl.
    case_bool_decide; simpl; [|naive_solver].
    split; [intros [= <-]; eauto|]. intros (s' & [= <-] & _). done. }
  split; [done|]. split; [done|]. rewrite Hiff. intros (s & _ & Hs & _ & Hst). by eapply Hv.
Qed.

Lemma session_manager_sound_witness :
  let m := s_update 0 (SetValid 5 (str "alice") [] false None)
             (CreateSession (Some 42) 1 SMB3_1_1 zeroGUID [] (NewSessionManager 0)).2 in
  ValidateSession 42 m = (Some 0%nat, STATUS_SUCCESS) ∧ 0%nat ∈ ({[ 0%nat ]} ∪ ∅ : gset ptr).
Proof.
  intros m. split; [by vm_compute|].
  refine (proj2 (proj2 (session_manager_sound 0 m ({[ 0%nat ]} ∪ ∅) 42 0 _)) _); [|by vm_compute].
  eapply rtc_l; [apply (step_Create (Some 42) 1 SMB3_1_1 zeroGUID [])|].
  eapply rtc_l; [apply (step_SetValid 0 5 (str "alice") [] false None)|]. apply rtc_refl.
Defined.

(** The periodic cleanup removes exactly the sessions whose last activity
    lies before the idle limit, whatever order the map is iterated in, and
    leaves the sessions' contents alone. *)
Theorem cleanup_exact order now m id :
  sm_wf m → (∀ l, order l ≡ₚ l) →
  let m' := (CleanupExpired order now m).2 in
  sm_wf m' ∧ sm_heap m' = sm_heap m
  ∧ ∀ p s, sm_sessions m !! id = Some p → s_deref m p = Some s →
      sm_sessions m' !! id = if s_LastActivity s <? now - sm_idleLimit m then None else Some p.
Proof.
  intros Hwf Hord. pose proof (CleanupExpired_spec order now m Hwf Hord) as Hc.
  destruct (CleanupExpired order now m) as [ex m']. destruct Hc as (? & ? & Hs & _). split_and!; [done..|]. apply Hs.
Qed.

Lemma cleanup_exact_witness :
  let m := (CreateSession (Some 42) 1 SMB3_1_1 zeroGUID [] (NewSessionManager 10)).2 in
  sm_sessions (CleanupExpired (λ l, l) 12 m).2 !! 42 = None
  ∧ sm_sessions (CleanupExpired (λ l, l) 11 m).2 !! 42 = Some 0%nat.
Proof.
  intros m. assert (sm_wf m) as Hwf by apply CreateSession_wf, NewSessionManager_wf.
  split.
  - apply (proj2 (proj2 (cleanup_exact (λ l, l) 12 m 42 Hwf (λ l, reflexivity l))) 0%nat
      (default (mkSession 0 SessionStateExpired 0 false [] [] None 0 0 [] [] None ∅ 0) (s_deref m 0)));
      by vm_compute.
  - apply (proj2 (proj2 (cleanup_exact (λ l, l) 11 m 42 Hwf (λ l, reflexivity l))) 0%nat
      (default (mkSession 0 SessionStateExpired 0 false [] [] None 0 0 [] [] None ∅ 0) (s_deref m 0)));
      by vm_compute.
Defined.

(** Tree connections of a session do not collide: until the 32-bit
    counter has wrapped a new connection gets an id no live connection has, is
    found under it, leaves the others in place, and is gone after its removal. *)
Theorem tree_connection_lifecycle now p name share ro s :
  trees_wf p s → ids_below s →
  let '(tree, s') := AddTreeConnection now p name share ro s in
  trees_wf p s' ∧ (s_nextID s + 1 < 2 ^ 32 → ids_below s')
  ∧ s_trees s !! t_ID tree = None
  ∧ ValidateTreeConnection (t_ID tree) s' = (Some tree, STATUS_SUCCESS)
  ∧ (∀ id, id ≠ t_ID tree → GetTreeConnection id s' = GetTreeConnection id s)
  ∧ TreeCount s' = TreeCount s + 1
  ∧ ValidateTreeConnection (t_ID tree) (RemoveTreeConnection (t_ID tree) s').2
    = (None, STATUS_NETWORK_NAME_DELETED).
Proof.
  intros Hwf Hb. pose proof (AddTree_wf p now name share ro s Hwf) as Hwf'.
  destruct (AddTree_fresh now p name share ro s Hb) as [Hfresh Hb']. destruct Hwf as [_ Hn].
  unfold AddTreeConnection in *. simpl in *.
  split; [done|]. split; [intros Hlt; apply Hb'; lia|]. split; [done|]. split; [|split; [|split]].
  - unfold ValidateTreeConnection; simpl. by rewrite lookup_insert_eq.
  - intros id Hne. unfold GetTreeConnection; simpl. by rewrite lookup_insert_ne.
  - unfold TreeCount; simpl. rewrite map_size_insert_None by done. lia.
  - unfold ValidateTreeConnection; simpl. by rewrite lookup_delete_eq.
Qed.

Lemma tree_connection_lifecycle_witness :
  let s := mkSession 42 SessionStateValid SMB2_1 false (str "u") [] None 0 0 zeroGUID [] None ∅ 1 in
  let '(tree, s') := AddTreeConnection 9 0 (str "data") 3 true s in
  t_ID tree = 1 ∧ ValidateTreeConnection (t_ID tree) s' = (Some tree, STATUS_SUCCESS).
Proof.
  intros s. split; [reflexivity|].
  refine (proj1 (proj2 (proj2 (proj2 (tree_connection_lifecycle 9 0 (str "data") 3 true s _ _)))));
    [split; [apply map_Forall_empty|by vm_compute]|apply map_Forall_empty].
Defined.
