(* ===== verification/Absfs.v ===== *)
(** * The file system interface and the run-time environment

    The package [absfs] is not part of the repository: the file systems and
    files behind its interfaces are parameters.  [World] is their state
    together with the clock, the random source and the order in which Go maps
    are iterated; each operation takes and returns it.  An optional operation
    is an interface the code asks for with a type assertion: [None] means the
    value does not implement it. *)

From stdpp Require Import base numbers list relations.
From S2P Require Import Prelude Errors.

Open Scope Z_scope.

Record FileInfo := mkFileInfo {
  fi_Name : gostring;
  fi_Size : Z;        (* int64 *)
  fi_Mode : Z;        (* uint32 *)
  fi_ModTime : Z;
  fi_IsDir : bool;
}.

(** The flags of package [os] (Linux values). *)
Definition O_RDONLY : Z := 0x0.
Definition O_RDWR : Z := 0x2.
Definition O_CREATE : Z := 0x40.
Definition O_TRUNC : Z := 0x200.

Class Absfs := {
  World : Type;
  FS : Type;
  File : Type;
  DirEntry : Type;
  (** absfs.FileSystem *)
  fs_Stat : FS → gostring → World → (FileInfo + error) * World;
  fs_OpenFile : FS → gostring → Z → Z → World → (File + error) * World;
  fs_Mkdir : FS → gostring → Z → World → option error * World;
  fs_Remove : FS → gostring → World → option error * World;
  fs_Rename : FS → option (gostring → gostring → World → option error * World);
  (** absfs.File *)
  f_Stat : File → World → (FileInfo + error) * World;
  f_Read : File → Z → World → (bytes * option error) * World;
  f_Write : File → bytes → World → (Z * option error) * World;
  f_Close : File → World → option error * World;
  f_ReadDir : File → Z → World → (list DirEntry * option error) * World;
  f_Seek : File → option (Z → Z → World → (Z * option error) * World);
  f_Sync : File → option (World → option error * World);
  f_Truncate : File → option (Z → World → option error * World);
  f_Chtimes : File → option (Z → Z → World → option error * World);
  f_Chmod : File → option (Z → World → option error * World);
  de_Info : DirEntry → World → (FileInfo + error) * World;
  (** run time *)
  w_now : World → Z * World;
  w_rand : nat → World → option bytes * World;
  w_order : ∀ {A}, World → list A → list A;
}.

(** What the code relies on: [Read] fills at most its buffer, sizes are
    [int64], [rand.Read] fills its buffer, and iterating a map visits each
    entry once. *)
Class AbsfsLaws `{Absfs} : Prop := {
  f_Read_fits : ∀ f n w, len ((f_Read f n w).1.1) ≤ Z.max 0 n;
  w_rand_fills : ∀ n w b, (w_rand n w).1 = Some b → length b = n;
  w_order_perm : ∀ A w (l : list A), w_order w l ≡ₚ l;
}.

(** ** Effects that leave the file system's contents alone

    [ro_step] is one call that reads or that opens without creating or
    truncating; [ro] is any sequence of them. *)
Section read_only.
Context `{Absfs}.

Inductive ro_step : World → World → Prop :=
| ro_Stat fs p w : ro_step w (fs_Stat fs p w).2
| ro_OpenFile fs p flag perm w :
    has_flag flag O_CREATE = false → has_flag flag O_TRUNC = false →
    ro_step w (fs_OpenFile fs p flag perm w).2
| ro_f_Stat f w : ro_step w (f_Stat f w).2
| ro_f_Read f n w : ro_step w (f_Read f n w).2
| ro_f_Close f w : ro_step w (f_Close f w).2
| ro_f_ReadDir f n w : ro_step w (f_ReadDir f n w).2
| ro_f_Seek f seek off whence w : f_Seek f = Some seek → ro_step w (seek off whence w).2
| ro_de_Info d w : ro_step w (de_Info d w).2
| ro_now w : ro_step w (w_now w).2
| ro_rand n w : ro_step w (w_rand n w).2.

Definition ro : relation World := rtc ro_step.
End read_only.
#[export] Hint Constructors ro_step : smb.

(** ** A small in-memory instance, for the witnesses

    One directory of named byte strings; file handles are names. *)
Record mem_world := mkMem { mw_files : list (gostring * bytes); mw_clock : Z }.

Definition mem_lookup (p : gostring) (w : mem_world) : option bytes :=
  (list_find (λ x, x.1 = p) (mw_files w)) ≫= λ x, Some x.2.2.

Definition mem_info (p : gostring) (w : mem_world) : FileInfo + error :=
  if bool_decide (p = [Byte.x2f]) then inl (mkFileInfo p 0 0 0 true)
  else match mem_lookup p w with
       | Some b => inl (mkFileInfo p (len b) 0x1a4 0 false)
       | None => inr (Sentinel ErrNotExist)
       end.

Definition mem_remove (p : gostring) (w : mem_world) : mem_world :=
  mkMem (filter (λ x, x.1 ≠ p) (mw_files w)) (mw_clock w).

Definition mem_write (p : gostring) (b : bytes) (w : mem_world) : mem_world :=
  mkMem ((p, b) :: filter (λ x, x.1 ≠ p) (mw_files w)) (mw_clock w).

Definition mem_open (p : gostring) (flag : Z) (w : mem_world) : (gostring + error) * mem_world :=
  match mem_lookup p w with
  | Some b => (inl p, if has_flag flag O_TRUNC then mem_write p [] w else w)
  | None =>
    if bool_decide (p = [Byte.x2f]) then (inl p, w)
    else if has_flag flag O_CREATE then (inl p, mem_write p [] w) else (inr (Sentinel ErrNotExist), w)
  end.

Definition mem_absfs : Absfs := {|
  World := mem_world; FS := unit; File := gostring; DirEntry := gostring;
  fs_Stat _ p w := (mem_info p w, w);
  fs_OpenFile _ p flag _ w := mem_open p flag w;
  fs_Mkdir _ p _ w := (Some (Sentinel ErrPermission), w);
  fs_Remove _ p w := (None, mem_remove p w);
  fs_Rename _ := Some (λ p q w, (None, mem_write q (default [] (mem_lookup p w)) (mem_remove p w)));
  f_Stat f w := (mem_info f w, w);
  f_Read f n w := ((take (Z.to_nat n) (default [] (mem_lookup f w)), None), w);
  f_Write f b w := ((len b, None), mem_write f b w);
  f_Close _ w := (None, w);
  f_ReadDir _ _ w := (((mw_files w).*1, None), w);
  f_Seek _ := None; f_Sync _ := None; f_Truncate _ := None; f_Chtimes _ := None; f_Chmod _ := None;
  de_Info p w := (mem_info p w, w);
  w_now w := (mw_clock w, mkMem (mw_files w) (mw_clock w + 1));
  w_rand n w := (Some (take n (le_put n (mw_clock w + 7))), w);
  w_order _ _ l := l;
|}.

Lemma mem_absfs_laws : @AbsfsLaws mem_absfs.
Proof.
  split; simpl; intros.
  - unfold len. rewrite length_take. lia.
  - simplify_eq. rewrite length_take, length_le_put. lia.
  - done.
Qed.
