(* ===== verification/Server.v ===== *)
(** * Server state

    The data of [server_config.go] and [server.go], the share operations and
    the parts of [smb2_handlers.go] all handlers use.  A handler is a
    computation over [HS]: the connection it serves, the response header under
    construction, the server and the [World] of the environment.  Shares are
    shared objects (a tree connection keeps its share after [RemoveShare]), so
    they live in a heap. *)

From stdpp Require Import base numbers list gmap sets fin_maps strings.
From S2P Require Import Prelude Unicode Constants Types Wire Errors HandleMap Signing Ntlm Sessions Absfs.

Open Scope Z_scope.

(** ** server_config.go *)

Record ServerOptions := mkServerOptions {
  so_Port : Z;
  so_Hostname : gostring;
  so_MinDialect : Z;
  so_MaxDialect : Z;
  so_SigningRequired : bool;
  so_MaxConnections : Z;
  so_IdleTimeout : Z;
  so_ReadTimeout : Z;
  so_WriteTimeout : Z;
  so_ServerGUID : bytes;
  so_ServerName : gostring;
  so_Users : gmap gostring gostring;
  so_AllowGuest : bool;
  so_MaxReadSize : Z;
  so_MaxWriteSize : Z;
}.

Definition minute : Z := 60 * 1000000000.

Definition DefaultServerOptions : ServerOptions := {|
  so_Port := 445; so_Hostname := str "0.0.0.0"; so_MinDialect := SMB2_0_2; so_MaxDialect := SMB3_1_1;
  so_SigningRequired := false; so_MaxConnections := 100; so_IdleTimeout := 15 * minute;
  so_ReadTimeout := 30 * 1000000000; so_WriteTimeout := 30 * 1000000000;
  so_ServerGUID := zeros 16; so_ServerName := []; so_Users := ∅; so_AllowGuest := true;
  so_MaxReadSize := MaxReadSize; so_MaxWriteSize := MaxWriteSize;
|}.

Record ShareOptions := mkShareOptions {
  sho_ShareName : gostring;
  sho_SharePath : gostring;
  sho_ShareType : Z;
  sho_ReadOnly : bool;
  sho_AllowGuest : bool;
  sho_AllowedUsers : list gostring;
  sho_AllowedIPs : list gostring;
  sho_Users : gmap gostring gostring;
  sho_Comment : gostring;
  sho_MaxUsers : Z;
  sho_Hidden : bool;
  sho_CachingMode : Z;
}.

Definition DefaultShareOptions (shareName : gostring) : ShareOptions := {|
  sho_ShareName := shareName; sho_SharePath := str "/"; sho_ShareType := 0; sho_ReadOnly := false;
  sho_AllowGuest := true; sho_AllowedUsers := []; sho_AllowedIPs := []; sho_Users := ∅;
  sho_Comment := []; sho_MaxUsers := 0; sho_Hidden := false; sho_CachingMode := CachingModeManual;
|}.

(** Per-handle directory enumeration; [de_entries = []] is the nil slice. *)
Record dirEnumState := mkDirState {
  ds_entries : list FileInfo;
  ds_position : Z;
  ds_pattern : gostring;
  ds_exhausted : bool;
}.

(** [cs_session]: a session pointer. *)
Record connState := mkConn {
  cs_session : option ptr;
  cs_remoteAddr : gostring;
  cs_dialect : Z;
  cs_signingRequired : bool;
  cs_preauthHash : bytes;
}.

Definition new_conn (remoteAddr : gostring) : connState := mkConn None remoteAddr 0 false [].

Section server.
Context `{Absfs}.

Record Share := mkShare {
  sh_fs : option FS;
  sh_options : ShareOptions;
  sh_fileHandles : FileHandleMap File;
}.

Definition NewShare (fs : FS) (options : ShareOptions) : Share :=
  mkShare (Some fs) options NewFileHandleMap.

Definition Share_IsReadOnly (s : Share) : bool := sho_ReadOnly (sh_options s).

Definition GetShareType (s : Share) : Z :=
  if sho_ShareType (sh_options s) =? 0 then SMBShareTypeDisk else sho_ShareType (sh_options s).

Definition AllowsGuest (s : Share) : bool := sho_AllowGuest (sh_options s).

Definition CheckUserAccess (username : gostring) (isGuest : bool) (s : Share) : bool :=
  if isGuest then sho_AllowGuest (sh_options s)
  else if len (sho_AllowedUsers (sh_options s)) =? 0 then true
  else existsb (λ allowed, bool_decide (allowed = username)) (sho_AllowedUsers (sh_options s)).

Definition ValidateCredentials (username password : gostring) (s : Share) : bool :=
  if Z.of_nat (size (sho_Users (sh_options s))) =? 0 then true
  else match sho_Users (sh_options s) !! username with
       | None => false
       | Some storedPassword => bool_decide (storedPassword = password)
       end.

(** ** Server *)

(** [srv_dirStates] is the package variable of [smb2_dir.go]. *)
Record Server := mkServer {
  srv_options : ServerOptions;
  srv_shares : gmap gostring ptr;
  srv_shareHeap : gmap ptr Share;
  srv_nextShare : ptr;
  srv_sessions : SessionManager;
  srv_dirStates : gmap FileID dirEnumState;
}.

Definition set_shares (names : gmap gostring ptr) (heap : gmap ptr Share) (next : ptr) (s : Server) : Server :=
  mkServer (srv_options s) names heap next (srv_sessions s) (srv_dirStates s).
Definition set_shareHeap (heap : gmap ptr Share) (s : Server) : Server :=
  mkServer (srv_options s) (srv_shares s) heap (srv_nextShare s) (srv_sessions s) (srv_dirStates s).
Definition set_sessions (m : SessionManager) (s : Server) : Server :=
  mkServer (srv_options s) (srv_shares s) (srv_shareHeap s) (srv_nextShare s) m (srv_dirStates s).
Definition set_dirStates (d : gmap FileID dirEnumState) (s : Server) : Server :=
  mkServer (srv_options s) (srv_shares s) (srv_shareHeap s) (srv_nextShare s) (srv_sessions s) d.

(** The share is stored under a fresh pointer. *)
Definition install_share (name : gostring) (share : Share) (s : Server) : Server :=
  set_shares (<[name := srv_nextShare s]> (srv_shares s))
    (<[srv_nextShare s := share]> (srv_shareHeap s)) (S (srv_nextShare s)) s.

Definition addIPCShare (s : Server) : Server :=
  install_share (str "IPC$")
    (mkShare None
      (mkShareOptions (str "IPC$") [] SMBShareTypePipe false true [] [] ∅ [] 0 true 0)
      NewFileHandleMap) s.

Definition or_default (v d : Z) : Z := if v =? 0 then d else v.

(** [None]: the random source failed. [guid] is what it delivered. *)
Definition NewServer (guid : option bytes) (o : ServerOptions) : option Server :=
  match (if bool_decide (so_ServerGUID o = zeros 16) then guid else Some (so_ServerGUID o)) with
  | None => None
  | Some guid =>
    let options := {|
      so_Port := or_default (so_Port o) 445;
      so_Hostname := if bool_decide (so_Hostname o = []) then str "0.0.0.0" else so_Hostname o;
      so_MinDialect := or_default (so_MinDialect o) SMB2_0_2;
      so_MaxDialect := or_default (so_MaxDialect o) SMB3_1_1;
      so_SigningRequired := so_SigningRequired o;
      so_MaxConnections := so_MaxConnections o;
      so_IdleTimeout := or_default (so_IdleTimeout o) (15 * minute);
      so_ReadTimeout := or_default (so_ReadTimeout o) (30 * 1000000000);
      so_WriteTimeout := or_default (so_WriteTimeout o) (30 * 1000000000);
      so_ServerGUID := guid;
      so_ServerName := so_ServerName o;
      so_Users := so_Users o;
      so_AllowGuest := so_AllowGuest o;
      so_MaxReadSize := or_default (so_MaxReadSize o) MaxReadSize;
      so_MaxWriteSize := or_default (so_MaxWriteSize o) MaxWriteSize;
    |} in
    Some (addIPCShare {|
      srv_options := options; srv_shares := ∅; srv_shareHeap := ∅; srv_nextShare := 0;
      srv_sessions := NewSessionManager (so_IdleTimeout options); srv_dirStates := ∅;
    |})
  end.

(** [false]: an error is returned and nothing changes. *)
Definition AddShare (fs : FS) (options : ShareOptions) (s : Server) : bool * Server :=
  if bool_decide (sho_ShareName options = []) then (false, s)
  else match srv_shares s !! sho_ShareName options with
       | Some _ => (false, s)
       | None => (true, install_share (sho_ShareName options) (NewShare fs options) s)
       end.

Definition RemoveShare (shareName : gostring) (s : Server) : bool * Server :=
  match srv_shares s !! shareName with
  | None => (false, s)
  | Some _ => (true, set_shares (delete shareName (srv_shares s)) (srv_shareHeap s) (srv_nextShare s) s)
  end.

Definition GetShare (shareName : gostring) (s : Server) : option ptr := srv_shares s !! shareName.

Definition ListShares (order : list gostring → list gostring) (s : Server) : list gostring :=
  List.filter (λ name,
    match p ← srv_shares s !! name; srv_shareHeap s !! p with
    | Some share => negb (sho_Hidden (sh_options share))
    | None => false
    end) (order (map_to_list (srv_shares s)).*1).

(** ** The handlers' monad *)

Record HS := mkHS {
  hs_conn : connState;
  hs_resp : SMB2Header;
  hs_srv : Server;
  hs_w : World;
}.

Definition set_conn (c : connState) (h : HS) : HS := mkHS c (hs_resp h) (hs_srv h) (hs_w h).
Definition set_resp (r : SMB2Header) (h : HS) : HS := mkHS (hs_conn h) r (hs_srv h) (hs_w h).
Definition set_srv (s : Server) (h : HS) : HS := mkHS (hs_conn h) (hs_resp h) s (hs_w h).
Definition set_w (w : World) (h : HS) : HS := mkHS (hs_conn h) (hs_resp h) (hs_srv h) w.

(** A call into the environment. *)
Definition io {A} (f : World → A * World) : M HS A := λ h,
  let '(a, w) := f (hs_w h) in Ok (a, set_w w h).

Definition time_Now : M HS Z := io w_now.

(** [le.Uint64] of 8 random bytes. *)
Definition rand_uint64 : M HS (option Z) := b ← io (w_rand 8); mret (le_get <$> b).

Definition on_sessions (f : SessionManager → SessionManager) : M HS unit :=
  modify (λ h, set_srv (set_sessions (f (srv_sessions (hs_srv h))) (hs_srv h)) h).

(** Dereference a session or share pointer. *)
Definition the_session (p : ptr) : M HS Session := λ h,
  lift_option (s_deref (srv_sessions (hs_srv h)) p) h.
Definition the_share (p : ptr) : M HS Share := λ h,
  lift_option (srv_shareHeap (hs_srv h) !! p) h.

(** [share.fs.Method(...)]: a nil interface panics. *)
Definition the_fs (p : ptr) : M HS FS := share ← the_share p; lift_option (sh_fs share).

Definition handles_of (p : ptr) : M HS (FileHandleMap File) := share ← the_share p; mret (sh_fileHandles share).

Definition set_fileHandles (m : FileHandleMap File) (s : Share) : Share :=
  mkShare (sh_fs s) (sh_options s) m.

Definition put_handles (p : ptr) (m : FileHandleMap File) (h : HS) : HS :=
  set_srv (set_shareHeap (alter (set_fileHandles m) p (srv_shareHeap (hs_srv h))) (hs_srv h)) h.

Definition set_handles (p : ptr) (m : FileHandleMap File) : M HS unit := modify (put_handles p m).

(** Dereference an [*OpenFile] of a share. *)
Definition the_open (share : ptr) (p : ptr) : M HS (OpenFile File) :=
  m ← handles_of share; lift_option (deref m p).

(** [of.File.Method(...)] *)
Definition the_file (o : OpenFile File) : M HS File := lift_option (of_File o).

(** ** Common pieces of the handlers *)

Definition reply : Type := bytes * Z.

Definition buildErrorResponse : bytes :=
  NewByteWriter |> WriteUint16 9 |> WriteOneByte 0 |> WriteOneByte 0 |> WriteUint32 0 |> WriteOneByte 0 |> Bytes.

Definition fail (status : Z) : M HS reply := mret (buildErrorResponse, status).

Definition validateSession (header : SMB2Header) : M HS (option ptr * Z) :=
  gets (λ h, ValidateSession (h_SessionID header) (srv_sessions (hs_srv h))).

Definition validateTree (header : SMB2Header) : M HS (option (ptr * TreeConnection) * Z) :=
  '(session, status) ← validateSession header;
  match session with
  | None => mret (None, status)
  | Some p =>
    s ← the_session p;
    match ValidateTreeConnection (h_TreeID header) s with
    | (None, status) => mret (None, status)
    | (Some tree, _) => mret (Some (p, tree), STATUS_SUCCESS)
    end
  end.

(** [session, tree, status := h.validateTree(header)] and the early return
    every handler has; the continuation gets the session's pointer, its
    current value and the tree. *)
Definition with_tree (header : SMB2Header) (k : ptr → Session → TreeConnection → M HS reply) : M HS reply :=
  '(v, status) ← validateTree header;
  match v with
  | None => fail status
  | Some (p, tree) => s ← the_session p; k p s tree
  end.

Definition with_session (header : SMB2Header) (k : ptr → Session → M HS reply) : M HS reply :=
  '(v, status) ← validateSession header;
  match v with
  | None => fail status
  | Some p => s ← the_session p; k p s
  end.

(** [if len(payload) < min], then the structure-size check inside [parse]:
    [None] when it fails. *)
Definition with_request {R} (minLen : Z) (payload : bytes) (parse : M ByteReader (option R))
    (k : R → M HS reply) : M HS reply :=
  if len payload <? minLen then fail STATUS_INVALID_PARAMETER
  else
    req ← with_local (NewByteReader payload) parse;
    match req with
    | None => fail STATUS_INVALID_PARAMETER
    | Some req => k req
    end.

(** [of := tree.Share.fileHandles.GetByTree(fileID, tree.ID, session.ID)] and
    its nil check. *)
Definition with_open (fileID : FileID) (session : Session) (tree : TreeConnection)
    (k : ptr → OpenFile File → M HS reply) : M HS reply :=
  m ← handles_of (t_Share tree);
  match GetByTree fileID (t_ID tree) (s_ID session) m with
  | None => fail STATUS_FILE_CLOSED
  | Some p => o ← lift_option (deref m p); k p o
  end.

(** [tree.Share.fileHandles.UpdateLastAccess(fileID)] *)
Definition touch (tree : TreeConnection) (fileID : FileID) : M HS unit :=
  now ← time_Now;
  m ← handles_of (t_Share tree);
  set_handles (t_Share tree) (UpdateLastAccess now fileID m).

(** [payload[start : start+n]] with the check [start < 0 || start+n > len]. *)
Definition with_buffer (offset n : Z) (payload : bytes) (k : bytes → M HS reply) : M HS reply :=
  let start := offset - SMB2HeaderSize in
  if (start <? 0) || (len payload <? start + n) then fail STATUS_INVALID_PARAMETER
  else b ← lift_option (slice payload start (start + n)); k b.

Definition handleEcho : M HS reply :=
  mret (NewByteWriter |> WriteUint16 4 |> WriteUint16 0 |> Bytes, STATUS_SUCCESS).
End server.

Arguments Share {_}.
Arguments Server {_}.
Arguments HS {_}.

(* ------------------------------------------------------------------ *)
(** ** Invariant of the server state *)

(** What a parser establishes of its result. *)
Definition parses {R} (parse : M ByteReader (option R)) (good : R → Prop) : Prop :=
  ∀ P payload, wpp P parse (λ req _, ∀ r, req = Some r → good r) (NewByteReader payload).

Lemma parses_ok {R} parse (good : R → Prop) payload req r :
  parses parse good → parse (NewByteReader payload) = Ok (Some req, r) → good req.
Proof. intros Hp E. exact (wpp_ok True _ _ _ _ _ (Hp True payload) E req eq_refl). Qed.

Lemma parses_total {R} parse (good : R → Prop) P payload :
  parses parse good → wpp P parse (λ _ _, True) (NewByteReader payload).
Proof. intros Hp. eapply wpp_mono; [apply Hp|done]. Qed.

Section server_lemmas.
Context `{Absfs}.

(** What the handlers rely on in a handle map (and what renames, which
    break the path index, still keep). *)
Definition hm_ok (m : FileHandleMap File) : Prop :=
  ∀ id p, hm_handles m !! id = Some p →
    (p < hm_nextPtr m)%nat ∧ ∃ o, deref m p = Some o ∧ of_ID o = id ∧ is_Some (of_File o).

(** A share without a file system has no open files. *)
Definition share_ok (sh : Share) : Prop :=
  hm_ok (sh_fileHandles sh) ∧ (sh_fs sh = None → hm_handles (sh_fileHandles sh) = ∅).

(** The trees of every session point to shares. *)
Definition trees_in (heap : gmap ptr Share) (m : SessionManager) : Prop :=
  ∀ p ses id t, s_deref m p = Some ses → s_trees ses !! id = Some t → is_Some (heap !! t_Share t).

Record srv_ok (s : Server) : Prop := {
  so_sessions : sm_wf (srv_sessions s);
  so_shares : ∀ p sh, srv_shareHeap s !! p = Some sh → share_ok sh;
  so_names : ∀ name p, srv_shares s !! name = Some p → is_Some (srv_shareHeap s !! p);
  so_trees : trees_in (srv_shareHeap s) (srv_sessions s);
  so_next : ∀ p, (srv_nextShare s ≤ p)%nat → srv_shareHeap s !! p = None;
}.

Lemma hm_ok_Allocate random now f path d a sh disp opt t sid m :
  hm_ok m → hm_ok (Allocate random now (Some f) path d a sh disp opt t sid m).2.
Proof.
  intros Hok id p. simpl. intros [[<- <-]|[_ Hp]]%lookup_insert_Some.
  - split; [lia|]. unfold deref; simpl. rewrite lookup_insert_eq. eexists. split; [done|]. by simpl.
  - destruct (Hok _ _ Hp) as (Hlt & o & Ho & ?). split; [lia|]. exists o. unfold deref in *; simpl.
    by rewrite lookup_insert_ne by lia.
Qed.

Lemma hm_ok_unlink id m : hm_ok m → hm_ok (unlink id m).2.
Proof.
  intros Hok. unfold unlink. destruct (_ ≫= _) as [o|]; [|done]. intros id' p. simpl.
  intros [_ Hp]%lookup_delete_Some. by apply Hok.
Qed.

Lemma hm_ok_update p f m :
  (∀ o, of_ID (f o) = of_ID o ∧ of_File (f o) = of_File o) → hm_ok m → hm_ok (update p f m).
Proof.
  intros Hf Hok id q Hq. destruct (Hok _ _ Hq) as (Hlt & o & Ho & <- & HF). split; [done|].
  unfold deref in *; simpl. destruct (decide (q = p)) as [->|Hne].
  - rewrite lookup_alter_eq, Ho. exists (f o). destruct (Hf o) as [-> ->]. done.
  - rewrite lookup_alter_ne by done. eauto.
Qed.

Lemma hm_ok_UpdateLastAccess now id m : hm_ok m → hm_ok (UpdateLastAccess now id m).
Proof. intros. unfold UpdateLastAccess. case_match; [|done]. by apply hm_ok_update. Qed.

Lemma hm_ok_release_all ids m w : hm_ok m → hm_ok (release_all f_Close ids m w).1.2.
Proof.
  revert m w; induction ids as [|id ids IH]; intros m w Hok; cbn [release_all]; [done|].
  destruct (Release_unlink f_Close id m w) as (e & w' & -> & _).
  specialize (IH (unlink id m).2 w' (hm_ok_unlink id m Hok)).
  destruct (release_all f_Close ids (unlink id m).2 w') as [[errs m2] w2]. done.
Qed.

Lemma handles_update_keeps p f (m : FileHandleMap File) : hm_handles (update p f m) = hm_handles m.
Proof. done. Qed.

(** Replacing the handle map of a share. *)
Lemma srv_ok_put_handles p m h :
  srv_ok (hs_srv h) →
  (∀ sh, srv_shareHeap (hs_srv h) !! p = Some sh → share_ok (set_fileHandles m sh)) →
  srv_ok (hs_srv (put_handles p m h)).
Proof.
  intros Hok Hm.
  assert (∀ q, is_Some (srv_shareHeap (hs_srv h) !! q) →
    is_Some (srv_shareHeap (hs_srv (put_handles p m h)) !! q)) as Hdom.
  { intros q [sh Hq]. simpl. destruct (decide (q = p)) as [->|Hne].
    - rewrite lookup_alter_eq, Hq. eauto.
    - rewrite lookup_alter_ne by done. eauto. }
  split; [apply Hok| | | |].
  - intros q sh. simpl. destruct (decide (q = p)) as [->|Hne].
    + rewrite lookup_alter_eq. destruct (srv_shareHeap (hs_srv h) !! p) as [sh0|] eqn:E; [|done].
      intros [= <-]. by apply Hm.
    + rewrite lookup_alter_ne by done. apply Hok.
  - intros name q Hq. apply Hdom. by eapply (so_names _ Hok).
  - intros q ses id t Hq Ht. apply Hdom. by eapply (so_trees _ Hok).
  - intros q Hq. simpl. pose proof (so_next _ Hok q Hq) as Hn.
    destruct (decide (q = p)) as [->|Hne]; [by rewrite lookup_alter_eq, Hn|by rewrite lookup_alter_ne].
Qed.

(** *** Preservation by the configuration operations *)

Lemma set_sessions_ok m s :
  srv_ok s → sm_wf m → trees_in (srv_shareHeap s) m → srv_ok (set_sessions m s).
Proof. intros [] ? ?. by split. Qed.

Lemma install_share_ok name sh s : srv_ok s → share_ok sh → srv_ok (install_share name sh s).
Proof.
  intros Hok Hsh.
  assert (∀ p, is_Some (srv_shareHeap s !! p) →
    is_Some (srv_shareHeap (install_share name sh s) !! p)) as Hdom.
  { intros p [x Hp]. simpl. rewrite lookup_insert_ne; [eauto|]. intros <-.
    by rewrite (so_next _ Hok) in Hp. }
  split; [apply Hok| | | |].
  - intros p x. simpl. intros [[<- <-]|[_ Hp]]%lookup_insert_Some; [done|by eapply so_shares].
  - intros n p. simpl. intros [[<- <-]|[_ Hp]]%lookup_insert_Some.
    + rewrite lookup_insert_eq. eauto.
    + apply Hdom. by eapply so_names.
  - intros p ses id t Hp Ht. apply Hdom. by eapply so_trees.
  - intros p Hp. simpl in *. rewrite lookup_insert_ne by lia. apply (so_next _ Hok). lia.
Qed.

Lemma share_ok_new fs options : share_ok (mkShare fs options NewFileHandleMap).
Proof. split; [|done]. intros id p. simpl. by rewrite lookup_empty. Qed.

Lemma NewServer_ok guid o s : NewServer guid o = Some s → srv_ok s.
Proof.
  unfold NewServer. destruct (if bool_decide _ then _ else _) as [g|]; [|done]. intros [= <-].
  apply install_share_ok; [|apply share_ok_new]. split; simpl.
  - apply NewSessionManager_wf.
  - intros p sh. by rewrite lookup_empty.
  - intros n p. by rewrite lookup_empty.
  - intros p ses id t. unfold s_deref; simpl. by rewrite lookup_empty.
  - intros p _. apply lookup_empty.
Qed.

Lemma AddShare_ok fs options s : srv_ok s → srv_ok (AddShare fs options s).2.
Proof.
  intros Hok. unfold AddShare. repeat case_match; try done.
  apply install_share_ok; [done|apply share_ok_new].
Qed.

Lemma RemoveShare_ok name s : srv_ok s → srv_ok (RemoveShare name s).2.
Proof.
  intros Hok. unfold RemoveShare. case_match; [|done]. destruct Hok. split; try done. simpl.
  intros nm p [_ Hp]%lookup_delete_Some. by eauto.
Qed.

Lemma CreateSession_trees heap random now dialect guid ip m :
  trees_in heap m → trees_in heap (CreateSession random now dialect guid ip m).2.
Proof.
  intros Ht p ses id t. unfold CreateSession.
  destruct (if default 0 random =? 0 then _ else _) as [sid nid]. unfold s_deref; simpl.
  intros [[_ <-]|[_ Hp]]%lookup_insert_Some; simpl; [by rewrite lookup_empty|]. by eapply Ht.
Qed.

Lemma s_update_trees heap p f m :
  (∀ ses id t, s_deref m p = Some ses → s_trees (f ses) !! id = Some t →
     s_trees ses !! id = Some t ∨ is_Some (heap !! t_Share t)) →
  trees_in heap m → trees_in heap (s_update p f m).
Proof.
  intros Hf Ht q ses id t. unfold s_deref; simpl. destruct (decide (q = p)) as [->|Hne].
  - rewrite lookup_alter_eq. destruct (sm_heap m !! p) as [s0|] eqn:E; [|done].
    intros [= <-] [Hi|Hi]%Hf; [by eapply Ht|done|done].
  - rewrite lookup_alter_ne by done. apply Ht.
Qed.

Lemma AddTree_trees heap p now name share ro m :
  is_Some (heap !! share) → trees_in heap m →
  trees_in heap (s_update p (λ ses, (AddTreeConnection now p name share ro ses).2) m).
Proof.
  intros Hs. apply s_update_trees. simpl. intros ses id t _ [[_ <-]|[_ Hi]]%lookup_insert_Some; auto.
Qed.

(** *** Rules *)

Lemma wpp_io P {A} (f : World → A * World) (Q : A → HS → Prop) h :
  (∀ a w, f (hs_w h) = (a, w) → Q a (set_w w h)) → wpp P (io f) Q h.
Proof. intros HQ. unfold wpp, io. destruct (f (hs_w h)) as [a w]. by apply HQ. Qed.

(** The session and tree a header designates. *)
Definition tree_of (h : HS) (header : SMB2Header) (p : ptr) (s : Session) (t : TreeConnection) : Prop :=
  ValidateSession (h_SessionID header) (srv_sessions (hs_srv h)) = (Some p, STATUS_SUCCESS)
  ∧ s_deref (srv_sessions (hs_srv h)) p = Some s ∧ s_trees s !! h_TreeID header = Some t.

Lemma ValidateSession_cases id m :
  sm_wf m →
  ValidateSession id m = (None, STATUS_USER_SESSION_DELETED)
  ∨ ∃ p s, ValidateSession id m = (Some p, STATUS_SUCCESS) ∧ sm_sessions m !! id = Some p
      ∧ s_deref m p = Some s ∧ s_ID s = id ∧ s_State s = SessionStateValid.
Proof.
  intros Hwf. unfold ValidateSession. destruct (sm_sessions m !! id) as [p|] eqn:E; simpl; [|by left].
  destruct (smwf_sessions m Hwf _ _ E) as (s & Hs & Hid). rewrite Hs. simpl.
  case_bool_decide; simpl; [right|by left]. exists p, s. done.
Qed.

Lemma wpp_with_session P header k Q h :
  srv_ok (hs_srv h) →
  Q (buildErrorResponse, STATUS_USER_SESSION_DELETED) h →
  (∀ p s, ValidateSession (h_SessionID header) (srv_sessions (hs_srv h)) = (Some p, STATUS_SUCCESS) →
     s_deref (srv_sessions (hs_srv h)) p = Some s → s_ID s = h_SessionID header → wpp P (k p s) Q h) →
  wpp P (with_session header k) Q h.
Proof.
  intros Hok Herr Hk. unfold with_session. apply wpp_bind, wpp_gets.
  destruct (ValidateSession_cases (h_SessionID header) _ (so_sessions _ Hok))
    as [->|(p & s & Hv & Hp & Hs & Hid & Hst)]; [done|].
  rewrite Hv. apply wpp_bind. unfold the_session, wpp, lift_option. rewrite Hs. by apply Hk.
Qed.

Lemma wpp_with_tree P header k Q h :
  srv_ok (hs_srv h) →
  Q (buildErrorResponse, STATUS_USER_SESSION_DELETED) h →
  Q (buildErrorResponse, STATUS_NETWORK_NAME_DELETED) h →
  (∀ p s t, tree_of h header p s t → s_ID s = h_SessionID header →
     is_Some (srv_shareHeap (hs_srv h) !! t_Share t) → wpp P (k p s t) Q h) →
  wpp P (with_tree header k) Q h.
Proof.
  intros Hok Herr1 Herr2 Hk. unfold with_tree, validateTree. apply wpp_bind, wpp_bind, wpp_gets.
  destruct (ValidateSession_cases (h_SessionID header) _ (so_sessions _ Hok))
    as [->|(p & s & Hv & Hp & Hs & Hid & Hst)]; [done|].
  rewrite Hv. apply wpp_bind. unfold the_session at 1, wpp at 1, lift_option. rewrite Hs.
  unfold ValidateTreeConnection. destruct (s_trees s !! h_TreeID header) as [t|] eqn:Et; [|done].
  apply wpp_ret, wpp_bind. unfold the_session, wpp, lift_option. rewrite Hs.
  apply Hk; [done|done|]. by eapply (so_trees _ Hok).
Qed.

Lemma wpp_with_request P {R} minLen payload (parse : M ByteReader (option R)) k Q h :
  wpp P parse (λ _ _, True) (NewByteReader payload) →
  Q (buildErrorResponse, STATUS_INVALID_PARAMETER) h →
  (∀ req r, minLen ≤ len payload → parse (NewByteReader payload) = Ok (Some req, r) → wpp P (k req) Q h) →
  wpp P (with_request minLen payload parse k) Q h.
Proof.
  intros Hp Herr Hk. unfold with_request. destruct (Z.ltb_spec (len payload) minLen); [done|].
  apply wpp_bind, wpp_local. unfold wpp at 1 in Hp. unfold wpp at 1.
  destruct (parse (NewByteReader payload)) as [[[req|] r]|] eqn:E; [|done|done]. eauto.
Qed.

Lemma handles_of_eq p sh h :
  srv_shareHeap (hs_srv h) !! p = Some sh → handles_of p h = Ok (sh_fileHandles sh, h).
Proof. intros Hp. unfold handles_of, the_share. m_simpl. by rewrite Hp. Qed.

Lemma wpp_handles_of P p (Q : FileHandleMap File → HS → Prop) sh h :
  srv_shareHeap (hs_srv h) !! p = Some sh → Q (sh_fileHandles sh) h → wpp P (handles_of p) Q h.
Proof. intros Hp HQ. unfold wpp. by rewrite (handles_of_eq p sh h Hp). Qed.

Lemma GetByTree_Some m id t sid p :
  hm_ok m → GetByTree id t sid m = Some p →
  ∃ o, hm_handles m !! id = Some p ∧ deref m p = Some o ∧ of_ID o = id ∧ of_TreeID o = t
    ∧ of_SessionID o = sid ∧ is_Some (of_File o).
Proof.
  intros Hok. unfold GetByTree. destruct (hm_handles m !! id) as [q|] eqn:E; simpl; [|done].
  destruct (Hok _ _ E) as (_ & o & Ho & Hid & HF). rewrite Ho. simpl.
  destruct (Z.eqb_spec (of_TreeID o) t), (Z.eqb_spec (of_SessionID o) sid); try done.
  intros [= <-]. exists o. done.
Qed.

Lemma wpp_with_open P id s t k Q sh h :
  srv_ok (hs_srv h) → srv_shareHeap (hs_srv h) !! t_Share t = Some sh →
  (GetByTree id (t_ID t) (s_ID s) (sh_fileHandles sh) = None → Q (buildErrorResponse, STATUS_FILE_CLOSED) h) →
  (∀ p o f, GetByTree id (t_ID t) (s_ID s) (sh_fileHandles sh) = Some p →
     hm_handles (sh_fileHandles sh) !! id = Some p →
     deref (sh_fileHandles sh) p = Some o → of_ID o = id → of_TreeID o = t_ID t → of_SessionID o = s_ID s →
     of_File o = Some f → is_Some (sh_fs sh) → wpp P (k p o) Q h) →
  wpp P (with_open id s t k) Q h.
Proof.
  intros Hok Hsh Hnone Hsome. unfold with_open. apply wpp_bind. eapply wpp_handles_of; [done|].
  destruct (so_shares _ Hok _ _ Hsh) as [Hm Hfs].
  destruct (GetByTree id (t_ID t) (s_ID s) (sh_fileHandles sh)) as [p|] eqn:E; [|by apply Hnone].
  destruct (GetByTree_Some _ _ _ _ _ Hm E) as (o & Hp & Ho & Hid & Ht & Hs & [f Hf]).
  apply wpp_bind, wpp_lift; [congruence|]. intros o' Ho'. simplify_eq.
  eapply Hsome; [done..|]. destruct (sh_fs sh) as [fs|]; [eauto|].
  rewrite (Hfs eq_refl) in Hp. by rewrite lookup_empty in Hp.
Qed.

Lemma wpp_touch P t id Q sh h :
  srv_shareHeap (hs_srv h) !! t_Share t = Some sh →
  (∀ now w, w_now (hs_w h) = (now, w) →
     Q tt (put_handles (t_Share t) (UpdateLastAccess now id (sh_fileHandles sh)) (set_w w h))) →
  wpp P (touch t id) Q h.
Proof.
  intros Hsh HQ. unfold touch. apply wpp_bind, wpp_io. intros now w Hn.
  apply wpp_bind. eapply wpp_handles_of; [done|]. apply wpp_modify. by apply HQ.
Qed.

Lemma wpp_with_buffer P offset n payload k Q h :
  0 ≤ n → Q (buildErrorResponse, STATUS_INVALID_PARAMETER) h →
  (∀ b, len b = n → slice payload (offset - SMB2HeaderSize) (offset - SMB2HeaderSize + n) = Some b →
     wpp P (k b) Q h) →
  wpp P (with_buffer offset n payload k) Q h.
Proof.
  intros Hn Herr Hk. unfold with_buffer.
  destruct (Z.ltb_spec (offset - SMB2HeaderSize) 0); [done|].
  destruct (Z.ltb_spec (len payload) (offset - SMB2HeaderSize + n)); [done|]. cbn [orb].
  apply wpp_bind, wpp_lift; [intros E; apply slice_None in E; lia|].
  intros b Hb. apply Hk; [|done]. apply len_slice in Hb. lia.
Qed.

Lemma share_ok_UpdateLastAccess now id sh :
  share_ok sh → share_ok (set_fileHandles (UpdateLastAccess now id (sh_fileHandles sh)) sh).
Proof.
  intros [Hm Hfs]. split; simpl; [by apply hm_ok_UpdateLastAccess|].
  intros Hn. unfold UpdateLastAccess. case_match; simpl; auto.
Qed.

Lemma srv_ok_touch now id p w sh h :
  srv_ok (hs_srv h) → srv_shareHeap (hs_srv h) !! p = Some sh →
  srv_ok (hs_srv (put_handles p (UpdateLastAccess now id (sh_fileHandles sh)) (set_w w h))).
Proof.
  intros Hok Hsh. apply srv_ok_put_handles; [done|]. simpl. intros sh' Hsh'. simplify_eq.
  apply share_ok_UpdateLastAccess. by eapply so_shares.
Qed.

Lemma set_w_id h : set_w (hs_w h) h = h.
Proof. by destruct h. Qed.

Lemma set_conn_id h : set_conn (hs_conn h) h = h.
Proof. by destruct h. Qed.

(** An error reply: the server is untouched, the world only as far as
    [allowed]. *)
Definition refused (h : HS) (allowed : World → Prop) (r : reply) (h' : HS) : Prop :=
  r.1 = buildErrorResponse ∧ r.2 ≠ STATUS_SUCCESS ∧ ∃ w, h' = set_w w h ∧ allowed w.

Lemma refused_now h (allowed : World → Prop) st :
  st ≠ STATUS_SUCCESS → allowed (hs_w h) → refused h allowed (buildErrorResponse, st) h.
Proof. intros. split; [done|]. split; [done|]. exists (hs_w h). split; [by destruct h|done]. Qed.

Lemma refused_w h (allowed : World → Prop) st w :
  st ≠ STATUS_SUCCESS → allowed w → refused h allowed (buildErrorResponse, st) (set_w w h).
Proof. intros. split; [done|]. split; [done|]. eauto. Qed.

Lemma mapGoError_error e : mapGoErrorToNTStatus (Some e) ≠ STATUS_SUCCESS.
Proof. unfold mapGoErrorToNTStatus. repeat case_match; done. Qed.

Lemma refused_ok h allowed r h' : srv_ok (hs_srv h) → refused h allowed r h' → srv_ok (hs_srv h').
Proof. intros Hok (_ & _ & w & -> & _). done. Qed.

Lemma wpp_the_file P (o : OpenFile File) f (Q : File → HS → Prop) h :
  of_File o = Some f → Q f h → wpp P (the_file o) Q h.
Proof. intros Hf HQ. apply wpp_lift; [congruence|]. intros f' ?. by simplify_eq. Qed.

Lemma wpp_the_fs P p sh (Q : FS → HS → Prop) h :
  srv_shareHeap (hs_srv h) !! p = Some sh → is_Some (sh_fs sh) →
  (∀ fs, sh_fs sh = Some fs → Q fs h) → wpp P (the_fs p) Q h.
Proof.
  intros Hp [fs Hfs] HQ. unfold the_fs, the_share. apply wpp_bind. unfold wpp at 1, lift_option.
  rewrite Hp. apply wpp_lift; [congruence|]. intros fs' ?. simplify_eq. by apply HQ.
Qed.

Lemma ro_w_now w now w' : w_now w = (now, w') → ro w w'.
Proof. intros E. apply rtc_once. replace w' with (w_now w).2 by (by rewrite E). constructor. Qed.
End server_lemmas.

(* ------------------------------------------------------------------ *)
(** ** Frames

    What a file operation leaves alone: the sessions, the configuration, the
    connection and the response header.  Every step of such a handler is a
    frame step, so the whole handler is. *)

Section frames.
Context `{Absfs}.

Definition share_static (sh : Share) : option FS * ShareOptions := (sh_fs sh, sh_options sh).

Record frame (h h' : HS) : Prop := {
  fr_sessions : srv_sessions (hs_srv h') = srv_sessions (hs_srv h);
  fr_options : srv_options (hs_srv h') = srv_options (hs_srv h);
  fr_names : srv_shares (hs_srv h') = srv_shares (hs_srv h);
  fr_next : srv_nextShare (hs_srv h') = srv_nextShare (hs_srv h);
  fr_dirs : srv_dirStates (hs_srv h') = srv_dirStates (hs_srv h);
  fr_shares : ∀ p, share_static <$> srv_shareHeap (hs_srv h') !! p
                   = share_static <$> srv_shareHeap (hs_srv h) !! p;
  fr_conn : hs_conn h' = hs_conn h;
  fr_resp : hs_resp h' = hs_resp h;
}.

#[global] Instance frame_refl : Reflexive frame.
Proof. by split. Qed.

#[global] Instance frame_trans : Transitive frame.
Proof. intros h1 h2 h3 [] []. split; congruence. Qed.

Definition frames {A} (m : M HS A) : Prop := ∀ h a h', m h = Ok (a, h') → frame h h'.

Lemma frames_ret {A} (a : A) : frames (mret a).
Proof. intros h a' h' [= <- <-]. done. Qed.

Lemma frames_fail st : frames (fail st).
Proof. apply frames_ret. Qed.

Lemma frames_bind {A B} (m : M HS A) (k : A → M HS B) :
  frames m → (∀ a, frames (k a)) → frames (m ≫= k).
Proof.
  intros Hm Hk h b h'. unfold mbind, M_bind. destruct (m h) as [[a h1]|] eqn:E; [|done].
  intros Ek. etrans; [by eapply Hm|by eapply Hk].
Qed.

Lemma frames_id {A} (f : HS → outcome A) :
  frames (λ h, match f h with Ok a => Ok (a, h) | Panic => Panic end).
Proof. intros h a h'. destruct (f h); [|done]. by intros [= <- <-]. Qed.

Lemma frames_gets {A} (f : HS → A) : frames (gets f).
Proof. intros h a h' [= <- <-]. done. Qed.

Lemma frames_lift {A} (o : option A) : frames (lift_option o).
Proof. intros h a h'. unfold lift_option. destruct o; [|done]. by intros [= <- <-]. Qed.

Lemma frames_panic {A} : frames (panic (A := A)).
Proof. by intros h a h'. Qed.

Lemma frames_local {L A} (l : L) (m : M L A) : frames (with_local l m).
Proof. intros h a h'. unfold with_local. destruct (m l) as [[]|]; [|done]. by intros [= <- <-]. Qed.

Lemma frames_io {A} (f : World → A * World) : frames (io f).
Proof. intros h a h'. unfold io. destruct (f (hs_w h)). by intros [= <- <-]. Qed.

Lemma frames_set_handles p m : frames (set_handles p m).
Proof.
  intros h a h' [= <- <-]. split; try done. simpl. intros q. destruct (decide (q = p)) as [->|Hne].
  - rewrite lookup_alter_eq. by destruct (srv_shareHeap (hs_srv h) !! p).
  - by rewrite lookup_alter_ne.
Qed.

Lemma frames_the_share p : frames (the_share p).
Proof. intros h a h'. unfold the_share. apply frames_lift. Qed.

Lemma frames_the_session p : frames (the_session p).
Proof. intros h a h'. unfold the_session. apply frames_lift. Qed.

Lemma frames_handles_of p : frames (handles_of p).
Proof. apply frames_bind; [apply frames_the_share|intros; apply frames_ret]. Qed.

Lemma frames_the_fs p : frames (the_fs p).
Proof. apply frames_bind; [apply frames_the_share|intros; apply frames_lift]. Qed.

Lemma frames_with_session hd k : (∀ p s, frames (k p s)) → frames (with_session hd k).
Proof.
  intros Hk. apply frames_bind; [apply frames_gets|]. intros [[p|] st]; [|apply frames_ret].
  apply frames_bind; [apply frames_the_session|done].
Qed.

Lemma frames_with_tree hd k : (∀ p s t, frames (k p s t)) → frames (with_tree hd k).
Proof.
  intros Hk. apply frames_bind; cycle 1.
  { intros [[[p t]|] st]; [|apply frames_ret]. apply frames_bind; [apply frames_the_session|done]. }
  apply frames_bind; [apply frames_gets|]. intros [[p|] st]; [|apply frames_ret].
  apply frames_bind; [apply frames_the_session|]. intros s.
  destruct (ValidateTreeConnection (h_TreeID hd) s) as [[t|] st']; apply frames_ret.
Qed.

Lemma frames_with_request {R} n payload (parse : M ByteReader (option R)) k :
  (∀ req, frames (k req)) → frames (with_request n payload parse k).
Proof.
  intros Hk. unfold with_request. destruct (_ <? _); [apply frames_ret|].
  apply frames_bind; [apply frames_local|]. intros [req|]; [done|apply frames_ret].
Qed.

Lemma frames_with_open id s t k : (∀ p o, frames (k p o)) → frames (with_open id s t k).
Proof.
  intros Hk. apply frames_bind; [apply frames_handles_of|]. intros m. case_match; [|apply frames_ret].
  apply frames_bind; [apply frames_lift|done].
Qed.

Lemma frames_touch t id : frames (touch t id).
Proof.
  apply frames_bind; [apply frames_io|]. intros now. apply frames_bind; [apply frames_handles_of|].
  intros m. apply frames_set_handles.
Qed.

Lemma frames_with_buffer off n payload k : (∀ b, frames (k b)) → frames (with_buffer off n payload k).
Proof.
  intros Hk. unfold with_buffer. destruct (_ || _); [apply frames_ret|].
  apply frames_bind; [apply frames_lift|done].
Qed.
End frames.

#[export] Hint Resolve frames_ret frames_fail frames_gets frames_lift frames_panic frames_local frames_io
  frames_set_handles frames_the_share frames_the_session frames_handles_of frames_the_fs frames_touch : frames.

(** Walk through a handler; what is left are its sub-operations without a
    rule in the database. *)
Ltac frames_tac :=
  repeat first
  [ progress eauto with frames
  | match goal with
    | |- frames (with_session _ _) => apply frames_with_session; intros
    | |- frames (with_tree _ _) => apply frames_with_tree; intros
    | |- frames (with_request _ _ _ _) => apply frames_with_request; intros
    | |- frames (with_open _ _ _ _) => apply frames_with_open; intros
    | |- frames (with_buffer _ _ _ _) => apply frames_with_buffer; intros
    | |- frames (_ ≫= _) => apply frames_bind; [|intros]
    | |- frames (match ?x with _ => _ end) => destruct x
    | |- frames (let _ := _ in _) => cbv zeta
    end ].

(** The state after a computation and the status of its reply. *)
Definition state_after {S A} (m : M S A) (s : S) : S := match m s with Ok (_, s') => s' | Panic => s end.
Definition status_of {S} (m : M S reply) (s : S) : option Z :=
  match m s with Ok ((_, st), _) => Some st | Panic => None end.

Lemma run_ok {S A} (m : M S A) s :
  (match m s with Ok _ => true | Panic => false end) = true →
  ∃ a, m s = Ok (a, state_after m s).
Proof. unfold state_after. destruct (m s) as [[a s']|]; [eauto|done]. Qed.

Lemma run_status {S} (m : M S reply) s st :
  status_of m s = Some st → ∃ payload, m s = Ok ((payload, st), state_after m s).
Proof. unfold status_of, state_after. destruct (m s) as [[[b st'] s']|]; [|done]. intros [= ->]. eauto. Qed.

(* ------------------------------------------------------------------ *)
(** ** A concrete server, for the witnesses: the share ["data"] over the
    in-memory file system, with the file ["f"], one authenticated session 42
    and its tree 1 *)

Definition sample_sessions (readOnly : bool) : SessionManager :=
  (CreateSession (Some 42) 1 SMB2_1 zeroGUID [] (NewSessionManager (15 * minute))).2
  |> s_update 0 (SetValid 2 (str "alice") [] false None)
  |> s_update 0 (λ ses, (AddTreeConnection 3 0 (str "data") 1 readOnly ses).2)
  |> s_update 0 (λ ses, (AddTreeConnection 3 0 (str "IPC$") 0 false ses).2).

Definition sample_config (readOnly : bool) : Server (H := mem_absfs) :=
  (AddShare (H := mem_absfs) tt
    (mkShareOptions (str "data") (str "/") 0 readOnly true [] [] ∅ [] 0 false 0)
    (default (mkServer DefaultServerOptions ∅ ∅ 0 (NewSessionManager 0) ∅)
       (NewServer (H := mem_absfs) (Some (zeros 16)) DefaultServerOptions))).2.

Definition sample_server (readOnly : bool) : Server (H := mem_absfs) :=
  set_sessions (sample_sessions readOnly) (sample_config readOnly).

Definition sample_header (cmd tree : Z) : SMB2Header :=
  mkHeader SMB2ProtocolID 64 0 0 cmd 1 0 0 7 0 tree 42 (zeros 16).

Definition sample_msg (cmd tree : Z) (payload : bytes) : SMB2Message :=
  mkMessage (sample_header cmd tree) payload [] None 0.

Definition sample_hs (readOnly : bool) : HS (H := mem_absfs) :=
  mkHS (H := mem_absfs) (new_conn []) (sample_header 0 0) (sample_server readOnly)
    (mkMem [(str "f", str "hello")] 100).

Lemma sample_sessions_wf readOnly : sm_wf (sample_sessions readOnly).
Proof.
  unfold sample_sessions. do 2 apply AddTree_update_wf.
  apply s_update_wf; [apply keeps_SetValid|apply CreateSession_wf, NewSessionManager_wf].
Qed.

Lemma is_true_is_Some {A} (o : option A) :
  match o with Some _ => true | None => false end = true → is_Some o.
Proof. destruct o; [eauto|done]. Qed.

Lemma sample_config_ok readOnly : srv_ok (H := mem_absfs) (sample_config readOnly)
  ∧ is_Some (srv_shareHeap (sample_config readOnly) !! 0%nat)
  ∧ is_Some (srv_shareHeap (sample_config readOnly) !! 1%nat).
Proof.
  split; [|split; apply is_true_is_Some; by vm_compute]. apply AddShare_ok.
  destruct (NewServer (H := mem_absfs) (Some (zeros 16)) DefaultServerOptions) as [s|] eqn:E.
  - by apply NewServer_ok in E.
  - revert E. unfold NewServer. by destruct (bool_decide _).
Qed.

Lemma sample_server_ok readOnly : srv_ok (H := mem_absfs) (sample_server readOnly).
Proof.
  destruct (sample_config_ok readOnly) as (Hok & H0 & H1).
  apply set_sessions_ok; [done|apply sample_sessions_wf|].
  apply AddTree_trees; [done|]. apply AddTree_trees; [done|]. apply s_update_trees; [auto|].
  apply CreateSession_trees. intros p ses id t. unfold s_deref; simpl. by rewrite lookup_empty.
Qed.
