(* ===== verification/FileOps.v ===== *)
(** * File handlers: CREATE, CLOSE, READ, WRITE, FLUSH

    Models the handlers of [smb2_file.go].  Each request has a record and a
    parser over the byte reader; the handlers follow the source's order of
    checks. *)

From stdpp Require Import base numbers list gmap strings.
From S2P Require Import Prelude Unicode Constants Types Wire Path Errors HandleMap Sessions Absfs Server.

Open Scope Z_scope.

Definition mapGenericAccess (access : Z) : Z :=
  let result := access in
  let result := if has_flag access GENERIC_READ then
    Z.lor result (Z.lor FILE_READ_DATA (Z.lor FILE_READ_ATTRIBUTES (Z.lor FILE_READ_EA
      (Z.lor READ_CONTROL SYNCHRONIZE)))) else result in
  let result := if has_flag access GENERIC_WRITE then
    Z.lor result (Z.lor FILE_WRITE_DATA (Z.lor FILE_APPEND_DATA (Z.lor FILE_WRITE_ATTRIBUTES
      (Z.lor FILE_WRITE_EA SYNCHRONIZE)))) else result in
  let result := if has_flag access GENERIC_EXECUTE then
    Z.lor result (Z.lor FILE_EXECUTE (Z.lor FILE_READ_ATTRIBUTES SYNCHRONIZE)) else result in
  if has_flag access GENERIC_ALL then
    Z.lor result (Z.lor FILE_READ_DATA (Z.lor FILE_WRITE_DATA (Z.lor FILE_APPEND_DATA
      (Z.lor FILE_READ_EA (Z.lor FILE_WRITE_EA (Z.lor FILE_EXECUTE (Z.lor FILE_DELETE_CHILD
      (Z.lor FILE_READ_ATTRIBUTES (Z.lor FILE_WRITE_ATTRIBUTES (Z.lor DELETE (Z.lor READ_CONTROL
      (Z.lor WRITE_DAC (Z.lor WRITE_OWNER SYNCHRONIZE)))))))))))))
  else result.

(** [(size + 4095) &^ 4095] on [int64]. *)
Definition allocation_size (size : Z) : Z := andnot (s64 (size + 4095)) 4095.

(** The converted request path: separators, one leading slash removed, empty
    means root. *)
Definition request_path (name : gostring) : gostring :=
  let filename := replace_all backslash slash name in
  let filename := TrimPrefix filename [slash] in
  if bool_decide (filename = []) then [slash] else filename.

(** ** Requests *)

Record CreateRequest := mkCreate {
  cr_desiredAccess : Z;
  cr_fileAttributes : Z;
  cr_shareAccess : Z;
  cr_createDisposition : Z;
  cr_createOptions : Z;
  cr_nameOffset : Z;
  cr_nameLength : Z;
}.

Definition parse_create : M ByteReader (option CreateRequest) :=
  structSize ← ReadUint16;
  if negb (structSize =? 57) then mret None
  else
    securityFlags ← ReadOneByte;
    oplockLevel ← ReadOneByte;
    impersonationLevel ← ReadUint32;
    createFlags ← ReadUint64;
    reserved ← ReadUint64;
    desiredAccess ← ReadUint32;
    fileAttributes ← ReadUint32;
    shareAccess ← ReadUint32;
    createDisposition ← ReadUint32;
    createOptions ← ReadUint32;
    nameOffset ← ReadUint16;
    nameLength ← ReadUint16;
    contextsOffset ← ReadUint32;
    contextsLength ← ReadUint32;
    mret (Some (mkCreate desiredAccess fileAttributes shareAccess createDisposition createOptions
                  nameOffset nameLength)).

(** The flags and the file of CLOSE. *)
Definition parse_close : M ByteReader (option (Z * FileID)) :=
  structSize ← ReadUint16;
  if negb (structSize =? 24) then mret None
  else
    flags ← ReadUint16;
    reserved ← ReadUint32;
    fileID ← ReadFileID;
    mret (Some (flags, fileID)).

Record ReadRequest := mkRead { rr_length : Z; rr_offset : Z; rr_fileID : FileID }.

Definition parse_read : M ByteReader (option ReadRequest) :=
  structSize ← ReadUint16;
  if negb (structSize =? 49) then mret None
  else
    padding ← ReadOneByte;
    flags ← ReadOneByte;
    length ← ReadUint32;
    offset ← ReadUint64;
    fileID ← ReadFileID;
    minCount ← ReadUint32;
    channel ← ReadUint32;
    remaining ← ReadUint32;
    infoOffset ← ReadUint16;
    infoLength ← ReadUint16;
    mret (Some (mkRead length offset fileID)).

Record WriteRequest := mkWrite {
  wr_dataOffset : Z; wr_length : Z; wr_offset : Z; wr_fileID : FileID;
}.

Definition parse_write : M ByteReader (option WriteRequest) :=
  structSize ← ReadUint16;
  if negb (structSize =? 49) then mret None
  else
    dataOffset ← ReadUint16;
    length ← ReadUint32;
    offset ← ReadUint64;
    fileID ← ReadFileID;
    channel ← ReadUint32;
    remaining ← ReadUint32;
    infoOffset ← ReadUint16;
    infoLength ← ReadUint16;
    flags ← ReadUint32;
    mret (Some (mkWrite dataOffset length offset fileID)).

Section file_ops.
Context `{Absfs}.

(** What the disposition switch decides: a status to return at once, or the
    result of opening and the create action. *)
Inductive open_result :=
| Refused (status : Z)
| Opened (file : File + error) (createAction : Z).

(** [OpenFile(O_RDWR)], falling back to read-only. *)
Definition open_existing (fs : FS) (filename : gostring) : M HS (File + error) :=
  r ← io (fs_OpenFile fs filename O_RDWR 0);
  match r with
  | inl file => mret (inl file)
  | inr _ => io (fs_OpenFile fs filename O_RDONLY 0)
  end.

(** [Mkdir] then open, or create the file. *)
Definition create_new (fs : FS) (filename : gostring) (wantDir : bool) : M HS (File + error) :=
  if wantDir then
    err ← io (fs_Mkdir fs filename 0x1ed);
    match err with
    | None => io (fs_OpenFile fs filename O_RDONLY 0)
    | Some e => mret (inr e)
    end
  else io (fs_OpenFile fs filename (Z.lor O_CREATE O_RDWR) 0x1a4).

(** [info] is the result of the initial [Stat]: [None] when it failed. *)
Definition disposition (fs : FS) (filename : gostring) (info : option FileInfo)
    (wantDir wantFile readOnly : bool) (createDisposition : Z) : M HS open_result :=
  let check_type (info : FileInfo) (k : M HS open_result) : M HS open_result :=
    if wantDir && negb (fi_IsDir info) then mret (Refused STATUS_NOT_A_DIRECTORY)
    else if wantFile && fi_IsDir info then mret (Refused STATUS_FILE_IS_A_DIRECTORY)
    else k in
  let is_dir := match info with Some i => fi_IsDir i | None => false end in
  if createDisposition =? FILE_OPEN then
    match info with
    | None => mret (Refused STATUS_OBJECT_NAME_NOT_FOUND)
    | Some i => check_type i (f ← open_existing fs filename; mret (Opened f FILE_OPENED))
    end
  else if createDisposition =? FILE_CREATE then
    match info with
    | Some _ => mret (Refused STATUS_OBJECT_NAME_COLLISION)
    | None =>
      if readOnly then mret (Refused STATUS_ACCESS_DENIED)
      else f ← create_new fs filename wantDir; mret (Opened f FILE_CREATED)
    end
  else if createDisposition =? FILE_OPEN_IF then
    match info with
    | Some i => check_type i (f ← open_existing fs filename; mret (Opened f FILE_OPENED))
    | None =>
      if readOnly then mret (Refused STATUS_ACCESS_DENIED)
      else f ← create_new fs filename wantDir; mret (Opened f FILE_CREATED)
    end
  else if createDisposition =? FILE_OVERWRITE then
    match info with
    | None => mret (Refused STATUS_OBJECT_NAME_NOT_FOUND)
    | Some i =>
      if readOnly then mret (Refused STATUS_ACCESS_DENIED)
      else if fi_IsDir i then mret (Refused STATUS_FILE_IS_A_DIRECTORY)
      else
        f ← io (fs_OpenFile fs filename (Z.lor O_RDWR O_TRUNC) 0x1a4);
        mret (Opened f FILE_OVERWRITTEN)
    end
  else if createDisposition =? FILE_OVERWRITE_IF then
    if readOnly then mret (Refused STATUS_ACCESS_DENIED)
    else if is_dir then mret (Refused STATUS_FILE_IS_A_DIRECTORY)
    else
      f ← io (fs_OpenFile fs filename (Z.lor O_CREATE (Z.lor O_RDWR O_TRUNC)) 0x1a4);
      mret (Opened f (match info with Some _ => FILE_OVERWRITTEN | None => FILE_CREATED end))
  else if createDisposition =? FILE_SUPERSEDE then
    if readOnly then mret (Refused STATUS_ACCESS_DENIED)
    else if is_dir then mret (Refused STATUS_FILE_IS_A_DIRECTORY)
    else
      f ← io (fs_OpenFile fs filename (Z.lor O_CREATE (Z.lor O_RDWR O_TRUNC)) 0x1a4);
      mret (Opened f (match info with Some _ => FILE_SUPERSEDED | None => FILE_CREATED end))
  else mret (Refused STATUS_INVALID_PARAMETER).

(** The four identical times, the sizes. *)
Definition write_times_sizes (info : FileInfo) (w : ByteWriter) : ByteWriter :=
  let t := TimeToFiletime (fi_ModTime info) in
  w |> WriteUint64 t |> WriteUint64 t |> WriteUint64 t |> WriteUint64 t
    |> WriteUint64 (u64 (allocation_size (fi_Size info))) |> WriteUint64 (u64 (fi_Size info)).

Definition create_response (createAction : Z) (info : FileInfo) (id : FileID) : bytes :=
  let attrs := if fi_IsDir info then FILE_ATTRIBUTE_DIRECTORY else FILE_ATTRIBUTE_NORMAL in
  let attrs := if has_prefix [dot] (fi_Name info) then Z.lor attrs FILE_ATTRIBUTE_HIDDEN else attrs in
  NewByteWriter
  |> WriteUint16 89 |> WriteOneByte 0 |> WriteOneByte 0 |> WriteUint32 createAction
  |> write_times_sizes info
  |> WriteUint32 attrs |> WriteUint32 0 |> WriteFileID id |> WriteUint32 0 |> WriteUint32 0 |> Bytes.

(** The end of CREATE: stat the opened file, allocate the handle. *)
Definition finish_create (session : Session) (tree : TreeConnection) (filename : gostring)
    (req : CreateRequest) (createAction : Z) (file : File) : M HS reply :=
  info ← io (f_Stat file);
  match info with
  | inr e =>
    ignored ← io (f_Close file);
    fail (mapGoErrorToNTStatus (Some e))
  | inl info =>
    random ← rand_uint64;
    now ← time_Now;
    m ← handles_of (t_Share tree);
    let '(p, m) := Allocate random now (Some file) filename (fi_IsDir info)
      (cr_desiredAccess req) (cr_shareAccess req) (cr_createDisposition req) (cr_createOptions req)
      (t_ID tree) (s_ID session) m in
    let deleteOnClose := has_flag (cr_createOptions req) FILE_DELETE_ON_CLOSE in
    let m := if deleteOnClose then update p (set_DeleteOnClose true) m else m in
    set_handles (t_Share tree) m;;
    o ← the_open (t_Share tree) p;
    mret (create_response createAction info (of_ID o), STATUS_SUCCESS)
  end.

Definition handleCreate (msg : SMB2Message) : M HS reply :=
  with_tree (m_Header msg) (λ _ session tree,
  with_request 56 (m_Payload msg) parse_create (λ req,
  with_buffer (cr_nameOffset req) (cr_nameLength req) (m_Payload msg) (λ name,
    let filename := request_path (DecodeUTF16LEToString name) in
    let wantDir := has_flag (cr_createOptions req) FILE_DIRECTORY_FILE in
    let wantFile := has_flag (cr_createOptions req) FILE_NON_DIRECTORY_FILE in
    m ← handles_of (t_Share tree);
    if negb (CheckShareAccess filename (cr_desiredAccess req) (cr_shareAccess req) m)
    then fail STATUS_SHARING_VIOLATION
    else
      fs ← the_fs (t_Share tree);
      info ← io (fs_Stat fs filename);
      let info := match info with inl i => Some i | inr _ => None end in
      r ← disposition fs filename info wantDir wantFile (t_IsReadOnly tree)
            (cr_createDisposition req);
      match r with
      | Refused status => fail status
      | Opened (inr e) _ => fail (mapGoErrorToNTStatus (Some e))
      | Opened (inl file) createAction => finish_create session tree filename req createAction file
      end))).

(** [info]: what the response reports, if anything. *)
Definition close_response (flags : Z) (info : option FileInfo) : bytes :=
  let w := NewByteWriter |> WriteUint16 60 |> WriteUint16 flags |> WriteUint32 0 in
  match info with
  | Some info =>
    w |> write_times_sizes info
      |> WriteUint32 (if fi_IsDir info then FILE_ATTRIBUTE_DIRECTORY else FILE_ATTRIBUTE_NORMAL) |> Bytes
  | None => w |> WriteZeros 52 |> Bytes
  end.

Definition handleClose (msg : SMB2Message) : M HS reply :=
  with_tree (m_Header msg) (λ _ session tree,
  with_request 24 (m_Payload msg) parse_close (λ '(flags, fileID),
  with_open fileID session tree (λ p o,
    (* info, err *)
    '(info, err) ← (if has_flag flags 0x0001 then
      f ← the_file o;
      r ← io (f_Stat f);
      mret (match r with inl i => (Some i, None) | inr e => (None, Some e) end)
    else mret (None, None));
    m ← handles_of (t_Share tree);
    let '(closed, m) := unlink fileID m in
    set_handles (t_Share tree) m;;
    ignored ← io (close_file f_Close closed);
    err ← (if of_DeleteOnClose o then
      fs ← the_fs (t_Share tree);
      io (fs_Remove fs (of_Path o))
    else mret err);
    let info := match err with None => info | Some _ => None end in
    mret (close_response flags info, STATUS_SUCCESS)))).

(** [err == io.EOF]: identity, not [errors.Is]. *)
Definition is_EOF (e : error) : bool :=
  match e with Sentinel EOF => true | _ => false end.

(** [seeker.Seek(int64(offset), io.SeekStart)] if the file is a seeker. *)
Definition seek_to (f : File) (offset : Z) : M HS (option error) :=
  match f_Seek f with
  | Some seek => r ← io (seek (s64 offset) 0); mret r.2
  | None => mret None
  end.

Definition read_response (data : bytes) : bytes :=
  NewByteWriter
  |> WriteUint16 17 |> WriteOneByte (u8 (SMB2HeaderSize + 16)) |> WriteOneByte 0
  |> WriteUint32 (u32 (len data)) |> WriteUint32 0 |> WriteUint32 0 |> WriteBytes data |> Bytes.

Definition handleRead (msg : SMB2Message) : M HS reply :=
  with_tree (m_Header msg) (λ _ session tree,
  with_request 48 (m_Payload msg) parse_read (λ req,
  with_open (rr_fileID req) session tree (λ p o,
    touch tree (rr_fileID req);;
    options ← gets (λ h, srv_options (hs_srv h));
    let length := if so_MaxReadSize options <? rr_length req
                  then so_MaxReadSize options else rr_length req in
    f ← the_file o;
    err ← seek_to f (rr_offset req);
    match err with
    | Some e => fail (mapGoErrorToNTStatus (Some e))
    | None =>
      '(buf, err) ← io (f_Read f length);
      if match err with Some e => negb (is_EOF e) | None => false end
      then fail (mapGoErrorToNTStatus err)
      else if length <? len buf then panic
      else if len buf =? 0 then fail STATUS_END_OF_FILE
      else mret (read_response buf, STATUS_SUCCESS)
    end))).

Definition write_response (n : Z) : bytes :=
  NewByteWriter
  |> WriteUint16 17 |> WriteUint16 0 |> WriteUint32 (u32 n) |> WriteUint32 0
  |> WriteUint16 0 |> WriteUint16 0 |> Bytes.

Definition handleWrite (msg : SMB2Message) : M HS reply :=
  with_tree (m_Header msg) (λ _ session tree,
  with_request 48 (m_Payload msg) parse_write (λ req,
  with_open (wr_fileID req) session tree (λ p o,
    if t_IsReadOnly tree then fail STATUS_ACCESS_DENIED
    else if negb (has_flag (mapGenericAccess (of_Access o)) (Z.lor FILE_WRITE_DATA FILE_APPEND_DATA))
    then fail STATUS_ACCESS_DENIED
    else
      touch tree (wr_fileID req);;
      with_buffer (wr_dataOffset req) (wr_length req) (m_Payload msg) (λ data,
        f ← the_file o;
        err ← seek_to f (wr_offset req);
        match err with
        | Some e => fail (mapGoErrorToNTStatus (Some e))
        | None =>
          '(n, err) ← io (f_Write f data);
          match err with
          | Some e => fail (mapGoErrorToNTStatus (Some e))
          | None => mret (write_response n, STATUS_SUCCESS)
          end
        end)))).

Definition handleFlush (msg : SMB2Message) : M HS reply :=
  with_tree (m_Header msg) (λ _ session tree,
  with_request 24 (m_Payload msg) parse_close (λ '(_, fileID),
  with_open fileID session tree (λ p o,
    f ← the_file o;
    err ← match f_Sync f with
          | Some sync => io sync
          | None => mret None
          end;
    match err with
    | Some e => fail (mapGoErrorToNTStatus (Some e))
    | None => mret (NewByteWriter |> WriteUint16 4 |> WriteUint16 0 |> Bytes, STATUS_SUCCESS)
    end))).
End file_ops.

(* ------------------------------------------------------------------ *)
(** ** Lemmas: parsing *)

Lemma parse_create_good : parses parse_create (λ req, 0 ≤ cr_nameLength req).
Proof.
  intros P payload. unfold parse_create. wp_parse; [done|].
  intros r [= <-]. simpl. lia.
Qed.

Lemma parse_close_good : parses parse_close (λ _, True).
Proof. intros P payload. unfold parse_close. wp_parse; done. Qed.

Lemma parse_read_good : parses parse_read (λ req, 0 ≤ rr_length req).
Proof.
  intros P payload. unfold parse_read. wp_parse; [done|].
  intros r [= <-]. simpl. lia.
Qed.

Lemma parse_write_good : parses parse_write (λ req, 0 ≤ wr_length req).
Proof.
  intros P payload. unfold parse_write. wp_parse; [done|].
  intros r [= <-]. simpl. lia.
Qed.

#[export] Hint Resolve parse_create_good parse_close_good parse_read_good parse_write_good : smb.

Section file_lemmas.
Context `{Absfs}.

(** A reply that keeps the server in order. *)
Definition keeps_ok : reply → HS → Prop := λ _ h, srv_ok (hs_srv h).

(** Only the environment changed, and only by reading it. *)
Definition env_ro (h h' : HS) : Prop :=
  hs_srv h' = hs_srv h ∧ hs_conn h' = hs_conn h ∧ hs_resp h' = hs_resp h ∧ ro (hs_w h) (hs_w h').

Lemma wpp_open_existing P fs name (Q : File + error → HS → Prop) h :
  (∀ r w, ro (hs_w h) w → Q r (set_w w h)) → wpp P (open_existing fs name) Q h.
Proof.
  intros HQ. unfold open_existing. apply wpp_bind, wpp_io. intros r w E.
  assert (ro (hs_w h) w) as Hro.
  { apply rtc_once. replace w with (fs_OpenFile fs name O_RDWR 0 (hs_w h)).2 by (by rewrite E).
    by apply ro_OpenFile. }
  destruct r as [f|e]; [by apply wpp_ret, HQ|]. apply wpp_io. simpl. intros r w' E'.
  replace (set_w w' (set_w w h)) with (set_w w' h) by done. apply HQ.
  eapply rtc_r; [exact Hro|].
  replace w' with (fs_OpenFile fs name O_RDONLY 0 w).2 by (by rewrite E'). by apply ro_OpenFile.
Qed.

Lemma wpp_create_new P fs name d (Q : File + error → HS → Prop) h :
  (∀ r w, Q r (set_w w h)) → wpp P (create_new fs name d) Q h.
Proof.
  intros HQ. unfold create_new. destruct d; [|by apply wpp_io].
  apply wpp_bind, wpp_io. intros [e|] w _; [by apply wpp_ret|]. apply wpp_io. intros r w' _.
  apply (HQ r w').
Qed.

(** Only the world changes; on a read-only tree only by reads. *)
Lemma wpp_disposition P fs name info wd wf rdonly disp (Q : open_result → HS → Prop) h :
  (∀ st, st ≠ STATUS_SUCCESS → Q (Refused st) h) →
  (∀ f act w, (rdonly = true → ro (hs_w h) w) → Q (Opened f act) (set_w w h)) →
  wpp P (disposition fs name info wd wf rdonly disp) Q h.
Proof.
  intros Hr Ho. unfold disposition. cbv zeta.
  repeat match goal with
  | |- wpp _ (mret (Refused _)) _ _ => by apply wpp_ret, Hr
  | |- wpp _ (open_existing _ _ ≫= _) _ _ =>
    apply wpp_bind, wpp_open_existing; intros; by apply wpp_ret, Ho
  | |- wpp _ (create_new _ _ _ ≫= _) _ _ =>
    apply wpp_bind, wpp_create_new; intros; by apply wpp_ret, Ho
  | |- wpp _ (io _ ≫= _) _ _ => apply wpp_bind, wpp_io; intros; by apply wpp_ret, Ho
  | |- wpp _ (match ?x with _ => _ end) _ _ => destruct x
  end.
Qed.

Lemma share_ok_Allocate random now f path d a sha disp opt t sid del sh :
  share_ok sh → is_Some (sh_fs sh) →
  share_ok (set_fileHandles
    (let '(p, m) := Allocate random now (Some f) path d a sha disp opt t sid (sh_fileHandles sh) in
     if (del : bool) then update p (set_DeleteOnClose true) m else m) sh).
Proof.
  intros [Hm Hfs] [fs Hf].
  pose proof (hm_ok_Allocate random now f path d a sha disp opt t sid _ Hm) as Hok.
  destruct (Allocate random now (Some f) path d a sha disp opt t sid (sh_fileHandles sh)) as [p m].
  split; simpl; [destruct del; [by apply hm_ok_update|done]|]. congruence.
Qed.

(** The end of CREATE: nothing is refused any more but a failing [Stat]. *)
Lemma wpp_finish_create P s t name req act file (Q : reply → HS → Prop) sh h :
  srv_shareHeap (hs_srv h) !! t_Share t = Some sh →
  (∀ e w, ro (hs_w h) w → Q (buildErrorResponse, mapGoErrorToNTStatus (Some e)) (set_w w h)) →
  (∀ info random now w, ro (hs_w h) w →
     let '(p, m) := Allocate random now (Some file) name (fi_IsDir info)
       (cr_desiredAccess req) (cr_shareAccess req) (cr_createDisposition req) (cr_createOptions req)
       (t_ID t) (s_ID s) (sh_fileHandles sh) in
     let m' := if has_flag (cr_createOptions req) FILE_DELETE_ON_CLOSE
               then update p (set_DeleteOnClose true) m else m in
     Q (create_response act info (mkFileID (default 0 random) (hm_nextHandle (sh_fileHandles sh))),
        STATUS_SUCCESS) (put_handles (t_Share t) m' (set_w w h))) →
  wpp P (finish_create s t name req act file) Q h.
Proof.
  intros Hsh Herr HQ. unfold finish_create. apply wpp_bind, wpp_io. intros [info|e] w E; cycle 1.
  { apply wpp_bind, wpp_io. intros e' w' E'. apply wpp_ret.
    replace (set_w w' (set_w w h)) with (set_w w' h) by done. apply Herr.
    eapply rtc_l; [apply (ro_f_Stat file)|]. rewrite E. simpl. apply rtc_once.
    replace w' with (f_Close file w).2 by (simpl in E'; by rewrite E'). constructor. }
  apply wpp_bind. unfold rand_uint64. apply wpp_bind, wpp_io. intros b w1 E1.
  apply wpp_ret, wpp_bind, wpp_io. intros now w2 E2.
  apply wpp_bind. eapply wpp_handles_of; [done|].
  assert (ro (hs_w h) w2) as Hro.
  { eapply rtc_l; [apply (ro_f_Stat file)|]. rewrite E. simpl.
    eapply rtc_l; [apply (ro_rand 8)|]. simpl in E1. rewrite E1. simpl. apply rtc_once.
    replace w2 with (w_now w1).2 by (simpl in E2; by rewrite E2). constructor. }
  specialize (HQ info (le_get <$> b) now w2 Hro).
  destruct (Allocate _ _ _ _ _ _ _ _ _ _ _ _) as [p m] eqn:Ea.
  apply wpp_bind, wpp_modify, wpp_bind. unfold the_open. apply wpp_bind.
  eapply wpp_handles_of.
  { simpl. rewrite lookup_alter_eq. simpl in Hsh. by rewrite Hsh. }
  simpl. injection Ea as <- <-. destruct (has_flag (cr_createOptions req) FILE_DELETE_ON_CLOSE);
    (apply wpp_lift; unfold deref; simpl; rewrite ?lookup_alter_eq, lookup_insert_eq; [done|];
     intros o [= <-]; by apply wpp_ret).
Qed.
End file_lemmas.

Section file_handlers.
Context `{Absfs}.

(** *** Frames *)

Lemma frames_open_existing fs name : frames (open_existing fs name).
Proof. unfold open_existing. frames_tac. Qed.
#[local] Hint Resolve frames_open_existing : frames.

Lemma frames_create_new fs name d : frames (create_new fs name d).
Proof. unfold create_new. frames_tac. Qed.
#[local] Hint Resolve frames_create_new : frames.

Lemma frames_disposition fs name info wd wf rdonly disp : frames (disposition fs name info wd wf rdonly disp).
Proof. unfold disposition. cbv zeta. frames_tac. Qed.
#[local] Hint Resolve frames_disposition : frames.

Lemma frames_handleCreate msg : frames (handleCreate msg).
Proof. unfold handleCreate, finish_create, the_open, rand_uint64, time_Now. frames_tac. Qed.

Lemma frames_handleClose msg : frames (handleClose msg).
Proof. unfold handleClose, the_file. frames_tac. Qed.

Lemma frames_handleRead msg : frames (handleRead msg).
Proof. unfold handleRead, seek_to, the_file. frames_tac. Qed.

Lemma frames_handleWrite msg : frames (handleWrite msg).
Proof. unfold handleWrite, seek_to, the_file. frames_tac. Qed.

Lemma frames_handleFlush msg : frames (handleFlush msg).
Proof. unfold handleFlush, the_file. frames_tac. Qed.

(** The tree a request designates, if any, exports no file system. *)
Definition no_fs (h : HS) (msg : SMB2Message) : Prop :=
  ∃ p s t sh, tree_of h (m_Header msg) p s t ∧ srv_shareHeap (hs_srv h) !! t_Share t = Some sh
    ∧ sh_fs sh = None.

Definition read_only_tree (h : HS) (msg : SMB2Message) : Prop :=
  ∀ p s t, tree_of h (m_Header msg) p s t → t_IsReadOnly t = true.

(** *** CREATE *)

(** A successful CREATE: a new handle for the caller's session and tree,
    whose id is in the response. *)
Definition created (h : HS) (msg : SMB2Message) (r : reply) (h' : HS) : Prop :=
  ∃ p s t sh sh' id q o,
    tree_of h (m_Header msg) p s t ∧ srv_shareHeap (hs_srv h) !! t_Share t = Some sh
    ∧ srv_shareHeap (hs_srv h') !! t_Share t = Some sh'
    ∧ srv_sessions (hs_srv h') = srv_sessions (hs_srv h)
    ∧ r.2 = STATUS_SUCCESS ∧ sub r.1 64 16 = FileID_Marshal id
    ∧ GetByTree id (t_ID t) (s_ID s) (sh_fileHandles sh') = Some q
    ∧ deref (sh_fileHandles sh') q = Some o ∧ of_ID o = id
    ∧ CheckShareAccess (of_Path o) (of_Access o) (of_ShareAccess o) (sh_fileHandles sh) = true
    ∧ srv_ok (hs_srv h')
    ∧ (read_only_tree h msg → ro (hs_w h) (hs_w h')).

Lemma created_ok h msg r h' : created h msg r h' → srv_ok (hs_srv h').
Proof. by intros (?&?&?&?&?&?&?&?&_&_&_&_&_&_&_&_&_&_&?&_). Qed.

Lemma create_response_id act info id : sub (create_response act info id) 64 16 = FileID_Marshal id.
Proof.
  unfold create_response, write_times_sizes, Bytes, NewByteWriter, WriteUint16, WriteOneByte, WriteUint32,
    WriteUint64, WriteFileID, FileID_Marshal. cbn [le_put app]. done.
Qed.

(** What [Allocate] leaves under the new id, also after it was marked for
    deletion. *)
Lemma allocated_open random now (f : option File) path isDir access share disposition options treeID sessionID m0 q m (marked : bool) :
  Allocate random now f path isDir access share disposition options treeID sessionID m0 = (q, m) →
  let m' := if marked then update q (set_DeleteOnClose true) m else m in
  let id := mkFileID (default 0 random) (hm_nextHandle m0) in
  ∃ o, GetByTree id treeID sessionID m' = Some q ∧ deref m' q = Some o ∧ of_ID o = id
    ∧ of_Path o = path ∧ of_Access o = access ∧ of_ShareAccess o = share.
Proof.
  intros [= <- <-]. unfold GetByTree.
  destruct marked; unfold deref; simpl; rewrite ?lookup_insert_eq; simpl; rewrite ?lookup_alter_eq, lookup_insert_eq; simpl;
    rewrite !Z.eqb_refl; simpl; eauto 10.
Qed.

(** The handle that CREATE allocates. *)
Lemma created_allocated msg h p s t sh req filename f act i random now w q m :
  srv_ok (hs_srv h) → tree_of h (m_Header msg) p s t → srv_shareHeap (hs_srv h) !! t_Share t = Some sh → is_Some (sh_fs sh) →
  CheckShareAccess filename (cr_desiredAccess req) (cr_shareAccess req) (sh_fileHandles sh) = true →
  (read_only_tree h msg → ro (hs_w h) w) →
  Allocate random now (Some f) filename (fi_IsDir i) (cr_desiredAccess req) (cr_shareAccess req)
    (cr_createDisposition req) (cr_createOptions req) (t_ID t) (s_ID s) (sh_fileHandles sh) = (q, m) →
  created h msg (create_response act i (mkFileID (default 0 random) (hm_nextHandle (sh_fileHandles sh))), STATUS_SUCCESS)
    (put_handles (t_Share t) (if has_flag (cr_createOptions req) FILE_DELETE_ON_CLOSE
      then update q (set_DeleteOnClose true) m else m) (set_w w h)).
Proof.
  intros Hok Ht Hsh Hfs Hshare Hro Ea.
  pose proof (share_ok_Allocate random now f filename (fi_IsDir i)
    (cr_desiredAccess req) (cr_shareAccess req) (cr_createDisposition req) (cr_createOptions req)
    (t_ID t) (s_ID s) (has_flag (cr_createOptions req) FILE_DELETE_ON_CLOSE) sh (so_shares _ Hok _ _ Hsh) Hfs) as Hshok.
  rewrite Ea in Hshok. set (m' := if has_flag (cr_createOptions req) FILE_DELETE_ON_CLOSE then _ else m) in *.
  destruct (allocated_open _ _ _ _ _ _ _ _ _ _ _ _ _ _ (has_flag (cr_createOptions req) FILE_DELETE_ON_CLOSE) Ea)
    as (o & Hget & Hder & Hoid & Hop & Hoa & Hos).
  exists p, s, t, sh, (set_fileHandles m' sh), (mkFileID (default 0 random) (hm_nextHandle (sh_fileHandles sh))), q, o.
  split_and!; try done.
  - simpl. by rewrite lookup_alter_eq, Hsh.
  - by rewrite Hop, Hoa, Hos.
  - apply srv_ok_put_handles; [done|]. simpl. intros sh0 ?. by simplify_eq.
Qed.

Lemma wpp_handleCreate msg h :
  srv_ok (hs_srv h) →
  wpp (no_fs h msg) (handleCreate msg)
    (λ r h', refused h (λ w, read_only_tree h msg → ro (hs_w h) w) r h' ∨ created h msg r h') h.
Proof.
  intros Hok. unfold handleCreate.
  assert (∀ st, st ≠ STATUS_SUCCESS →
    refused h (λ w, read_only_tree h msg → ro (hs_w h) w) (buildErrorResponse, st) h) as Hnow.
  { intros. apply refused_now; [done|]. intros _. apply rtc_refl. }
  apply wpp_with_tree; [done|by left; apply Hnow..|]. intros p s t Ht Hid [sh Hsh].
  apply wpp_with_request; [eapply parses_total; auto with smb|by left; apply Hnow|].
  intros req rd Hlen Hparse.
  apply wpp_with_buffer; [by eapply (parses_ok _ _ _ _ _ parse_create_good)|by left; apply Hnow|].
  intros name _ _. apply wpp_bind. eapply wpp_handles_of; [done|].
  destruct (CheckShareAccess _ _ _ (sh_fileHandles sh)) eqn:Hshare; cbn [negb]; [|by left; apply Hnow].
  unfold the_fs, the_share. apply wpp_bind, wpp_bind.
  unfold wpp at 1, lift_option. rewrite Hsh. apply wpp_lift; [intros Hn; by exists p, s, t, sh|].
  intros fs Hfs. apply wpp_bind, wpp_io. intros info w E.
  assert (ro (hs_w h) w) as Hro.
  { apply rtc_once. replace w with (fs_Stat fs (request_path (DecodeUTF16LEToString name)) (hs_w h)).2
      by (by rewrite E). constructor. }
  apply wpp_bind, wpp_disposition.
  { intros st Hst. left. apply refused_w; auto. }
  intros f act w1 Hro1. simpl in Hro1.
  assert (read_only_tree h msg → ro (hs_w h) w1) as Hro2.
  { intros Hrd. etrans; [exact Hro|]. apply Hro1. by eapply Hrd. }
  change (set_w w1 (set_w w h)) with (set_w w1 h).
  destruct f as [f|e]; [|left; apply refused_w; auto using mapGoError_error].
  eapply wpp_finish_create; [exact Hsh| |].
  { intros e w2 Hro3. left. change (set_w w2 (set_w w1 h)) with (set_w w2 h).
    apply refused_w; [apply mapGoError_error|]. intros Hrd. etrans; [by apply Hro2|done]. }
  intros i random now w2 Hro3. simpl in Hro3. destruct (Allocate _ _ _ _ _ _ _ _ _ _ _ _) as [q m] eqn:Ea.
  right. change (set_w w2 (set_w w1 h)) with (set_w w2 h).
  eapply created_allocated; [exact Hok|exact Ht|exact Hsh|by exists fs|exact Hshare| |exact Ea].
  intros Hrd. etrans; [by apply Hro2|done].
Qed.

(** *** CLOSE *)

(** What CLOSE does to the file system: it removes the file when the handle
    is marked, and only reads otherwise. *)
Definition close_effect (h : HS) (sh : Share) (o : OpenFile File) (h' : HS) : Prop :=
  if of_DeleteOnClose o then
    ∃ fs w, sh_fs sh = Some fs ∧ ro (hs_w h) w ∧ hs_w h' = (fs_Remove fs (of_Path o) w).2
  else ro (hs_w h) (hs_w h').

(** A successful CLOSE: the id is gone from the caller's share, every other
    id is where it was. *)
Definition closed (h : HS) (msg : SMB2Message) (r : reply) (h' : HS) : Prop :=
  ∃ p s t sh sh' flags id rd q o,
    tree_of h (m_Header msg) p s t ∧ srv_shareHeap (hs_srv h) !! t_Share t = Some sh
    ∧ srv_shareHeap (hs_srv h') !! t_Share t = Some sh'
    ∧ parse_close (NewByteReader (m_Payload msg)) = Ok (Some (flags, id), rd)
    ∧ r.2 = STATUS_SUCCESS ∧ GetByTree id (t_ID t) (s_ID s) (sh_fileHandles sh) = Some q
    ∧ deref (sh_fileHandles sh) q = Some o ∧ close_effect h sh o h'
    ∧ hm_handles (sh_fileHandles sh') = delete id (hm_handles (sh_fileHandles sh))
    ∧ (hm_wf (sh_fileHandles sh) → hm_wf (sh_fileHandles sh'))
    ∧ srv_sessions (hs_srv h') = srv_sessions (hs_srv h)
    ∧ srv_ok (hs_srv h').

Lemma closed_ok h msg r h' : closed h msg r h' → srv_ok (hs_srv h').
Proof. by intros (?&?&?&?&?&?&?&?&?&?&_&_&_&_&_&_&_&_&_&_&_&?). Qed.

Lemma unlink_handles id (m : FileHandleMap File) p o :
  hm_handles m !! id = Some p → deref m p = Some o →
  (unlink id m).1 = Some o ∧ hm_handles (unlink id m).2 = delete id (hm_handles m).
Proof. intros Hp Ho. unfold unlink. rewrite Hp. simpl. by rewrite Ho. Qed.

(** CLOSE from the unlinking of the handle on; the world may have moved. *)
Lemma wpp_close_unlink P msg h p s t sh flags id rd q o f w info err :
  srv_ok (hs_srv h) → tree_of h (m_Header msg) p s t → srv_shareHeap (hs_srv h) !! t_Share t = Some sh →
  parse_close (NewByteReader (m_Payload msg)) = Ok (Some (flags, id), rd) →
  GetByTree id (t_ID t) (s_ID s) (sh_fileHandles sh) = Some q → hm_handles (sh_fileHandles sh) !! id = Some q →
  deref (sh_fileHandles sh) q = Some o → of_File o = Some f → is_Some (sh_fs sh) → ro (hs_w h) w →
  wpp P
    (m ← handles_of (t_Share t);
     let '(closed, m) := unlink id m in
     set_handles (t_Share t) m;;
     ignored ← io (close_file f_Close closed);
     err ← (if of_DeleteOnClose o then fs ← the_fs (t_Share t); io (fs_Remove fs (of_Path o)) else mret err);
     let info := match err with None => info | Some _ => None end in
     mret (close_response flags info, STATUS_SUCCESS))
    (λ r h', closed h msg r h') (set_w w h).
Proof.
  intros Hok Ht Hsh Hparse Hget Hq Ho Hf Hfs Hro. destruct (unlink_handles id _ _ _ Hq Ho) as [Hun Hdel].
  pose proof (unlink_wf id (sh_fileHandles sh)) as Hwf. destruct (so_shares _ Hok _ _ Hsh) as [Hm Hempty].
  pose proof (hm_ok_unlink id _ Hm) as Hm'. apply wpp_bind. eapply wpp_handles_of; [exact Hsh|].
  destruct (unlink id (sh_fileHandles sh)) as [c m]. simpl in *.
  apply wpp_bind, wpp_modify, wpp_bind, wpp_io. intros e w1 Hw1. simpl in Hw1.
  assert (ro (hs_w h) w1) as Hro1.
  { subst c. unfold close_file in Hw1. simpl in Hw1. rewrite Hf in Hw1. eapply rtc_r; [exact Hro|].
    replace w1 with (f_Close f w).2 by (by rewrite Hw1). constructor. }
  assert (∀ w2 info, close_effect h sh o (set_w w2 h) → closed h msg (close_response flags info, STATUS_SUCCESS)
    (set_w w2 (put_handles (t_Share t) m (set_w w h)))) as Hfin.
  { intros w2 i Heff. exists p, s, t, sh, (set_fileHandles m sh), flags, id, rd, q, o. split_and!; try done.
    - simpl. by rewrite lookup_alter_eq, Hsh.
    - apply (srv_ok_put_handles (t_Share t) m (set_w w h)); [done|]. simpl. intros sh0 ?. simplify_eq.
      split; [done|]. simpl. intros Hn. destruct Hfs as [fs Hfs]. congruence. }
  apply wpp_bind. unfold close_effect in Hfin. destruct (of_DeleteOnClose o).
  - apply wpp_bind. eapply wpp_the_fs; [simpl; by rewrite lookup_alter_eq, Hsh|done|].
    intros fs Hfs'. apply wpp_io. intros e' w2 Hw2. apply wpp_ret. apply (Hfin w2).
    exists fs, w1. split_and!; [done|done|]. simpl in Hw2 |- *. by rewrite Hw2.
  - apply wpp_ret, wpp_ret. by apply (Hfin w1).
Qed.

Lemma wpp_handleClose P msg h :
  srv_ok (hs_srv h) →
  wpp P (handleClose msg) (λ r h', refused h (λ w, w = hs_w h) r h' ∨ closed h msg r h') h.
Proof.
  intros Hok. unfold handleClose.
  assert (∀ st, st ≠ STATUS_SUCCESS → refused h (λ w, w = hs_w h) (buildErrorResponse, st) h) as Hnow
    by auto using refused_now.
  apply wpp_with_tree; [done|by left; apply Hnow..|]. intros p s t Ht Hid [sh Hsh].
  apply wpp_with_request; [eapply parses_total; auto with smb|by left; apply Hnow|].
  intros [flags id] rd Hlen Hparse.
  eapply wpp_with_open; [done|exact Hsh|by left; apply Hnow|].
  intros q o f Hget Hq Ho Hoid Hot Hos Hf Hfs.
  pose proof (λ w info err Hro, wpp_mono _ _ _ _ _ (wpp_close_unlink P msg h p s t sh flags id rd q o f w info err
    Hok Ht Hsh Hparse Hget Hq Ho Hf Hfs Hro) (λ r h', @or_intror (refused h (λ w, w = hs_w h) r h') _)) as Hrest.
  apply wpp_bind. destruct (has_flag flags 1).
  - apply wpp_bind. eapply wpp_the_file; [done|]. apply wpp_bind, wpp_io. intros r w Hw.
    apply wpp_ret. destruct r; apply Hrest, rtc_once;
      (replace w with (f_Stat f (hs_w h)).2 by (by rewrite Hw)); constructor.
  - apply wpp_ret. specialize (Hrest (hs_w h) None None (rtc_refl _ _)). by rewrite set_w_id in Hrest.
Qed.

(** *** READ *)

Definition read_done (h : HS) (msg : SMB2Message) (r : reply) (h' : HS) : Prop :=
  ∃ req rd data,
    parse_read (NewByteReader (m_Payload msg)) = Ok (Some req, rd)
    ∧ r = (read_response data, STATUS_SUCCESS)
    ∧ 0 < len data ≤ Z.min (rr_length req) (so_MaxReadSize (srv_options (hs_srv h)))
    ∧ srv_ok (hs_srv h') ∧ ro (hs_w h) (hs_w h').

(** The refusals of READ may have touched the handle's access time and
    moved the file position. *)
Definition read_refused (h : HS) (r : reply) (h' : HS) : Prop :=
  r.1 = buildErrorResponse ∧ r.2 ≠ STATUS_SUCCESS ∧ srv_ok (hs_srv h') ∧ ro (hs_w h) (hs_w h').

Lemma wpp_seek_to P f off (Q : option error → HS → Prop) h :
  (∀ e w, ro (hs_w h) w → Q e (set_w w h)) → wpp P (seek_to f off) Q h.
Proof.
  intros HQ. unfold seek_to. destruct (f_Seek f) as [seek|] eqn:Es.
  - apply wpp_bind, wpp_io. intros r w E. apply wpp_ret, HQ, rtc_once.
    replace w with (seek (s64 off) 0 (hs_w h)).2 by (by rewrite E). by eapply ro_f_Seek.
  - apply wpp_ret. rewrite <-(set_w_id h). apply HQ, rtc_refl.
Qed.

Lemma wpp_handleRead `{!AbsfsLaws} P msg h :
  srv_ok (hs_srv h) → 0 ≤ so_MaxReadSize (srv_options (hs_srv h)) →
  wpp P (handleRead msg) (λ r h', read_refused h r h' ∨ read_done h msg r h') h.
Proof.
  intros Hok Hmax. unfold handleRead.
  assert (∀ st h', st ≠ STATUS_SUCCESS → srv_ok (hs_srv h') → ro (hs_w h) (hs_w h') →
    read_refused h (buildErrorResponse, st) h') as Hrf by done.
  assert (ro (hs_w h) (hs_w h)) as Hrefl by apply rtc_refl.
  apply wpp_with_tree; [done|by left; apply Hrf..|]. intros p s t Ht Hid [sh Hsh].
  apply wpp_with_request; [eapply parses_total; auto with smb|by left; apply Hrf|].
  intros req rd Hlen Hparse.
  pose proof (parses_ok _ _ _ _ _ parse_read_good Hparse) as Hl.
  eapply wpp_with_open; [done|exact Hsh|by left; apply Hrf|].
  intros q o f Hget Hq Ho Hoid Hot Hos Hf Hfs.
  apply wpp_bind. eapply wpp_touch; [exact Hsh|]. intros now w Hn.
  pose proof (srv_ok_touch now (rr_fileID req) (t_Share t) w sh h Hok Hsh) as Hok'.
  pose proof (ro_w_now _ _ _ Hn) as Hro.
  set (h1 := put_handles (t_Share t) (UpdateLastAccess now (rr_fileID req) (sh_fileHandles sh)) (set_w w h)) in *.
  apply wpp_bind, wpp_gets, wpp_bind. eapply wpp_the_file; [done|]. apply wpp_bind, wpp_seek_to.
  intros [e|] w1 Hro1; [left; apply Hrf; [apply mapGoError_error|done|by etrans]|].
  change (srv_options (hs_srv h1)) with (srv_options (hs_srv h)).
  set (n := if so_MaxReadSize (srv_options (hs_srv h)) <? rr_length req then _ else _).
  assert (0 ≤ n ∧ n = Z.min (rr_length req) (so_MaxReadSize (srv_options (hs_srv h)))) as [Hn0 Hnmin].
  { unfold n. case_bools; lia. }
  apply wpp_bind, wpp_io. intros [buf err] w2 E.
  assert (len buf ≤ n) as Hbuf.
  { pose proof (f_Read_fits f n (hs_w (set_w w1 h1))) as Hfit. rewrite E in Hfit. simpl in Hfit. lia. }
  assert (ro (hs_w h) w2) as Hro2.
  { etrans; [exact Hro|]. eapply rtc_r; [exact Hro1|].
    replace w2 with (f_Read f n w1).2 by (simpl in E; by rewrite E). constructor. }
  assert (∀ st, st ≠ STATUS_SUCCESS → read_refused h (buildErrorResponse, st) (set_w w2 (set_w w1 h1)))
    as Hrf2 by (intros; by apply Hrf).
  destruct err as [e|]; [destruct (is_EOF e); cbn [negb]|]; try (left; apply Hrf2, mapGoError_error);
    (destruct (Z.ltb_spec n (len buf)); [lia|]; destruct (Z.eqb_spec (len buf) 0); [by left; apply Hrf2|];
     right; exists req, rd, buf; pose proof (len_nonneg buf); split_and!; try done; lia).
Qed.

(** *** WRITE and FLUSH *)

(** The request designates a handle of the caller on a writable tree that
    was opened with write or append access. *)
Definition writable (h : HS) (msg : SMB2Message) : Prop :=
  ∃ p s t sh q o req rd,
    tree_of h (m_Header msg) p s t ∧ srv_shareHeap (hs_srv h) !! t_Share t = Some sh
    ∧ parse_write (NewByteReader (m_Payload msg)) = Ok (Some req, rd)
    ∧ GetByTree (wr_fileID req) (t_ID t) (s_ID s) (sh_fileHandles sh) = Some q
    ∧ deref (sh_fileHandles sh) q = Some o
    ∧ t_IsReadOnly t = false
    ∧ has_flag (mapGenericAccess (of_Access o)) (Z.lor FILE_WRITE_DATA FILE_APPEND_DATA) = true.

Lemma wpp_handleWrite P msg h :
  srv_ok (hs_srv h) →
  wpp P (handleWrite msg) (λ r h', srv_ok (hs_srv h')
    ∧ (r.1 = buildErrorResponse ∧ r.2 ≠ STATUS_SUCCESS ∧ h' = h ∨ writable h msg)) h.
Proof.
  intros Hok. unfold handleWrite.
  apply wpp_with_tree; [done|by (split; [done|by left])..|]. intros p s t Ht Hid [sh Hsh].
  apply wpp_with_request; [eapply parses_total; auto with smb|by (split; [done|by left])|].
  intros req rd Hlen Hparse.
  pose proof (parses_ok _ _ _ _ _ parse_write_good Hparse) as Hl.
  eapply wpp_with_open; [done|exact Hsh|by (split; [done|by left])|].
  intros q o f Hget Hq Ho Hoid Hot Hos Hf Hfs.
  destruct (t_IsReadOnly t) eqn:Hrd; [by (split; [done|by left])|].
  destruct (has_flag (mapGenericAccess (of_Access o)) _) eqn:Hacc; cbn [negb]; [|by (split; [done|by left])].
  assert (writable h msg) as Hw by (exists p, s, t, sh, q, o, req, rd; done).
  apply wpp_bind. eapply wpp_touch; [exact Hsh|]. intros now w Hn.
  pose proof (srv_ok_touch now (wr_fileID req) (t_Share t) w sh h Hok Hsh) as Hok'.
  apply wpp_with_buffer; [done|by (split; [done|by right])|]. intros data _ _.
  apply wpp_bind. eapply wpp_the_file; [done|]. apply wpp_bind, wpp_seek_to.
  intros [e|] w1 _; [by (split; [done|by right])|].
  apply wpp_bind, wpp_io. intros [n [e|]] w2 _; by (split; [done|by right]).
Qed.

Lemma wpp_handleFlush P msg h :
  srv_ok (hs_srv h) → wpp P (handleFlush msg) (λ r h', hs_srv h' = hs_srv h) h.
Proof.
  intros Hok. unfold handleFlush.
  apply wpp_with_tree; [done..|]. intros p s t Ht Hid [sh Hsh].
  apply wpp_with_request; [eapply parses_total; auto with smb|done|]. intros [fl id] rd Hlen Hparse.
  eapply wpp_with_open; [done|exact Hsh|done|]. intros q o f Hget Hq Ho Hoid Hot Hos Hf Hfs.
  apply wpp_bind. eapply wpp_the_file; [done|]. apply wpp_bind. destruct (f_Sync f).
  - apply wpp_io. by intros [e|] w _.
  - by apply wpp_ret.
Qed.

(* ---------------------------------------------------------------- *)
(** ** Properties *)

(** C4: on every consistent server state whose maximum read size (a uint32
    in the code) is not negative, CLOSE, READ, WRITE and FLUSH end with a reply
    for every request whatever its bytes, and keep the state consistent;
    CREATE does too, unless the request's tree is one of a share without a
    file system. *)
Theorem file_handlers_total `{!AbsfsLaws} msg h :
  srv_ok (hs_srv h) → 0 ≤ so_MaxReadSize (srv_options (hs_srv h)) →
  Forall (λ handler : SMB2Message → M HS reply,
      ∃ r h', handler msg h = Ok (r, h') ∧ srv_ok (hs_srv h'))
    [handleClose; handleRead; handleWrite; handleFlush]
  ∧ (¬ no_fs h msg → ∃ r h', handleCreate msg h = Ok (r, h') ∧ srv_ok (hs_srv h')).
Proof.
  intros Hok Hmax. split; [repeat constructor|intros Hfs]; cycle 4.
  - pose proof (wpp_handleCreate msg h Hok) as Hc. unfold wpp in Hc.
    destruct (handleCreate msg h) as [[r h']|]; [|done]. exists r, h'. split; [done|].
    destruct Hc as [Hc|(?&?&?&?&?&?&?&?&Hc)]; [by eapply refused_ok|naive_solver].
  - apply wpp_total. eapply wpp_mono; [by apply wpp_handleClose|].
    intros r h' [Hr|(?&?&?&?&?&?&?&?&Hc)]; [by eapply refused_ok|naive_solver].
  - apply wpp_total. eapply wpp_mono; [by apply wpp_handleRead|].
    intros r h' [(_ & _ & ? & _)|(?&?&?&?&?&?&?&?)]; done.
  - apply wpp_total. eapply wpp_mono; [by apply wpp_handleWrite|]. by intros r h' [? _].
  - apply wpp_total. eapply wpp_mono; [by apply wpp_handleFlush|]. simpl. by intros r h' ->.
Qed.

(** C31: a successful CREATE passed the share-mode check and leaves an open
    file that the caller's session and tree, and only they, find under the
    id the response carries at offset 64; a refused one leaves the server
    as it was. *)
Theorem create_opens_handle msg h payload status h' :
  srv_ok (hs_srv h) → handleCreate msg h = Ok ((payload, status), h') →
  (status ≠ STATUS_SUCCESS ∧ payload = buildErrorResponse ∧ hs_srv h' = hs_srv h)
  ∨ (status = STATUS_SUCCESS ∧ ∃ p s t sh sh' id q o,
       tree_of h (m_Header msg) p s t
       ∧ srv_shareHeap (hs_srv h) !! t_Share t = Some sh
       ∧ srv_shareHeap (hs_srv h') !! t_Share t = Some sh'
       ∧ sub payload 64 16 = FileID_Marshal id
       ∧ GetByTree id (t_ID t) (s_ID s) (sh_fileHandles sh') = Some q
       ∧ deref (sh_fileHandles sh') q = Some o
       ∧ CheckShareAccess (of_Path o) (of_Access o) (of_ShareAccess o) (sh_fileHandles sh) = true).
Proof.
  intros Hok E.
  destruct (wpp_ok _ _ _ _ _ _ (wpp_handleCreate msg h Hok) E) as [(Hpay & Hst & w & -> & _)|Hcr]; [by left|right].
  destruct Hcr as (p & s & t & sh & sh' & id & q & o & Ht & Hsh & Hsh' & _ & Hst & Hid & Hget & Hder & _ & Hch & _).
  simpl in *. split; [done|]. by exists p, s, t, sh, sh', id, q, o.
Qed.

(** C32: a successful CLOSE ends exactly the designated handle: it was the
    caller's, its id no longer designates an open file, every other handle
    of the share is kept, and the handle map's invariant with it; the file is
    removed when the handle is marked for deletion and otherwise the file
    system is only read. A refused one changes nothing. *)
Theorem close_ends_handle msg h payload status h' :
  srv_ok (hs_srv h) → handleClose msg h = Ok ((payload, status), h') →
  (status ≠ STATUS_SUCCESS ∧ h' = h)
  ∨ (status = STATUS_SUCCESS ∧ ∃ p s t sh sh' flags id rd q o,
       tree_of h (m_Header msg) p s t
       ∧ parse_close (NewByteReader (m_Payload msg)) = Ok (Some (flags, id), rd)
       ∧ srv_shareHeap (hs_srv h) !! t_Share t = Some sh
       ∧ srv_shareHeap (hs_srv h') !! t_Share t = Some sh'
       ∧ GetByTree id (t_ID t) (s_ID s) (sh_fileHandles sh) = Some q
       ∧ deref (sh_fileHandles sh) q = Some o
       ∧ close_effect h sh o h'
       ∧ Get id (sh_fileHandles sh') = None
       ∧ (∀ id', id' ≠ id → Get id' (sh_fileHandles sh') = Get id' (sh_fileHandles sh))
       ∧ (hm_wf (sh_fileHandles sh) → hm_wf (sh_fileHandles sh'))).
Proof.
  intros Hok E.
  destruct (wpp_ok True _ _ _ _ _ (wpp_handleClose True msg h Hok) E) as [(_ & Hst & w & -> & ->)|Hcl];
    [left; split; [done|apply set_w_id]|right].
  destruct Hcl as (p & s & t & sh & sh' & fl & id & rd & q & o & Ht & Hsh & Hsh' & Hp & Hst & Hget & Ho & Heff
    & Hdel & Hwf & _).
  simpl in *. split; [done|]. exists p, s, t, sh, sh', fl, id, rd, q, o. unfold Get. rewrite Hdel.
  split_and!; try done; [by rewrite lookup_delete_eq|]. intros. by rewrite lookup_delete_ne.
Qed.

(** READ returns at least one and never more bytes than requested or
    than the configured maximum, at the offset the response announces, and
    it only ever reads the file system. *)
Theorem read_bounded `{!AbsfsLaws} msg h payload status h' :
  srv_ok (hs_srv h) → 0 ≤ so_MaxReadSize (srv_options (hs_srv h)) →
  handleRead msg h = Ok ((payload, status), h') →
  ro (hs_w h) (hs_w h')
  ∧ (status = STATUS_SUCCESS → ∃ req rd data,
      parse_read (NewByteReader (m_Payload msg)) = Ok (Some req, rd)
      ∧ 0 < len data ≤ Z.min (rr_length req) (so_MaxReadSize (srv_options (hs_srv h)))
      ∧ le_get (sub payload 2 1) = SMB2HeaderSize + 16
      ∧ le_get (sub payload 4 4) = u32 (len data)
      ∧ drop 16 payload = data).
Proof.
  intros Hok Hmax E.
  destruct (wpp_ok True _ _ _ _ _ (wpp_handleRead True msg h Hok Hmax) E)
    as [(_ & Hst & _ & Hro)|(req & rd & data & Hp & Hr & Hd & _ & Hro)]; (split; [done|]); [done|].
  intros _. exists req, rd, data. injection Hr as -> _. split; [done|]. split; [done|].
  unfold read_response, Bytes, NewByteWriter, WriteUint16, WriteOneByte, WriteUint32, WriteBytes.
  split; [by vm_compute|]. rewrite <-!app_assoc. split; [|done].
  change (sub _ 4 4) with (le_put 4 (u32 (len data))). rewrite le_get_put_u32; [done|].
  unfold u32. apply Z.mod_pos_bound. lia.
Qed.
End file_handlers.

Section file_safety.
Context `{Absfs}.

(** C33: on a read-only tree CREATE and WRITE leave the file system's
    contents alone: whatever the disposition and the bytes, they only read
    or open without creating or truncating. *)
Theorem read_only_tree_protected msg h r h' :
  srv_ok (hs_srv h) → read_only_tree h msg →
  handleCreate msg h = Ok (r, h') ∨ handleWrite msg h = Ok (r, h') →
  ro (hs_w h) (hs_w h').
Proof.
  intros Hok Hrd [E|E].
  - destruct (wpp_ok _ _ _ _ _ _ (wpp_handleCreate msg h Hok) E) as [(_ & _ & w & -> & Hw)|Hc]; [by apply Hw|].
    destruct Hc as (?&?&?&?&?&?&?&?&Hc). naive_solver.
  - destruct (wpp_ok _ _ _ _ _ _ (wpp_handleWrite True msg h Hok) E) as [_ [(_ & _ & ->)|Hw]]; [apply rtc_refl|].
    destruct Hw as (p & s & t & sh & q & o & req & rd & Ht & _ & _ & _ & _ & Hro & _).
    rewrite (Hrd _ _ _ Ht) in Hro. done.
Qed.

(** WRITE reaches the file only through a handle of the caller's own
    session and tree, on a writable tree, opened with write or append access
    (directly or by a generic right); every other request is refused and
    changes nothing. *)
Theorem write_requires_access msg h payload status h' :
  srv_ok (hs_srv h) → handleWrite msg h = Ok ((payload, status), h') →
  (status ≠ STATUS_SUCCESS ∧ h' = h) ∨ writable h msg.
Proof.
  intros Hok E.
  destruct (wpp_ok _ _ _ _ _ _ (wpp_handleWrite True msg h Hok) E) as [_ [(_ & ? & ->)|Hw]]; [by left|by right].
Qed.

(** The share-mode check looks at specific rights only: a request for
    generic rights alone passes it against any handle opened the same way,
    however restrictive both share modes are, and WRITE then accepts both. *)
Theorem generic_access_bypasses_share_modes access share1 share2 :
  has_flag access FILE_READ_DATA = false → has_flag access FILE_WRITE_DATA = false →
  has_flag access DELETE = false → has_flag access GENERIC_WRITE = true →
  checkShareCompatibility access share1 access share2 = true
  ∧ has_flag (mapGenericAccess access) FILE_WRITE_DATA = true.
Proof.
  intros Hr Hw Hd Hg. split.
  - unfold checkShareCompatibility. by rewrite Hr, Hw, Hd.
  - unfold mapGenericAccess. rewrite Hg. repeat case_match; rewrite !has_flag_lor;
      change (has_flag FILE_WRITE_DATA FILE_WRITE_DATA) with true; by rewrite ?orb_true_r.
Qed.

Lemma tree_of_det h hd p1 s1 t1 p2 s2 t2 :
  tree_of h hd p1 s1 t1 → tree_of h hd p2 s2 t2 → p1 = p2 ∧ s1 = s2 ∧ t1 = t2.
Proof. intros (Hv1 & Hs1 & Ht1) (Hv2 & Hs2 & Ht2). rewrite Hv1 in Hv2. by simplify_eq. Qed.
End file_safety.

(* ------------------------------------------------------------------ *)
(** ** Witnesses on the sample server *)

(** The body of a CREATE request. *)
Definition create_payload (name : gostring) (access share disp options : Z) : bytes :=
  let n := EncodeStringToUTF16LE name in
  NewByteWriter
  |> WriteUint16 57 |> WriteOneByte 0 |> WriteOneByte 0 |> WriteUint32 2 |> WriteUint64 0 |> WriteUint64 0
  |> WriteUint32 access |> WriteUint32 0 |> WriteUint32 share |> WriteUint32 disp |> WriteUint32 options
  |> WriteUint16 120 |> WriteUint16 (len n) |> WriteUint32 0 |> WriteUint32 0 |> WriteBytes n |> Bytes.

Definition create_msg (tree : Z) (name : string) (disp options : Z) : SMB2Message :=
  sample_msg SMB2_CREATE tree (create_payload (str name) GENERIC_ALL FILE_SHARE_READ disp options).

Definition close_msg (id : FileID) : SMB2Message :=
  sample_msg SMB2_CLOSE 1 (NewByteWriter |> WriteUint16 24 |> WriteUint16 0 |> WriteUint32 0 |> WriteFileID id |> Bytes).

Definition read_msg (id : FileID) : SMB2Message :=
  sample_msg SMB2_READ 1 (NewByteWriter |> WriteUint16 49 |> WriteOneByte 0 |> WriteOneByte 0 |> WriteUint32 100
    |> WriteUint64 0 |> WriteFileID id |> WriteZeros 16 |> Bytes).

Definition write_msg (id : FileID) (data : bytes) : SMB2Message :=
  sample_msg SMB2_WRITE 1 (NewByteWriter |> WriteUint16 49 |> WriteUint16 112 |> WriteUint32 (len data)
    |> WriteUint64 0 |> WriteFileID id |> WriteZeros 16 |> WriteBytes data |> Bytes).

(** After opening ["f"]: the handle's id is (107, 1). *)
Definition opened (readOnly : bool) (options : Z) : HS (H := mem_absfs) :=
  state_after (handleCreate (H := mem_absfs) (create_msg 1 "f" FILE_OPEN options)) (sample_hs readOnly).

Definition opened_id : FileID := mkFileID 107 1.

Lemma opened_ok readOnly options : srv_ok (H := mem_absfs) (hs_srv (opened readOnly options)).
Proof.
  unfold opened, state_after.
  pose proof (wpp_handleCreate (H := mem_absfs) (create_msg 1 "f" FILE_OPEN options) (sample_hs readOnly)
    (sample_server_ok readOnly)) as Hc. unfold wpp in Hc.
  destruct (handleCreate (H := mem_absfs) _ _) as [[r h']|]; [|apply sample_server_ok].
  destruct Hc as [Hc|(?&?&?&?&?&?&?&?&Hc)]; [eapply (refused_ok (sample_hs readOnly)); [apply sample_server_ok|exact Hc]|naive_solver].
Qed.

(** The tests of [no_fs] and [read_only_tree] as functions. *)
Definition request_tree `{Absfs} (h : HS) (hd : SMB2Header) : option TreeConnection :=
  p ← (ValidateSession (h_SessionID hd) (srv_sessions (hs_srv h))).1;
  s ← s_deref (srv_sessions (hs_srv h)) p;
  s_trees s !! h_TreeID hd.

Lemma request_tree_spec `{Absfs} h hd p s t : tree_of h hd p s t → request_tree h hd = Some t.
Proof. intros (Hv & Hs & Ht). unfold request_tree. rewrite Hv. simpl. by rewrite Hs. Qed.

Lemma request_tree_inv `{Absfs} h hd t : request_tree h hd = Some t → ∃ p s, tree_of h hd p s t.
Proof.
  unfold request_tree, tree_of, ValidateSession.
  destruct (sm_sessions _ !! _) as [p|]; simpl; [|done].
  destruct (s_deref _ p) as [s|] eqn:Es; simpl; [|done]. case_bool_decide; simpl; [|done].
  rewrite Es. simpl. intros Ht. by exists p, s.
Qed.

Definition request_has_fs `{Absfs} (h : HS) (hd : SMB2Header) : bool :=
  match t ← request_tree h hd; sh ← srv_shareHeap (hs_srv h) !! t_Share t; sh_fs sh with
  | Some _ => true
  | None => false
  end.

Lemma request_has_fs_spec `{Absfs} h msg : request_has_fs h (m_Header msg) = true → ¬ no_fs h msg.
Proof.
  unfold request_has_fs. intros Hb (p & s & t & sh & Ht & Hsh & Hfs).
  rewrite (request_tree_spec _ _ _ _ _ Ht) in Hb. simpl in Hb. rewrite Hsh in Hb. simpl in Hb.
  by rewrite Hfs in Hb.
Qed.

Lemma request_read_only_spec `{Absfs} h msg :
  (t_IsReadOnly <$> request_tree h (m_Header msg)) = Some true → read_only_tree h msg.
Proof.
  intros Hb p s t Ht. rewrite (request_tree_spec _ _ _ _ _ Ht) in Hb. by injection Hb.
Qed.

(** [CREATE] on the sample server succeeds, and the handle it yields can be
    read, written and closed: the inputs of the witnesses below. *)
Example sample_run :
  status_of (handleCreate (H := mem_absfs) (create_msg 1 "f" FILE_OPEN 0)) (sample_hs false) = Some STATUS_SUCCESS
  ∧ status_of (handleRead (H := mem_absfs) (read_msg opened_id)) (opened false 0) = Some STATUS_SUCCESS
  ∧ status_of (handleWrite (H := mem_absfs) (write_msg opened_id (str "abc"))) (opened false 0) = Some STATUS_SUCCESS
  ∧ status_of (handleClose (H := mem_absfs) (close_msg opened_id)) (opened false 0) = Some STATUS_SUCCESS.
Proof. by vm_compute. Qed.

Lemma file_handlers_total_witness :
  Forall (λ handler : SMB2Message → M (HS (H := mem_absfs)) reply,
      ∃ r h', handler (close_msg opened_id) (opened false 0) = Ok (r, h') ∧ srv_ok (H := mem_absfs) (hs_srv h'))
    [handleClose; handleRead; handleWrite; handleFlush]
  ∧ ∃ r h', handleCreate (H := mem_absfs) (close_msg opened_id) (opened false 0) = Ok (r, h')
      ∧ srv_ok (H := mem_absfs) (hs_srv h').
Proof.
  destruct (file_handlers_total (H := mem_absfs) (H0 := mem_absfs_laws) (close_msg opened_id) (opened false 0)
    (opened_ok false 0) ltac:(by vm_compute)) as [Hall Hcreate].
  split; [exact Hall|]. apply Hcreate, request_has_fs_spec. by vm_compute.
Defined.

Lemma create_opens_handle_witness :
  ∃ payload status h',
    handleCreate (H := mem_absfs) (create_msg 1 "f" FILE_OPEN 0) (sample_hs false) = Ok ((payload, status), h')
    ∧ ((status ≠ STATUS_SUCCESS ∧ payload = buildErrorResponse ∧ hs_srv h' = hs_srv (sample_hs false))
       ∨ (status = STATUS_SUCCESS ∧ ∃ p s t sh sh' id q o,
         tree_of (sample_hs false) (m_Header (create_msg 1 "f" FILE_OPEN 0)) p s t
         ∧ srv_shareHeap (hs_srv (sample_hs false)) !! t_Share t = Some sh
         ∧ srv_shareHeap (hs_srv h') !! t_Share t = Some sh'
         ∧ sub payload 64 16 = FileID_Marshal id
         ∧ GetByTree id (t_ID t) (s_ID s) (sh_fileHandles sh') = Some q
         ∧ deref (sh_fileHandles sh') q = Some o
         ∧ CheckShareAccess (of_Path o) (of_Access o) (of_ShareAccess o) (sh_fileHandles sh) = true)).
Proof.
  destruct (run_ok (handleCreate (H := mem_absfs) (create_msg 1 "f" FILE_OPEN 0)) (sample_hs false))
    as [[payload status] E]; [by vm_compute|].
  exists payload, status, (opened false 0). split; [exact E|].
  apply (create_opens_handle (H := mem_absfs) (create_msg 1 "f" FILE_OPEN 0) (sample_hs false) _ _ _ (sample_server_ok false) E).
Defined.

Lemma close_ends_handle_witness :
  ∃ payload h', handleClose (H := mem_absfs) (close_msg opened_id) (opened false 0) = Ok ((payload, STATUS_SUCCESS), h')
    ∧ ∃ p s t sh', tree_of (opened false 0) (m_Header (close_msg opened_id)) p s t
        ∧ srv_shareHeap (hs_srv h') !! t_Share t = Some sh' ∧ Get opened_id (sh_fileHandles sh') = None.
Proof.
  destruct (run_ok (handleClose (H := mem_absfs) (close_msg opened_id)) (opened false 0)) as [[payload st] E];
    [by vm_compute|].
  assert (st = STATUS_SUCCESS) as ->.
  { assert (status_of (handleClose (H := mem_absfs) (close_msg opened_id)) (opened false 0) = Some STATUS_SUCCESS)
      as Hst by by vm_compute. unfold status_of in Hst. rewrite E in Hst. by injection Hst. }
  eexists _, _. split; [exact E|].
  destruct (close_ends_handle (H := mem_absfs) (close_msg opened_id) (opened false 0) _ _ _ (opened_ok false 0) E)
    as [[Hne _]|(_ & p & s & t & sh & sh' & fl & id & rd & q & o & Ht & Hp & _ & Hsh' & _ & _ & _ & Hg & _)];
    [exact (False_ind _ (Hne eq_refl))|].
  exists p, s, t, sh'. split; [exact Ht|]. split; [exact Hsh'|]. clear E.
  assert (parse_close (NewByteReader (m_Payload (close_msg opened_id)))
    = Ok (Some (0, opened_id), mkReader (m_Payload (close_msg opened_id)) 24)) as Hp' by by vm_compute.
  rewrite Hp' in Hp. injection Hp as <- <- _. exact Hg.
Defined.

Lemma read_bounded_witness :
  ∃ payload h', handleRead (H := mem_absfs) (read_msg opened_id) (opened false 0) = Ok ((payload, STATUS_SUCCESS), h')
    ∧ ∃ data, 0 < len data ∧ drop 16 payload = data.
Proof.
  destruct (run_ok (handleRead (H := mem_absfs) (read_msg opened_id)) (opened false 0)) as [[payload st] E];
    [by vm_compute|].
  assert (st = STATUS_SUCCESS) as ->.
  { assert (status_of (handleRead (H := mem_absfs) (read_msg opened_id)) (opened false 0) = Some STATUS_SUCCESS)
      as Hst by by vm_compute. unfold status_of in Hst. rewrite E in Hst. by injection Hst. }
  eexists _, _. split; [exact E|].
  destruct (read_bounded (H := mem_absfs) (H0 := mem_absfs_laws) (read_msg opened_id) (opened false 0) _ _ _ (opened_ok false 0)
    ltac:(by vm_compute) E) as [_ Hr].
  destruct (Hr eq_refl) as (req & rd & data & _ & [Hd _] & _ & _ & Heq). exists data. exact (conj Hd Heq).
Defined.

Lemma read_only_tree_protected_witness :
  ro (H := mem_absfs) (hs_w (sample_hs true))
    (hs_w (state_after (handleCreate (H := mem_absfs) (create_msg 1 "g" FILE_OVERWRITE_IF 0)) (sample_hs true))).
Proof.
  destruct (run_ok (handleCreate (H := mem_absfs) (create_msg 1 "g" FILE_OVERWRITE_IF 0)) (sample_hs true))
    as [r E]; [by vm_compute|].
  apply (read_only_tree_protected (H := mem_absfs) (create_msg 1 "g" FILE_OVERWRITE_IF 0) (sample_hs true) _ _ (sample_server_ok true)
    (request_read_only_spec (H := mem_absfs) (sample_hs true) (create_msg 1 "g" FILE_OVERWRITE_IF 0) ltac:(by vm_compute))
    (or_introl E)).
Defined.

Lemma write_requires_access_witness :
  let msg := write_msg opened_id (str "abc") in
  ∃ payload status h', handleWrite (H := mem_absfs) msg (opened true 0) = Ok ((payload, status), h')
    ∧ ((status ≠ STATUS_SUCCESS ∧ h' = opened true 0) ∨ writable (opened true 0) msg).
Proof.
  intros msg.
  destruct (run_ok (handleWrite (H := mem_absfs) msg) (opened true 0)) as [[payload st] E]; [by vm_compute|].
  eexists _, _, _. split; [exact E|].
  apply (write_requires_access (H := mem_absfs) msg (opened true 0) _ _ _ (opened_ok true 0) E).
Defined.

Lemma generic_access_bypasses_share_modes_witness :
  checkShareCompatibility GENERIC_WRITE 0 GENERIC_WRITE 0 = true
  ∧ has_flag (mapGenericAccess GENERIC_WRITE) FILE_WRITE_DATA = true.
Proof. by apply (generic_access_bypasses_share_modes GENERIC_WRITE 0 0); vm_compute. Defined.

(** A read-only share does not protect its files: opening one with
    delete-on-close is not refused on a read-only tree, and the CLOSE of that
    handle removes the file. *)
Theorem delete_on_close_ignores_read_only :
  let h1 := opened true FILE_DELETE_ON_CLOSE in
  let h2 := state_after (handleClose (H := mem_absfs) (close_msg opened_id)) h1 in
  (t_IsReadOnly <$> request_tree (H := mem_absfs) (sample_hs true) (m_Header (close_msg opened_id))) = Some true
  ∧ mw_files (hs_w (sample_hs true)) = [(str "f", str "hello")]
  ∧ status_of (handleClose (H := mem_absfs) (close_msg opened_id)) h1 = Some STATUS_SUCCESS
  ∧ mw_files (hs_w h2) = [].
Proof. by vm_compute. Qed.

(** The automatic [IPC$] share has no file system, and CREATE calls it
    all the same: any authenticated session, a guest's included, that opens
    a name on [IPC$] makes the server panic. *)
Theorem create_without_fs_panics `{Absfs} msg h p s t sh req rd name :
  tree_of h (m_Header msg) p s t → srv_shareHeap (hs_srv h) !! t_Share t = Some sh → sh_fs sh = None →
  56 ≤ len (m_Payload msg) →
  parse_create (NewByteReader (m_Payload msg)) = Ok (Some req, rd) →
  slice (m_Payload msg) (cr_nameOffset req - SMB2HeaderSize)
    (cr_nameOffset req - SMB2HeaderSize + cr_nameLength req) = Some name →
  at_path (sh_fileHandles sh) (request_path (DecodeUTF16LEToString name)) = [] →
  handleCreate msg h = Panic.
Proof.
  intros (Hv & Hs & Ht) Hsh Hfs Hlen Hp Hsl Hat.
  assert (slice (m_Payload msg) (cr_nameOffset req - SMB2HeaderSize)
    (cr_nameOffset req - SMB2HeaderSize + cr_nameLength req) ≠ None) as Hb by congruence.
  rewrite slice_None in Hb.
  unfold handleCreate, with_tree, validateTree, validateSession, the_session, with_request, with_buffer,
    handles_of, the_fs, the_share, ValidateTreeConnection, CheckShareAccess. m_simpl.
  rewrite Hv, Hs, Ht, Hs. destruct (Z.ltb_spec (len (m_Payload msg)) 56); [lia|]. rewrite Hp.
  destruct (Z.ltb_spec (cr_nameOffset req - SMB2HeaderSize) 0); [lia|].
  destruct (Z.ltb_spec (len (m_Payload msg)) (cr_nameOffset req - SMB2HeaderSize + cr_nameLength req)); [lia|].
  cbn [orb]. rewrite Hsl, Hsh, Hat. cbn [forallb negb]. by rewrite Hsh, Hfs.
Qed.

Lemma create_without_fs_panics_witness :
  handleCreate (H := mem_absfs) (create_msg 2 "srvsvc" FILE_OPEN 0) (sample_hs false) = Panic.
Proof.
  destruct (request_tree_inv (H := mem_absfs) (sample_hs false) (sample_header SMB2_CREATE 2)
    (mkTree 2 (str "IPC$") 0 0 3 false) ltac:(by vm_compute)) as (p & s & Ht).
  destruct (srv_shareHeap (H := mem_absfs) (hs_srv (sample_hs false)) !! 0%nat) as [sh|] eqn:Esh.
  - assert (match srv_shareHeap (H := mem_absfs) (hs_srv (sample_hs false)) !! 0%nat with
            | Some sh => match sh_fs sh, at_path (sh_fileHandles sh) (str "srvsvc") with
                         | None, [] => true | _, _ => false end
            | None => false end = true) as Hc by by vm_compute.
    rewrite Esh in Hc. destruct (sh_fs sh) as [fs|] eqn:Efs; [done|].
    destruct (at_path (sh_fileHandles sh) (str "srvsvc")) eqn:Eat; [|done].
    by eapply (create_without_fs_panics (H := mem_absfs) (create_msg 2 "srvsvc" FILE_OPEN 0) (sample_hs false)
      p s (mkTree 2 (str "IPC$") 0 0 3 false) sh (mkCreate GENERIC_ALL 0 FILE_SHARE_READ FILE_OPEN 0 120 12)
      (mkReader (m_Payload (create_msg 2 "srvsvc" FILE_OPEN 0)) 56) (EncodeStringToUTF16LE (str "srvsvc")));
      [|exact Esh|exact Efs|vm_compute| |vm_compute|].
  - assert (match srv_shareHeap (H := mem_absfs) (hs_srv (sample_hs false)) !! 0%nat with
            | Some _ => true | None => false end = true) as Hc by by vm_compute.
    by rewrite Esh in Hc.
Defined.
