(* ===== verification/ServerData.v ===== *)
(** * The data of an open file

    [handleRead] and [handleWrite] of [smb2_file.go] over a file system whose
    files keep what is written to them: seen through the server, an open file
    is an array of bytes.  The behaviour of the files is that of the
    interfaces [io.Seeker], [io.Reader] and [io.Writer], stated as laws. *)

From stdpp Require Import base numbers list gmap strings.
From S2P Require Import Prelude Errors Constants Types Wire HandleMap Sessions Absfs Server FileOps.

Open Scope Z_scope.

(** ** Files with content *)

(** [c] with [d] copied to [off], and zeros in the gap before it. *)
Definition splice (c : bytes) (off : nat) (d : bytes) : bytes :=
  match d with
  | [] => c
  | _ => take off (c ++ zeros (off - length c)) ++ d ++ drop (off + length d) c
  end.

(** The content of a file and the offset of its next transfer. *)
Class FileData `{Absfs} := {
  fd_content : File → World → bytes;
  fd_position : File → World → Z;
}.

(** What the interfaces document: [Seek] changes the offset and fails below
    the start; [Read] returns bytes from the offset on and at most as many as
    fit; [Write] reports how much of the buffer it has written and an error
    when that is not all. *)
Class FileDataLaws `{FileData} : Prop := {
  fd_now : ∀ f w, fd_content f (w_now w).2 = fd_content f w;
  fd_Seek : ∀ f, ∃ seek, f_Seek f = Some seek ∧ ∀ off w,
    fd_content f (seek off 0 w).2 = fd_content f w
    ∧ ((seek off 0 w).1.2 = None → 0 ≤ off ∧ fd_position f (seek off 0 w).2 = off);
  fd_Read : ∀ f n w,
    fd_content f (f_Read f n w).2 = fd_content f w
    ∧ len (f_Read f n w).1.1 ≤ Z.max 0 n
    ∧ (f_Read f n w).1.1 `prefix_of` drop (Z.to_nat (fd_position f w)) (fd_content f w);
  fd_Write : ∀ f p w,
    0 ≤ (f_Write f p w).1.1 ≤ len p
    ∧ ((f_Write f p w).1.2 = None → (f_Write f p w).1.1 = len p)
    ∧ fd_content f (f_Write f p w).2
      = splice (fd_content f w) (Z.to_nat (fd_position f w)) (take (Z.to_nat (f_Write f p w).1.1) p);
}.

(** ** The specification *)

(** A request on an open file. *)
Inductive io_request := IORead (msg : SMB2Message) | IOWrite (msg : SMB2Message).

Definition io_msg (r : io_request) : SMB2Message := match r with IORead m | IOWrite m => m end.

(** The data of a WRITE request, if it lies inside the message. *)
Definition write_data (msg : SMB2Message) (req : WriteRequest) : option bytes :=
  slice (m_Payload msg) (wr_dataOffset req - SMB2HeaderSize) (wr_dataOffset req - SMB2HeaderSize + wr_length req).

Definition refused_reply (rep : reply) : Prop := rep.1 = buildErrorResponse ∧ rep.2 ≠ STATUS_SUCCESS.

(** How an array [c] of bytes answers a request, and what it holds then. A
    READ returns data only from the array and only where it was asked for; a
    WRITE that succeeds has replaced the bytes at its offset; one that fails
    may have written a prefix of its data. *)
Definition array_read (max : Z) (msg : SMB2Message) (c : bytes) (rep : reply) (c' : bytes) : Prop :=
  c' = c ∧ (refused_reply rep ∨ ∃ req rd data,
    parse_read (NewByteReader (m_Payload msg)) = Ok (Some req, rd)
    ∧ rep = (read_response data, STATUS_SUCCESS)
    ∧ 0 < len data ≤ Z.min (rr_length req) max ∧ 0 ≤ s64 (rr_offset req)
    ∧ data `prefix_of` drop (Z.to_nat (s64 (rr_offset req))) c).

Definition array_write (msg : SMB2Message) (c : bytes) (rep : reply) (c' : bytes) : Prop :=
  (refused_reply rep ∧ c' = c)
  ∨ ∃ req rd data,
      parse_write (NewByteReader (m_Payload msg)) = Ok (Some req, rd) ∧ write_data msg req = Some data
      ∧ 0 ≤ s64 (wr_offset req)
      ∧ (rep = (write_response (len data), STATUS_SUCCESS)
           ∧ c' = splice c (Z.to_nat (s64 (wr_offset req))) data
         ∨ refused_reply rep ∧ ∃ k, c' = splice c (Z.to_nat (s64 (wr_offset req))) (take k data)).

Definition array_step (max : Z) (r : io_request) (c : bytes) (rep : reply) (c' : bytes) : Prop :=
  match r with
  | IORead msg => array_read max msg c rep c'
  | IOWrite msg => array_write msg c rep c'
  end.

Inductive array_run (max : Z) : list io_request → bytes → list reply → bytes → Prop :=
| array_nil c : array_run max [] c [] c
| array_cons r rs c rep reps c1 c2 :
    array_step max r c rep c1 → array_run max rs c1 reps c2 → array_run max (r :: rs) c (rep :: reps) c2.

Section server_data.
Context `{FileData}.

Definition handle_io (r : io_request) : M HS reply :=
  match r with IORead msg => handleRead msg | IOWrite msg => handleWrite msg end.

Fixpoint serve_io (rs : list io_request) : M HS (list reply) :=
  match rs with
  | [] => mret []
  | r :: rs => rep ← handle_io r; reps ← serve_io rs; mret (rep :: reps)
  end.

(** The request carries the header [hd], and its file id is [id] if it has
    one. *)
Definition for_handle (hd : SMB2Header) (id : FileID) (r : io_request) : Prop :=
  m_Header (io_msg r) = hd ∧
  match r with
  | IORead msg => ∀ req rd, parse_read (NewByteReader (m_Payload msg)) = Ok (Some req, rd) → rr_fileID req = id
  | IOWrite msg => ∀ req rd, parse_write (NewByteReader (m_Payload msg)) = Ok (Some req, rd) → wr_fileID req = id
  end.

(** [f] is open under [id] for the session and tree of [hd]. *)
Record open_for (hd : SMB2Header) (id : FileID) (f : File) (h : HS) : Prop := {
  of_srv : srv_ok (hs_srv h);
  of_max : 0 ≤ so_MaxReadSize (srv_options (hs_srv h));
  of_open : ∃ p s t sh q o, tree_of h hd p s t ∧ srv_shareHeap (hs_srv h) !! t_Share t = Some sh
    ∧ GetByTree id (t_ID t) (s_ID s) (sh_fileHandles sh) = Some q
    ∧ deref (sh_fileHandles sh) q = Some o ∧ of_File o = Some f;
}.

(** ** Lemmas *)

Lemma open_for_w hd id f h w : open_for hd id f h → open_for hd id f (set_w w h).
Proof. by intros []. Qed.

Lemma GetByTree_touch now id tid sid (m : FileHandleMap File) :
  GetByTree id tid sid (UpdateLastAccess now id m) = GetByTree id tid sid m.
Proof.
  unfold UpdateLastAccess, GetByTree. destruct (hm_handles m !! id) as [q|] eqn:E; [|by rewrite E]. simpl. rewrite E. simpl.
  unfold deref. simpl. rewrite lookup_alter_eq. by destruct (hm_heap m !! q).
Qed.

(** Updating the time of the last access keeps the file open. *)
Lemma open_for_touch hd id f h p s t sh now w :
  open_for hd id f h → tree_of h hd p s t → srv_shareHeap (hs_srv h) !! t_Share t = Some sh →
  open_for hd id f (put_handles (t_Share t) (UpdateLastAccess now id (sh_fileHandles sh)) (set_w w h)).
Proof.
  intros [Hok Hmax (p' & s' & t' & sh' & q & o & Ht' & Hsh' & Hget & Ho & Hf)] Ht Hsh.
  destruct (tree_of_det _ _ _ _ _ _ _ _ Ht Ht') as (<- & <- & <-). rewrite Hsh in Hsh'. injection Hsh' as <-.
  split; [by apply srv_ok_touch|done|].
  exists p, s, t, (set_fileHandles (UpdateLastAccess now id (sh_fileHandles sh)) sh), q, (set_LastAccess now o).
  split_and!; [done| | | |done].
  - cbn. rewrite lookup_alter_eq, Hsh. done.
  - cbn [sh_fileHandles set_fileHandles]. by rewrite GetByTree_touch.
  - cbn [sh_fileHandles set_fileHandles]. unfold UpdateLastAccess. unfold GetByTree in Hget.
    destruct (hm_handles (sh_fileHandles sh) !! id) as [q'|]; [|done]. simpl in Hget.
    destruct (deref (sh_fileHandles sh) q') eqn:Eq; [|done]. simpl in Hget. destruct (_ || _); [done|]. injection Hget as ->.
    unfold deref in *. simpl. by rewrite lookup_alter_eq, Ho.
Qed.

(** The common start of both handlers: the request reaches the open file, or
    is refused. *)
Lemma wpp_reach {R} minLen (parse : M ByteReader (option R)) (fileID : R → FileID) (P : R → Prop) msg hd id f k (Q : reply → HS → Prop) h :
  open_for hd id f h → m_Header msg = hd → parses parse P →
  (∀ req rd, parse (NewByteReader (m_Payload msg)) = Ok (Some req, rd) → fileID req = id) →
  (∀ rep, refused_reply rep → Q rep h) →
  (∀ p s t sh q o req rd, tree_of h hd p s t → srv_shareHeap (hs_srv h) !! t_Share t = Some sh →
     parse (NewByteReader (m_Payload msg)) = Ok (Some req, rd) → fileID req = id → of_File o = Some f → wpp False (k s t req q o) Q h) →
  wpp False (with_tree (m_Header msg) (λ _ s t, with_request minLen (m_Payload msg) parse (λ req,
    with_open (fileID req) s t (k s t req)))) Q h.
Proof.
  intros Hopen Hhd Hparse Hid Hrefuse Hk. pose proof (of_srv _ _ _ _ Hopen) as Hok. rewrite Hhd.
  apply wpp_with_tree; [done|by apply Hrefuse..|]. intros p s t Ht _ [sh Hsh].
  apply wpp_with_request; [by eapply parses_total|by apply Hrefuse|]. intros req rd Hlen Hreq.
  pose proof (Hid _ _ Hreq) as Hfid. rewrite Hfid.
  eapply wpp_with_open; [done|exact Hsh|by intros; apply Hrefuse|].
  intros q o f' Hget Hq Ho _ _ _ Hf' _. eapply Hk; [exact Ht|exact Hsh|exact Hreq|exact Hfid|].
  destruct (of_open _ _ _ _ Hopen) as (p' & s' & t' & sh' & q' & o' & Ht' & Hsh' & Hget' & Ho' & Hf).
  destruct (tree_of_det _ _ _ _ _ _ _ _ Ht Ht') as (<- & <- & <-). simplify_eq. done.
Qed.

Lemma wpp_seek_data `{!FileDataLaws} f off (Q : option error → HS → Prop) h :
  (∀ e w, fd_content f w = fd_content f (hs_w h) →
     (e = None → 0 ≤ s64 off ∧ fd_position f w = s64 off) → Q e (set_w w h)) →
  wpp False (seek_to f off) Q h.
Proof.
  intros HQ. unfold seek_to. destruct (fd_Seek f) as (seek & -> & Hs). apply wpp_bind, wpp_io. intros [n e] w E.
  apply wpp_ret. destruct (Hs (s64 off) (hs_w h)) as [Hc Hp]. rewrite E in Hc, Hp. by apply HQ.
Qed.

Lemma w_now_content `{!FileDataLaws} f w now w' : w_now w = (now, w') → fd_content f w' = fd_content f w.
Proof. intros E. pose proof (fd_now f w) as Hc. by rewrite E in Hc. Qed.

(** What is kept and what the array does, for one request. *)
Definition array_post (hd : SMB2Header) (id : FileID) (f : File) (h : HS) (r : io_request) (rep : reply) (h' : HS) : Prop :=
  open_for hd id f h' ∧ srv_options (hs_srv h') = srv_options (hs_srv h)
  ∧ array_step (so_MaxReadSize (srv_options (hs_srv h))) r (fd_content f (hs_w h)) rep (fd_content f (hs_w h')).

Lemma wpp_read_array `{!FileDataLaws} hd id f msg h :
  open_for hd id f h → for_handle hd id (IORead msg) →
  wpp False (handleRead msg) (array_post hd id f h (IORead msg)) h.
Proof.
  intros Hopen [Hhd Hid]. pose proof (of_max _ _ _ _ Hopen) as Hmax. unfold handleRead.
  apply (wpp_reach _ _ rr_fileID (λ req, 0 ≤ rr_length req) _ hd id f (λ _ tree req _ o, _)); [done|done|apply parse_read_good|done|..].
  { intros rep Hr. by split_and!; [..|split; [done|by left]]. }
  intros p s t sh q o req rd Ht Hsh Hreq Hfid Hf. pose proof (parses_ok _ _ _ _ _ parse_read_good Hreq) as Hl. cbn in Hl.
  rewrite Hfid. apply wpp_bind. eapply wpp_touch; [exact Hsh|]. intros now w Hn%(w_now_content f).
  pose proof (open_for_touch hd id f h p s t sh now w Hopen Ht Hsh) as Hopen'.
  set (h1 := put_handles _ _ _) in *. apply wpp_bind, wpp_gets, wpp_bind. eapply wpp_the_file; [done|].
  change (srv_options (hs_srv h1)) with (srv_options (hs_srv h)).
  assert (∀ rep w', fd_content f w' = fd_content f (hs_w h) → refused_reply rep →
    array_post hd id f h (IORead msg) rep (set_w w' h1)) as Hrefuse.
  { intros rep w' Hc Hr. split_and!; [by apply open_for_w|done|]. split; [done|by left]. }
  apply wpp_bind, wpp_seek_data. intros [e|] w1 Hc1 Hpos.
  { apply Hrefuse; [by rewrite Hc1|by split; [|apply mapGoError_error]]. }
  destruct (Hpos eq_refl) as [Hoff Hp1]. set (n := if _ <? rr_length req then _ else _).
  assert (0 ≤ n ∧ n = Z.min (rr_length req) (so_MaxReadSize (srv_options (hs_srv h)))) as [Hn0 Hnmin].
  { unfold n. case_bools; lia. }
  apply wpp_bind, wpp_io. intros [buf err] w2 E. destruct (fd_Read f n w1) as (Hc2 & Hlen & Hpre).
  change (hs_w (set_w w1 h1)) with w1 in E. rewrite E in Hc2, Hlen, Hpre. cbn [fst snd] in Hc2, Hlen, Hpre.
  assert (fd_content f w2 = fd_content f (hs_w h)) as Hc by (by rewrite Hc2, Hc1).
  destruct (match err with Some e => negb (is_EOF e) | None => false end) eqn:Eerr.
  { apply Hrefuse; [done|]. split; [done|]. destruct err as [e|]; [apply mapGoError_error|done]. }
  destruct (Z.ltb_spec n (len buf)); [lia|]. destruct (Z.eqb_spec (len buf) 0); [by apply Hrefuse|].
  apply wpp_ret. split; [by do 2 apply open_for_w|]. split; [done|]. split; [done|]. right. exists req, rd, buf.
  pose proof (len_nonneg buf). rewrite Hc1, Hp1 in Hpre. change (hs_w h1) with w in Hpre. rewrite Hn in Hpre.
  split_and!; try done; lia.
Qed.

Lemma wpp_write_array `{!FileDataLaws} hd id f msg h :
  open_for hd id f h → for_handle hd id (IOWrite msg) →
  wpp False (handleWrite msg) (array_post hd id f h (IOWrite msg)) h.
Proof.
  intros Hopen [Hhd Hid]. unfold handleWrite.
  assert (∀ rep h', refused_reply rep → open_for hd id f h' → srv_options (hs_srv h') = srv_options (hs_srv h) →
    fd_content f (hs_w h') = fd_content f (hs_w h) → array_post hd id f h (IOWrite msg) rep h') as Hrefuse.
  { intros rep h' Hr Ho Hopt Hc. by split_and!; [..|by left]. }
  apply (wpp_reach _ _ wr_fileID (λ req, 0 ≤ wr_length req) _ hd id f (λ _ tree req _ o, _)); [done|done|apply parse_write_good|done|by intros; apply Hrefuse|].
  intros p s t sh q o req rd Ht Hsh Hreq Hfid Hf. pose proof (parses_ok _ _ _ _ _ parse_write_good Hreq) as Hl. cbn in Hl.
  rewrite Hfid. destruct (t_IsReadOnly t); [by apply Hrefuse|]. destruct (negb _); [by apply Hrefuse|].
  apply wpp_bind. eapply wpp_touch; [exact Hsh|]. intros now w Hn%(w_now_content f).
  pose proof (open_for_touch hd id f h p s t sh now w Hopen Ht Hsh) as Hopen'. set (h1 := put_handles _ _ _) in *.
  apply wpp_with_buffer; [done|by apply Hrefuse|]. intros data _ Hdata.
  apply wpp_bind. eapply wpp_the_file; [done|]. apply wpp_bind, wpp_seek_data. intros [e|] w1 Hc1 Hpos.
  { apply Hrefuse; [split; [done|apply mapGoError_error]|by apply open_for_w|done|cbn; by rewrite Hc1]. }
  destruct (Hpos eq_refl) as [Hoff Hp1]. apply wpp_bind, wpp_io. intros [n err] w2 E.
  destruct (fd_Write f data w1) as (Hn1 & Hall & Hc2). change (hs_w (set_w w1 h1)) with w1 in E.
  rewrite E in Hn1, Hall, Hc2. cbn [fst snd] in Hn1, Hall, Hc2. rewrite Hc1, Hp1 in Hc2. change (hs_w h1) with w in Hc2.
  rewrite Hn in Hc2. destruct err as [e|]; apply wpp_ret; (split; [by do 2 apply open_for_w|]; split; [done|]); right; exists req, rd, data;
    (split_and!; [done..|]).
  - right. split; [split; [done|apply mapGoError_error]|by eexists].
  - left. rewrite (Hall eq_refl) in Hc2 |- *. split; [done|]. cbn. rewrite Hc2. rewrite take_ge; [done|]. unfold len. lia.
Qed.

Lemma wpp_serve_io `{!FileDataLaws} hd id f rs h :
  open_for hd id f h → Forall (for_handle hd id) rs →
  wpp False (serve_io rs) (λ reps h', open_for hd id f h' ∧ srv_options (hs_srv h') = srv_options (hs_srv h)
    ∧ array_run (so_MaxReadSize (srv_options (hs_srv h))) rs (fd_content f (hs_w h)) reps (fd_content f (hs_w h'))) h.
Proof.
  intros Hopen Hrs. revert h Hopen. induction Hrs as [|r rs Hr _ IH]; intros h Hopen; cbn [serve_io].
  { apply wpp_ret. split_and!; [done|done|constructor]. }
  apply wpp_bind. eapply (wpp_mono _ _ (array_post hd id f h r)).
  { destruct r; [by apply wpp_read_array|by apply wpp_write_array]. }
  intros rep h1 (Hopen1 & Hopt & Hstep). apply wpp_bind. eapply wpp_mono; [by apply IH|].
  intros reps h2 (Hopen2 & Hopt2 & Hrun). apply wpp_ret. rewrite Hopt in Hopt2, Hrun. split_and!; [done..|].
  by eapply array_cons.
Qed.
End server_data.

(** ** Properties *)

(** C5: An open file is an array of bytes: for any sequence of READ and WRITE
    requests on one handle, well-formed or not, the handlers answer every one
    without a panic; each READ that succeeds returns a non-empty run of the
    bytes that the earlier writes left at its offset and not more than asked
    for or configured, each WRITE that succeeds has put exactly its data at
    its offset, reading changes nothing, and the handle stays open. *)
Theorem open_file_is_byte_array `{FileDataLaws} hd id f rs h :
  open_for hd id f h → Forall (for_handle hd id) rs →
  ∃ reps h', serve_io rs h = Ok (reps, h') ∧ open_for hd id f h'
    ∧ array_run (so_MaxReadSize (srv_options (hs_srv h))) rs (fd_content f (hs_w h)) reps (fd_content f (hs_w h')).
Proof.
  intros Hopen Hrs. destruct (wpp_total _ _ _ (wpp_serve_io hd id f rs h Hopen Hrs)) as (reps & h' & E & Ho & _ & Hrun).
  by exists reps, h'.
Qed.

Lemma drop_splice c off d : d ≠ [] → drop off (splice c off d) = d ++ drop (off + length d) c.
Proof.
  intros Hd. destruct d as [|b d]; [done|]. unfold splice. apply drop_app_length'.
  rewrite length_take, length_app. unfold zeros. rewrite length_replicate. lia.
Qed.

(** What was written is read back: when a WRITE of some data and a following
    READ at the same offset succeed, the bytes read are those written, then
    those that followed them before. *)
Theorem written_data_read_back max wmsg rmsg c c2 wreq wrd rreq rrd data rep1 rep2 :
  array_run max [IOWrite wmsg; IORead rmsg] c [rep1; rep2] c2 → rep1.2 = STATUS_SUCCESS → rep2.2 = STATUS_SUCCESS →
  parse_write (NewByteReader (m_Payload wmsg)) = Ok (Some wreq, wrd) → write_data wmsg wreq = Some data →
  parse_read (NewByteReader (m_Payload rmsg)) = Ok (Some rreq, rrd) → rr_offset rreq = wr_offset wreq → data ≠ [] →
  c2 = splice c (Z.to_nat (s64 (wr_offset wreq))) data ∧ ∃ got, rep2.1 = read_response got ∧ got ≠ []
    ∧ got `prefix_of` data ++ drop (Z.to_nat (s64 (wr_offset wreq)) + length data) c.
Proof.
  intros Hrun Hs1 Hs2 Hw Hd Hr Hoff Hne. inversion Hrun as [|? ? ? ? ? c1 ? Hstep1 Hrest]; subst.
  inversion Hrest as [|? ? ? ? ? c1' ? Hstep2 Hnil]; subst. inversion Hnil; subst.
  destruct Hstep1 as [[[_ Hbad] _]|(req & rd & data' & Hw' & Hd' & _ & Hstep1)]; [done|].
  rewrite Hw in Hw'. injection Hw' as <- <-. rewrite Hd in Hd'. injection Hd' as <-.
  destruct Hstep1 as [[_ ->]|[[_ Hbad] _]]; [|done].
  destruct Hstep2 as [-> [[_ Hbad]|(req & rd & got & Hr' & -> & Hlen & _ & Hpre)]]; [done|].
  rewrite Hr in Hr'. injection Hr' as <- <-. rewrite Hoff, drop_splice in Hpre by done.
  split; [done|]. exists got. split; [done|]. split; [|done]. intros ->. unfold len in Hlen. cbn in Hlen. lia.
Qed.

(** ** An instance: a disk with one file *)

Record disk := mkDisk { dk_data : bytes; dk_pos : Z; dk_clock : Z }.

Definition disk_info (w : disk) : FileInfo := mkFileInfo (str "f") (len (dk_data w)) 0x1a4 0 false.

Definition disk_read (n : Z) (w : disk) : (bytes * option error) * disk :=
  let buf := take (Z.to_nat n) (drop (Z.to_nat (dk_pos w)) (dk_data w)) in
  ((buf, if bool_decide (buf = []) then Some (Sentinel EOF) else None), mkDisk (dk_data w) (dk_pos w + len buf) (dk_clock w)).

Definition disk_write (p : bytes) (w : disk) : (Z * option error) * disk :=
  ((len p, None), mkDisk (splice (dk_data w) (Z.to_nat (dk_pos w)) p) (dk_pos w + len p) (dk_clock w)).

Definition disk_seek (off whence : Z) (w : disk) : (Z * option error) * disk :=
  if off <? 0 then ((0, Some (Sentinel ErrInvalid)), w) else ((off, None), mkDisk (dk_data w) off (dk_clock w)).

Definition disk_absfs : Absfs := {|
  World := disk; FS := unit; File := unit; DirEntry := unit;
  fs_Stat _ p w := (inl (disk_info w), w);
  fs_OpenFile _ p flag _ w := (inl tt, mkDisk (dk_data w) 0 (dk_clock w));
  fs_Mkdir _ p _ w := (Some (Sentinel ErrPermission), w);
  fs_Remove _ p w := (Some (Sentinel ErrPermission), w);
  fs_Rename _ := None;
  f_Stat f w := (inl (disk_info w), w);
  f_Read _ := disk_read; f_Write _ := disk_write;
  f_Close _ w := (None, w);
  f_ReadDir _ _ w := (([], None), w);
  f_Seek _ := Some disk_seek; f_Sync _ := None; f_Truncate _ := None; f_Chtimes _ := None; f_Chmod _ := None;
  de_Info p w := (inl (disk_info w), w);
  w_now w := (dk_clock w, mkDisk (dk_data w) (dk_pos w) (dk_clock w + 1));
  w_rand n w := (Some (take n (le_put n (dk_clock w + 7))), w);
  w_order _ _ l := l;
|}.

Definition disk_data : FileData (H := disk_absfs) := {|
  fd_content := λ (_ : @File disk_absfs) (w : @World disk_absfs), dk_data w;
  fd_position := λ (_ : @File disk_absfs) (w : @World disk_absfs), dk_pos w;
|}.

Lemma disk_data_laws : @FileDataLaws disk_absfs disk_data.
Proof.
  split; cbn.
  - done.
  - intros _. exists disk_seek. split; [done|]. intros off w. unfold disk_seek. destruct (Z.ltb_spec off 0); cbn; [done|].
    split; [done|]. intros _. lia.
  - intros _ n w. split; [done|]. split; [unfold len; rewrite length_take; lia|]. apply prefix_take.
  - intros _ p w. pose proof (len_nonneg p). split; [lia|]. split; [done|]. f_equal. rewrite take_ge; [done|]. unfold len. lia.
Qed.

Definition disk_server : Server (H := disk_absfs) :=
  set_sessions (sample_sessions false)
    (AddShare (H := disk_absfs) tt (mkShareOptions (str "data") (str "/") 0 false true [] [] ∅ [] 0 false 0)
      (default (mkServer DefaultServerOptions ∅ ∅ 0 (NewSessionManager 0) ∅)
         (NewServer (H := disk_absfs) (Some (zeros 16)) DefaultServerOptions))).2.

Definition disk_hs : HS (H := disk_absfs) :=
  mkHS (H := disk_absfs) (new_conn []) (sample_header 0 0) disk_server (mkDisk (str "hello world") 0 100).

(** After opening the file. *)
Definition disk_opened : HS (H := disk_absfs) :=
  state_after (handleCreate (H := disk_absfs) (create_msg 1 "f" FILE_OPEN 0)) disk_hs.

Lemma disk_server_ok : srv_ok (H := disk_absfs) disk_server.
Proof.
  unfold disk_server. set (srv := (AddShare _ _ _).2).
  assert (srv_ok (H := disk_absfs) srv) as Hok.
  { apply AddShare_ok. destruct (NewServer (H := disk_absfs) (Some (zeros 16)) DefaultServerOptions) as [s|] eqn:E.
    - by apply NewServer_ok in E.
    - revert E. unfold NewServer. by destruct (bool_decide _). }
  assert (is_Some (srv_shareHeap srv !! 0%nat) ∧ is_Some (srv_shareHeap srv !! 1%nat)) as [H0 H1]
    by (split; apply is_true_is_Some; by vm_compute).
  apply set_sessions_ok; [done|apply sample_sessions_wf|].
  apply AddTree_trees; [done|]. apply AddTree_trees; [done|]. apply s_update_trees; [auto|].
  apply CreateSession_trees. intros p ses id t. unfold s_deref; simpl. by rewrite lookup_empty.
Qed.

(** The file that is open under [id] for the session and tree of [hd]. *)
Definition opened_file `{Absfs} (h : HS) (hd : SMB2Header) (id : FileID) : option File :=
  match ValidateSession (h_SessionID hd) (srv_sessions (hs_srv h)) with
  | (Some p, _) =>
    s ← s_deref (srv_sessions (hs_srv h)) p;
    t ← s_trees s !! h_TreeID hd;
    sh ← srv_shareHeap (hs_srv h) !! t_Share t;
    q ← GetByTree id (t_ID t) (s_ID s) (sh_fileHandles sh);
    o ← deref (sh_fileHandles sh) q;
    of_File o
  | (None, _) => None
  end.

Lemma opened_file_open `{Absfs} h hd id f :
  srv_ok (hs_srv h) → 0 ≤ so_MaxReadSize (srv_options (hs_srv h)) → opened_file h hd id = Some f → open_for hd id f h.
Proof.
  intros Hok Hmax Hf. split; [done|done|]. unfold opened_file in Hf.
  destruct (ValidateSession_cases (h_SessionID hd) _ (so_sessions _ Hok)) as [E|(p & s & Hv & _ & Hs & _)].
  { by rewrite E in Hf. }
  rewrite Hv, Hs in Hf. simpl in Hf.
  destruct (s_trees s !! h_TreeID hd) as [t|] eqn:Et; [|done]. simpl in Hf.
  destruct (srv_shareHeap (hs_srv h) !! t_Share t) as [sh|] eqn:Esh; [|done]. simpl in Hf.
  destruct (GetByTree id (t_ID t) (s_ID s) (sh_fileHandles sh)) as [q|] eqn:Eq; [|done]. simpl in Hf.
  destruct (deref (sh_fileHandles sh) q) as [o|] eqn:Eo; [|done]. simpl in Hf.
  by exists p, s, t, sh, q, o.
Qed.

Lemma disk_opened_ok : srv_ok (H := disk_absfs) (hs_srv disk_opened).
Proof.
  unfold disk_opened, state_after.
  pose proof (wpp_handleCreate (H := disk_absfs) (create_msg 1 "f" FILE_OPEN 0) disk_hs disk_server_ok) as Hc. unfold wpp in Hc.
  destruct (handleCreate (H := disk_absfs) _ _) as [[r h']|]; [|apply disk_server_ok].
  destruct Hc as [Hc|Hc]; [eapply (refused_ok disk_hs); [apply disk_server_ok|exact Hc]|by eapply created_ok].
Qed.

(** A request to read or write at an offset, as a client sends it. *)
Definition read_at (off n : Z) : io_request :=
  IORead (mkMessage (sample_header 0 1) (NewByteWriter |> WriteUint16 49 |> WriteOneByte 0 |> WriteOneByte 0 |> WriteUint32 n
    |> WriteUint64 off |> WriteFileID opened_id |> WriteZeros 16 |> Bytes) [] None 0).
Definition write_at (off : Z) (data : bytes) : io_request :=
  IOWrite (mkMessage (sample_header 0 1) (NewByteWriter |> WriteUint16 49 |> WriteUint16 112 |> WriteUint32 (len data)
    |> WriteUint64 off |> WriteFileID opened_id |> WriteZeros 16 |> WriteBytes data |> Bytes) [] None 0).

Definition disk_requests : list io_request := [read_at 6 100; write_at 6 (str "there"); read_at 4 4; write_at 13 (str "!"); read_at 0 100].

Lemma open_file_is_byte_array_witness :
  match serve_io (H := disk_absfs) disk_requests disk_opened with
  | Ok (reps, h') => (reps.*2, drop 16 <$> reps.*1, dk_data (hs_w h'))
      = ([STATUS_SUCCESS; STATUS_SUCCESS; STATUS_SUCCESS; STATUS_SUCCESS; STATUS_SUCCESS],
         [str "world"; []; str "o th"; []; str "hello there" ++ zeros 2 ++ str "!"],
         str "hello there" ++ zeros 2 ++ str "!")
  | Panic => False
  end
  ∧ ∃ reps h', serve_io (H := disk_absfs) disk_requests disk_opened = Ok (reps, h')
    ∧ array_run (so_MaxReadSize (srv_options (hs_srv disk_opened))) disk_requests (str "hello world") reps (dk_data (hs_w h')).
Proof.
  split; [vm_compute; reflexivity|].
  destruct (@open_file_is_byte_array disk_absfs disk_data disk_data_laws (sample_header 0 1) opened_id tt disk_requests disk_opened)
    as (reps & h' & E & _ & Hrun).
  - apply opened_file_open; [exact disk_opened_ok|vm_compute; discriminate|vm_compute; reflexivity].
  - repeat constructor; intros req rd Hreq; vm_compute in Hreq; injection Hreq as <- <-; reflexivity.
  - exists reps, h'. split; [exact E|]. exact Hrun.
Defined.
