(* ===== verification/Connect.v ===== *)
(** * Negotiation, sessions and tree connections

    The handlers of [smb2_negotiate.go], [smb2_session.go] and
    [smb2_tree.go], with [extractShareName] of [smb2_handlers.go].  The
    authenticator of a session is mutated in place across the round trips of
    SESSION_SETUP, so every call writes it back to the session. *)

From Stdlib Require Import Sorted.
From stdpp Require Import base numbers list gmap sets fin_maps strings.
From S2P Require Import Prelude Unicode Constants Types Wire Path Errors HandleMap Signing Ntlm Sessions Absfs Server.

Open Scope Z_scope.

(** ** NEGOTIATE *)

Record NegotiateRequest := mkNegotiate {
  ng_securityMode : Z;
  ng_clientGUID : bytes;
  ng_contextOffset : Z;
  ng_contextCount : Z;
  ng_dialects : list Z;
}.

(** [for i := 0; i < dialectCount; i++ { r.ReadUint16() }] *)
Fixpoint read_dialects (n : nat) : M ByteReader (list Z) :=
  match n with
  | O => mret []
  | S n => d ← ReadUint16; rest ← read_dialects n; mret (d :: rest)
  end.

Definition parse_negotiate : M ByteReader (option NegotiateRequest) :=
  structSize ← ReadUint16;
  if negb (structSize =? 36) then mret None
  else
    dialectCount ← ReadUint16;
    clientSecurityMode ← ReadUint16;
    reserved ← ReadUint16;
    clientCapabilities ← ReadUint32;
    clientGUID ← ReadGUID;
    negContextOffset ← ReadUint32;
    negContextCount ← ReadUint16;
    reserved2 ← ReadUint16;
    remaining ← gets Remaining;
    if remaining <? dialectCount * 2 then mret None
    else
      clientDialects ← read_dialects (Z.to_nat dialectCount);
      mret (Some (mkNegotiate clientSecurityMode clientGUID negContextOffset negContextCount clientDialects)).

(** The loop over [SupportedDialects]; 0 when there is no common dialect. *)
Fixpoint select_loop (opts : ServerOptions) (servers clientDialects : list Z) : Z :=
  match servers with
  | [] => 0
  | serverDialect :: servers =>
    if so_MaxDialect opts <? serverDialect then select_loop opts servers clientDialects
    else if serverDialect <? so_MinDialect opts then select_loop opts servers clientDialects
    else if existsb (λ clientDialect, clientDialect =? serverDialect) clientDialects then serverDialect
    else select_loop opts servers clientDialects
  end.

Definition selectDialect (opts : ServerOptions) (clientDialects : list Z) : Z :=
  select_loop opts SupportedDialects clientDialects.

Definition buildPreauthIntegrityContext : bytes :=
  NewByteWriter |> WriteUint16 1 |> WriteUint16 32 |> WriteUint16 SMB2_PREAUTH_INTEGRITY_SHA512
  |> WriteBytes (map (λ i, byte_of_Z (Z.of_nat i)) (seq 0 32)) |> Bytes.

Definition buildEncryptionContext : bytes :=
  NewByteWriter |> WriteUint16 1 |> WriteUint16 SMB2_ENCRYPTION_AES128_GCM |> Bytes.

Definition buildSigningCapabilitiesContext : bytes :=
  NewByteWriter |> WriteUint16 1 |> WriteUint16 SMB2_SIGNING_AES_CMAC |> Bytes.

(** Type, length, reserved word and data of a context. *)
Definition write_context (contextType : Z) (data : bytes) (w : ByteWriter) : ByteWriter :=
  w |> WriteUint16 contextType |> WriteUint16 (u16 (len data)) |> WriteUint32 0 |> WriteBytes data.

(** [(8 - (n % 8)) % 8] *)
Definition context_padding (n : Z) : Z := Z.rem (8 - Z.rem n 8) 8.

Definition buildNegotiateContexts : bytes * Z :=
  let preauthData := buildPreauthIntegrityContext in
  let encryptData := buildEncryptionContext in
  let signData := buildSigningCapabilitiesContext in
  (NewByteWriter
   |> write_context SMB2_PREAUTH_INTEGRITY_CAPABILITIES preauthData
   |> WriteZeros (context_padding (len preauthData))
   |> write_context SMB2_ENCRYPTION_CAPABILITIES encryptData
   |> WriteZeros (context_padding (len encryptData))
   |> write_context SMB2_SIGNING_CAPABILITIES signData |> Bytes, 3).

(** [systemTime] is [TimeToFiletime(now())]. *)
Definition negotiate_response (opts : ServerOptions) (dialect systemTime : Z) : bytes :=
  let securityMode := if so_SigningRequired opts
    then Z.lor SMB2_NEGOTIATE_SIGNING_ENABLED SMB2_NEGOTIATE_SIGNING_REQUIRED
    else SMB2_NEGOTIATE_SIGNING_ENABLED in
  let capabilities := Z.lor SMB2_GLOBAL_CAP_LARGE_MTU SMB2_GLOBAL_CAP_DFS in
  let capabilities := if SMB3_0 <=? dialect
    then Z.lor capabilities SMB2_GLOBAL_CAP_ENCRYPTION else capabilities in
  let capabilities := if SMB3_0 <=? dialect
    then Z.lor (Z.lor capabilities SMB2_GLOBAL_CAP_MULTI_CHANNEL) SMB2_GLOBAL_CAP_PERSISTENT_HANDLES
    else capabilities in
  let capabilities := if SMB3_0_2 <=? dialect
    then Z.lor capabilities SMB2_GLOBAL_CAP_DIRECTORY_LEASING else capabilities in
  let '(negotiateContexts, contextCount) :=
    if SMB3_1_1 <=? dialect then buildNegotiateContexts else ([], 0) in
  let w := NewByteWriter
    |> WriteUint16 65 |> WriteUint16 securityMode |> WriteUint16 (u16 dialect)
    |> WriteUint16 contextCount |> WriteGUID (so_ServerGUID opts) |> WriteUint32 capabilities
    |> WriteUint32 MaxTransactSize |> WriteUint32 (so_MaxReadSize opts)
    |> WriteUint32 (so_MaxWriteSize opts) |> WriteUint64 systemTime |> WriteUint64 systemTime
    |> WriteUint16 (u16 (SMB2HeaderSize + 64)) |> WriteUint16 0
    |> WriteUint32 (if (SMB3_1_1 <=? dialect) && (0 <? contextCount) then u32 (SMB2HeaderSize + 64) else 0) in
  Bytes (if (SMB3_1_1 <=? dialect) && (0 <? len negotiateContexts)
         then WriteBytes negotiateContexts w else w).

(** [rawBytes[pos : pos+2]] as a little-endian number, panicking out of
    range. *)
Definition raw_uint16 (rawBytes : bytes) (pos : Z) : outcome Z :=
  match slice rawBytes pos (pos + 2) with Some b => Ok (le_get b) | None => Panic end.

(** The loop of [parseClientNegotiateContexts]: the type and length of each
    context, as they are logged. *)
Fixpoint context_loop (count : nat) (rawBytes : bytes) (pos : Z) : outcome (list (Z * Z)) :=
  match count with
  | O => Ok []
  | S count =>
    if len rawBytes <? pos + 8 then Ok []
    else
      match raw_uint16 rawBytes pos, raw_uint16 rawBytes (pos + 2) with
      | Ok contextType, Ok dataLen =>
        match context_loop count rawBytes (pos + 8 + dataLen + context_padding dataLen) with
        | Ok rest => Ok ((contextType, dataLen) :: rest)
        | Panic => Panic
        end
      | _, _ => Panic
      end
  end.

Definition parseClientNegotiateContexts (rawBytes : bytes) (offset count : Z) : outcome (list (Z * Z)) :=
  let parse (startOffset : Z) :=
    if len rawBytes <=? startOffset then Ok []
    else context_loop (Z.to_nat count) rawBytes startOffset in
  if 4 <? len rawBytes then
    match rawBytes !! 4%nat with
    | Some b4 =>
      if Z_of_byte b4 =? 0xFE then
        match rawBytes !! 5%nat with
        | Some b5 => parse (if Z_of_byte b5 =? 0x53 then offset + 4 else offset)
        | None => Panic
        end
      else parse offset
    | None => Panic
    end
  else parse offset.

Fixpoint format_loop (dialects : list Z) : gostring :=
  match dialects with
  | [] => []
  | [d] => SMBDialect_String d
  | d :: dialects => SMBDialect_String d ++ str ", " ++ format_loop dialects
  end.

Definition formatDialects (dialects : list Z) : gostring :=
  match dialects with
  | [] => str "[]"
  | _ => str "[" ++ format_loop dialects ++ str "]"
  end.

Section connect.
Context `{Absfs} `{UnicodeTables} `{Crypto}.

Definition buildNegotiateResponse (dialect : Z) : M HS bytes :=
  opts ← gets (λ h, srv_options (hs_srv h));
  t ← time_Now;
  mret (negotiate_response opts dialect (TimeToFiletime t)).

(** A pure computation that may panic. *)
Definition lift_outcome {A} (o : outcome A) : M HS A := λ h,
  match o with Ok a => Ok (a, h) | Panic => Panic end.

Definition handleNegotiateImpl (msg : SMB2Message) : M HS reply :=
  opts ← gets (λ h, srv_options (hs_srv h));
  if len (m_Payload msg) =? 0 then
    b ← buildNegotiateResponse (so_MaxDialect opts);
    mret (b, STATUS_SUCCESS)
  else
    with_request 36 (m_Payload msg) parse_negotiate (λ req,
      let selectedDialect := selectDialect opts (ng_dialects req) in
      if selectedDialect =? 0 then fail STATUS_NOT_SUPPORTED
      else if selectedDialect <? so_MinDialect opts then fail STATUS_NOT_SUPPORTED
      else
        let clientSigningRequired := has_flag (ng_securityMode req) 0x02 in
        modify (λ h, set_conn (mkConn None (cs_remoteAddr (hs_conn h)) selectedDialect
          (clientSigningRequired || so_SigningRequired opts) (cs_preauthHash (hs_conn h))) h);;
        contexts ← (if (SMB3_1_1 <=? selectedDialect) && (0 <? ng_contextCount req)
          then lift_outcome (parseClientNegotiateContexts (m_RawBytes msg) (ng_contextOffset req)
                 (ng_contextCount req))
          else mret []);
        b ← buildNegotiateResponse selectedDialect;
        mret (b, STATUS_SUCCESS)).

(** ** SESSION_SETUP and LOGOFF *)

Record SetupRequest := mkSetup {
  ss_secBufOffset : Z; ss_secBufLen : Z; ss_previousSessionID : Z;
}.

Definition parse_setup : M ByteReader (option SetupRequest) :=
  structSize ← ReadUint16;
  if negb (structSize =? 25) then mret None
  else
    flags ← ReadOneByte;
    securityMode ← ReadOneByte;
    capabilities ← ReadUint32;
    channel ← ReadUint32;
    secBufOffset ← ReadUint16;
    secBufLen ← ReadUint16;
    previousSessionID ← ReadUint64;
    mret (Some (mkSetup secBufOffset secBufLen previousSessionID)).

(** The security blob and the bytes of the message behind it, which its
    slice can be extended to. *)
Definition with_security_blob (req : SetupRequest) (payload : bytes) (k : bytes → bytes → M HS reply) : M HS reply :=
  if 0 <? ss_secBufLen req then
    with_buffer (ss_secBufOffset req) (ss_secBufLen req) payload (λ blob,
      k blob (drop (Z.to_nat (ss_secBufOffset req - SMB2HeaderSize + ss_secBufLen req)) payload))
  else k [] [].

(** The session to continue: the previous one, or the one of the header. *)
Definition find_session (previousSessionID headerID : Z) (m : SessionManager) : option ptr :=
  match (if negb (previousSessionID =? 0) then GetSession previousSessionID m else None) with
  | Some p => Some p
  | None => if negb (headerID =? 0) then GetSession headerID m else None
  end.

Definition create_session : M HS ptr :=
  random ← rand_uint64;
  t ← time_Now;
  opts ← gets (λ h, srv_options (hs_srv h));
  addr ← gets (λ h, cs_remoteAddr (hs_conn h));
  m ← gets (λ h, srv_sessions (hs_srv h));
  let '(p, m) := CreateSession random t (so_MaxDialect opts) zeroGUID addr m in
  on_sessions (λ _, m);;
  mret p.

(** The session's authenticator, created on first use. *)
Definition get_authenticator (p : ptr) : M HS Authenticator :=
  session ← the_session p;
  match s_Authenticator session with
  | Some a => mret a
  | None =>
    opts ← gets (λ h, srv_options (hs_srv h));
    users ← gets (λ h, w_order (hs_w h) (map_to_list (so_Users opts)));
    let a := NTLM (NewNTLMAuthenticator (so_ServerName opts) users (so_AllowGuest opts)) in
    on_sessions (s_update p (set_Authenticator a));;
    mret a
  end.

(** Whether the blob makes [handleNegotiate] draw a challenge. *)
Definition is_type1 (securityBlob : bytes) : bool :=
  let ntlmBlob := default securityBlob (extractNTLMFromSPNEGO securityBlob) in
  negb ((len ntlmBlob <? 12) || negb (has_prefix ntlmSignature ntlmBlob))
  && (le_get (sub ntlmBlob 8 4) =? ntlmNegotiateMessage).

(** Whether the challenge carries a target info, whose timestamp is the only
    clock reading of the authentication. *)
Definition sends_target_info (securityBlob : bytes) (a : NTLMAuthenticator) : bool :=
  let ntlmBlob := default securityBlob (extractNTLMFromSPNEGO securityBlob) in
  let clientFlags := if 16 <=? len ntlmBlob then le_get (sub ntlmBlob 12 4) else na_clientFlags a in
  has_flag clientFlags ntlmFlagNegotiateTargetInfo
  || has_flag clientFlags ntlmFlagNegotiateExtendedSessionSec.

(** [authenticator.Authenticate(securityBlob)], with the authenticator it
    leaves behind. No implementation returns an error. *)
Definition Authenticate (a : Authenticator) (securityBlob tail : bytes) : M HS (AuthResult * Authenticator) :=
  match a with
  | Guest => mret (Guest_Authenticate securityBlob, Guest)
  | NTLM a =>
    '(challenge, t) ← (if is_type1 securityBlob then
      c ← io (w_rand 8);
      t ← (if sends_target_info securityBlob a then time_Now else mret 0);
      mret (default (zeros 8) c, t)
    else mret ([], 0));
    '(r, a) ← lift_outcome (NTLM_Authenticate t challenge securityBlob tail a);
    mret (r, NTLM a)
  end.

Definition set_SessionID (id : Z) (hd : SMB2Header) : SMB2Header :=
  mkHeader (h_ProtocolID hd) (h_StructureSize hd) (h_CreditCharge hd) (h_Status hd) (h_Command hd)
    (h_CreditRequest hd) (h_Flags hd) (h_NextCommand hd) (h_MessageID hd) (h_Reserved hd) (h_TreeID hd)
    id (h_Signature hd).

Definition set_TreeID (id : Z) (hd : SMB2Header) : SMB2Header :=
  mkHeader (h_ProtocolID hd) (h_StructureSize hd) (h_CreditCharge hd) (h_Status hd) (h_Command hd)
    (h_CreditRequest hd) (h_Flags hd) (h_NextCommand hd) (h_MessageID hd) (h_Reserved hd) id
    (h_SessionID hd) (h_Signature hd).

Definition challenge_response (blob : bytes) : bytes :=
  NewByteWriter |> WriteUint16 9 |> WriteUint16 0 |> WriteUint16 (u16 (SMB2HeaderSize + 8))
  |> WriteUint16 (u16 (len blob)) |> WriteBytes blob |> Bytes.

Definition setup_response (isGuest : bool) (blob : option bytes) : bytes :=
  let w := NewByteWriter |> WriteUint16 9
    |> WriteUint16 (if isGuest then SMB2_SESSION_FLAG_IS_GUEST else 0) in
  let blob := default [] blob in
  if 0 <? len blob then
    w |> WriteUint16 (u16 (SMB2HeaderSize + 8)) |> WriteUint16 (u16 (len blob)) |> WriteBytes blob |> Bytes
  else w |> WriteUint16 0 |> WriteUint16 0 |> Bytes.

(** What follows the authentication. *)
Definition finish_setup (p : ptr) (isNewSession : bool) (authResult : AuthResult) : M HS reply :=
  session ← the_session p;
  if negb (ar_Success authResult) then
    match ar_ResponseBlob authResult with
    | Some blob =>
      modify (λ h, set_resp (set_SessionID (s_ID session) (hs_resp h)) h);;
      mret (challenge_response blob, STATUS_MORE_PROCESSING_REQUIRED)
    | None =>
      (if isNewSession then on_sessions (λ m, (DestroySession (s_ID session) m).2) else mret tt);;
      fail STATUS_LOGON_FAILURE
    end
  else
    conn ← gets hs_conn;
    let signingKey :=
      (λ key, DeriveSigningKey key (cs_dialect conn) (cs_preauthHash conn)) <$> ar_SessionKey authResult in
    t ← time_Now;
    on_sessions (s_update p (SetValid t (ar_Username authResult) (ar_Domain authResult)
      (ar_IsGuest authResult) signingKey));;
    modify (λ h, set_conn (mkConn (Some p) (cs_remoteAddr (hs_conn h)) (cs_dialect (hs_conn h))
      (cs_signingRequired (hs_conn h)) (cs_preauthHash (hs_conn h))) h);;
    modify (λ h, set_resp (set_SessionID (s_ID session) (hs_resp h)) h);;
    mret (setup_response (ar_IsGuest authResult) (ar_ResponseBlob authResult), STATUS_SUCCESS).

Definition handleSessionSetupImpl (msg : SMB2Message) : M HS reply :=
  with_request 24 (m_Payload msg) parse_setup (λ req,
  with_security_blob req (m_Payload msg) (λ securityBlob tail,
    m ← gets (λ h, srv_sessions (hs_srv h));
    '(p, isNewSession) ← match find_session (ss_previousSessionID req) (h_SessionID (m_Header msg)) m with
      | Some p => mret (p, false)
      | None => p ← create_session; mret (p, true)
      end;
    a ← get_authenticator p;
    '(authResult, a) ← Authenticate a securityBlob tail;
    on_sessions (s_update p (set_Authenticator a));;
    finish_setup p isNewSession authResult)).

(** [share.fileHandles.ReleaseByTree(treeID, sessionID)]; the errors are
    dropped. *)
Definition release_by_tree (share : ptr) (treeID sessionID : Z) : M HS unit :=
  m ← handles_of share;
  m ← (λ h, let '(_, m, w) := ReleaseByTree f_Close (w_order (hs_w h)) treeID sessionID m (hs_w h) in
            Ok (m, set_w w h));
  set_handles share m.

Fixpoint release_trees (trees : list TreeConnection) (sessionID : Z) : M HS unit :=
  match trees with
  | [] => mret tt
  | tree :: trees => release_by_tree (t_Share tree) (t_ID tree) sessionID;; release_trees trees sessionID
  end.

Definition parse_struct4 : M ByteReader (option unit) :=
  structSize ← ReadUint16;
  mret (if negb (structSize =? 4) then None else Some tt).

Definition empty_response : bytes := NewByteWriter |> WriteUint16 4 |> WriteUint16 0 |> Bytes.

Definition handleLogoffImpl (msg : SMB2Message) : M HS reply :=
  with_session (m_Header msg) (λ p session,
  with_request 4 (m_Payload msg) parse_struct4 (λ _,
    trees ← gets (λ h, GetAllTreeConnections (w_order (hs_w h)) session);
    release_trees trees (s_ID session);;
    on_sessions (λ m, (DestroySession (s_ID session) m).2);;
    modify (λ h, set_conn (mkConn None (cs_remoteAddr (hs_conn h)) (cs_dialect (hs_conn h))
      (cs_signingRequired (hs_conn h)) (cs_preauthHash (hs_conn h))) h);;
    mret (empty_response, STATUS_SUCCESS))).

(** ** TREE_CONNECT and TREE_DISCONNECT *)

Definition is_sep (b : byte) : bool := bool_decide (b = backslash) || bool_decide (b = slash).

Fixpoint strip_seps (path : gostring) : gostring :=
  match path with
  | b :: rest => if is_sep b then strip_seps rest else path
  | [] => []
  end.

(** What follows the first separator; the path itself when there is none. *)
Fixpoint after_sep (path : gostring) : option gostring :=
  match path with
  | [] => None
  | b :: rest => if is_sep b then Some rest else after_sep rest
  end.

Fixpoint upto_sep (path : gostring) : gostring :=
  match path with
  | [] => []
  | b :: rest => if is_sep b then [] else b :: upto_sep rest
  end.

Definition extractShareName (path : gostring) : gostring :=
  let path := strip_seps path in
  upto_sep (default path (after_sep path)).

Definition parse_tree_connect : M ByteReader (option (Z * Z)) :=
  structSize ← ReadUint16;
  if negb (structSize =? 9) then mret None
  else
    flags ← ReadUint16;
    pathOffset ← ReadUint16;
    pathLen ← ReadUint16;
    mret (Some (pathOffset, pathLen)).

Definition maximal_access (readOnly : bool) : Z :=
  foldr Z.lor 0 (if readOnly
    then [FILE_READ_DATA; FILE_READ_ATTRIBUTES; FILE_READ_EA; READ_CONTROL; SYNCHRONIZE]
    else [FILE_READ_DATA; FILE_WRITE_DATA; FILE_APPEND_DATA; FILE_READ_EA; FILE_WRITE_EA; FILE_EXECUTE;
          FILE_DELETE_CHILD; FILE_READ_ATTRIBUTES; FILE_WRITE_ATTRIBUTES; DELETE; READ_CONTROL;
          WRITE_DAC; WRITE_OWNER; SYNCHRONIZE]).

Definition tree_response (share : Share) : bytes :=
  NewByteWriter |> WriteUint16 16 |> WriteOneByte (u8 (GetShareType share)) |> WriteOneByte 0
  |> WriteUint32 0 |> WriteUint32 0 |> WriteUint32 (maximal_access (Share_IsReadOnly share)) |> Bytes.

Definition handleTreeConnectImpl (msg : SMB2Message) : M HS reply :=
  with_session (m_Header msg) (λ p session,
  with_request 8 (m_Payload msg) parse_tree_connect (λ '(pathOffset, pathLen),
  with_buffer pathOffset pathLen (m_Payload msg) (λ b,
    let shareName := extractShareName (DecodeUTF16LEToString b) in
    if bool_decide (shareName = []) then fail STATUS_BAD_NETWORK_NAME
    else
      found ← gets (λ h, GetShare shareName (hs_srv h));
      match found with
      | None => fail STATUS_BAD_NETWORK_NAME
      | Some sp =>
        share ← the_share sp;
        if negb (CheckUserAccess (s_Username session) (s_IsGuest session) share)
        then fail STATUS_ACCESS_DENIED
        else
          t ← time_Now;
          let add := AddTreeConnection t p shareName sp (Share_IsReadOnly share) in
          on_sessions (s_update p (λ s, (add s).2));;
          modify (λ h, set_resp (set_TreeID (t_ID (add session).1) (hs_resp h)) h);;
          mret (tree_response share, STATUS_SUCCESS)
      end))).

Definition handleTreeDisconnectImpl (msg : SMB2Message) : M HS reply :=
  with_tree (m_Header msg) (λ p session tree,
    release_by_tree (t_Share tree) (t_ID tree) (s_ID session);;
    on_sessions (s_update p (λ s, (RemoveTreeConnection (t_ID tree) s).2));;
    mret (empty_response, STATUS_SUCCESS)).
End connect.

(* ------------------------------------------------------------------ *)
(** ** Lemmas: parsing *)

Lemma wpp_read_dialects P data n (Q : list Z → ByteReader → Prop) r :
  r_inv data r → (∀ l r', r_inv data r' → Q l r') → wpp P (read_dialects n) Q r.
Proof.
  revert Q r; induction n as [|n IH]; intros Q r Hr HQ; simpl; [by apply wpp_ret, HQ|].
  wp_parse. eapply IH; [eassumption|]. intros l r2 Hr2. wp_parse. by apply HQ.
Qed.

Lemma parse_negotiate_good : parses parse_negotiate (λ req, 0 ≤ ng_contextOffset req ∧ 0 ≤ ng_contextCount req).
Proof.
  intros P payload. unfold parse_negotiate. wp_parse; [done|]. apply wpp_gets.
  case_match; [by apply wpp_ret|]. apply wpp_bind. eapply wpp_read_dialects; [eassumption|].
  intros l r Hr. apply wpp_ret. intros req [= <-]. simpl. lia.
Qed.

Lemma parse_setup_good : parses parse_setup (λ req, 0 ≤ ss_secBufLen req).
Proof. intros P payload. unfold parse_setup. wp_parse; [done|]. intros r [= <-]. simpl. lia. Qed.

Lemma parse_struct4_good : parses parse_struct4 (λ _, True).
Proof. intros P payload. unfold parse_struct4. wp_parse; done. Qed.

Lemma parse_tree_connect_good : parses parse_tree_connect (λ req, 0 ≤ req.2).
Proof. intros P payload. unfold parse_tree_connect. wp_parse; [done|]. intros r [= <-]. simpl. lia. Qed.

#[export] Hint Resolve parse_negotiate_good parse_setup_good parse_struct4_good parse_tree_connect_good : smb.

(** ** Lemmas: dialect selection *)

Definition common_dialect (opts : ServerOptions) (clientDialects : list Z) (d : Z) : Prop :=
  d ∈ clientDialects ∧ d ∈ SupportedDialects ∧ so_MinDialect opts ≤ d ≤ so_MaxDialect opts.

(** Over any descending list of server dialects: the first hit is the
    greatest. *)
Lemma select_loop_spec opts servers clients :
  StronglySorted Z.ge servers → Forall (λ d, 0 < d) servers →
  let d := select_loop opts servers clients in
  let common x := x ∈ clients ∧ x ∈ servers ∧ so_MinDialect opts ≤ x ≤ so_MaxDialect opts in
  (d = 0 ∧ ∀ x, ¬ common x) ∨ (0 < d ∧ common d ∧ ∀ x, common x → x ≤ d).
Proof.
  intros Hs Hp. induction Hs as [|d0 servers Hs IH Hd]; simpl.
  { left. split; [done|]. intros x (_ & Hx & _). by apply not_elem_of_nil in Hx. }
  apply Forall_cons in Hp as [Hp0 Hp]. specialize (IH Hp).
  assert (¬ (d0 ∈ clients ∧ so_MinDialect opts ≤ d0 ≤ so_MaxDialect opts) →
    (select_loop opts servers clients = 0
      ∧ ∀ x, ¬ (x ∈ clients ∧ x ∈ d0 :: servers ∧ so_MinDialect opts ≤ x ≤ so_MaxDialect opts))
    ∨ 0 < select_loop opts servers clients
      ∧ (select_loop opts servers clients ∈ clients ∧ select_loop opts servers clients ∈ d0 :: servers
         ∧ so_MinDialect opts ≤ select_loop opts servers clients ≤ so_MaxDialect opts)
      ∧ ∀ x, x ∈ clients ∧ x ∈ d0 :: servers ∧ so_MinDialect opts ≤ x ≤ so_MaxDialect opts →
             x ≤ select_loop opts servers clients) as Hskip.
  { intros Hn. destruct IH as [[-> IH]|(H0 & (Hc & Hsv & Hr) & IH)]; [left|right].
    - split; [done|]. intros x (Hx & [->|Hxs]%elem_of_cons & Hxr); [by apply Hn|]. by eapply IH.
    - split; [done|]. split; [split_and!; [done|by apply elem_of_cons; right|lia..]|].
      intros x (Hx & [->|Hxs]%elem_of_cons & Hxr); [by destruct Hn|]. by apply IH. }
  destruct (Z.ltb_spec (so_MaxDialect opts) d0); [apply Hskip; lia|].
  destruct (Z.ltb_spec d0 (so_MinDialect opts)); [apply Hskip; lia|].
  destruct (existsb _ clients) eqn:E; cycle 1.
  { apply Hskip. intros [Hin _]. apply not_true_iff_false in E. apply E, existsb_exists.
    exists d0. split; [by apply list_elem_of_In|]. apply Z.eqb_refl. }
  right. apply existsb_exists in E as (x & Hx%list_elem_of_In & ->%Z.eqb_eq).
  split; [done|]. split; [split_and!; [done|by apply elem_of_cons; left|lia..]|].
  intros y (_ & [->|Hy]%elem_of_cons & _); [done|]. rewrite Forall_forall in Hd. apply Hd in Hy. lia.
Qed.

Lemma SupportedDialects_sorted :
  StronglySorted Z.ge SupportedDialects ∧ Forall (λ d, 0 < d) SupportedDialects.
Proof.
  unfold SupportedDialects, SMB3_1_1, SMB3_0_2, SMB3_0, SMB2_1, SMB2_0_2.
  split; repeat constructor; lia.
Qed.

(** The contexts are only read inside the message. *)
Lemma context_padding_range n : 0 ≤ n → 0 ≤ context_padding n < 8.
Proof.
  intros Hn. unfold context_padding. pose proof (Z.rem_bound_pos n 8 Hn ltac:(lia)).
  pose proof (Z.rem_bound_pos (8 - Z.rem n 8) 8 ltac:(lia) ltac:(lia)). lia.
Qed.

Lemma raw_uint16_ok raw pos :
  0 ≤ pos → pos + 2 ≤ len raw → ∃ v, raw_uint16 raw pos = Ok v ∧ 0 ≤ v.
Proof.
  intros H0 H1. unfold raw_uint16. destruct (slice raw pos (pos + 2)) as [b|] eqn:E.
  - exists (le_get b). split; [done|]. pose proof (le_get_range b). lia.
  - apply slice_None in E. lia.
Qed.

Lemma context_loop_ok n raw pos : 0 ≤ pos → ∃ l, context_loop n raw pos = Ok l.
Proof.
  revert pos; induction n as [|n IH]; intros pos Hp; simpl; [eauto|].
  destruct (Z.ltb_spec (len raw) (pos + 8)); [eauto|].
  destruct (raw_uint16_ok raw pos) as (ty & -> & _); [lia..|].
  destruct (raw_uint16_ok raw (pos + 2)) as (n' & -> & Hn'); [lia..|].
  pose proof (context_padding_range n' Hn').
  destruct (IH (pos + 8 + n' + context_padding n')) as (l & ->); [lia|]. eauto.
Qed.

Lemma parseClientNegotiateContexts_ok raw offset count :
  len raw ≠ 5 → 0 ≤ offset → ∃ l, parseClientNegotiateContexts raw offset count = Ok l.
Proof.
  intros H5 Ho. unfold parseClientNegotiateContexts.
  assert (∀ o, 0 ≤ o → ∃ l, (if len raw <=? o then Ok [] else context_loop (Z.to_nat count) raw o) = Ok l) as Hp.
  { intros o H. case_match; [eauto|by apply context_loop_ok]. }
  destruct (Z.ltb_spec 4 (len raw)); [|auto].
  destruct (raw !! 4%nat) as [b4|] eqn:E4; cycle 1.
  { apply lookup_ge_None in E4. unfold len in *. lia. }
  case_match; [|auto]. destruct (raw !! 5%nat) as [b5|] eqn:E5; cycle 1.
  { apply lookup_ge_None in E5. unfold len in *. lia. }
  apply Hp. case_match; lia.
Qed.

Section connect_lemmas.
Context `{Absfs} `{UnicodeTables} `{Crypto}.

Lemma with_request_eq {R} n payload (parse : M ByteReader (option R)) k req r h :
  n ≤ len payload → parse (NewByteReader payload) = Ok (Some req, r) →
  with_request n payload parse k h = k req h.
Proof.
  intros Hn Hp. unfold with_request. destruct (Z.ltb_spec (len payload) n); [lia|].
  m_simpl. by rewrite Hp.
Qed.

(** C26: negotiation picks the best dialect: a well-formed request is answered
    with the greatest dialect that both sides support inside the configured
    range, which the connection then uses, with signing if either side
    requires it; without a common dialect it is refused and nothing changes. *)
Theorem negotiate_selects_best msg h req rd :
  let opts := srv_options (hs_srv h) in
  36 ≤ len (m_Payload msg) → len (m_RawBytes msg) ≠ 5 →
  parse_negotiate (NewByteReader (m_Payload msg)) = Ok (Some req, rd) →
  (∃ d payload w,
     handleNegotiateImpl msg h = Ok ((payload, STATUS_SUCCESS),
       set_conn (mkConn None (cs_remoteAddr (hs_conn h)) d
         (has_flag (ng_securityMode req) 2 || so_SigningRequired opts) (cs_preauthHash (hs_conn h))) (set_w w h))
     ∧ sub payload 4 2 = le_put 2 d
     ∧ common_dialect opts (ng_dialects req) d
     ∧ ∀ d', common_dialect opts (ng_dialects req) d' → d' ≤ d)
  ∨ (handleNegotiateImpl msg h = Ok ((buildErrorResponse, STATUS_NOT_SUPPORTED), h)
     ∧ ∀ d, ¬ common_dialect opts (ng_dialects req) d).
Proof.
  intros opts Hlen H5 Hp.
  destruct (parses_ok _ _ _ _ _ parse_negotiate_good Hp) as [Ho Hc].
  destruct SupportedDialects_sorted as [Hsort Hpos].
  unfold handleNegotiateImpl. m_simpl. fold opts.
  destruct (Z.eqb_spec (len (m_Payload msg)) 0); [lia|].
  rewrite (with_request_eq _ _ _ _ _ _ _ Hlen Hp). fold (selectDialect opts (ng_dialects req)).
  destruct (select_loop_spec opts SupportedDialects (ng_dialects req) Hsort Hpos)
    as [[E Hnone]|(Hd0 & (Hcl & Hsv & Hr) & Hmax)]; fold (selectDialect opts (ng_dialects req)) in *.
  - right. rewrite E. done.
  - left. exists (selectDialect opts (ng_dialects req)).
    destruct (Z.eqb_spec (selectDialect opts (ng_dialects req)) 0); [lia|].
    destruct (Z.ltb_spec (selectDialect opts (ng_dialects req)) (so_MinDialect opts)); [lia|].
    destruct (parseClientNegotiateContexts_ok (m_RawBytes msg) (ng_contextOffset req)
      (ng_contextCount req) H5 Ho) as (l & Hl).
    unfold buildNegotiateResponse, time_Now, io, lift_outcome. m_simpl. rewrite Hl.
    destruct (w_now (hs_w h)) as [t w] eqn:Ew. exists (negotiate_response opts (selectDialect opts (ng_dialects req)) (TimeToFiletime t)), w.
    split; [by destruct (_ && _); simpl; rewrite Ew|]. split; [|done].
    assert (u16 (selectDialect opts (ng_dialects req)) = selectDialect opts (ng_dialects req)) as Hu.
    { clear -Hsv. set (d := selectDialect _ _) in *. clearbody d.
      repeat (apply elem_of_cons in Hsv as [->|Hsv]; [done|]). by apply not_elem_of_nil in Hsv. }
    unfold negotiate_response. rewrite Hu.
    match goal with |- context [if ?b then buildNegotiateContexts else ?e] =>
      destruct (if b then buildNegotiateContexts else e) as [ctx n'] end.
    unfold Bytes, NewByteWriter, WriteUint16, WriteUint32, WriteUint64, WriteGUID, WriteBytes.
    rewrite <-!app_assoc. by destruct (_ && _).
Qed.

(** *** SESSION_SETUP *)

(** The authenticators the server creates: the configured guest policy and
    users. *)
Definition auth_config (opts : ServerOptions) (a : Authenticator) : Prop :=
  ∃ n, a = NTLM n ∧ na_allowGuest n = so_AllowGuest opts
    ∧ ∀ u, is_Some (na_users n !! u) → ∃ name, is_Some (so_Users opts !! name) ∧ u = ToUpper name.

Definition auths_ok (opts : ServerOptions) (m : SessionManager) : Prop :=
  ∀ q s a, s_deref m q = Some s → s_Authenticator s = Some a → auth_config opts a.

(** What the configuration allows a session to be. *)
Definition permitted (opts : ServerOptions) (username : gostring) (isGuest : bool) : Prop :=
  if isGuest then so_AllowGuest opts = true
  else ∃ name, is_Some (so_Users opts !! name) ∧ ToUpper name = ToUpper username.

(** Equal up to the authenticator. *)
Definition same_session (s s' : Session) : Prop :=
  ∃ a, s' = mkSession (s_ID s) (s_State s) (s_Dialect s) (s_IsGuest s) (s_Username s) (s_Domain s)
    (s_SigningKey s) (s_CreatedAt s) (s_LastActivity s) (s_ClientGUID s) (s_ClientIP s) a
    (s_trees s) (s_nextID s).

(** From [m] to [m'] no session became valid: the sessions of [m] kept
    everything but their authenticators, new ones are still in progress. *)
Definition evolves (m m' : SessionManager) : Prop :=
  (∀ q, is_Some (s_deref m q) → is_Some (s_deref m' q)) ∧
  ∀ q s', s_deref m' q = Some s' →
    (∃ s, s_deref m q = Some s ∧ same_session s s')
    ∨ (s_deref m q = None ∧ s_State s' = SessionStateInProgress ∧ s_trees s' = ∅ ∧ s_nextID s' = 1).

Lemma same_session_refl s : same_session s s.
Proof. exists (s_Authenticator s). by destruct s. Qed.

Lemma evolves_same m m' : sm_heap m' = sm_heap m → evolves m m'.
Proof.
  unfold evolves, s_deref. intros ->. split; [done|]. intros q s' Hs. left. exists s'.
  split; [done|apply same_session_refl].
Qed.

Lemma evolves_trans m1 m2 m3 : evolves m1 m2 → evolves m2 m3 → evolves m1 m3.
Proof.
  intros [Hd12 H12] [Hd23 H23]. split; [auto|]. intros q s3 Hs3.
  destruct (H23 q s3 Hs3) as [(s2 & Hs2 & a2 & ->)|(Hn & Hst & Htr)].
  - destruct (H12 q s2 Hs2) as [(s1 & Hs1 & a1 & ->)|(Hn & Hst & Htr)]; [left|by right].
    exists s1. split; [done|]. by exists a2.
  - right. split; [|done]. destruct (s_deref m1 q) eqn:E; [|done].
    destruct (Hd12 q) as [x Hx]; [eauto|congruence].
Qed.

Lemma evolves_CreateSession random t d g ip m :
  sm_wf m → evolves m (CreateSession random t d g ip m).2.
Proof.
  intros Hwf. unfold CreateSession. destruct (if default 0 random =? 0 then _ else _) as [sid nid].
  split; unfold s_deref; simpl; intros q.
  - intros [s Hs]. destruct (decide (sm_nextPtr m = q)) as [<-|Hne]; [by rewrite lookup_insert_eq|].
    rewrite lookup_insert_ne by done. eauto.
  - intros s' [[<- <-]|[Hne Hs]]%lookup_insert_Some.
    + right. split; [|done]. by apply (smwf_heap m Hwf).
    + left. exists s'. split; [done|apply same_session_refl].
Qed.

Lemma evolves_set_Authenticator p a m : evolves m (s_update p (set_Authenticator a) m).
Proof.
  split; unfold s_deref; simpl; intros q; (destruct (decide (q = p)) as [->|Hne];
    [rewrite lookup_alter_eq|rewrite lookup_alter_ne by done; eauto using same_session_refl]).
  - by intros [s ->].
  - intros s'. destruct (sm_heap m !! p) as [s|]; [|done]. intros [= <-]. left. exists s.
    split; [done|]. by exists (Some a).
Qed.

Lemma evolves_DestroySession id m : evolves m (DestroySession id m).2.
Proof. apply evolves_same. unfold DestroySession. by destruct (_ ≫= _) as [[]|]. Qed.

Lemma auths_ok_CreateSession opts random t d g ip m :
  auths_ok opts m → auths_ok opts (CreateSession random t d g ip m).2.
Proof.
  intros Ha q s a. unfold CreateSession. destruct (if default 0 random =? 0 then _ else _) as [sid nid].
  unfold s_deref; simpl. intros [[_ <-]|[_ Hs]]%lookup_insert_Some; simpl; [done|]. by eapply Ha.
Qed.

Lemma auths_ok_update opts p f m :
  (∀ s a, s_deref m p = Some s → s_Authenticator (f s) = Some a → auth_config opts a) →
  auths_ok opts m → auths_ok opts (s_update p f m).
Proof.
  intros Hf Ha q s a. unfold s_deref; simpl. destruct (decide (q = p)) as [->|Hne].
  - rewrite lookup_alter_eq. destruct (sm_heap m !! p) as [s0|] eqn:E; [|done]. intros [= <-]. by apply Hf.
  - rewrite lookup_alter_ne by done. apply Ha.
Qed.

Lemma auths_ok_keep opts p f m :
  (∀ s, s_Authenticator (f s) = s_Authenticator s) → auths_ok opts m → auths_ok opts (s_update p f m).
Proof. intros Hf Ha. apply auths_ok_update; [|done]. intros s a Hs. rewrite Hf. by eapply Ha. Qed.

Lemma auths_ok_DestroySession opts id m : auths_ok opts m → auths_ok opts (DestroySession id m).2.
Proof. intros Ha. unfold DestroySession. by destruct (_ ≫= _) as [[]|]. Qed.

Lemma NewNTLM_users (l : list (gostring * gostring)) (m : gmap gostring gostring) u :
  is_Some (foldl (λ m (x : gostring * gostring), <[ToUpper x.1 := x.2]> m) m l !! u) →
  is_Some (m !! u) ∨ ∃ x, x ∈ l ∧ u = ToUpper x.1.
Proof.
  revert m; induction l as [|x l IH]; intros m; simpl; [by left|]. intros [Hm|(y & Hy & ->)]%IH.
  - destruct (decide (u = ToUpper x.1)) as [->|Hne]; [right; exists x; split; [by left|done]|left].
    by rewrite lookup_insert_ne in Hm.
  - right. exists y. split; [by right|done].
Qed.

Lemma NewNTLM_config `{!AbsfsLaws} opts (w : World) :
  auth_config opts (NTLM (NewNTLMAuthenticator (so_ServerName opts)
    (w_order w (map_to_list (so_Users opts))) (so_AllowGuest opts))).
Proof.
  eexists. split; [done|]. split; [done|]. intros u [Hu|((name & pw) & Hx & ->)]%NewNTLM_users.
  - rewrite lookup_empty in Hu. by destruct Hu.
  - exists name. split; [|done]. rewrite w_order_perm in Hx. apply elem_of_map_to_list in Hx. eauto.
Qed.

(** A state whose session manager is [m], the rest but the world as in [h]. *)
Definition on_mgr (h : HS) (m : SessionManager) (w : World) : HS :=
  set_w w (set_srv (set_sessions m (hs_srv h)) h).

Lemma on_mgr_id h : on_mgr h (srv_sessions (hs_srv h)) (hs_w h) = h.
Proof. by destruct h as [? ? [] ?]. Qed.

(** The invariant of the session manager inside the server. *)
Definition mgr_ok (h : HS) (m : SessionManager) : Prop :=
  sm_wf m ∧ trees_in (srv_shareHeap (hs_srv h)) m ∧ auths_ok (srv_options (hs_srv h)) m.

Lemma mgr_ok_srv h m w : srv_ok (hs_srv h) → mgr_ok h m → srv_ok (hs_srv (on_mgr h m w)).
Proof. intros Hok (Hwf & Ht & _). by apply set_sessions_ok. Qed.

Lemma mgr_ok_set_Authenticator h p a m :
  mgr_ok h m → auth_config (srv_options (hs_srv h)) a → mgr_ok h (s_update p (set_Authenticator a) m).
Proof.
  intros (Hwf & Ht & Ha) Hc. split_and!.
  - apply s_update_wf; [apply keeps_Authenticator|done].
  - apply s_update_trees; auto.
  - apply auths_ok_update; [|done]. by intros s a' _ [= <-].
Qed.

Lemma mgr_ok_SetValid h p t u d g k m : mgr_ok h m → mgr_ok h (s_update p (SetValid t u d g k) m).
Proof.
  intros (Hwf & Ht & Ha). split_and!.
  - apply s_update_wf; [apply keeps_SetValid|done].
  - apply s_update_trees; auto.
  - apply auths_ok_update; [|done]. intros s a Hs Hsa. by eapply Ha.
Qed.

Lemma mgr_ok_DestroySession h id m : mgr_ok h m → mgr_ok h (DestroySession id m).2.
Proof.
  intros (Hwf & Ht & Ha). unfold DestroySession. destruct (_ ≫= _) as [[p s]|]; [|done].
  split_and!; [by apply drop_session_wf|done|done].
Qed.

Lemma wpp_the_session P p s (Q : Session → HS → Prop) h :
  s_deref (srv_sessions (hs_srv h)) p = Some s → Q s h → wpp P (the_session p) Q h.
Proof. intros Hs HQ. unfold wpp, the_session, lift_option. by rewrite Hs. Qed.

(** From [m] to [m'] only the session [p] changed, and in the registry only
    the id [new] of a session that is not in [m]. *)
Definition touches (p : ptr) (new : option Z) (m m' : SessionManager) : Prop :=
  (∀ id, new ≠ Some id → sm_sessions m' !! id = sm_sessions m !! id)
  ∧ (∀ q, q ≠ p → s_deref m' q = s_deref m q)
  ∧ (is_Some new → s_deref m p = None).

(** [p] is the session to authenticate: the one [found] in [m0], or else a
    new one ([isNew]); it is registered. *)
Definition picked (m0 m : SessionManager) (found : option ptr) (p : ptr) (isNew : bool) : Prop :=
  ∃ s, s_deref m p = Some s ∧ sm_sessions m !! s_ID s = Some p
    ∧ touches p (if isNew then Some (s_ID s) else None) m0 m ∧ found = (if isNew then None else Some p).

Lemma picked_update m0 m found p isNew f :
  (∀ s, s_ID (f s) = s_ID s) → picked m0 m found p isNew → picked m0 (s_update p f m) found p isNew.
Proof.
  intros Hf (s & Hs & Hid & (Hreg & Hheap & Hnew) & Hfound). exists (f s). rewrite Hf. unfold s_deref in *; simpl in *.
  split; [by rewrite lookup_alter_eq, Hs|]. split; [done|]. split; [|done]. split; [done|]. split; [|done].
  intros q Hq. unfold s_deref; simpl. rewrite lookup_alter_ne by done. by apply Hheap.
Qed.

Lemma find_session_registered prev hid m p :
  find_session prev hid m = Some p → ∃ id, sm_sessions m !! id = Some p.
Proof. unfold find_session, GetSession. repeat case_match; intros; simplify_eq/=; eauto. Qed.

Lemma picked_found prev hid m p :
  sm_wf m → find_session prev hid m = Some p → picked m m (find_session prev hid m) p false.
Proof.
  intros Hwf Hf. destruct (find_session_registered _ _ _ _ Hf) as [id Hid].
  destruct (smwf_sessions _ Hwf _ _ Hid) as (s & Hs & <-). exists s. split_and!; [done|done| |done].
  split_and!; [done|done|by intros []].
Qed.

Lemma picked_created random t d g ip m p m' :
  sm_wf m → CreateSession random t d g ip m = (p, m') → picked m m' None p true.
Proof.
  intros Hwf. unfold CreateSession. destruct (if default 0 random =? 0 then _ else _) as [sid nid].
  intros [= <- <-]. eexists. unfold s_deref; simpl. split; [by rewrite lookup_insert_eq|]. simpl.
  split; [by rewrite lookup_insert_eq|]. split; [|done]. split_and!; simpl.
  - intros id Hid. rewrite lookup_insert_ne by congruence. done.
  - intros q Hq. unfold s_deref. simpl. by rewrite lookup_insert_ne.
  - intros _. by apply (smwf_heap m Hwf).
Qed.

(** The session to authenticate: found, or created. *)
Lemma wpp_pick_session P prev hid (Q : ptr * bool → HS → Prop) h :
  mgr_ok h (srv_sessions (hs_srv h)) →
  (∀ p b m w, mgr_ok h m → evolves (srv_sessions (hs_srv h)) m →
     picked (srv_sessions (hs_srv h)) m (find_session prev hid (srv_sessions (hs_srv h))) p b →
     Q (p, b) (on_mgr h m w)) →
  wpp P (match find_session prev hid (srv_sessions (hs_srv h)) with
         | Some p => mret (p, false)
         | None => p ← create_session; mret (p, true)
         end) Q h.
Proof.
  intros (Hwf & Ht & Ha) HQ. destruct (find_session _ _ _) as [p|] eqn:E.
  - apply wpp_ret. specialize (HQ p false (srv_sessions (hs_srv h)) (hs_w h)).
    rewrite on_mgr_id in HQ. apply HQ; [done|by apply evolves_same|]. rewrite <-E. by apply picked_found.
  - apply wpp_bind. unfold create_session, rand_uint64. apply wpp_bind, wpp_bind, wpp_io. intros b w1 _.
    apply wpp_ret, wpp_bind, wpp_io. intros t w2 _.
    apply wpp_bind, wpp_gets, wpp_bind, wpp_gets, wpp_bind, wpp_gets. simpl.
    destruct (CreateSession (le_get <$> b) t (so_MaxDialect (srv_options (hs_srv h))) zeroGUID
      (cs_remoteAddr (hs_conn h)) (srv_sessions (hs_srv h))) as [p m] eqn:Ec.
    apply wpp_bind, wpp_modify, wpp_ret, wpp_ret.
    replace m with (CreateSession (le_get <$> b) t (so_MaxDialect (srv_options (hs_srv h))) zeroGUID
      (cs_remoteAddr (hs_conn h)) (srv_sessions (hs_srv h))).2 by (by rewrite Ec).
    apply (HQ p true _ w2).
    + split_and!; [by apply CreateSession_wf|by apply CreateSession_trees|by apply auths_ok_CreateSession].
    + by apply evolves_CreateSession.
    + rewrite Ec. by eapply picked_created.
Qed.

Lemma wpp_get_authenticator `{!AbsfsLaws} P p (Q : Authenticator → HS → Prop) h m w :
  mgr_ok h m → is_Some (s_deref m p) →
  (∀ a m', mgr_ok h m' → evolves m m' → (∀ m0 found b, picked m0 m found p b → picked m0 m' found p b) →
     auth_config (srv_options (hs_srv h)) a → Q a (on_mgr h m' w)) →
  wpp P (get_authenticator p) Q (on_mgr h m w).
Proof.
  intros Hm [s Hs] HQ. unfold get_authenticator. apply wpp_bind. eapply wpp_the_session; [exact Hs|].
  destruct (s_Authenticator s) as [a|] eqn:Ea.
  - apply wpp_ret, HQ; [done|by apply evolves_same|done|]. by eapply Hm.
  - apply wpp_bind, wpp_gets, wpp_bind, wpp_gets, wpp_bind, wpp_modify, wpp_ret.
    pose proof (NewNTLM_config (srv_options (hs_srv h)) w) as Hc.
    match type of Hc with auth_config _ ?a =>
      apply (HQ a (s_update p (set_Authenticator a) m)) end; [by apply mgr_ok_set_Authenticator|apply evolves_set_Authenticator| |done].
    intros m0 found b. by apply picked_update.
Qed.

(** The blobs on which the NTLM code does not panic. *)
Definition blob_ok (blob : bytes) : Prop :=
  le_get (sub (ntlm_blob blob) 8 4) = ntlmAuthenticateMessage → 60 ≤ len (ntlm_blob blob) < 2 ^ 32.

Lemma wpp_Authenticate P a blob tail (Q : AuthResult * Authenticator → HS → Prop) h m w :
  auth_config (srv_options (hs_srv h)) a → (blob_ok blob ∨ P) →
  (∀ r a' w', auth_config (srv_options (hs_srv h)) a' →
     (ar_Success r = true → permitted (srv_options (hs_srv h)) (ar_Username r) (ar_IsGuest r)) →
     Q (r, a') (on_mgr h m w')) →
  wpp P (Authenticate a blob tail) Q (on_mgr h m w).
Proof.
  intros (n & -> & Hg & Hu) Hb HQ. unfold Authenticate. apply wpp_bind.
  assert (∀ t c w', wpp P
    ('(r, a) ← lift_outcome (NTLM_Authenticate t c blob tail n); mret (r, NTLM a)) Q (on_mgr h m w')) as Hrun.
  { intros t c w'. apply wpp_bind. unfold lift_outcome, wpp at 1.
    destruct (NTLM_Authenticate t c blob tail n) as [[r n']|] eqn:E; cycle 1.
    { destruct Hb as [Hb|]; [|done]. destruct (NTLM_Authenticate_total t c blob tail n Hb) as (? & ? & ?).
      congruence. }
    destruct (NTLM_Authenticate_permits _ _ _ _ _ _ _ E) as (Hp & Hg' & Hu'). apply wpp_ret, HQ.
    - exists n'. by rewrite Hg', Hu'.
    - intros Hs. specialize (Hp Hs). unfold permitted. destruct (ar_IsGuest r); [congruence|].
      destruct Hp as [(name & Hname & ->)%Hu _]. eauto. }
  destruct (is_type1 blob).
  - apply wpp_bind, wpp_io. intros c w1 _. apply wpp_bind. destruct (sends_target_info _ _).
    + apply wpp_io. intros t w2 _. apply wpp_ret, (Hrun t (default (zeros 8) c) w2).
    + apply wpp_ret, wpp_ret, (Hrun 0 (default (zeros 8) c) w1).
  - apply wpp_ret, (Hrun 0 [] w).
Qed.

(** The outcome of SESSION_SETUP: no session became valid, or exactly one
    did, which is the connection's and is permitted. *)
Definition setup_done (h : HS) (r : reply) (h' : HS) : Prop :=
  ∃ m w, mgr_ok h m ∧ evolves (srv_sessions (hs_srv h)) m ∧
  ((r.2 ≠ STATUS_SUCCESS ∧ ∃ sid, h' = set_resp (set_SessionID sid (hs_resp h)) (on_mgr h m w))
   ∨ ∃ p s t u d g key,
       r.2 = STATUS_SUCCESS ∧ s_deref m p = Some s ∧ permitted (srv_options (hs_srv h)) u g
       ∧ h' = set_resp (set_SessionID (s_ID s) (hs_resp h))
           (set_conn (mkConn (Some p) (cs_remoteAddr (hs_conn h)) (cs_dialect (hs_conn h))
              (cs_signingRequired (hs_conn h)) (cs_preauthHash (hs_conn h)))
           (on_mgr h (s_update p (SetValid t u d g key) m) w))).

(** What it does to the registry and to the other sessions, [found] being the
    session the request names. *)
Definition setup_frame (h : HS) (found : option ptr) (r : reply) (h' : HS) : Prop :=
  let m := srv_sessions (hs_srv h) in
  let m' := srv_sessions (hs_srv h') in
  ∃ p new, touches p new m m'
    ∧ (∀ q, found = Some q → p = q ∧ new = None) ∧ (found = None → s_deref m p = None)
    ∧ (r.2 = STATUS_LOGON_FAILURE → ∀ id, new = Some id → sm_sessions m' !! id = None)
    ∧ (r.2 = STATUS_SUCCESS → cs_session (hs_conn h') = Some p
         ∧ ∃ s, s_deref m' p = Some s ∧ sm_sessions m' !! s_ID s = Some p).

(** The session that the request names, if it is a live one. *)
Definition session_named (msg : SMB2Message) (m : SessionManager) : option ptr :=
  match parse_setup (NewByteReader (m_Payload msg)) with
  | Ok (Some req, _) => find_session (ss_previousSessionID req) (h_SessionID (m_Header msg)) m
  | _ => None
  end.

Lemma setup_frame_refused h found st :
  sm_wf (srv_sessions (hs_srv h)) → st ≠ STATUS_SUCCESS → setup_frame h found (buildErrorResponse, st) h.
Proof.
  intros Hwf Hst. exists (default (sm_nextPtr (srv_sessions (hs_srv h))) found), None. split; [|split_and!].
  - split_and!; [done|done|by intros []].
  - by intros q ->.
  - intros ->. by apply (smwf_heap _ Hwf).
  - done.
  - done.
Qed.

Lemma picked_named m0 m found p b :
  picked m0 m found p b → sm_wf m0 → (∀ q, found = Some q → ∃ id, sm_sessions m0 !! id = Some q) →
  ∃ new, touches p new m0 m ∧ (∀ q, found = Some q → p = q ∧ new = None) ∧ (found = None → s_deref m0 p = None)
    ∧ (∃ s, s_deref m p = Some s ∧ sm_sessions m !! s_ID s = Some p
         ∧ new = (if b then Some (s_ID s) else None)).
Proof.
  intros (s & Hs & Hid & Ht & ->) Hwf Hreg. exists (if b then Some (s_ID s) else None).
  split; [done|]. split; [by destruct b; [|intros q [= ->]]|]. split; [|by exists s].
  destruct b; [|done]. intros _. apply Ht. by eexists.
Qed.

Lemma set_resp_id h m w :
  set_resp (set_SessionID (h_SessionID (hs_resp h)) (hs_resp h)) (on_mgr h m w) = on_mgr h m w.
Proof. by destruct h as [? [] ? ?]. Qed.

Lemma setup_refused h m w st :
  mgr_ok h m → evolves (srv_sessions (hs_srv h)) m → st ≠ STATUS_SUCCESS →
  setup_done h (buildErrorResponse, st) (on_mgr h m w).
Proof.
  intros Hm He Hst. exists m, w. split; [done|]. split; [done|]. left. split; [done|].
  exists (h_SessionID (hs_resp h)). by rewrite set_resp_id.
Qed.

Lemma touches_destroyed p m0 m s :
  touches p (Some (s_ID s)) m0 m → s_deref m p = Some s → sm_sessions m !! s_ID s = Some p →
  touches p (Some (s_ID s)) m0 (DestroySession (s_ID s) m).2
  ∧ sm_sessions (DestroySession (s_ID s) m).2 !! s_ID s = None.
Proof.
  intros (Hreg & Hheap & Hnew) Hs Hid. unfold DestroySession. rewrite Hid. simpl. rewrite Hs. simpl.
  split; [|by rewrite lookup_delete_eq]. split_and!; [|done|done]. intros id Hne. simpl.
  rewrite lookup_delete_ne by congruence. by apply Hreg.
Qed.

Lemma wpp_finish_setup P p b r h m w found :
  mgr_ok h m → evolves (srv_sessions (hs_srv h)) m → sm_wf (srv_sessions (hs_srv h)) →
  picked (srv_sessions (hs_srv h)) m found p b →
  (∀ q, found = Some q → ∃ id, sm_sessions (srv_sessions (hs_srv h)) !! id = Some q) →
  (ar_Success r = true → permitted (srv_options (hs_srv h)) (ar_Username r) (ar_IsGuest r)) →
  wpp P (finish_setup p b r) (λ r h', setup_done h r h' ∧ setup_frame h found r h') (on_mgr h m w).
Proof.
  intros Hm He Hwf Hpick Hreg Hp.
  destruct (picked_named _ _ _ _ _ Hpick Hwf Hreg) as (new & Ht & Hfound & Hnone & s & Hs & Hid & Hnew).
  unfold finish_setup. apply wpp_bind. eapply wpp_the_session; [exact Hs|].
  destruct (ar_Success r) eqn:Er; simpl.
  - apply wpp_bind, wpp_gets, wpp_bind, wpp_io. intros t w' _.
    apply wpp_bind, wpp_modify, wpp_bind, wpp_modify, wpp_bind, wpp_modify, wpp_ret. split.
    + exists m, w'. split; [done|]. split; [done|]. right. by repeat eexists; eauto.
    + destruct Ht as (Hr & Hh & Hn). exists p, new. unfold s_deref in *; simpl in *. split_and!; try done.
      * split_and!; [done| |done]. intros q Hq. unfold s_deref; simpl. rewrite lookup_alter_ne by done. by apply Hh.
      * intros _. split; [done|]. eexists. rewrite lookup_alter_eq, Hs. by split.
  - destruct (ar_ResponseBlob r) as [blob|].
    + apply wpp_bind, wpp_modify, wpp_ret. split.
      * exists m, w. split; [done|]. split; [done|]. left. split; [done|]. by eexists.
      * by exists p, new.
    + apply wpp_bind. destruct b; [apply wpp_modify|apply wpp_ret]; apply wpp_ret; split.
      * apply (setup_refused h (DestroySession (s_ID s) m).2 w); [by apply mgr_ok_DestroySession| |done].
        eapply evolves_trans; [done|apply evolves_DestroySession].
      * subst new. destruct (touches_destroyed _ _ _ _ Ht Hs Hid) as [Ht' Hgone].
        exists p, (Some (s_ID s)). split_and!; try done. by intros _ id [= <-].
      * by apply setup_refused.
      * subst new. by exists p, None.
Qed.

(** The security blob of a request is one the NTLM code accepts. *)
Definition setup_blob_ok (msg : SMB2Message) : Prop :=
  ∀ req rd blob, parse_setup (NewByteReader (m_Payload msg)) = Ok (Some req, rd) →
    slice (m_Payload msg) (ss_secBufOffset req - SMB2HeaderSize)
      (ss_secBufOffset req - SMB2HeaderSize + ss_secBufLen req) = Some blob → blob_ok blob.

Lemma blob_ok_nil : blob_ok [].
Proof. intros E. by vm_compute in E. Qed.

Lemma wpp_handleSessionSetup `{!AbsfsLaws} P msg h :
  mgr_ok h (srv_sessions (hs_srv h)) → (setup_blob_ok msg ∨ P) →
  wpp P (handleSessionSetupImpl msg)
    (λ r h', setup_done h r h' ∧ setup_frame h (session_named msg (srv_sessions (hs_srv h))) r h') h.
Proof.
  intros Hm Hb. unfold handleSessionSetupImpl.
  assert (∀ st, st ≠ STATUS_SUCCESS → setup_done h (buildErrorResponse, st) h
    ∧ setup_frame h (session_named msg (srv_sessions (hs_srv h))) (buildErrorResponse, st) h) as Hnow.
  { intros st Hst. split; [|by apply setup_frame_refused; [apply Hm|]]. pose proof (setup_refused h (srv_sessions (hs_srv h)) (hs_w h) st Hm) as Hr.
    rewrite on_mgr_id in Hr. apply Hr; [by apply evolves_same|done]. }
  apply wpp_with_request; [eapply parses_total; auto with smb|by apply Hnow|].
  intros req rd Hlen Hparse.
  assert (∀ blob tail, blob_ok blob ∨ P → wpp P
    (m ← gets (λ h, srv_sessions (hs_srv h));
     '(p, isNewSession) ← match find_session (ss_previousSessionID req) (h_SessionID (m_Header msg)) m with
       | Some p => mret (p, false) | None => p ← create_session; mret (p, true) end;
     a ← get_authenticator p;
     '(authResult, a) ← Authenticate a blob tail;
     on_sessions (s_update p (set_Authenticator a));;
     finish_setup p isNewSession authResult)
    (λ r h', setup_done h r h' ∧ setup_frame h (session_named msg (srv_sessions (hs_srv h))) r h') h) as Hrun.
  { intros blob tail Hblob. apply wpp_bind, wpp_gets, wpp_bind, wpp_pick_session; [done|].
    intros p b m1 w1 Hm1 He1 Hp1. apply wpp_bind, wpp_get_authenticator; [done|by destruct Hp1 as (s & ? & _); eauto|].
    intros a m2 Hm2 He2 Hp2 Ha. apply wpp_bind, wpp_Authenticate; [done|done|].
    intros r a' w2 Ha' Hr. apply wpp_bind, wpp_modify.
    apply (wpp_finish_setup P p b r h (s_update p (set_Authenticator a') m2) w2); [| |apply Hm| | |done].
    - by apply mgr_ok_set_Authenticator.
    - do 2 (eapply evolves_trans; [eassumption|]). apply evolves_set_Authenticator.
    - unfold session_named. rewrite Hparse. apply picked_update; [done|]. by apply Hp2.
    - unfold session_named. rewrite Hparse. intros q. apply find_session_registered. }
  unfold with_security_blob. destruct (Z.ltb_spec 0 (ss_secBufLen req)).
  - apply wpp_with_buffer; [lia|by apply Hnow|]. intros blob _ Hsl. apply Hrun.
    destruct Hb as [Hb|]; [left|by right]. by eapply Hb.
  - apply Hrun. left. apply blob_ok_nil.
Qed.

Lemma evolves_valid m m' q s' :
  evolves m m' → s_deref m' q = Some s' → s_State s' = SessionStateValid →
  ∃ s, s_deref m q = Some s ∧ same_session s s'.
Proof. intros [_ He] Hs Hv. destruct (He q s' Hs) as [?|(_ & Hst & _)]; [done|congruence]. Qed.

Lemma evolves_kept m m' q s :
  evolves m m' → s_deref m q = Some s → ∃ s', s_deref m' q = Some s' ∧ same_session s s'.
Proof.
  intros [Hd He] Hs. destruct (Hd q) as [s' Hs']; [eauto|]. exists s'. split; [done|].
  destruct (He q s' Hs') as [(s0 & ? & ?)|[? _]]; congruence.
Qed.

Lemma evolves_new m m' q s' :
  evolves m m' → s_deref m q = None → s_deref m' q = Some s' → s_State s' = SessionStateInProgress.
Proof. intros [_ He] Hn Hs'. destruct (He q s' Hs') as [(s0 & ? & _)|(_ & ? & _)]; congruence. Qed.

(** C23: SESSION_SETUP makes a session valid only through a successful
    authentication that the configuration permits: a configured user, or a
    guest where guests are allowed.  It touches one session [p]: the one the
    request names, if it is live, and otherwise a new one.  On success [p] is
    valid, registered under its id, the connection's session, and its id is in
    the response.  In every other case the connection keeps its session, [p]
    keeps everything but its authenticator (a new one is still in progress),
    and a new one is not left registered by a failed logon.  All other
    sessions, and all entries of the registry but that of a new session, are
    unchanged, so that no failure ends an existing session. *)
Theorem session_setup_authenticates `{!AbsfsLaws} msg h payload status h' :
  let opts := srv_options (hs_srv h) in
  let m := srv_sessions (hs_srv h) in
  let m' := srv_sessions (hs_srv h') in
  srv_ok (hs_srv h) → auths_ok opts m →
  handleSessionSetupImpl msg h = Ok ((payload, status), h') →
  srv_ok (hs_srv h') ∧ auths_ok opts m' ∧
  ∃ p new,
    (∀ q, session_named msg m = Some q → p = q ∧ new = None)
    ∧ (session_named msg m = None → s_deref m p = None)
    ∧ (∀ q, q ≠ p → s_deref m' q = s_deref m q)
    ∧ (∀ id, new ≠ Some id → sm_sessions m' !! id = sm_sessions m !! id)
    ∧ (status ≠ STATUS_SUCCESS → hs_conn h' = hs_conn h
        ∧ (∀ s, s_deref m p = Some s → ∃ s', s_deref m' p = Some s' ∧ same_session s s')
        ∧ (∀ s', s_deref m p = None → s_deref m' p = Some s' → s_State s' = SessionStateInProgress)
        ∧ (status = STATUS_LOGON_FAILURE → ∀ id, new = Some id → sm_sessions m' !! id = None))
    ∧ (status = STATUS_SUCCESS → ∃ s,
         s_deref m' p = Some s ∧ s_State s = SessionStateValid ∧ permitted opts (s_Username s) (s_IsGuest s)
         ∧ sm_sessions m' !! s_ID s = Some p ∧ cs_session (hs_conn h') = Some p
         ∧ h_SessionID (hs_resp h') = s_ID s).
Proof.
  intros opts m m' Hok Ha E. pose proof Hok as [Hwf _ _ Ht _].
  assert (mgr_ok h m) as Hm by done.
  destruct (wpp_ok True _ _ _ _ _ (wpp_handleSessionSetup True msg h Hm (or_intror I)) E)
    as [Hdone (p & new & (Hreg & Hheap & _) & Hfound & Hnone & Hfail & Hsucc)]. fold m in Hreg, Hheap, Hnone.
  destruct Hdone as (m1 & w & Hm1 & He & [(Hst & hd & ->)|(p' & s & t & u & d & g & key & Hst & Hs & Hp & ->)]);
    simpl in Hst.
  - split; [by apply mgr_ok_srv|]. split; [apply Hm1|]. exists p, new. split_and!; try done. intros _.
    split; [done|]. split; [intros s Hs; by apply (evolves_kept m m1)|]. split; [|done].
    intros s' Hn Hs'. by eapply (evolves_new m m1).
  - split; [by apply (mgr_ok_srv h _ w); [|apply mgr_ok_SetValid]|].
    split; [by apply mgr_ok_SetValid|]. exists p, new. split_and!; try done. intros _.
    destruct (Hsucc Hst) as [Hcs (s1 & Hs1 & Hid)]. injection Hcs as <-. exists s1. unfold m', s_deref in Hs1 |- *.
    unfold s_deref in Hs. simpl in Hs1 |- *. rewrite lookup_alter_eq, Hs in Hs1. injection Hs1 as <-.
    rewrite lookup_alter_eq, Hs. by split_and!.
Qed.

(** *** Releasing handles *)

(** The open files of a share. *)
Definition opens (h : HS) (sp : ptr) : option (gmap FileID (OpenFile File)) :=
  (λ sh, abs (sh_fileHandles sh)) <$> srv_shareHeap (hs_srv h) !! sp.

Definition of_tree (treeID sessionID : Z) (o : OpenFile File) : bool :=
  (of_TreeID o =? treeID) && (of_SessionID o =? sessionID).

Lemma release_all_empty ids (m : FileHandleMap File) w :
  hm_handles m = ∅ → hm_handles (release_all f_Close ids m w).1.2 = ∅.
Proof.
  revert m w; induction ids as [|id ids IH]; intros m w Hm; cbn [release_all]; [done|].
  destruct (Release_unlink f_Close id m w) as (e & w' & -> & _).
  assert ((unlink id m).2 = m) as Hu by (unfold unlink; by rewrite Hm, lookup_empty).
  specialize (IH (unlink id m).2 w'). rewrite Hu in *. specialize (IH Hm).
  destruct (release_all f_Close ids m w') as [[errs m2] w2]. done.
Qed.

(** Releasing the files of a share that satisfy [f]. *)
Definition release_where (sp : ptr) (f : OpenFile File → bool) : M HS unit :=
  m ← handles_of sp;
  m ← (λ h, let '(_, m, w) := release_all f_Close (ids_where (w_order (hs_w h)) f m) m (hs_w h) in
            Ok (m, set_w w h));
  set_handles sp m.

Lemma release_where_run `{!AbsfsLaws} P sp f (Q : unit → HS → Prop) h :
  srv_ok (hs_srv h) → is_Some (srv_shareHeap (hs_srv h) !! sp) →
  (∀ h', srv_ok (hs_srv h') → frame h h' →
     (∀ sp', opens h' sp' = if decide (sp' = sp)
        then filter (λ x, f x.2 = false) <$> opens h sp' else opens h sp') →
     Q tt h') →
  wpp P (release_where sp f) Q h.
Proof.
  intros Hok [sh Hsh] HQ. unfold release_where. apply wpp_bind. eapply wpp_handles_of; [done|].
  apply wpp_bind. unfold wpp at 1.
  assert (is_order (w_order (A := FileID) (hs_w h))) as Hord by (intros l; apply w_order_perm).
  pose proof (release_where_abs f_Close _ f (sh_fileHandles sh) (hs_w h) Hord) as Habs.
  destruct (so_shares _ Hok _ _ Hsh) as [Hm Hfs].
  pose proof (hm_ok_release_all (ids_where (w_order (hs_w h)) f (sh_fileHandles sh)) _ (hs_w h) Hm) as Hm'.
  pose proof (release_all_empty (ids_where (w_order (hs_w h)) f (sh_fileHandles sh))
    (sh_fileHandles sh) (hs_w h)) as Hemp.
  destruct (release_all f_Close _ (sh_fileHandles sh) (hs_w h)) as [[errs m'] w']. simpl in *.
  apply wpp_modify, HQ.
  - apply (srv_ok_put_handles sp m' (set_w w' h)); [done|]. simpl. intros sh' Hsh'. simplify_eq. by split; auto.
  - etrans; [|by eapply (frames_set_handles sp m')]. by split.
  - intros sp'. unfold opens; simpl. case_decide as Hd; [subst|by rewrite lookup_alter_ne].
    rewrite lookup_alter_eq, Hsh. simpl. by rewrite Habs.
Qed.

Lemma release_by_tree_run `{!AbsfsLaws} P sp tid sid (Q : unit → HS → Prop) h :
  srv_ok (hs_srv h) → is_Some (srv_shareHeap (hs_srv h) !! sp) →
  (∀ h', srv_ok (hs_srv h') → frame h h' →
     (∀ sp', opens h' sp' = if decide (sp' = sp)
        then filter (λ x, of_tree tid sid x.2 = false) <$> opens h sp' else opens h sp') →
     Q tt h') →
  wpp P (release_by_tree sp tid sid) Q h.
Proof. exact (release_where_run P sp (of_tree tid sid) Q h). Qed.

(** Whether the release of [trees] closes the file [o] of share [sp]. *)
Definition released (trees : list TreeConnection) (sid : Z) (sp : ptr) (o : OpenFile File) : bool :=
  existsb (λ t, bool_decide (sp = t_Share t) && of_tree (t_ID t) sid o) trees.

Lemma filter_false_false {K A} `{Countable K} (f g : A → bool) (m : gmap K A) :
  filter (λ x, f x.2 = false) (filter (λ x, g x.2 = false) m)
  = filter (λ x, (g x.2 || f x.2) = false) m.
Proof.
  rewrite map_filter_filter. apply map_filter_ext. intros k x _. simpl. destruct (f x), (g x); naive_solver.
Qed.

Lemma release_trees_run `{!AbsfsLaws} P trees sid (Q : unit → HS → Prop) h :
  srv_ok (hs_srv h) → Forall (λ t, is_Some (srv_shareHeap (hs_srv h) !! t_Share t)) trees →
  (∀ h', srv_ok (hs_srv h') → frame h h' →
     (∀ sp, opens h' sp = filter (λ x, released trees sid sp x.2 = false) <$> opens h sp) →
     Q tt h') →
  wpp P (release_trees trees sid) Q h.
Proof.
  revert Q h; induction trees as [|t trees IH]; intros Q h Hok Hsh HQ; simpl.
  - apply wpp_ret, HQ; [done|done|]. intros sp. destruct (opens h sp) as [m|]; [|done]. simpl. f_equal.
    symmetry. by apply map_filter_id.
  - apply Forall_cons in Hsh as [Ht Hsh]. apply wpp_bind, release_by_tree_run; [done|done|].
    intros h1 Hok1 Hfr1 Ho1. apply IH; [done| |].
    { eapply Forall_impl; [exact Hsh|]. intros t' [x Hx]. pose proof (fr_shares _ _ Hfr1 (t_Share t')) as Hs.
      rewrite Hx in Hs. destruct (srv_shareHeap (hs_srv h1) !! t_Share t'); [eauto|done]. }
    intros h2 Hok2 Hfr2 Ho2. apply HQ; [done|by etrans|]. intros sp. rewrite Ho2, Ho1.
    unfold released; simpl. case_decide as Hd.
    + rewrite bool_decide_true by done. destruct (opens h sp) as [m|]; [|done]. simpl. f_equal.
      exact (filter_false_false (released trees sid sp) (of_tree (t_ID t) sid) m).
    + by rewrite bool_decide_false.
Qed.

Lemma released_perm trees1 trees2 sid sp o :
  trees1 ≡ₚ trees2 → released trees1 sid sp o = released trees2 sid sp o.
Proof.
  intros Hp. unfold released. apply eq_true_iff_eq. rewrite !existsb_exists.
  setoid_rewrite <-list_elem_of_In. by setoid_rewrite Hp.
Qed.

(** The trees of a session. *)
Definition trees_of (s : Session) : list TreeConnection := (map_to_list (s_trees s)).*2.

Lemma elem_of_trees_of t s : t ∈ trees_of s → ∃ id, s_trees s !! id = Some t.
Proof.
  unfold trees_of. intros ([id t'] & -> & Hx)%list_elem_of_fmap. exists id. by apply elem_of_map_to_list.
Qed.

Lemma DestroySession_gone id m :
  sm_wf m → ValidateSession id (DestroySession id m).2 = (None, STATUS_USER_SESSION_DELETED).
Proof.
  intros Hwf. unfold DestroySession, ValidateSession.
  destruct (sm_sessions m !! id) as [p|] eqn:E; simpl; [|by rewrite E].
  destruct (smwf_sessions m Hwf _ _ E) as (s & Hs & _). rewrite Hs. simpl. by rewrite lookup_delete_eq.
Qed.

(** A successful LOGOFF. *)
Definition logged_off (h : HS) (sid : Z) (h' : HS) : Prop :=
  ∃ p s, ValidateSession sid (srv_sessions (hs_srv h)) = (Some p, STATUS_SUCCESS)
    ∧ s_deref (srv_sessions (hs_srv h)) p = Some s
    ∧ srv_sessions (hs_srv h') = (DestroySession sid (srv_sessions (hs_srv h))).2
    ∧ cs_session (hs_conn h') = None
    ∧ (∀ sp, opens h' sp = filter (λ x, released (trees_of s) sid sp x.2 = false) <$> opens h sp)
    ∧ srv_ok (hs_srv h') ∧ srv_options (hs_srv h') = srv_options (hs_srv h)
    ∧ srv_dirStates (hs_srv h') = srv_dirStates (hs_srv h) ∧ hs_resp h' = hs_resp h
    ∧ cs_preauthHash (hs_conn h') = cs_preauthHash (hs_conn h).

Lemma wpp_handleLogoff `{!AbsfsLaws} P msg h :
  srv_ok (hs_srv h) →
  wpp P (handleLogoffImpl msg)
    (λ r h', (r.2 ≠ STATUS_SUCCESS ∧ h' = h)
             ∨ (r.2 = STATUS_SUCCESS ∧ logged_off h (h_SessionID (m_Header msg)) h')) h.
Proof.
  intros Hok. unfold handleLogoffImpl. apply wpp_with_session; [done|by left|]. intros p s Hv Hs Hid.
  apply wpp_with_request; [eapply parses_total; auto with smb|by left|]. intros _ rd _ _.
  apply wpp_bind, wpp_gets, wpp_bind. unfold GetAllTreeConnections. fold (trees_of s).
  apply release_trees_run; [done| |].
  { apply Forall_forall. intros t Ht. rewrite w_order_perm in Ht.
    apply elem_of_trees_of in Ht as [id Ht]. by eapply (so_trees _ Hok). }
  intros h1 Hok1 Hfr Hopen. rewrite Hid in *.
  apply wpp_bind, wpp_modify, wpp_bind, wpp_modify, wpp_ret. right. split; [done|].
  exists p, s. split_and!; try done.
  - simpl. by rewrite (fr_sessions _ _ Hfr).
  - intros sp. unfold opens in *. simpl. rewrite Hopen. destruct (srv_shareHeap (hs_srv h) !! sp); [|done].
    simpl. f_equal. apply map_filter_ext. intros k o _. simpl.
    by rewrite (released_perm (w_order (hs_w h) (trees_of s)) (trees_of s)) by apply w_order_perm.
  - apply set_sessions_ok; [done| |].
    + pose proof (so_sessions _ Hok1) as Hwf. unfold DestroySession.
      destruct (_ ≫= _) as [[q s']|]; [by apply drop_session_wf|done].
    + pose proof (so_trees _ Hok1) as Htr. unfold DestroySession. by destruct (_ ≫= _) as [[q s']|].
  - simpl. apply (fr_options _ _ Hfr).
  - simpl. apply (fr_dirs _ _ Hfr).
  - simpl. apply (fr_resp _ _ Hfr).
  - simpl. by rewrite (fr_conn _ _ Hfr).
Qed.

(** C25: after LOGOFF the session is gone and so are its files: its id no
    longer validates, the connection has no session, and in every share exactly
    the handles opened through the session's tree connections are released;
    the files of all other sessions stay open. *)
Theorem logoff_releases_handles `{!AbsfsLaws} msg h payload h' :
  let sid := h_SessionID (m_Header msg) in
  srv_ok (hs_srv h) → handleLogoffImpl msg h = Ok ((payload, STATUS_SUCCESS), h') →
  srv_ok (hs_srv h')
  ∧ ValidateSession sid (srv_sessions (hs_srv h')) = (None, STATUS_USER_SESSION_DELETED)
  ∧ cs_session (hs_conn h') = None
  ∧ ∃ p s, s_deref (srv_sessions (hs_srv h)) p = Some s ∧ s_ID s = sid ∧
      ∀ sp id o, (∃ os, opens h' sp = Some os ∧ os !! id = Some o) ↔
        (∃ os, opens h sp = Some os ∧ os !! id = Some o)
        ∧ ¬ ∃ tid t, s_trees s !! tid = Some t ∧ t_Share t = sp ∧ of_TreeID o = tid ∧ of_SessionID o = sid.
Proof.
  intros sid Hok E.
  destruct (wpp_ok True _ _ _ _ _ (wpp_handleLogoff True msg h Hok) E)
    as [[Hst _]|[_ (p & s & Hv & Hs & Hm & Hc & Ho & Hok' & _)]]; [done|].
  split; [done|]. split; [rewrite Hm; apply DestroySession_gone, Hok|]. split; [done|].
  exists p, s. split; [done|].
  destruct (ValidateSession_cases sid _ (so_sessions _ Hok)) as [?|(p' & s' & ? & Hp & Hs' & Hid & _)];
    unfold sid in *; [congruence|].
  assert (p' = p) as -> by congruence. assert (s' = s) as -> by congruence. split; [done|].
  destruct (smwf_trees _ (so_sessions _ Hok) _ _ Hs) as [Htr _].
  intros sp id o. rewrite Ho. destruct (opens h sp) as [os|]; simpl; [|naive_solver].
  transitivity (os !! id = Some o ∧ released (trees_of s) (s_ID s) sp o = false).
  { split.
    - intros (os' & [= <-] & Ho'). rewrite Hid. by apply map_lookup_filter_Some in Ho'.
    - intros Hx. eexists. split; [done|]. apply map_lookup_filter_Some. by rewrite Hid in Hx. }
  rewrite Hid. split.
  - intros [Ho' Hrel]. split; [eauto|]. intros (tid & t & Ht & Hts & Hot & Hos).
    apply not_true_iff_false in Hrel. apply Hrel, existsb_exists. exists t. split.
    { apply list_elem_of_In. unfold trees_of. apply list_elem_of_fmap. exists (tid, t).
      split; [done|]. by apply elem_of_map_to_list. }
    destruct (Htr _ _ Ht) as (Htid & _). unfold of_tree. rewrite bool_decide_true by done. simpl in *.
    apply andb_true_iff. split; apply Z.eqb_eq; congruence.
  - intros ((os' & [= <-] & Ho') & Hn). split; [done|]. apply not_true_iff_false.
    intros (t & Ht%list_elem_of_In & Hb)%existsb_exists. apply Hn.
    apply elem_of_trees_of in Ht as [tid Ht]. destruct (Htr _ _ Ht) as (Htid & _). simpl in Hb.
    apply andb_true_iff in Hb as [Hb1%bool_decide_eq_true [Hb2 Hb3]%andb_true_iff].
    apply Z.eqb_eq in Hb2, Hb3. exists tid, t. split_and!; [done..|congruence|congruence].
Qed.

Lemma wpp_handleTreeDisconnect `{!AbsfsLaws} P msg h :
  srv_ok (hs_srv h) →
  wpp P (handleTreeDisconnectImpl msg) (λ r h',
    (r.2 ≠ STATUS_SUCCESS ∧ h' = h) ∨
    ∃ p s t, tree_of h (m_Header msg) p s t ∧ r.2 = STATUS_SUCCESS ∧ srv_ok (hs_srv h')
      ∧ srv_options (hs_srv h') = srv_options (hs_srv h) ∧ hs_conn h' = hs_conn h
      ∧ srv_dirStates (hs_srv h') = srv_dirStates (hs_srv h) ∧ hs_resp h' = hs_resp h
      ∧ srv_sessions (hs_srv h') = s_update p (λ s, (RemoveTreeConnection (t_ID t) s).2) (srv_sessions (hs_srv h)))
    h.
Proof.
  intros Hok. unfold handleTreeDisconnectImpl. apply wpp_with_tree; [done|by left..|].
  intros p s t Ht Hid Hsh. apply wpp_bind, release_by_tree_run; [done|done|]. intros h1 Hok1 Hfr _.
  apply wpp_bind, wpp_modify, wpp_ret. right. exists p, s, t. split; [done|]. split; [done|].
  split; [|by split_and!; simpl; rewrite ?(fr_options _ _ Hfr), ?(fr_conn _ _ Hfr),
    ?(fr_dirs _ _ Hfr), ?(fr_resp _ _ Hfr), ?(fr_sessions _ _ Hfr)].
  apply set_sessions_ok; [done| |].
  - apply s_update_wf; [apply keeps_RemoveTree|apply Hok1].
  - apply s_update_trees; [|apply Hok1]. simpl. intros ses id' t' _ [_ Hi]%lookup_delete_Some. by left.
Qed.

(** A successful TREE_CONNECT. *)
Definition connected (h : HS) (sid : Z) (h' : HS) : Prop :=
  ∃ p s sp sh name t w,
    ValidateSession sid (srv_sessions (hs_srv h)) = (Some p, STATUS_SUCCESS)
    ∧ s_deref (srv_sessions (hs_srv h)) p = Some s
    ∧ GetShare name (hs_srv h) = Some sp ∧ srv_shareHeap (hs_srv h) !! sp = Some sh
    ∧ CheckUserAccess (s_Username s) (s_IsGuest s) sh = true
    ∧ h' = set_resp (set_TreeID (s_nextID s) (hs_resp h)) (on_mgr h
        (s_update p (λ s, (AddTreeConnection t p name sp (Share_IsReadOnly sh) s).2) (srv_sessions (hs_srv h))) w).

Lemma wpp_handleTreeConnect P msg h :
  srv_ok (hs_srv h) →
  wpp P (handleTreeConnectImpl msg) (λ r h',
    (r.2 ≠ STATUS_SUCCESS ∧ h' = h)
    ∨ (r.2 = STATUS_SUCCESS ∧ connected h (h_SessionID (m_Header msg)) h')) h.
Proof.
  intros Hok. unfold handleTreeConnectImpl. apply wpp_with_session; [done|by left|]. intros p s Hv Hs Hid.
  apply wpp_with_request; [eapply parses_total; auto with smb|by left|]. intros [off n] rd _ Hparse.
  apply wpp_with_buffer; [apply (parses_ok _ _ _ _ _ parse_tree_connect_good Hparse)|by left|].
  intros b _ _. case_bool_decide; [by left|]. apply wpp_bind, wpp_gets.
  destruct (GetShare _ (hs_srv h)) as [sp|] eqn:Esp; [|by left].
  destruct (so_names _ Hok _ _ Esp) as [sh Hsh]. apply wpp_bind. unfold the_share at 1, wpp at 1, lift_option.
  rewrite Hsh. destruct (CheckUserAccess (s_Username s) (s_IsGuest s) sh) eqn:Ec; [|by left]. simpl.
  apply wpp_bind, wpp_io. intros t w _. apply wpp_bind, wpp_modify, wpp_bind, wpp_modify, wpp_ret.
  right. split; [done|]. by repeat eexists.
Qed.

Lemma connected_ok h sid h' :
  srv_ok (hs_srv h) → connected h sid h' → srv_ok (hs_srv h').
Proof.
  intros Hok (p & s & sp & sh & name & t & w & Hv & Hs & Hsp & Hsh & Hc & ->).
  apply set_sessions_ok; [done| |].
  - apply AddTree_update_wf, Hok.
  - apply AddTree_trees; [eauto|apply Hok].
Qed.

(** C24: TREE_CONNECT admits a session to a share only as the share's options
    say (guests only where guests are allowed, others only if the user list is
    empty or names them); later requests with the id of the response reach the
    share, read-only exactly if the share is, and the session's trees with
    other ids are untouched.  The id is the session's next one, a 32-bit
    counter: it is one no other tree of the session has as long as the counter
    is above all of them, and it stays above them until it wraps. *)
Theorem tree_connect_authorised msg h payload h' :
  srv_ok (hs_srv h) → handleTreeConnectImpl msg h = Ok ((payload, STATUS_SUCCESS), h') →
  srv_ok (hs_srv h') ∧
  ∃ p s s' sp sh name tree,
    s_deref (srv_sessions (hs_srv h)) p = Some s ∧ s_ID s = h_SessionID (m_Header msg)
    ∧ GetShare name (hs_srv h) = Some sp ∧ srv_shareHeap (hs_srv h) !! sp = Some sh
    ∧ (s_IsGuest s = true → sho_AllowGuest (sh_options sh) = true)
    ∧ (s_IsGuest s = false → sho_AllowedUsers (sh_options sh) = []
         ∨ s_Username s ∈ sho_AllowedUsers (sh_options sh))
    ∧ tree_of h' (set_TreeID (h_TreeID (hs_resp h')) (m_Header msg)) p s' tree
    ∧ t_Share tree = sp ∧ t_IsReadOnly tree = sho_ReadOnly (sh_options sh)
    ∧ t_ID tree = s_nextID s ∧ s_trees s' = <[t_ID tree := tree]> (s_trees s)
    ∧ (ids_below s → s_trees s !! t_ID tree = None ∧ (s_nextID s + 1 < 2 ^ 32 → ids_below s')).
Proof.
  intros Hok E.
  destruct (wpp_ok True _ _ _ _ _ (wpp_handleTreeConnect True msg h Hok) E) as [[Hst _]|[_ Hc]]; [done|].
  split; [by eapply connected_ok|].
  destruct Hc as (p & s & sp & sh & name & t & w & Hv & Hs & Hsp & Hsh & Hc & ->).
  destruct (ValidateSession_cases (h_SessionID (m_Header msg)) _ (so_sessions _ Hok))
    as [?|(p' & s0 & ? & Hp & Hs0 & Hid & Hst)]; [congruence|].
  assert (p' = p) as -> by congruence. assert (s0 = s) as -> by congruence.
  set (add := AddTreeConnection t p name sp (Share_IsReadOnly sh)) in *.
  exists p, s, (add s).2, sp, sh, name, (add s).1. split_and!; try done.
  - revert Hc. unfold CheckUserAccess. intros Hc Hg. by rewrite Hg in Hc.
  - revert Hc. unfold CheckUserAccess. intros Hc Hg. rewrite Hg in Hc.
    destruct (Z.eqb_spec (len (sho_AllowedUsers (sh_options sh))) 0) as [Hn|Hn].
    + left. unfold len in Hn. by destruct (sho_AllowedUsers (sh_options sh)).
    + right. apply existsb_exists in Hc as (u & Hu%list_elem_of_In & ->%bool_decide_eq_true). done.
  - assert (s_deref (s_update p (λ s1, (add s1).2) (srv_sessions (hs_srv h))) p = Some (add s).2) as Hd.
    { unfold s_deref in *; simpl. by rewrite lookup_alter_eq, Hs. }
    unfold tree_of. simpl. split; [|split; [exact Hd|by rewrite lookup_insert_eq]].
    unfold ValidateSession. simpl. rewrite Hp. simpl. simpl in Hd. rewrite Hd. simpl.
    by rewrite bool_decide_true.
  - intros Hb. destruct (AddTree_fresh t p name sp (Share_IsReadOnly sh) s Hb) as [? Hb']. split; [done|].
    apply Hb'. by destruct (smwf_trees _ (so_sessions _ Hok) p s Hs) as [_ [? _]].
Qed.

Lemma wpp_handleNegotiate P msg h :
  len (m_RawBytes msg) ≠ 5 ∨ P →
  wpp P (handleNegotiateImpl msg) (λ r h', hs_srv h' = hs_srv h ∧ hs_resp h' = hs_resp h
    ∧ cs_preauthHash (hs_conn h') = cs_preauthHash (hs_conn h)
    ∧ (hs_conn h' = hs_conn h ∨ cs_session (hs_conn h') = None)) h.
Proof.
  intros H5. unfold handleNegotiateImpl. apply wpp_bind, wpp_gets.
  assert (∀ d (Q : bytes → HS → Prop) h1, (∀ b w, Q b (set_w w h1)) → wpp P (buildNegotiateResponse d) Q h1) as Hb.
  { intros d Q h1 HQ. apply wpp_bind, wpp_gets, wpp_bind, wpp_io. intros t w _. by apply wpp_ret. }
  assert (hs_srv h = hs_srv h ∧ hs_resp h = hs_resp h ∧ cs_preauthHash (hs_conn h) = cs_preauthHash (hs_conn h)
    ∧ (hs_conn h = hs_conn h ∨ cs_session (hs_conn h) = None))
    as Hsame by (split_and!; auto).
  case_match; [by apply wpp_bind, Hb; intros; apply wpp_ret|].
  apply wpp_with_request; [eapply parses_total; auto with smb|done|]. intros req rd _ Hparse.
  repeat (case_match; [done|]). apply wpp_bind, wpp_modify, wpp_bind.
  destruct (parses_ok _ _ _ _ _ parse_negotiate_good Hparse) as [Ho Hc].
  case_match; [|by apply wpp_ret, wpp_bind, Hb; intros; apply wpp_ret; split_and!; [..|right]]. unfold lift_outcome, wpp at 1.
  destruct (parseClientNegotiateContexts _ _ _) as [l|] eqn:Ep; cycle 1.
  { destruct H5 as [H5|]; [|done].
    destruct (parseClientNegotiateContexts_ok (m_RawBytes msg) (ng_contextOffset req) (ng_contextCount req) H5 Ho) as (l & ?).
    congruence. }
  by apply wpp_bind, Hb; intros; apply wpp_ret; split_and!; [..|right].
Qed.

(** PreviousSessionId is not checked: where guests are allowed, any
    connection that names a live session there, without any credentials,
    takes the session over: it becomes a valid guest session of that
    connection, without a signing key, and keeps the tree connections its
    user had been admitted to. *)
Theorem setup_takes_over_session `{!AbsfsLaws} msg h req rd p s :
  let m := srv_sessions (hs_srv h) in
  auths_ok (srv_options (hs_srv h)) m → so_AllowGuest (srv_options (hs_srv h)) = true →
  24 ≤ len (m_Payload msg) → parse_setup (NewByteReader (m_Payload msg)) = Ok (Some req, rd) →
  ss_secBufLen req = 0 → ss_previousSessionID req ≠ 0 →
  sm_sessions m !! ss_previousSessionID req = Some p → s_deref m p = Some s →
  ∃ payload h', handleSessionSetupImpl msg h = Ok ((payload, STATUS_SUCCESS), h')
    ∧ cs_session (hs_conn h') = Some p
    ∧ ∃ s', s_deref (srv_sessions (hs_srv h')) p = Some s' ∧ s_State s' = SessionStateValid
        ∧ s_IsGuest s' = true ∧ s_SigningKey s' = None ∧ s_ID s' = s_ID s ∧ s_trees s' = s_trees s.
Proof.
  intros m Ha Hg Hlen Hp Hn Hprev Hid Hs.
  unfold handleSessionSetupImpl. rewrite (with_request_eq _ _ _ _ _ _ _ Hlen Hp).
  unfold with_security_blob. rewrite Hn. simpl. m_simpl. fold m. unfold find_session, GetSession.
  rewrite (proj2 (Z.eqb_neq _ _) Hprev). simpl. rewrite Hid.
  (* the rest, once the authenticator is known *)
  assert (∀ n m1, na_allowGuest n = true → s_deref m1 p = s_deref (s_update p (set_Authenticator (NTLM n)) m) p →
    ∃ payload h', ('(authResult, a) ← Authenticate (NTLM n) [] [];
       on_sessions (s_update p (set_Authenticator a));;
       finish_setup p false authResult) (on_mgr h m1 (hs_w h)) = Ok ((payload, STATUS_SUCCESS), h')
    ∧ cs_session (hs_conn h') = Some p
    ∧ ∃ s', s_deref (srv_sessions (hs_srv h')) p = Some s' ∧ s_State s' = SessionStateValid
        ∧ s_IsGuest s' = true ∧ s_SigningKey s' = None ∧ s_ID s' = s_ID s ∧ s_trees s' = s_trees s) as Hrest.
  { intros n m1 Hgn Hm1. unfold s_deref in Hm1, Hs. simpl in Hm1. rewrite lookup_alter_eq, Hs in Hm1.
    unfold Authenticate. change (is_type1 []) with false. m_simpl. unfold lift_outcome, NTLM_Authenticate. simpl.
    rewrite Hgn. unfold finish_setup, the_session, on_sessions, time_Now, io. m_simpl. simpl.
    unfold s_deref; simpl. rewrite lookup_alter_eq, Hm1. simpl. destruct (w_now (hs_w h)) as [t w].
    eexists _, _. split; [done|]. split; [done|]. simpl.
    rewrite lookup_alter_eq, lookup_alter_eq, Hm1. simpl. eexists. split; [done|]. done. }
  unfold get_authenticator, the_session. m_simpl. fold m. rewrite Hs.
  destruct (s_Authenticator s) as [a|] eqn:Ea.
  - destruct (Ha _ _ _ Hs Ea) as (n & -> & Hgn & _).
    destruct (Hrest n m) as (payload & h' & Hr & Hq); [congruence| |].
    { rewrite Hs. unfold s_deref in *. simpl. rewrite lookup_alter_eq, Hs. simpl. f_equal.
      destruct s; simpl in *. by subst. }
    exists payload, h'. split; [|exact Hq]. rewrite on_mgr_id in Hr. exact Hr.
  - unfold on_sessions at 1. m_simpl. simpl.
    set (n := NewNTLMAuthenticator _ _ _).
    apply (Hrest n (s_update p (set_Authenticator (NTLM n)) m)); [done|done].
Qed.
End connect_lemmas.

(* ------------------------------------------------------------------ *)
(** ** Witnesses *)

Definition negotiate_msg : SMB2Message :=
  sample_msg SMB2_NEGOTIATE 0 (NewByteWriter
    |> WriteUint16 36 |> WriteUint16 2 |> WriteUint16 2 |> WriteUint16 0 |> WriteUint32 0
    |> WriteGUID (zeros 16) |> WriteUint32 0 |> WriteUint16 0 |> WriteUint16 0
    |> WriteUint16 SMB2_1 |> WriteUint16 SMB3_0_2 |> Bytes).

(** SESSION_SETUP without a security blob. *)
Definition setup_msg (previous : Z) : SMB2Message :=
  mkMessage (mkHeader SMB2ProtocolID 64 0 0 SMB2_SESSION_SETUP 1 0 0 7 0 0 0 (zeros 16))
    (NewByteWriter |> WriteUint16 25 |> WriteZeros 14 |> WriteUint64 previous |> Bytes) [] None 0.

Definition tree_connect_msg (path : string) : SMB2Message :=
  let b := EncodeStringToUTF16LE (str path) in
  sample_msg SMB2_TREE_CONNECT 0
    (NewByteWriter |> WriteUint16 9 |> WriteUint16 0 |> WriteUint16 72 |> WriteUint16 (len b)
     |> WriteBytes b |> Bytes).

Definition logoff_msg : SMB2Message := sample_msg SMB2_LOGOFF 0 empty_response.

Lemma negotiate_selects_best_witness :
  ∃ payload w,
    handleNegotiateImpl negotiate_msg (sample_hs false) = Ok ((payload, STATUS_SUCCESS),
      set_conn (mkConn None [] SMB3_0_2 true []) (set_w w (sample_hs false)))
    ∧ sub payload 4 2 = le_put 2 SMB3_0_2.
Proof.
  destruct (parse_negotiate (NewByteReader (m_Payload negotiate_msg))) as [[[req|] rd]|] eqn:E;
    [|by vm_compute in E..].
  assert (ng_dialects req = [SMB2_1; SMB3_0_2] ∧ ng_securityMode req = 2) as [Hd Hm]
    by (vm_compute in E; by injection E as <- _).
  destruct (negotiate_selects_best (H := mem_absfs) negotiate_msg (sample_hs false) req rd)
    as [(d & payload & w & Hrun & Hsub & (Hc & _) & Hmax)|(_ & Hnone)];
    [by apply Z.leb_le; vm_compute|by vm_compute|exact E| |].
  - rewrite Hd in *. rewrite Hm in Hrun.
    assert (d = SMB3_0_2) as ->.
    { assert (SMB3_0_2 ≤ d) as Hle by
        (apply Hmax; split_and!; [by right; left|by right; left|by apply Z.leb_le; vm_compute..]).
      apply elem_of_cons in Hc as [->|Hc]; [by exfalso; revert Hle; apply Z.lt_nge, Z.ltb_lt; vm_compute|].
      by apply list_elem_of_singleton in Hc. }
    exists payload, w. split; [exact Hrun|exact Hsub].
  - exfalso. apply (Hnone SMB3_0_2). rewrite Hd.
    split_and!; [by right; left|by right; left|by apply Z.leb_le; vm_compute..].
Defined.

Lemma sample_auths `{UnicodeTables} opts readOnly : auths_ok opts (sample_sessions readOnly).
Proof.
  unfold sample_sessions. do 3 (apply auths_ok_keep; [done|]). apply auths_ok_CreateSession.
  intros q s a. unfold s_deref; simpl. by rewrite lookup_empty.
Qed.

Lemma session_setup_authenticates_witness :
  ∃ payload h', handleSessionSetupImpl (H := mem_absfs) (H0 := ascii_tables) (H1 := toy_crypto)
      (setup_msg 0) (sample_hs false) = Ok ((payload, STATUS_SUCCESS), h')
    ∧ ∃ p s, cs_session (hs_conn h') = Some p ∧ h_SessionID (hs_resp h') = s_ID s
        ∧ s_deref (srv_sessions (hs_srv h')) p = Some s ∧ s_State s = SessionStateValid.
Proof.
  destruct (run_status (handleSessionSetupImpl (H := mem_absfs) (H0 := ascii_tables) (H1 := toy_crypto)
    (setup_msg 0)) (sample_hs false) STATUS_SUCCESS) as [payload E]; [by vm_compute|].
  eexists payload, _. split; [exact E|].
  destruct (session_setup_authenticates (H := mem_absfs) (H0 := ascii_tables) (H1 := toy_crypto)
    (H2 := mem_absfs_laws) (setup_msg 0) (sample_hs false) _ _ _ (sample_server_ok false)
    (sample_auths _ false) E) as (_ & _ & p & new & _ & _ & _ & _ & _ & Hs).
  destruct (Hs eq_refl) as (s & Hp & Hv & _ & _ & Hc & Hid). exists p, s.
  split; [exact Hc|]. split; [exact Hid|]. split; [exact Hp|exact Hv].
Defined.

Lemma logoff_releases_handles_witness :
  ∃ payload h', handleLogoffImpl (H := mem_absfs) logoff_msg (sample_hs false) = Ok ((payload, STATUS_SUCCESS), h')
    ∧ ValidateSession 42 (srv_sessions (hs_srv h')) = (None, STATUS_USER_SESSION_DELETED).
Proof.
  destruct (run_status (handleLogoffImpl (H := mem_absfs) logoff_msg) (sample_hs false) STATUS_SUCCESS)
    as [payload E]; [by vm_compute|].
  eexists payload, _. split; [exact E|].
  destruct (logoff_releases_handles (H := mem_absfs) (H2 := mem_absfs_laws) logoff_msg (sample_hs false)
    _ _ (sample_server_ok false) E) as (_ & Hv & _). exact Hv.
Defined.

Lemma tree_connect_authorised_witness :
  ∃ payload h', handleTreeConnectImpl (H := mem_absfs) (tree_connect_msg "\srv\data") (sample_hs true)
      = Ok ((payload, STATUS_SUCCESS), h')
    ∧ ∃ p s tree, tree_of h' (set_TreeID (h_TreeID (hs_resp h')) (m_Header (tree_connect_msg "\srv\data"))) p s tree.
Proof.
  destruct (run_status (handleTreeConnectImpl (H := mem_absfs) (tree_connect_msg "\srv\data")) (sample_hs true)
    STATUS_SUCCESS) as [payload E]; [by vm_compute|].
  eexists payload, _. split; [exact E|].
  destruct (tree_connect_authorised (H := mem_absfs) (tree_connect_msg "\srv\data") (sample_hs true)
    _ _ (sample_server_ok true) E)
    as (_ & p & s & s' & sp & sh & name & tree & _ & _ & _ & _ & _ & _ & Ht & _).
  exists p, s', tree. exact Ht.
Defined.

Lemma setup_takes_over_session_witness :
  ∃ payload h' s', handleSessionSetupImpl (H := mem_absfs) (H0 := ascii_tables) (H1 := toy_crypto)
      (setup_msg 42) (sample_hs false) = Ok ((payload, STATUS_SUCCESS), h')
    ∧ s_deref (srv_sessions (hs_srv h')) 0%nat = Some s' ∧ s_IsGuest s' = true
    ∧ is_Some (s_trees s' !! 1).
Proof.
  destruct (parse_setup (NewByteReader (m_Payload (setup_msg 42)))) as [[[req|] rd]|] eqn:E;
    [|by vm_compute in E..].
  assert (ss_secBufLen req = 0 ∧ ss_previousSessionID req = 42) as [Hn Hp]
    by (vm_compute in E; by injection E as <- _).
  destruct (s_deref (sample_sessions false) 0%nat) as [s|] eqn:Es; [|by vm_compute in Es].
  destruct (setup_takes_over_session (H := mem_absfs) (H0 := ascii_tables) (H1 := toy_crypto)
    (H2 := mem_absfs_laws) (setup_msg 42) (sample_hs false) req rd 0%nat s)
    as (payload & h' & Hrun & _ & s' & Hs' & _ & Hg & _ & _ & Ht);
    [apply sample_auths|by vm_compute|by apply Z.leb_le; vm_compute|exact E|exact Hn|by rewrite Hp|
     rewrite Hp; by vm_compute|exact Es|].
  exists payload, h', s'. split; [exact Hrun|]. split; [exact Hs'|]. split; [exact Hg|].
  rewrite Ht. vm_compute in Es. injection Es as <-. apply is_true_is_Some. by vm_compute.
Defined.
