(* ===== verification/Dir.v ===== *)
(** * Directory enumeration

    [smb2_dir.go]: QUERY_DIRECTORY with its per-handle state, the entry
    formats and pattern matching.  [filepath.Match] of the standard library is
    modelled as it is on a Unix system. *)

From stdpp Require Import base numbers list gmap sets fin_maps strings.
From S2P Require Import Prelude Unicode Constants Types Wire Path Errors HandleMap Attributes Sessions Absfs Server FileOps.

Open Scope Z_scope.

(** ** filepath.Match *)

Definition star : byte := Byte.x2a.
Definition question : byte := Byte.x3f.
Definition lbracket : byte := Byte.x5b.
Definition rbracket : byte := Byte.x5d.
Definition caret : byte := Byte.x5e.
Definition hyphen : byte := Byte.x2d.

(** The chunk up to the next star outside a class, and the rest. *)
Fixpoint scan (inrange : bool) (pattern : gostring) : gostring * gostring :=
  match pattern with
  | [] => ([], [])
  | c :: rest =>
    if bool_decide (c = backslash) then
      match rest with
      | c' :: rest' => let '(chunk, r) := scan inrange rest' in (c :: c' :: chunk, r)
      | [] => ([c], [])
      end
    else if bool_decide (c = star) && negb inrange then ([], pattern)
    else
      let inrange := if bool_decide (c = lbracket) then true
                     else if bool_decide (c = rbracket) then false else inrange in
      let '(chunk, r) := scan inrange rest in (c :: chunk, r)
  end.

Fixpoint strip_stars (pattern : gostring) : bool * gostring :=
  match pattern with
  | c :: rest => if bool_decide (c = star) then (true, (strip_stars rest).2) else (false, pattern)
  | [] => (false, [])
  end.

Definition scanChunk (pattern : gostring) : bool * gostring * gostring :=
  let '(st, pattern) := strip_stars pattern in
  let '(chunk, rest) := scan false pattern in (st, chunk, rest).

(** A rune of a class, possibly escaped; [None] is [ErrBadPattern]. *)
Definition getEsc (chunk : gostring) : option (Z * gostring) :=
  match chunk with
  | [] => None
  | c :: rest =>
    if bool_decide (c = hyphen) || bool_decide (c = rbracket) then None
    else
      let chunk := if bool_decide (c = backslash) then rest else chunk in
      match chunk with
      | [] => None
      | b :: s =>
        let '(r, nchunk) := decode1 b s in
        if (r =? RuneError) && Nat.eqb (length nchunk) (length s) then None
        else match nchunk with [] => None | _ => Some (r, nchunk) end
      end
  end.

(** The ranges of a class, tested against [r]: whether one matched, and the
    chunk behind the closing bracket. Every round consumes a byte. *)
Fixpoint ranges (fuel : nat) (r : Z) (first matched : bool) (chunk : gostring) : option (bool * gostring) :=
  match fuel with
  | O => None
  | S fuel =>
    match chunk with
    | c :: rest =>
      if bool_decide (c = rbracket) && negb first then Some (matched, rest)
      else
        match getEsc chunk with
        | Some (lo, c2 :: chunk2) =>
          match (if bool_decide (c2 = hyphen) then getEsc chunk2 else Some (lo, c2 :: chunk2)) with
          | Some (hi, chunk3) => ranges fuel r false (matched || ((lo <=? r) && (r <=? hi))) chunk3
          | None => None
          end
        | _ => None
        end
    | [] => None
    end
  end.

(** [matchChunk]: [None] is a malformed pattern, [Some None] no match,
    [Some (Some s)] a match that leaves [s]. [subject = None]: the match has
    failed, and only the syntax is checked any more. *)
Fixpoint matchChunk (fuel : nat) (chunk : gostring) (subject : option gostring) : option (option gostring) :=
  match fuel with
  | O => None
  | S fuel =>
    match chunk with
    | [] => Some subject
    | c :: rest =>
      let subject := match subject with Some (_ :: _) => subject | _ => None end in
      if bool_decide (c = lbracket) then
        let '(r, subject) := match subject with
          | Some (b :: s) => let '(r, s) := decode1 b s in (r, Some s)
          | _ => (0, None)
          end in
        let '(negated, rest) := match rest with
          | c' :: rest' => if bool_decide (c' = caret) then (true, rest') else (false, rest)
          | [] => (false, rest)
          end in
        match ranges (S (length rest)) r true false rest with
        | None => None
        | Some (matched, rest) => matchChunk fuel rest (if eqb matched negated then None else subject)
        end
      else if bool_decide (c = question) then
        matchChunk fuel rest (match subject with
          | Some (b :: s) => if bool_decide (b = slash) then None else Some (decode1 b s).2
          | _ => None
          end)
      else
        let literal := if bool_decide (c = backslash) then rest else chunk in
        match literal with
        | [] => None
        | c :: rest => matchChunk fuel rest (match subject with
          | Some (b :: s) => if bool_decide (c = b) then Some s else None
          | _ => None
          end)
        end
    end
  end.

Definition match_chunk (chunk s : gostring) : option (option gostring) :=
  matchChunk (S (length chunk)) chunk (Some s).

(** The loop that skips one more byte of the name before each attempt:
    [None] malformed, [Some None] nothing found. *)
Fixpoint skip_match (chunk : gostring) (last : bool) (name : gostring) : option (option gostring) :=
  match name with
  | [] => Some None
  | b :: rest =>
    if bool_decide (b = slash) then Some None
    else
      match match_chunk chunk rest with
      | None => None
      | Some (Some t) =>
        if last && negb (bool_decide (t = [])) then skip_match chunk last rest else Some (Some t)
      | Some None => skip_match chunk last rest
      end
  end.

(** [filepath.Match]: [None] is [ErrBadPattern]. Every round consumes at
    least a byte of the pattern. *)
Fixpoint Match_loop (fuel : nat) (pattern name : gostring) : option bool :=
  match fuel with
  | O => None
  | S fuel =>
    match pattern with
    | [] => Some (bool_decide (name = []))
    | _ =>
      let '(st, chunk, rest) := scanChunk pattern in
      if st && bool_decide (chunk = []) then Some (negb (contains_byte slash name))
      else
        match match_chunk chunk name with
        | None => None
        | Some (Some t) =>
          if bool_decide (t = []) || negb (bool_decide (rest = [])) then Match_loop fuel rest t
          else if st then
            match skip_match chunk (bool_decide (rest = [])) name with
            | None => None
            | Some (Some t) => Match_loop fuel rest t
            | Some None => Some false
            end
          else Some false
        | Some None =>
          if st then
            match skip_match chunk (bool_decide (rest = [])) name with
            | None => None
            | Some (Some t) => Match_loop fuel rest t
            | Some None => Some false
            end
          else Some false
        end
    end
  end.

Definition Match (pattern name : gostring) : option bool := Match_loop (S (length pattern)) pattern name.

Section patterns.
Context `{UnicodeTables}.

Definition matchPattern (name pattern : gostring) : bool :=
  default false (Match (ToUpper pattern) (ToUpper name)).

Definition filterEntries (entries : list FileInfo) (pattern : gostring) : list FileInfo :=
  if bool_decide (pattern = [star]) then entries
  else List.filter (λ entry, matchPattern (fi_Name entry) pattern) entries.
End patterns.

(** ** Entry formats *)

(** The fields all the full formats share: link, index, times, sizes,
    attributes, name length. *)
Definition write_entry_base (fileIndex t fileSize allocSize attrs nameLen : Z) (w : ByteWriter) : ByteWriter :=
  w |> WriteUint32 0 |> WriteUint32 fileIndex
    |> WriteUint64 t |> WriteUint64 t |> WriteUint64 t |> WriteUint64 t
    |> WriteUint64 fileSize |> WriteUint64 allocSize |> WriteUint32 attrs |> WriteUint32 nameLen.

(** [None]: the information class is not supported. *)
Definition formatDirEntry (info : FileInfo) (infoClass fileIndex : Z) : option bytes :=
  let nameUTF16 := EncodeStringToUTF16LE (fi_Name info) in
  let nameLen := u32 (len nameUTF16) in
  let attrs := modeToAttributes (fi_Mode info) in
  let t := TimeToFiletime (fi_ModTime info) in
  let fileSize := u64 (fi_Size info) in
  let allocSize := andnot (u64 (fileSize + 4095)) 4095 in
  let '(fileSize, allocSize) := if fi_IsDir info then (0, 0) else (fileSize, allocSize) in
  let base := write_entry_base fileIndex t fileSize allocSize attrs nameLen in
  if infoClass =? FileDirectoryInformation then
    Some (NewByteWriter |> base |> WriteBytes nameUTF16 |> Bytes)
  else if infoClass =? FileFullDirectoryInformation then
    Some (NewByteWriter |> base |> WriteUint32 0 |> WriteBytes nameUTF16 |> Bytes)
  else if infoClass =? FileBothDirectoryInformation then
    Some (NewByteWriter |> base |> WriteUint32 0 |> WriteOneByte 0 |> WriteOneByte 0 |> WriteZeros 24
          |> WriteBytes nameUTF16 |> Bytes)
  else if infoClass =? FileNamesInformation then
    Some (NewByteWriter |> WriteUint32 0 |> WriteUint32 fileIndex |> WriteUint32 nameLen
          |> WriteBytes nameUTF16 |> Bytes)
  else if infoClass =? FileIdBothDirectoryInformation then
    Some (NewByteWriter |> base |> WriteUint32 0 |> WriteOneByte 0 |> WriteOneByte 0 |> WriteZeros 24
          |> WriteUint16 0 |> WriteUint64 fileIndex |> WriteBytes nameUTF16 |> Bytes)
  else None.

(** ** Filling the output buffer *)

Inductive fill_status := FillUnsupported | FillOverflow | FillDone.

(** The loop over the matched entries. [entryOffsets] are the starts of the
    entries written so far; each new entry patches the link of the one before
    it. Both the entry count and the position advance with every entry. *)
Fixpoint fill_entries (infoClass outputBufferLength : Z) (singleEntry : bool) (entries : list FileInfo)
    (w : ByteWriter) (entryOffsets : list Z) (position : Z) : outcome (fill_status * ByteWriter * Z) :=
  let entryCount := len entryOffsets in
  match entries with
  | [] => Ok (FillDone, w, position)
  | entry :: entries =>
    match formatDirEntry entry infoClass (u32 (position + entryCount)) with
    | None => Ok (FillUnsupported, w, position)
    | Some entryData =>
      if outputBufferLength <? len w + AlignTo8 (len entryData) then
        Ok (if entryCount =? 0 then FillOverflow else FillDone, w, position)
      else
        let entryStart := len w in
        let patched :=
          if 0 <? entryCount then
            match entryOffsets !! Z.to_nat (entryCount - 1) with
            | Some prevStart => SetUint32At prevStart (u32 (entryStart - prevStart)) w
            | None => Panic
            end
          else Ok w in
        match patched with
        | Panic => Panic
        | Ok w =>
          let w := w |> WriteBytes entryData |> WritePadTo8 in
          if singleEntry then Ok (FillDone, w, position + 1)
          else fill_entries infoClass outputBufferLength singleEntry entries w
                 (entryOffsets ++ [entryStart]) (position + 1)
        end
    end
  end.

(** ** The handler *)

Record DirRequest := mkDirRequest {
  dr_infoClass : Z; dr_flags : Z; dr_fileIndex : Z; dr_fileID : FileID;
  dr_nameOffset : Z; dr_nameLength : Z; dr_outputBufferLength : Z;
}.

Definition parse_query_directory : M ByteReader (option DirRequest) :=
  structSize ← ReadUint16;
  if negb (structSize =? 33) then mret None
  else
    infoClass ← ReadOneByte;
    flags ← ReadOneByte;
    fileIndex ← ReadUint32;
    fileID ← ReadFileID;
    fileNameOffset ← ReadUint16;
    fileNameLength ← ReadUint16;
    outputBufferLength ← ReadUint32;
    mret (Some (mkDirRequest infoClass flags fileIndex fileID fileNameOffset fileNameLength outputBufferLength)).

(** A pattern that does not lie inside the message is ignored. *)
Definition search_pattern (req : DirRequest) (payload : bytes) : gostring :=
  let start := dr_nameOffset req - SMB2HeaderSize in
  let pattern :=
    if (0 <? dr_nameLength req) && (0 <=? start) && (start + dr_nameLength req <=? len payload)
    then DecodeUTF16LEToString (sub payload (Z.to_nat start) (Z.to_nat (dr_nameLength req)))
    else [] in
  if bool_decide (pattern = []) then [star] else pattern.

(** The restart flag, a changed pattern, a given index. *)
Definition prepare_state (req : DirRequest) (pattern : gostring) (d : dirEnumState) : dirEnumState :=
  let d := if has_flag (dr_flags req) SMB2_RESTART_SCANS then mkDirState [] 0 pattern false else d in
  let d := if negb (bool_decide (ds_pattern d = pattern)) then mkDirState [] 0 pattern false else d in
  if has_flag (dr_flags req) SMB2_INDEX_SPECIFIED
  then mkDirState (ds_entries d) (dr_fileIndex req) (ds_pattern d) false else d.

Definition dir_response (b : bytes) : bytes :=
  NewByteWriter |> WriteUint16 9 |> WriteUint16 (SMB2HeaderSize + 8) |> WriteUint32 (u32 (len b))
  |> WriteBytes b |> Bytes.

Section dir.
Context `{Absfs} `{UnicodeTables}.

(** [entry.Info()] for each entry; those that fail are skipped. *)
Fixpoint entry_infos (entries : list DirEntry) : M HS (list FileInfo) :=
  match entries with
  | [] => mret []
  | entry :: entries =>
    info ← io (de_Info entry);
    infos ← entry_infos entries;
    mret (match info with inl i => i :: infos | inr _ => infos end)
  end.

Definition readDirEntries (o : OpenFile File) : M HS (list FileInfo + error) :=
  f ← the_file o;
  '(dirEntries, err) ← io (f_ReadDir f (-1));
  match err with
  | Some e => if is_EOF e then infos ← entry_infos dirEntries; mret (inl infos) else mret (inr e)
  | None => infos ← entry_infos dirEntries; mret (inl infos)
  end.

Definition getDirState (id : FileID) : M HS (option dirEnumState) :=
  gets (λ h, srv_dirStates (hs_srv h) !! id).

Definition storeDirState (id : FileID) (d : dirEnumState) : M HS unit :=
  modify (λ h, set_srv (set_dirStates (<[id := d]> (srv_dirStates (hs_srv h))) (hs_srv h)) h).

(** From the state on which the entries are known. *)
Definition query_entries (req : DirRequest) (id : FileID) (d : dirEnumState) : M HS reply :=
  rest ← lift_option (slice (ds_entries d) (ds_position d) (len (ds_entries d)));
  match filterEntries rest (ds_pattern d) with
  | [] =>
    storeDirState id (mkDirState (ds_entries d) (ds_position d) (ds_pattern d) true);;
    fail STATUS_NO_MORE_FILES
  | matchedEntries =>
    '(status, w, position) ← (λ h, match fill_entries (dr_infoClass req) (dr_outputBufferLength req)
        (has_flag (dr_flags req) SMB2_RETURN_SINGLE_ENTRY) matchedEntries NewByteWriter [] (ds_position d) with
      | Ok r => Ok (r, h) | Panic => Panic end);
    let d := mkDirState (ds_entries d) position (ds_pattern d) (ds_exhausted d) in
    match status with
    | FillUnsupported => storeDirState id d;; fail STATUS_NOT_SUPPORTED
    | FillOverflow => storeDirState id d;; fail STATUS_BUFFER_OVERFLOW
    | FillDone =>
      storeDirState id (if len (ds_entries d) <=? position
                        then mkDirState (ds_entries d) position (ds_pattern d) true else d);;
      mret (dir_response w, STATUS_SUCCESS)
    end
  end.

(** A known state is mutated in place, so it keeps the preparation even when
    reading the directory fails. *)
Definition handleQueryDirectory (msg : SMB2Message) : M HS reply :=
  with_tree (m_Header msg) (λ _ session tree,
  with_request 32 (m_Payload msg) parse_query_directory (λ req,
  with_open (dr_fileID req) session tree (λ p o,
    if negb (of_IsDir o) then fail STATUS_NOT_A_DIRECTORY
    else
      let pattern := search_pattern req (m_Payload msg) in
      known ← getDirState (of_ID o);
      let d := prepare_state req pattern (default (mkDirState [] 0 pattern false) known) in
      (match known with Some _ => storeDirState (of_ID o) d | None => mret tt end);;
      if ds_exhausted d then
        storeDirState (of_ID o) d;; fail STATUS_NO_MORE_FILES
      else
        match ds_entries d with
        | [] =>
          r ← readDirEntries o;
          match r with
          | inr e => fail STATUS_ACCESS_DENIED
          | inl entries => query_entries req (of_ID o) (mkDirState entries 0 (ds_pattern d) (ds_exhausted d))
          end
        | _ => query_entries req (of_ID o) d
        end))).
End dir.

(* ------------------------------------------------------------------ *)
(** ** The layout of a listing

    The entries behind each other, each padded to 8 bytes and linked to the
    next by the offset in its first four bytes; the last link is 0. *)

Definition pad8 (x : bytes) : bytes := WritePadTo8 x.
Definition linked (x : bytes) : bytes := put_at 0 (le_put 4 (u32 (len (pad8 x)))) (pad8 x).
Definition chain (items : list bytes) : bytes := concat (map linked items).
Definition listing (front : list bytes) (last : bytes) : bytes := chain front ++ pad8 last.

(** What a client does: follow the links and take what is behind them. *)
Fixpoint walk (fuel : nat) (b : bytes) : list bytes :=
  match fuel with
  | O => []
  | S fuel =>
    let next := le_get (take 4 b) in
    if next =? 0 then [drop 4 b]
    else drop 4 (take (Z.to_nat next) b) :: walk fuel (drop (Z.to_nat next) b)
  end.

Definition item_ok (x : bytes) : Prop := take 4 x = zeros 4 ∧ len (pad8 x) < 2 ^ 32.

Lemma pad8_shape x : ∃ n, (n < 8)%nat ∧ pad8 x = x ++ zeros n.
Proof. apply pad_reaches_alignment. Qed.

Lemma len_pad8 x : len (pad8 x) = AlignTo8 (len x) ∧ len (pad8 x) mod 8 = 0 ∧ len x ≤ len (pad8 x).
Proof.
  destruct (pad_reaches_alignment x) as (H1 & H2 & n & _ & H3). split; [done|]. split; [done|].
  unfold pad8. rewrite H3, len_app. pose proof (len_nonneg (zeros n)). lia.
Qed.

Lemma item_ok_len x : item_ok x → 4 ≤ len (pad8 x).
Proof.
  intros [H4 _]. destruct (len_pad8 x) as (_ & _ & Hle).
  assert (length (take 4 x) = 4%nat) as Hl by (by rewrite H4). rewrite length_take in Hl. unfold len in *. lia.
Qed.

Lemma len_linked x : item_ok x → len (linked x) = len (pad8 x).
Proof.
  intros Hx. pose proof (item_ok_len x Hx). unfold len, linked in *.
  rewrite length_put_at; [done|]. rewrite length_le_put. lia.
Qed.

Lemma len_chain_aligned items : Forall item_ok items → len (chain items) mod 8 = 0.
Proof.
  induction 1 as [|x items Hx _ IH]; [done|]. unfold chain in *; cbn [map concat]. rewrite len_app, len_linked by done.
  destruct (len_pad8 x) as (_ & Hm & _). rewrite Z.add_mod, Hm, IH by done. done.
Qed.

Lemma chain_snoc items x : chain (items ++ [x]) = chain items ++ linked x.
Proof. unfold chain. by rewrite map_app, concat_app; simpl; rewrite app_nil_r. Qed.

Lemma WritePadTo8_app w x : len w mod 8 = 0 → WritePadTo8 (w ++ x) = w ++ pad8 x.
Proof.
  intros Hw. unfold pad8, WritePadTo8, WriteZeros. rewrite <-app_assoc. do 2 f_equal. f_equal. f_equal.
  unfold PadTo8ByteBoundary. rewrite len_app. pose proof (len_nonneg w); pose proof (len_nonneg x).
  rewrite !Z.rem_mod_nonneg by lia. rewrite Z.add_mod, Hw, Z.add_0_l, Z.mod_mod by done. done.
Qed.

Lemma put_at_app (a b v : bytes) : put_at (length a) v (a ++ b) = a ++ put_at 0 v b.
Proof.
  unfold put_at. rewrite take_app_length. cbn [take]. rewrite app_nil_l, Nat.add_0_l.
  rewrite drop_app_ge by lia. by replace (length a + length v - length a)%nat with (length v) by lia.
Qed.

(** Patching the link of the last entry. *)
Lemma link_last front last :
  item_ok last →
  SetUint32At (len (chain front)) (u32 (len (listing front last) - len (chain front))) (listing front last)
  = Ok (chain (front ++ [last])).
Proof.
  intros Hl. pose proof (item_ok_len last Hl). unfold SetUint32At, SetUintAt, listing.
  rewrite len_app. pose proof (len_nonneg (chain front)).
  destruct (Z.leb_spec (len (chain front) + Z.of_nat 4) (len (chain front) + len (pad8 last))); [|lia].
  destruct (Z.ltb_spec (len (chain front)) 0); [lia|]. f_equal. rewrite chain_snoc.
  replace (len (chain front) + len (pad8 last) - len (chain front)) with (len (pad8 last)) by lia.
  unfold linked. unfold len at 1. rewrite Nat2Z.id. by rewrite put_at_app.
Qed.

Lemma take_linked x rest : item_ok x → take 4 (linked x ++ rest) = le_put 4 (u32 (len (pad8 x))).
Proof.
  intros Hx. unfold linked, put_at. cbn [take]. rewrite app_nil_l, <-app_assoc.
  rewrite take_app_le by (rewrite length_le_put; lia). apply take_ge. rewrite length_le_put. lia.
Qed.

Lemma drop_linked x : item_ok x → drop 4 (linked x) = drop 4 (pad8 x).
Proof.
  intros Hx. unfold linked, put_at. cbn [take]. rewrite app_nil_l.
  rewrite drop_app_ge by (rewrite length_le_put; lia). rewrite length_le_put, Nat.sub_diag. done.
Qed.

Lemma walk_listing fuel front last :
  Forall item_ok front → item_ok last → (length front < fuel)%nat →
  walk fuel (listing front last) = map (λ x, drop 4 (pad8 x)) (front ++ [last]).
Proof.
  intros Hf Hl. revert fuel; induction Hf as [|x front Hx _ IH]; intros [|fuel] Hfuel;
    simpl in Hfuel; try lia; cbn [walk].
  - unfold listing, chain. cbn [map concat]. rewrite app_nil_l. destruct (pad8_shape last) as (n & _ & Hp).
    destruct Hl as [H4 _].
    assert (take 4 (pad8 last) = zeros 4) as ->.
    { rewrite Hp, take_app_le; [done|]. assert (length (take 4 last) = 4%nat) as Hl' by (by rewrite H4).
      rewrite length_take in Hl'. lia. }
    done.
  - pose proof (item_ok_len x Hx). destruct Hx as [H4 Hlt]. assert (item_ok x) as Hx by done.
    replace (listing (x :: front) last) with (linked x ++ listing front last)
      by (unfold listing, chain; simpl; by rewrite app_assoc).
    rewrite take_linked by done. rewrite le_get_put_u32 by (unfold u32; apply Z.mod_pos_bound; lia).
    rewrite u32_small by lia. destruct (Z.eqb_spec (len (pad8 x)) 0); [lia|].
    assert (Z.to_nat (len (pad8 x)) = length (linked x)) as ->.
    { pose proof (len_linked x Hx). unfold len in *. lia. }
    rewrite take_app_length, drop_app_length, drop_linked by done. simpl. f_equal. apply IH. lia.
Qed.

(** ** The fill loop builds a listing *)

Lemma formatDirEntry_ok info cls idx x :
  formatDirEntry info cls idx = Some x → take 4 x = zeros 4.
Proof.
  unfold formatDirEntry, write_entry_base, Bytes, NewByteWriter, WriteUint32, WriteUint64, WriteOneByte,
    WriteUint16, WriteZeros, WriteBytes.
  destruct (if fi_IsDir info then _ else _) as [fs al].
  repeat case_match; intros [= <-]; done.
Qed.

(** The buffer after writing [items]; [offs] are the starts of the entries. *)
Definition is_listing (items : list bytes) (w : bytes) (offs : list Z) : Prop :=
  Forall item_ok items ∧ length offs = length items ∧
  ((items = [] ∧ w = [])
   ∨ ∃ front last, items = front ++ [last] ∧ w = listing front last
       ∧ offs !! length front = Some (len (chain front))).

Lemma is_listing_aligned items w offs : is_listing items w offs → len w mod 8 = 0.
Proof.
  intros (Hok & _ & [[_ ->]|(front & last & -> & -> & _)]); [done|].
  apply Forall_app in Hok as [Hf _]. unfold listing. rewrite len_app, Z.add_mod by done.
  destruct (len_pad8 last) as (_ & -> & _). by rewrite len_chain_aligned.
Qed.

(** One more entry: the link of the last one is patched, the new one is
    appended and padded. *)
Lemma is_listing_snoc items (w : ByteWriter) offs x :
  is_listing items w offs → item_ok x →
  ∃ w', (if 0 <? len offs
         then match offs !! Z.to_nat (len offs - 1) with
              | Some prev => SetUint32At prev (u32 (len w - prev)) w
              | None => Panic
              end
         else Ok w) = Ok w'
    ∧ len w' = len w
    ∧ is_listing (items ++ [x]) (WritePadTo8 (WriteBytes x w')) (offs ++ [len w]).
Proof.
  intros Hl Hx. pose proof (is_listing_aligned _ _ _ Hl) as Hal. destruct Hl as (Hok & Hlen & Hw).
  destruct Hw as [[-> ->]|(front & last & -> & -> & Hoff)].
  - destruct offs; [|done]. exists []. split; [done|]. split; [done|]. split; [by constructor|].
    split; [done|]. right. exists [], x. done.
  - apply Forall_app in Hok as [Hf Hla]. apply Forall_cons in Hla as [Hla _].
    exists (chain (front ++ [last])).
    assert (len (chain (front ++ [last])) = len (listing front last)) as Hsame.
    { rewrite chain_snoc. unfold listing. rewrite !len_app, (len_linked last Hla). done. }
    rewrite length_app in Hlen. simpl in Hlen. split; [|split; [done|]].
    + destruct (Z.ltb_spec 0 (len offs)); [|unfold len in *; lia].
      replace (Z.to_nat (len offs - 1)) with (length front) by (unfold len; lia).
      rewrite Hoff. by apply link_last.
    + split; [apply Forall_app; split; [by apply Forall_app; split; [|constructor]|by constructor]|].
      split; [rewrite !length_app; simpl; lia|]. right. exists (front ++ [last]), x. split; [done|].
      split; [apply WritePadTo8_app; by rewrite Hsame|].
      rewrite length_app. simpl. rewrite lookup_app_r by lia.
      replace (length front + 1 - length offs)%nat with 0%nat by lia. simpl. by rewrite Hsame.
Qed.

(** The entries formatted with the indexes the loop gives them. *)
Definition formatted (cls idx : Z) (infos : list FileInfo) : list (option bytes) :=
  imap (λ i info, formatDirEntry info cls (u32 (idx + 2 * Z.of_nat i))) infos.

Lemma fill_entries_spec cls outLen single entries items (w : ByteWriter) offs pos :
  outLen < 2 ^ 32 → is_listing items w offs → len w ≤ outLen →
  ∃ st k new w' offs',
    fill_entries cls outLen single entries w offs pos = Ok (st, w', pos + Z.of_nat k)
    ∧ (k ≤ length entries)%nat ∧ (single = true → (k ≤ 1)%nat)
    ∧ map Some new = formatted cls (pos + len offs) (take k entries)
    ∧ is_listing (items ++ new) w' offs' ∧ len w' ≤ outLen
    ∧ (st = FillDone → (0 < k)%nat ∨ items ≠ [] ∨ entries = []).
Proof.
  intros Hout. revert items w offs pos. induction entries as [|e entries IH]; intros items w offs pos Hl Hw;
    cbn [fill_entries]; cbv zeta.
  { exists FillDone, 0%nat, [], w, offs. rewrite app_nil_r, Z.add_0_r. split_and!; try done; auto; lia. }
  destruct (formatDirEntry e cls (u32 (pos + len offs))) as [x|] eqn:Ex; cycle 1.
  { exists FillUnsupported, 0%nat, [], w, offs. rewrite app_nil_r, Z.add_0_r. split_and!; try done; lia. }
  destruct (len_pad8 x) as (Hpad & _).
  destruct (Z.ltb_spec outLen (len w + AlignTo8 (len x))) as [Hov|Hfit].
  { exists (if len offs =? 0 then FillOverflow else FillDone), 0%nat, [], w, offs.
    rewrite app_nil_r, Z.add_0_r. split_and!; try done; try lia. destruct Hl as (_ & Hlen & _).
    destruct (Z.eqb_spec (len offs) 0) as [|Hne]; [done|]. intros _. right; left. intros ->.
    unfold len in *. simpl in *. lia. }
  pose proof (len_nonneg w) as Hw0.
  assert (item_ok x) as Hx by (split; [by eapply formatDirEntry_ok|lia]).
  destruct (is_listing_snoc items w offs x Hl Hx) as (w1 & -> & Hw1 & Hl1).
  pose proof (is_listing_aligned _ _ _ Hl) as Hal.
  assert (len (WritePadTo8 (WriteBytes x w1)) = len w + len (pad8 x)) as Hlen2.
  { unfold WriteBytes. rewrite WritePadTo8_app by (by rewrite Hw1). by rewrite len_app, Hw1. }
  assert (formatted cls (pos + len offs) [e] = [Some x]) as Hone.
  { unfold formatted. simpl. by rewrite Z.add_0_r, Ex. }
  destruct single.
  { exists FillDone, 1%nat, [x], (WritePadTo8 (WriteBytes x w1)), (offs ++ [len w]).
    split_and!; [done|simpl; lia|lia|done|done|lia|left; lia]. }
  destruct (IH (items ++ [x]) (WritePadTo8 (WriteBytes x w1)) (offs ++ [len w]) (pos + 1) Hl1)
    as (st & k & new & w' & offs' & -> & Hk & Hs & Hf & Hl' & Hw' & Hst); [lia|].
  exists st, (S k), (x :: new), w', offs'. split_and!; [|simpl; lia|done| | |done|].
  - do 2 f_equal. lia.
  - simpl. unfold formatted in *. rewrite imap_cons. f_equal.
    { simpl. by rewrite Z.add_0_r, Ex. }
    simpl in Hf. rewrite Hf. apply imap_ext. intros i info _. simpl. do 2 f_equal.
    rewrite len_app. change (len [len w]) with 1. lia.
  - by rewrite <-app_assoc in Hl'.
  - left. lia.
Qed.

Lemma parse_query_directory_good :
  parses parse_query_directory (λ req, 0 ≤ dr_fileIndex req ∧ 0 ≤ dr_outputBufferLength req < 2 ^ 32).
Proof.
  intros P payload. unfold parse_query_directory. wp_parse; [done|]. intros r [= <-]. simpl. lia.
Qed.
#[export] Hint Resolve parse_query_directory_good : smb.

Section dir_lemmas.
Context `{Absfs} `{UnicodeTables}.

(** The position of an enumeration lies inside its entries. *)
Definition ds_ok (d : dirEnumState) : Prop :=
  ds_entries d = [] ∨ 0 ≤ ds_position d ≤ len (ds_entries d).

Definition dirs_ok (D : gmap FileID dirEnumState) : Prop := map_Forall (λ _ d, ds_ok d) D.

(** A state that differs from [h] in the enumerations and the world. *)
Definition with_dirs (h : HS) (D : gmap FileID dirEnumState) (w : World) : HS :=
  set_w w (set_srv (set_dirStates D (hs_srv h)) h).

Lemma with_dirs_id h : with_dirs h (srv_dirStates (hs_srv h)) (hs_w h) = h.
Proof. by destruct h as [? ? [] ?]. Qed.

Lemma with_dirs_ok h D w : srv_ok (hs_srv h) → srv_ok (hs_srv (with_dirs h D w)).
Proof. intros []. by split. Qed.

Lemma wpp_entry_infos P entries (Q : list FileInfo → HS → Prop) h :
  (∀ l w, ro (hs_w h) w → Q l (set_w w h)) → wpp P (entry_infos entries) Q h.
Proof.
  revert Q h; induction entries as [|e entries IH]; intros Q h HQ; simpl.
  - apply wpp_ret. rewrite <-(set_w_id h). apply HQ, rtc_refl.
  - apply wpp_bind, wpp_io. intros info w E. apply wpp_bind, IH. simpl. intros l w' Hro. apply wpp_ret.
    apply (HQ _ w'). eapply rtc_l; [|exact Hro]. replace w with (de_Info e (hs_w h)).2 by (by rewrite E).
    constructor.
Qed.

Lemma wpp_readDirEntries P o f (Q : list FileInfo + error → HS → Prop) h :
  of_File o = Some f → (∀ r w, ro (hs_w h) w → Q r (set_w w h)) → wpp P (readDirEntries o) Q h.
Proof.
  intros Hf HQ. unfold readDirEntries. apply wpp_bind. eapply wpp_the_file; [done|].
  apply wpp_bind, wpp_io. intros [l err] w E.
  assert (ro (hs_w h) w) as Hro.
  { apply rtc_once. replace w with (f_ReadDir f (-1) (hs_w h)).2 by (by rewrite E). constructor. }
  assert (wpp P (infos ← entry_infos l; mret (inl infos)) Q (set_w w h)) as Hinfo.
  { apply wpp_bind, wpp_entry_infos. simpl. intros infos w' Hro'. apply wpp_ret. apply (HQ _ w').
    by etrans. }
  destruct err as [e|]; [|done]. destruct (is_EOF e); [done|]. by apply wpp_ret, HQ.
Qed.

(** The entries of the open directory [f] as they are now. *)
Fixpoint infos_of (entries : list DirEntry) (w : World) : list FileInfo * World :=
  match entries with
  | [] => ([], w)
  | e :: entries =>
    let '(info, w) := de_Info e w in
    let '(infos, w) := infos_of entries w in
    (match info with inl i => i :: infos | inr _ => infos end, w)
  end.

Definition dir_contents (f : File) (w : World) : option (list FileInfo) :=
  let '((entries, err), w) := f_ReadDir f (-1) w in
  match err with
  | Some e => if is_EOF e then Some (infos_of entries w).1 else None
  | None => Some (infos_of entries w).1
  end.

Lemma entry_infos_eq entries h :
  entry_infos entries h = Ok ((infos_of entries (hs_w h)).1, set_w (infos_of entries (hs_w h)).2 h).
Proof.
  revert h; induction entries as [|e entries IH]; intros h; cbn [entry_infos infos_of]; [by destruct h|].
  unfold mbind, M_bind, io. destruct (de_Info e (hs_w h)) as [info w]. rewrite IH. simpl.
  by destruct (infos_of entries w) as [infos w'].
Qed.

Lemma wpp_dir_contents P o f (Q : list FileInfo + error → HS → Prop) h :
  of_File o = Some f →
  (∀ r w, ro (hs_w h) w → dir_contents f (hs_w h) = (match r with inl l => Some l | inr _ => None end) →
     Q r (set_w w h)) → wpp P (readDirEntries o) Q h.
Proof.
  intros Hf HQ.
  assert (∀ r h', readDirEntries o h = Ok (r, h') →
    dir_contents f (hs_w h) = match r with inl l => Some l | inr _ => None end) as Hc.
  { intros r h'. unfold readDirEntries, the_file, dir_contents, mbind, M_bind, lift_option, io. rewrite Hf.
    destruct (f_ReadDir f (-1) (hs_w h)) as [[l err] w].
    destruct err as [e|]; [destruct (is_EOF e); [|by intros [= <- _]]|];
      rewrite entry_infos_eq; by intros [= <- _]. }
  pose proof (wpp_readDirEntries P o f (λ r h', ∃ w, h' = set_w w h ∧ ro (hs_w h) w) h Hf) as Hw.
  unfold wpp in *. destruct (readDirEntries o h) as [[r h']|]; [|apply Hw; eauto].
  destruct Hw as (w & -> & Hro); [eauto|]. apply HQ; [done|by eapply Hc].
Qed.

(** Where an enumeration goes on: in the cached entries, unless there are
    none, the pattern is another one or the client restarts it. *)
Definition continues (req : DirRequest) (pattern : gostring) (cached : option dirEnumState) : option dirEnumState :=
  match cached with
  | Some d =>
    if negb (has_flag (dr_flags req) SMB2_RESTART_SCANS) && bool_decide (ds_pattern d = pattern)
       && negb (bool_decide (ds_entries d = []))
    then Some d else None
  | None => None
  end.

(** The entries [src] and the position in them a request reads from: those of
    the cached enumeration, at its position or at the index the client gives,
    or else the directory as it is now, from its start. *)
Definition starts (h : HS) (req : DirRequest) (pattern : gostring) (f : File) (src : dirEnumState) : Prop :=
  ds_pattern src = pattern ∧
  match continues req pattern (srv_dirStates (hs_srv h) !! dr_fileID req) with
  | Some d => ds_entries src = ds_entries d
      ∧ ds_position src = if has_flag (dr_flags req) SMB2_INDEX_SPECIFIED then dr_fileIndex req else ds_position d
  | None => dir_contents f (hs_w h) = Some (ds_entries src) ∧ ds_position src = 0
  end.

(** What a successful reply holds: the next [k] matching entries of [src]. *)
Definition listed (req : DirRequest) (src : dirEnumState) (D : gmap FileID dirEnumState) (payload : bytes) : Prop :=
  ∃ d k items buffer,
    D !! dr_fileID req = Some d ∧ payload = dir_response buffer ∧ len buffer ≤ dr_outputBufferLength req
    ∧ (0 < k)%nat ∧ (has_flag (dr_flags req) SMB2_RETURN_SINGLE_ENTRY = true → k = 1%nat)
    ∧ ds_entries d = ds_entries src ∧ ds_pattern d = ds_pattern src
    ∧ ds_position d = ds_position src + Z.of_nat k
    ∧ ds_exhausted d = (len (ds_entries d) <=? ds_position d)
    ∧ length items = k
    ∧ map Some items = formatted (dr_infoClass req) (ds_position src)
        (take k (filterEntries (drop (Z.to_nat (ds_position src)) (ds_entries src)) (ds_pattern src)))
    ∧ walk k buffer = map (λ x, drop 4 (pad8 x)) items.

(** The reply and the state after a request; [L] holds of a successful one. *)
Definition dir_reply (h : HS) (L : gmap FileID dirEnumState → bytes → Prop) (r : reply) (h' : HS) : Prop :=
  ∃ D w, h' = with_dirs h D w ∧ dirs_ok D ∧ ro (hs_w h) w ∧ (r.2 = STATUS_SUCCESS → L D r.1).

(** The request's handle is a directory [f] the caller has open. *)
Definition open_dir (h : HS) (msg : SMB2Message) (id : FileID) (f : File) : Prop :=
  ∃ p s t sh q o, tree_of h (m_Header msg) p s t ∧ srv_shareHeap (hs_srv h) !! t_Share t = Some sh
    ∧ GetByTree id (t_ID t) (s_ID s) (sh_fileHandles sh) = Some q ∧ deref (sh_fileHandles sh) q = Some o
    ∧ of_IsDir o = true ∧ of_File o = Some f.

Definition dir_done (h : HS) (msg : SMB2Message) : reply → HS → Prop :=
  dir_reply h (λ D payload, ∃ req rd f src,
    parse_query_directory (NewByteReader (m_Payload msg)) = Ok (Some req, rd)
    ∧ open_dir h msg (dr_fileID req) f ∧ starts h req (search_pattern req (m_Payload msg)) f src
    ∧ listed req src D payload).

Lemma dir_refused h D w L st :
  dirs_ok D → ro (hs_w h) w → st ≠ STATUS_SUCCESS →
  dir_reply h L (buildErrorResponse, st) (with_dirs h D w).
Proof. intros. exists D, w. done. Qed.

Lemma dir_reply_mono h (L L' : gmap FileID dirEnumState → bytes → Prop) r h' :
  (∀ D b, L D b → L' D b) → dir_reply h L r h' → dir_reply h L' r h'.
Proof. intros HL (D & w & -> & HD & Hro & Hs). exists D, w. eauto 10. Qed.

Lemma filterEntries_length entries pattern : (length (filterEntries entries pattern) ≤ length entries)%nat.
Proof. unfold filterEntries. case_bool_decide; [done|]. apply List.filter_length_le. Qed.

Lemma dirs_ok_insert D id d : dirs_ok D → ds_ok d → dirs_ok (<[id := d]> D).
Proof. intros. by apply map_Forall_insert_2. Qed.

Lemma wpp_storeDirState P id d (Q : unit → HS → Prop) h D w :
  Q tt (with_dirs h (<[id := d]> D) w) → wpp P (storeDirState id d) Q (with_dirs h D w).
Proof. done. Qed.

Lemma wpp_query_entries P req d h D w :
  0 ≤ dr_outputBufferLength req < 2 ^ 32 → dirs_ok D → ro (hs_w h) w →
  (0 ≤ ds_position d ≤ len (ds_entries d) ∨ P) → ds_exhausted d = false →
  wpp P (query_entries req (dr_fileID req) d) (dir_reply h (listed req d)) (with_dirs h D w).
Proof.
  intros Hout HD Hro Hpos Hex. unfold query_entries. apply wpp_bind, wpp_lift.
  { intros E%slice_None. destruct Hpos as [Hp|]; [|done]. exfalso. lia. }
  intros rest Hrest.
  assert (0 ≤ ds_position d ≤ len (ds_entries d)) as Hp.
  { destruct (decide (0 ≤ ds_position d ≤ len (ds_entries d))) as [|Hn]; [done|].
    assert (slice (ds_entries d) (ds_position d) (len (ds_entries d)) = None) by (apply slice_None; lia).
    congruence. }
  rewrite slice_ok in Hrest by lia. injection Hrest as <-.
  set (p := Z.to_nat (ds_position d)).
  assert (take (Z.to_nat (len (ds_entries d) - ds_position d)) (drop p (ds_entries d)) = drop p (ds_entries d)) as ->.
  { apply take_ge. rewrite length_drop. unfold len in *. lia. }
  pose proof (filterEntries_length (drop p (ds_entries d)) (ds_pattern d)) as Hfl. rewrite length_drop in Hfl.
  destruct (filterEntries (drop p (ds_entries d)) (ds_pattern d)) as [|e es] eqn:Ef.
  { apply wpp_bind, wpp_storeDirState, wpp_ret. apply dir_refused; [apply dirs_ok_insert; [done|by right]|done|done]. }
  rewrite <-Ef in *.
  destruct (fill_entries_spec (dr_infoClass req) (dr_outputBufferLength req)
    (has_flag (dr_flags req) SMB2_RETURN_SINGLE_ENTRY)
    (filterEntries (drop p (ds_entries d)) (ds_pattern d)) [] NewByteWriter [] (ds_position d))
    as (st & k & items & w' & offs' & E & Hk & Hs & Hf & (Hok & Hlen & Hl) & Hw' & Hst);
    [lia|by split_and!; [constructor|done|left]|apply Hout|].
  apply wpp_bind. unfold wpp at 1. rewrite E.
  assert (0 ≤ ds_position d + Z.of_nat k ≤ len (ds_entries d)) as Hpos' by (unfold len in *; lia).
  destruct st; (apply wpp_bind, wpp_storeDirState, wpp_ret); [apply dir_refused..|]; try done;
    try (apply dirs_ok_insert; [done|by right]).
  destruct (Hst eq_refl) as [Hk0|[?|Hnil]]; [|done|by rewrite Hnil in Ef].
  match goal with |- context [<[_ := ?x]> D] => set (d' := x) end.
  assert (ds_entries d' = ds_entries d ∧ ds_position d' = ds_position d + Z.of_nat k
    ∧ ds_pattern d' = ds_pattern d ∧ ds_exhausted d' = (len (ds_entries d) <=? ds_position d + Z.of_nat k))
    as (He & Hpo & Hpa & Hexh) by (unfold d'; simpl; by destruct (_ <=? _)).
  exists (<[dr_fileID req := d']> D), w. split; [done|].
  split; [apply dirs_ok_insert; [done|]; right; by rewrite He, Hpo|]. split; [done|]. intros _. simpl.
  assert (length items = k) as Hik.
  { apply (f_equal length) in Hf. unfold formatted in Hf. rewrite length_imap, length_map, length_take in Hf.
    lia. }
  exists d', k, items, w'.
  split_and!; [by rewrite lookup_insert_eq|done|done|done|intros Hsing; specialize (Hs Hsing); lia|done|done|done| |done| |].
  - by rewrite Hexh, He, Hpo.
  - rewrite Z.add_0_r in Hf. exact Hf.
  - rewrite app_nil_l in *. destruct Hl as [[-> _]|(front & last & -> & -> & _)]; [simpl in Hik; lia|].
    apply Forall_app in Hok as [Hfo Hlo]. apply Forall_cons in Hlo as [Hlo _].
    rewrite length_app in Hik. simpl in Hik. apply walk_listing; [done|done|lia].
Qed.

(** A given index lies inside the cached entries. *)
Definition index_ok (h : HS) (msg : SMB2Message) : Prop :=
  ∀ req rd d, parse_query_directory (NewByteReader (m_Payload msg)) = Ok (Some req, rd) →
    has_flag (dr_flags req) SMB2_INDEX_SPECIFIED = true →
    srv_dirStates (hs_srv h) !! dr_fileID req = Some d →
    ds_entries d = [] ∨ dr_fileIndex req ≤ len (ds_entries d).

(** The preparation keeps the position inside the entries; what it keeps of
    them are the cached ones. *)
Lemma prepare_state_pos req pattern d :
  ds_ok d → 0 ≤ dr_fileIndex req →
  (has_flag (dr_flags req) SMB2_INDEX_SPECIFIED = true →
     ds_entries d = [] ∨ dr_fileIndex req ≤ len (ds_entries d)) →
  ds_ok (prepare_state req pattern d).
Proof.
  intros Hd Hi0 Hi. unfold prepare_state.
  destruct (has_flag (dr_flags req) SMB2_RESTART_SCANS).
  - rewrite bool_decide_true by done. simpl. case_match; by left.
  - case_bool_decide; simpl; [|case_match; by left].
    destruct (has_flag (dr_flags req) SMB2_INDEX_SPECIFIED); [|done].
    destruct (Hi eq_refl); [by left|by right].
Qed.

Lemma ds_ok_dec d : {ds_ok d} + {¬ ds_ok d}.
Proof.
  destruct (ds_entries d) as [|e es] eqn:E; [left; by left|].
  destruct (decide (0 ≤ ds_position d ≤ len (ds_entries d))) as [Hd|Hd]; [left; by right|].
  right. intros [Hn|Hn]; [congruence|done].
Qed.

(** The listing of a prepared state: the part of the handler after the state
    is stored. *)
Lemma wpp_list_prepared P req d o f h D :
  of_File o = Some f → 0 ≤ dr_outputBufferLength req < 2 ^ 32 → dirs_ok D → ds_ok d →
  wpp P
    (if ds_exhausted d then storeDirState (dr_fileID req) d;; fail STATUS_NO_MORE_FILES
     else
       match ds_entries d with
       | [] =>
         r ← readDirEntries o;
         match r with
         | inr e => fail STATUS_ACCESS_DENIED
         | inl entries => query_entries req (dr_fileID req) (mkDirState entries 0 (ds_pattern d) (ds_exhausted d))
         end
       | _ => query_entries req (dr_fileID req) d
       end)
    (dir_reply h (λ D' b, ∃ src, ds_pattern src = ds_pattern d
       ∧ (if bool_decide (ds_entries d = []) then dir_contents f (hs_w h) = Some (ds_entries src) ∧ ds_position src = 0
          else ds_entries src = ds_entries d ∧ ds_position src = ds_position d)
       ∧ listed req src D' b)) (with_dirs h D (hs_w h)).
Proof.
  intros Hf Hout HD Hd. destruct (ds_exhausted d) eqn:Eex.
  { apply wpp_bind, wpp_storeDirState, wpp_ret, dir_refused; [by apply dirs_ok_insert|apply rtc_refl|done]. }
  destruct (ds_entries d) as [|e es] eqn:Ee.
  - apply wpp_bind. eapply wpp_dir_contents; [done|]. intros [entries|e] w Hro Hc; cycle 1.
    { apply wpp_ret. by apply (dir_refused h D w). }
    pose proof (len_nonneg entries). set (d' := mkDirState entries 0 (ds_pattern d) false).
    eapply wpp_mono; [apply (wpp_query_entries P req d' h D w); [done|done|done|left; simpl; lia|done]|].
    intros r h'. apply dir_reply_mono. intros D' b Hl. exists d'. by rewrite bool_decide_true.
  - destruct Hd as [Hd|Hd]; [congruence|].
    eapply wpp_mono; [apply wpp_query_entries; [done|done|apply rtc_refl|by left|done]|].
    intros r h'. apply dir_reply_mono. intros D' b Hl. exists d. by rewrite bool_decide_false.
Qed.

(** The prepared state is the one to read from. *)
Lemma prepare_starts h req pattern f src :
  let cached := srv_dirStates (hs_srv h) !! dr_fileID req in
  let d := prepare_state req pattern (default (mkDirState [] 0 pattern false) cached) in
  ds_pattern src = ds_pattern d →
  (if bool_decide (ds_entries d = []) then dir_contents f (hs_w h) = Some (ds_entries src) ∧ ds_position src = 0
   else ds_entries src = ds_entries d ∧ ds_position src = ds_position d) →
  starts h req pattern f src.
Proof.
  intros cached d Hpat Hsrc. unfold starts, continues. fold cached. subst d. unfold prepare_state in *.
  assert (bool_decide (pattern = pattern) = true) as Hp by by apply bool_decide_true.
  destruct cached as [d|]; simpl in *.
  - destruct (has_flag (dr_flags req) SMB2_RESTART_SCANS); simpl in *.
    + rewrite Hp in Hpat, Hsrc. simpl in *.
      destruct (has_flag (dr_flags req) SMB2_INDEX_SPECIFIED); simpl in *; by rewrite ?bool_decide_true in Hsrc by done.
    + destruct (bool_decide (ds_pattern d = pattern)) eqn:Ep; simpl in *.
      * apply bool_decide_eq_true in Ep. destruct (has_flag (dr_flags req) SMB2_INDEX_SPECIFIED); simpl in *; split; try congruence;
          destruct (bool_decide (ds_entries d = [])); done.
      * destruct (has_flag (dr_flags req) SMB2_INDEX_SPECIFIED); simpl in *; by rewrite ?bool_decide_true in Hsrc by done.
  - destruct (has_flag (dr_flags req) SMB2_RESTART_SCANS), (has_flag (dr_flags req) SMB2_INDEX_SPECIFIED);
      simpl in *; rewrite ?Hp in *; simpl in *; by rewrite ?bool_decide_true in Hsrc by done.
Qed.

Lemma wpp_handleQueryDirectory P msg h :
  srv_ok (hs_srv h) → dirs_ok (srv_dirStates (hs_srv h)) → (index_ok h msg ∨ P) →
  wpp P (handleQueryDirectory msg) (dir_done h msg) h.
Proof.
  intros Hok HD Hidx. unfold handleQueryDirectory.
  assert (∀ st, st ≠ STATUS_SUCCESS → dir_done h msg (buildErrorResponse, st) h) as Hnow.
  { intros st Hst. rewrite <-(with_dirs_id h) at 2. by apply dir_refused; [|apply rtc_refl|]. }
  apply wpp_with_tree; [done|by apply Hnow..|]. intros p s t Ht Hid [sh Hsh].
  apply wpp_with_request; [eapply parses_total; auto with smb|by apply Hnow|]. intros req rd _ Hparse.
  destruct (parses_ok _ _ _ _ _ parse_query_directory_good Hparse) as [Hi0 Hout].
  eapply wpp_with_open; [done|exact Hsh|by intros; apply Hnow|].
  intros q o f Hget Hq Ho Hoid Hot Hos Hf Hfs. destruct (of_IsDir o) eqn:Hdir; [simpl|by apply Hnow].
  rewrite Hoid. apply wpp_bind, wpp_gets.
  set (known := srv_dirStates (hs_srv h) !! dr_fileID req).
  set (pattern := search_pattern req (m_Payload msg)).
  set (d := prepare_state req pattern (default (mkDirState [] 0 pattern false) known)).
  assert (ds_ok (default (mkDirState [] 0 pattern false) known)) as Hd0.
  { unfold known. destruct (srv_dirStates (hs_srv h) !! dr_fileID req) eqn:Ek; [exact (HD _ _ Ek)|by left]. }
  rewrite <-(with_dirs_id h) at 2. destruct (ds_ok_dec d) as [Hd|Hnd].
  - (* in order *)
    set (D := match known with Some _ => <[dr_fileID req := d]> (srv_dirStates (hs_srv h))
              | None => srv_dirStates (hs_srv h) end).
    assert (dirs_ok D) as HD' by (unfold D; case_match; [by apply dirs_ok_insert|done]).
    apply wpp_bind. apply (wpp_mono P _ (λ _ h', h' = with_dirs h D (hs_w h))).
    { unfold D. destruct known; [by apply wpp_storeDirState|by apply wpp_ret]. }
    intros _ h1 ->. eapply wpp_mono; [by eapply wpp_list_prepared|].
    intros r h'. apply dir_reply_mono. intros D' b (src & Hpat & Hsrc & Hl). exists req, rd, f, src.
    split; [done|]. split; [by exists p, s, t, sh, q, o|]. split; [by eapply prepare_starts|done].
  - (* an index beyond the cached entries *)
    destruct (has_flag (dr_flags req) SMB2_INDEX_SPECIFIED) eqn:Eflag; cycle 1.
    { destruct Hnd. apply prepare_state_pos; [done|lia|congruence]. }
    assert P as HP.
    { destruct Hidx as [Hidx|]; [|done]. destruct Hnd. apply prepare_state_pos; [done|lia|].
      intros _. unfold known. destruct (srv_dirStates (hs_srv h) !! dr_fileID req) as [d0|] eqn:Ek;
        [by eapply Hidx|by left]. }
    assert (ds_exhausted d = false) as Hex by (unfold d, prepare_state; by rewrite Eflag).
    apply wpp_bind. apply (wpp_mono P _ (λ _ _, True)); [by destruct known|]. intros _ h1 _. rewrite Hex.
    destruct (ds_entries d) as [|e es] eqn:Ee; [by destruct Hnd; left|].
    unfold query_entries. apply wpp_bind, wpp_lift; [done|]. intros rest Hr.
    destruct Hnd. right. destruct (slice_None (ds_entries d) (ds_position d) (len (ds_entries d))) as [_ Hs].
    destruct (decide (0 ≤ ds_position d ≤ len (ds_entries d))) as [|Hn]; [done|].
    rewrite Hs in Hr by lia. done.
Qed.

(** C34: QUERY_DIRECTORY answers with a well-formed list: a client that
    follows the links finds one record for each of the next matching entries,
    at least one and only one if it asked for a single entry, and the list fits
    its buffer.  The entries are those of the cached enumeration from its
    position on (or from the index the client gives), and those of the
    directory as it is now from the start when the client restarts, changes the
    pattern or nothing is cached.  The state is kept for the next request with
    the same entries and pattern and the position advanced by the number of
    entries returned, which ends the enumeration when it reaches the number of
    entries.  With the pattern * the reply is the next run of the entries
    without a gap; with another one the position, which indexes all entries,
    advances by matches only, so that entries may come again
    ([pattern_enumeration_repeats]). *)
Theorem query_directory_listing msg h payload h' :
  srv_ok (hs_srv h) → dirs_ok (srv_dirStates (hs_srv h)) →
  handleQueryDirectory msg h = Ok ((payload, STATUS_SUCCESS), h') →
  srv_ok (hs_srv h') ∧ dirs_ok (srv_dirStates (hs_srv h')) ∧
  ∃ req rd f src d items buffer,
    let next := drop (Z.to_nat (ds_position src)) (ds_entries src) in
    parse_query_directory (NewByteReader (m_Payload msg)) = Ok (Some req, rd)
    ∧ open_dir h msg (dr_fileID req) f ∧ starts h req (search_pattern req (m_Payload msg)) f src
    ∧ payload = dir_response buffer ∧ len buffer ≤ dr_outputBufferLength req
    ∧ (0 < length items)%nat
    ∧ (has_flag (dr_flags req) SMB2_RETURN_SINGLE_ENTRY = true → length items = 1%nat)
    ∧ map Some items = formatted (dr_infoClass req) (ds_position src)
        (take (length items) (filterEntries next (ds_pattern src)))
    ∧ (ds_pattern src = [star] →
         map Some items = formatted (dr_infoClass req) (ds_position src) (take (length items) next))
    ∧ walk (length items) buffer = map (λ x, drop 4 (pad8 x)) items
    ∧ srv_dirStates (hs_srv h') !! dr_fileID req = Some d
    ∧ ds_entries d = ds_entries src ∧ ds_pattern d = ds_pattern src
    ∧ ds_position d = ds_position src + len items
    ∧ ds_exhausted d = (len (ds_entries d) <=? ds_position d).
Proof.
  intros Hok HD E.
  destruct (wpp_ok True _ _ _ _ _ (wpp_handleQueryDirectory True msg h Hok HD (or_intror I)) E)
    as (D & w & -> & HD' & _ & Hl).
  destruct (Hl eq_refl) as (req & rd & f & src & Hparse & Hopen & Hsrc & d & k & items & buffer & Hd & Hpay & Hlen
    & Hk & Hs & He & Hpa & Hpos & Hex & <- & Hf & Hw).
  split; [by apply with_dirs_ok|]. split; [done|].
  exists req, rd, f, src, d, items, buffer. split_and!; try done.
  intros Hstar. rewrite Hf, Hstar. unfold filterEntries. by rewrite bool_decide_true.
Qed.

(** An index the client chooses is not checked against the directory:
    once the entries are cached, QUERY_DIRECTORY with SMB2_INDEX_SPECIFIED and
    an index beyond their number slices out of range and panics. *)
Theorem index_beyond_end_panics msg h req rd p s t sh q o d :
  srv_ok (hs_srv h) →
  tree_of h (m_Header msg) p s t → srv_shareHeap (hs_srv h) !! t_Share t = Some sh →
  32 ≤ len (m_Payload msg) → parse_query_directory (NewByteReader (m_Payload msg)) = Ok (Some req, rd) →
  GetByTree (dr_fileID req) (t_ID t) (s_ID s) (sh_fileHandles sh) = Some q →
  deref (sh_fileHandles sh) q = Some o → of_IsDir o = true →
  srv_dirStates (hs_srv h) !! of_ID o = Some d → ds_entries d ≠ [] →
  ds_pattern d = search_pattern req (m_Payload msg) →
  has_flag (dr_flags req) SMB2_RESTART_SCANS = false →
  has_flag (dr_flags req) SMB2_INDEX_SPECIFIED = true → len (ds_entries d) < dr_fileIndex req →
  handleQueryDirectory msg h = Panic.
Proof.
  intros Hok (Hv & Hs & Ht) Hsh Hlen Hp Hget Ho Hdir Hd Hne Hpat Hres Hidx Hbig.
  unfold handleQueryDirectory, with_tree, validateTree, validateSession, the_session. m_simpl.
  rewrite Hv, Hs. unfold ValidateTreeConnection. rewrite Ht. rewrite Hs.
  unfold with_request. destruct (Z.ltb_spec (len (m_Payload msg)) 32); [lia|]. m_simpl. rewrite Hp.
  unfold with_open. m_simpl. rewrite (handles_of_eq _ _ _ Hsh), Hget, Ho, Hdir. simpl. rewrite Hd. simpl.
  unfold prepare_state. rewrite Hres, bool_decide_true by done. simpl. rewrite Hidx. simpl.
  destruct (ds_entries d) as [|e es] eqn:Ee; [done|]. unfold query_entries. simpl. m_simpl.
  rewrite (proj2 (slice_None (e :: es) (dr_fileIndex req) (len (e :: es)))); [done|lia].
Qed.
End dir_lemmas.

(* ------------------------------------------------------------------ *)
(** ** Witnesses: three files, the root directory opened as (107, 1) *)

Definition dir_world : mem_world :=
  mkMem [(str "a.txt", []); (str "b.doc", []); (str "c.txt", [])] 100.

Definition dir_hs : HS (H := mem_absfs) :=
  state_after (handleCreate (H := mem_absfs) (create_msg 1 "\" FILE_OPEN 0))
    (mkHS (H := mem_absfs) (new_conn []) (Server.sample_header 0 0) (sample_server false) dir_world).

Definition query_msg (flags index : Z) (pattern : string) : SMB2Message :=
  let b := EncodeStringToUTF16LE (str pattern) in
  sample_msg SMB2_QUERY_DIRECTORY 1
    (NewByteWriter |> WriteUint16 33 |> WriteOneByte FileNamesInformation |> WriteOneByte flags
     |> WriteUint32 index |> WriteFileID opened_id |> WriteUint16 96 |> WriteUint16 (len b)
     |> WriteUint32 65536 |> WriteBytes b |> Bytes).

Notation run_query m := (handleQueryDirectory (H := mem_absfs) (H0 := ascii_tables) m).

(** The names in a reply of class [FileNamesInformation]. *)
Definition reply_names {S} (o : outcome (reply * S)) : list gostring :=
  match o with
  | Ok ((payload, _), _) =>
    map (λ b, DecodeUTF16LEToString (sub b 8 (Z.to_nat (le_get (sub b 4 4))))) (walk 10 (drop 8 payload))
  | Panic => []
  end.

(** With a pattern the position counts matches but indexes all entries,
    so an enumeration one entry at a time returns a file twice: among a.txt,
    b.doc and c.txt the search for *.txt finds a.txt, c.txt and c.txt again. *)
Theorem pattern_enumeration_repeats :
  let q := query_msg SMB2_RETURN_SINGLE_ENTRY 0 "*.txt" in
  let h1 := state_after (run_query q) dir_hs in
  let h2 := state_after (run_query q) h1 in
  map reply_names [run_query q dir_hs; run_query q h1; run_query q h2]
  = [[str "a.txt"]; [str "c.txt"]; [str "c.txt"]].
Proof. by vm_compute. Qed.

Lemma dir_hs_ok : srv_ok (H := mem_absfs) (hs_srv dir_hs).
Proof.
  unfold dir_hs, state_after. set (h0 := mkHS _ _ _ _).
  assert (srv_ok (H := mem_absfs) (hs_srv h0)) as Hok by apply (sample_server_ok false).
  pose proof (wpp_handleCreate (H := mem_absfs) (create_msg 1 "\" FILE_OPEN 0) h0 Hok) as Hc. unfold wpp in Hc.
  destruct (handleCreate (H := mem_absfs) _ h0) as [[r h']|]; [|exact Hok].
  destruct Hc as [Hc|(?&?&?&?&?&?&?&?&Hc)]; [eapply (refused_ok h0); [exact Hok|exact Hc]|naive_solver].
Qed.

Lemma dir_hs_dirs : dirs_ok (srv_dirStates (hs_srv dir_hs)).
Proof. assert (srv_dirStates (hs_srv dir_hs) = ∅) as -> by by vm_compute. apply map_Forall_empty. Qed.

Lemma query_directory_listing_witness :
  ∃ payload h' items buffer,
    run_query (query_msg 0 0 "*") dir_hs = Ok ((payload, STATUS_SUCCESS), h')
    ∧ payload = dir_response buffer ∧ walk (length items) buffer = map (λ x, drop 4 (pad8 x)) items.
Proof.
  destruct (run_status (run_query (query_msg 0 0 "*")) dir_hs STATUS_SUCCESS) as [payload E]; [by vm_compute|].
  destruct (query_directory_listing (H := mem_absfs) (H0 := ascii_tables) (query_msg 0 0 "*") dir_hs payload _
    dir_hs_ok dir_hs_dirs E)
    as (_ & _ & req & rd & f & src & d & items & buffer & _ & _ & _ & Hp & _ & _ & _ & _ & _ & Hw & _).
  eexists payload, _, items, buffer. split; [exact E|]. split; [exact Hp|exact Hw].
Defined.

(** After one listing the three entries are cached. *)
Definition dir_cached : HS (H := mem_absfs) := state_after (run_query (query_msg 0 0 "*")) dir_hs.

Lemma dir_cached_ok : srv_ok (H := mem_absfs) (hs_srv dir_cached).
Proof.
  unfold dir_cached, state_after.
  pose proof (wpp_handleQueryDirectory (H := mem_absfs) (H0 := ascii_tables) True (query_msg 0 0 "*") dir_hs
    dir_hs_ok dir_hs_dirs (or_intror I)) as Hq. unfold wpp in Hq.
  destruct (run_query _ dir_hs) as [[r h']|]; [|apply dir_hs_ok].
  destruct Hq as (D & w & -> & _). apply with_dirs_ok, dir_hs_ok.
Qed.

Lemma index_beyond_end_panics_witness :
  run_query (query_msg SMB2_INDEX_SPECIFIED 10 "*") dir_cached = Panic.
Proof.
  set (msg := query_msg SMB2_INDEX_SPECIFIED 10 "*").
  set (tree := mkTree 1 (str "data") 1 0 3 false).
  destruct (request_tree_inv (H := mem_absfs) dir_cached (m_Header msg) tree ltac:(by vm_compute)) as (p & s & Ht).
  assert (s_ID s = 42) as Hid.
  { destruct Ht as (Hv & Hs & _).
    destruct (ValidateSession_cases 42 _ (so_sessions _ dir_cached_ok)) as [E|(p' & s' & E & _ & Hs' & Hid & _)];
      change (h_SessionID (m_Header msg)) with 42 in Hv; rewrite E in Hv; [discriminate Hv|].
    injection Hv as ->. rewrite Hs' in Hs. injection Hs as <-. exact Hid. }
  assert (match srv_shareHeap (H := mem_absfs) (hs_srv dir_cached) !! 1%nat with
          | Some sh => match GetByTree opened_id 1 42 (sh_fileHandles sh) with
            | Some q => match deref (sh_fileHandles sh) q with
              | Some o => match srv_dirStates (hs_srv dir_cached) !! of_ID o with
                | Some d => of_IsDir o && (len (ds_entries d) =? 3) && bool_decide (ds_pattern d = [star])
                | None => false end
              | None => false end
            | None => false end
          | None => false end = true) as Hc by by vm_compute.
  destruct (srv_shareHeap (H := mem_absfs) (hs_srv dir_cached) !! 1%nat) as [sh|] eqn:Esh; [|discriminate Hc].
  destruct (GetByTree opened_id 1 42 (sh_fileHandles sh)) as [q|] eqn:Eq; [|discriminate Hc].
  destruct (deref (sh_fileHandles sh) q) as [o|] eqn:Eo; [|discriminate Hc].
  destruct (srv_dirStates (hs_srv dir_cached) !! of_ID o) as [d|] eqn:Ed; [|discriminate Hc].
  apply andb_true_iff in Hc as [[Hdir Hlen]%andb_true_iff Hpat].
  apply Z.eqb_eq in Hlen. apply bool_decide_eq_true in Hpat.
  apply (index_beyond_end_panics (H := mem_absfs) (H0 := ascii_tables) msg dir_cached
    (mkDirRequest FileNamesInformation SMB2_INDEX_SPECIFIED 10 opened_id 96 2 65536)
    (mkReader (m_Payload msg) 32) p s tree sh q o d).
  - exact dir_cached_ok.
  - exact Ht.
  - exact Esh.
  - by apply Z.leb_le; vm_compute.
  - by vm_compute.
  - rewrite Hid. exact Eq.
  - exact Eo.
  - exact Hdir.
  - exact Ed.
  - intros Hn. rewrite Hn in Hlen. discriminate Hlen.
  - rewrite Hpat. by vm_compute.
  - by vm_compute.
  - by vm_compute.
  - rewrite Hlen. by apply Z.ltb_lt; vm_compute.
Defined.
