(* ===== verification/Info.v ===== *)
(** * QUERY_INFO and SET_INFO

    Models [smb2_info.go]: the information structures a client can ask for,
    and the four file properties it can set (times and attributes, delete on
    close, name, size). *)

From stdpp Require Import base numbers list gmap strings.
From S2P Require Import Prelude Unicode Constants Types Wire Path Errors HandleMap Attributes Sessions Absfs.
From S2P Require Import Server FileOps.

Open Scope Z_scope.

(** ** Information structures *)

(** [allocationSize := uint64(info.Size())], rounded up to whole 4 KB units
    when positive: three of the builders have these lines. *)
Definition info_allocation (size : Z) : Z :=
  let allocationSize := u64 size in
  if 0 <? allocationSize then u64 (u64 (allocationSize + 4095) / 4096 * 4096) else allocationSize.

(** The creation time (the current time), then the modification time for
    the other three. *)
Definition write_info_times (now : Z) (info : FileInfo) (w : ByteWriter) : ByteWriter :=
  let t := TimeToFiletime (fi_ModTime info) in
  w |> WriteUint64 (TimeToFiletime now) |> WriteUint64 t |> WriteUint64 t |> WriteUint64 t.

(** The fields of [FileStandardInformation], written by two builders. *)
Definition write_standard (info : FileInfo) (w : ByteWriter) : ByteWriter :=
  w |> WriteUint64 (info_allocation (fi_Size info)) |> WriteUint64 (u64 (fi_Size info))
    |> WriteUint32 1 |> WriteOneByte 0 |> WriteOneByte (if fi_IsDir info then 1 else 0) |> WriteUint16 0.

Definition buildFileStandardInformation (info : FileInfo) : bytes :=
  NewByteWriter |> write_standard info |> Bytes.

Definition buildFileFsSizeInformation : bytes :=
  let totalUnits := 1024 * 1024 * 256 in
  let availableUnits := 1024 * 1024 * 128 in
  NewByteWriter |> WriteUint64 totalUnits |> WriteUint64 availableUnits |> WriteUint32 8 |> WriteUint32 512 |> Bytes.

Definition FILE_CASE_PRESERVED_NAMES : Z := 0x00000002.
Definition FILE_UNICODE_ON_DISK : Z := 0x00000004.
Definition FILE_PERSISTENT_ACLS : Z := 0x00000008.

Definition buildFileFsAttributeInformation : bytes :=
  let fsNameBytes := EncodeStringToUTF16LE (str "SMBFS") in
  let attrs := Z.lor FILE_CASE_PRESERVED_NAMES (Z.lor FILE_UNICODE_ON_DISK FILE_PERSISTENT_ACLS) in
  NewByteWriter
  |> WriteUint32 attrs |> WriteUint32 255 |> WriteUint32 (u32 (len fsNameBytes)) |> WriteBytes fsNameBytes |> Bytes.

Definition buildFileFsFullSizeInformation : bytes :=
  let totalUnits := 1024 * 1024 * 256 in
  let availableUnits := 1024 * 1024 * 128 in
  NewByteWriter
  |> WriteUint64 totalUnits |> WriteUint64 availableUnits |> WriteUint64 availableUnits
  |> WriteUint32 8 |> WriteUint32 512 |> Bytes.

(** ** Requests *)

Record QueryInfoRequest := mkQueryInfo {
  qi_infoType : Z;
  qi_fileInfoClass : Z;
  qi_outputBufferLength : Z;
  qi_fileID : FileID;
}.

Definition parse_query_info : M ByteReader (option QueryInfoRequest) :=
  structSize ← ReadUint16;
  if negb (structSize =? 41) then mret None
  else
    infoType ← ReadOneByte;
    fileInfoClass ← ReadOneByte;
    outputBufferLength ← ReadUint32;
    inputBufferOffset ← ReadUint16;
    reserved ← ReadUint16;
    inputBufferLength ← ReadUint32;
    additionalInfo ← ReadUint32;
    flags ← ReadUint32;
    fileID ← ReadFileID;
    mret (Some (mkQueryInfo infoType fileInfoClass outputBufferLength fileID)).

Record SetInfoRequest := mkSetInfo {
  si_infoType : Z;
  si_fileInfoClass : Z;
  si_bufferLength : Z;
  si_bufferOffset : Z;
  si_fileID : FileID;
}.

Definition parse_set_info : M ByteReader (option SetInfoRequest) :=
  structSize ← ReadUint16;
  if negb (structSize =? 33) then mret None
  else
    infoType ← ReadOneByte;
    fileInfoClass ← ReadOneByte;
    bufferLength ← ReadUint32;
    bufferOffset ← ReadUint16;
    reserved ← ReadUint16;
    additionalInfo ← ReadUint32;
    fileID ← ReadFileID;
    mret (Some (mkSetInfo infoType fileInfoClass bufferLength bufferOffset fileID)).

(** The last write time and the attributes of [FileBasicInformation]. *)
Definition parse_basic : M ByteReader (Z * Z) :=
  creationTime ← ReadUint64;
  lastAccessTime ← ReadUint64;
  lastWriteTime ← ReadUint64;
  changeTime ← ReadUint64;
  fileAttributes ← ReadUint32;
  mret (lastWriteTime, fileAttributes).

(** [None]: the name does not fit the buffer. *)
Definition parse_rename : M ByteReader (option (Z * gostring)) :=
  replaceIfExists ← ReadOneByte;
  reserved ← ReadBytes 7;
  rootDirectory ← ReadUint64;
  fileNameLength ← ReadUint32;
  remaining ← gets Remaining;
  if remaining <? fileNameLength then mret None
  else
    newName ← ReadUTF16String fileNameLength;
    mret (Some (replaceIfExists, newName)).

Section info.
Context `{Absfs}.

(** ** QUERY_INFO *)

Definition buildFileBasicInformation (info : FileInfo) (attrs : Z) : M HS bytes :=
  now ← time_Now;
  mret (NewByteWriter |> write_info_times now info |> WriteUint32 attrs |> WriteUint32 0 |> Bytes).

Definition buildFileInternalInformation (o : OpenFile File) : bytes :=
  NewByteWriter |> WriteUint64 (Volatile (of_ID o)) |> Bytes.

(** [pos, _ = seeker.Seek(0, 1)], 0 when the file is not a seeker. *)
Definition file_position (o : OpenFile File) : M HS Z :=
  f ← the_file o;
  match f_Seek f with
  | Some seek => r ← io (seek 0 1); mret r.1
  | None => mret 0
  end.

Definition buildFileAllInformation (o : OpenFile File) (info : FileInfo) (attrs : Z) : M HS bytes :=
  now ← time_Now;
  pos ← file_position o;
  let nameBytes := EncodeStringToUTF16LE (Base (of_Path o)) in
  mret (NewByteWriter
    |> write_info_times now info |> WriteUint32 attrs |> WriteUint32 0
    |> write_standard info
    |> WriteUint64 (Volatile (of_ID o))
    |> WriteUint32 0
    |> WriteUint32 (of_Access o)
    |> WriteUint64 (u64 pos)
    |> WriteUint32 0
    |> WriteUint32 0
    |> WriteUint32 (u32 (len nameBytes)) |> WriteBytes nameBytes |> Bytes).

Definition buildFileNetworkOpenInformation (info : FileInfo) (attrs : Z) : M HS bytes :=
  now ← time_Now;
  mret (NewByteWriter
    |> write_info_times now info
    |> WriteUint64 (info_allocation (fi_Size info)) |> WriteUint64 (u64 (fi_Size info))
    |> WriteUint32 attrs |> WriteUint32 0 |> Bytes).

(** The buffer and the status; the nil buffer of the errors is empty. *)
Definition queryFileInfo (o : OpenFile File) (fileInfoClass : Z) : M HS reply :=
  let done (m : M HS bytes) : M HS reply := b ← m; mret (b, STATUS_SUCCESS) in
  f ← the_file o;
  info ← io (f_Stat f);
  match info with
  | inr _ => mret ([], STATUS_NO_SUCH_FILE)
  | inl info =>
    let attrs := modeToAttributes (fi_Mode info) in
    if fileInfoClass =? FileBasicInformation then done (buildFileBasicInformation info attrs)
    else if fileInfoClass =? FileStandardInformation then mret (buildFileStandardInformation info, STATUS_SUCCESS)
    else if fileInfoClass =? FileInternalInformation then mret (buildFileInternalInformation o, STATUS_SUCCESS)
    else if fileInfoClass =? FileEaInformation then mret (NewByteWriter |> WriteUint32 0 |> Bytes, STATUS_SUCCESS)
    else if fileInfoClass =? FileAccessInformation then
      mret (NewByteWriter |> WriteUint32 (of_Access o) |> Bytes, STATUS_SUCCESS)
    else if fileInfoClass =? FilePositionInformation then
      done (pos ← file_position o; mret (NewByteWriter |> WriteUint64 (u64 pos) |> Bytes))
    else if fileInfoClass =? FileAllInformation then done (buildFileAllInformation o info attrs)
    else if fileInfoClass =? FileNetworkOpenInformation then done (buildFileNetworkOpenInformation info attrs)
    else if fileInfoClass =? FileAttributeTagInformation then
      mret (NewByteWriter |> WriteUint32 attrs |> WriteUint32 0 |> Bytes, STATUS_SUCCESS)
    else mret ([], STATUS_NOT_SUPPORTED)
  end.

Definition buildFileFsVolumeInformation : M HS bytes :=
  let labelBytes := EncodeStringToUTF16LE (str "SMB Share") in
  now ← time_Now;
  mret (NewByteWriter
    |> WriteUint64 (TimeToFiletime now) |> WriteUint32 0x12345678 |> WriteUint32 (u32 (len labelBytes))
    |> WriteOneByte 0 |> WriteOneByte 0 |> WriteBytes labelBytes |> Bytes).

Definition queryFilesystemInfo (fileInfoClass : Z) : M HS reply :=
  if fileInfoClass =? FileFsVolumeInformation then b ← buildFileFsVolumeInformation; mret (b, STATUS_SUCCESS)
  else if fileInfoClass =? FileFsSizeInformation then mret (buildFileFsSizeInformation, STATUS_SUCCESS)
  else if fileInfoClass =? FileFsAttributeInformation then mret (buildFileFsAttributeInformation, STATUS_SUCCESS)
  else if fileInfoClass =? FileFsFullSizeInformation then mret (buildFileFsFullSizeInformation, STATUS_SUCCESS)
  else mret ([], STATUS_NOT_SUPPORTED).

Definition query_info_response (buffer : bytes) : bytes :=
  NewByteWriter
  |> WriteUint16 9 |> WriteUint16 (u16 (SMB2HeaderSize + 8)) |> WriteUint32 (u32 (len buffer))
  |> WriteBytes buffer |> Bytes.

(** After the switch: errors, truncation to the client's buffer. *)
Definition finish_query_info (outputBufferLength : Z) (result : reply) : M HS reply :=
  let '(buffer, status) := result in
  if negb (status =? STATUS_SUCCESS) then fail status
  else if outputBufferLength <? u32 (len buffer) then
    buffer ← lift_option (slice buffer 0 outputBufferLength);
    mret (query_info_response buffer, STATUS_BUFFER_OVERFLOW)
  else mret (query_info_response buffer, status).

Definition handleQueryInfo (msg : SMB2Message) : M HS reply :=
  with_tree (m_Header msg) (λ _ session tree,
  with_request 40 (m_Payload msg) parse_query_info (λ req,
  with_open (qi_fileID req) session tree (λ p o,
    touch tree (qi_fileID req);;
    if qi_infoType req =? SMB2_0_INFO_FILE then
      r ← queryFileInfo o (qi_fileInfoClass req); finish_query_info (qi_outputBufferLength req) r
    else if qi_infoType req =? SMB2_0_INFO_FILESYSTEM then
      r ← queryFilesystemInfo (qi_fileInfoClass req); finish_query_info (qi_outputBufferLength req) r
    else if qi_infoType req =? SMB2_0_INFO_SECURITY then fail STATUS_NOT_SUPPORTED
    else if qi_infoType req =? SMB2_0_INFO_QUOTA then fail STATUS_NOT_SUPPORTED
    else fail STATUS_INVALID_PARAMETER))).

(** ** SET_INFO *)

Definition setFileBasicInformation (o : OpenFile File) (buffer : bytes) : M HS Z :=
  if len buffer <? 40 then mret STATUS_INVALID_PARAMETER
  else
    '(lastWriteTime, fileAttributes) ← with_local (NewByteReader buffer) parse_basic;
    f ← the_file o;
    err ← (if negb (lastWriteTime =? 0) && negb (lastWriteTime =? 0xFFFFFFFFFFFFFFFF) then
             let modTime := FiletimeToTime lastWriteTime in
             match f_Chtimes f with
             | Some chtimes => io (chtimes modTime modTime)
             | None => mret None
             end
           else mret None);
    match err with
    | Some _ => mret STATUS_ACCESS_DENIED
    | None =>
      ignored ← (if negb (fileAttributes =? 0) && negb (fileAttributes =? 0xFFFFFFFF) then
                   let mode := attributesToMode fileAttributes (of_IsDir o) in
                   match f_Chmod f with
                   | Some chmod => io (chmod mode)
                   | None => mret None
                   end
                 else mret None);
      mret STATUS_SUCCESS
    end.

(** [share]: the share's pointer. *)
Definition setFileDispositionInformation (share : ptr) (o : OpenFile File) (buffer : bytes) : M HS Z :=
  match buffer with
  | [] => mret STATUS_INVALID_PARAMETER
  | b :: _ =>
    let deleteOnClose := negb (Z_of_byte b =? 0) in
    m ← handles_of share;
    set_handles share (SetDeleteOnClose (of_ID o) deleteOnClose m);;
    mret STATUS_SUCCESS
  end.

(** [p]: the handle's pointer, through which [of.Path] is assigned. *)
Definition setFileRenameInformation (share p : ptr) (o : OpenFile File) (buffer : bytes) : M HS Z :=
  if len buffer <? 20 then mret STATUS_INVALID_PARAMETER
  else
    req ← with_local (NewByteReader buffer) parse_rename;
    match req with
    | None => mret STATUS_INVALID_PARAMETER
    | Some (replaceIfExists, newName) =>
      let newPath := Join [Dir (of_Path o); newName] in
      fs ← the_fs share;
      info ← io (fs_Stat fs newPath);
      if match info with inl _ => replaceIfExists =? 0 | inr _ => false end
      then mret STATUS_OBJECT_NAME_COLLISION
      else
        match fs_Rename fs with
        | Some rename =>
          err ← io (rename (of_Path o) newPath);
          match err with
          | Some e => mret (if os_IsNotExist e then STATUS_OBJECT_NAME_NOT_FOUND else STATUS_ACCESS_DENIED)
          | None =>
            m ← handles_of share;
            set_handles share (update p (set_Path newPath) m);;
            mret STATUS_SUCCESS
          end
        | None => mret STATUS_NOT_SUPPORTED
        end
    end.

Definition setFileEndOfFileInformation (o : OpenFile File) (buffer : bytes) : M HS Z :=
  if len buffer <? 8 then mret STATUS_INVALID_PARAMETER
  else
    endOfFile ← with_local (NewByteReader buffer) ReadUint64;
    f ← the_file o;
    match f_Truncate f with
    | Some truncate =>
      err ← io (truncate (s64 endOfFile));
      mret (match err with Some _ => STATUS_ACCESS_DENIED | None => STATUS_SUCCESS end)
    | None => mret STATUS_NOT_SUPPORTED
    end.

Definition setFileInfo (share p : ptr) (o : OpenFile File) (fileInfoClass : Z) (buffer : bytes) : M HS Z :=
  if fileInfoClass =? FileBasicInformation then setFileBasicInformation o buffer
  else if fileInfoClass =? FileDispositionInformation then setFileDispositionInformation share o buffer
  else if fileInfoClass =? FileRenameInformation then setFileRenameInformation share p o buffer
  else if fileInfoClass =? FileEndOfFileInformation then setFileEndOfFileInformation o buffer
  else mret STATUS_NOT_SUPPORTED.

Definition handleSetInfo (msg : SMB2Message) : M HS reply :=
  with_tree (m_Header msg) (λ _ session tree,
  with_request 32 (m_Payload msg) parse_set_info (λ req,
  with_open (si_fileID req) session tree (λ p o,
    if t_IsReadOnly tree then fail STATUS_ACCESS_DENIED
    else
      touch tree (si_fileID req);;
      with_buffer (si_bufferOffset req) (si_bufferLength req) (m_Payload msg) (λ buffer,
        if si_infoType req =? SMB2_0_INFO_FILE then
          status ← setFileInfo (t_Share tree) p o (si_fileInfoClass req) buffer;
          if negb (status =? STATUS_SUCCESS) then fail status
          else mret (NewByteWriter |> WriteUint16 2 |> Bytes, STATUS_SUCCESS)
        else if si_infoType req =? SMB2_0_INFO_FILESYSTEM then fail STATUS_NOT_SUPPORTED
        else if si_infoType req =? SMB2_0_INFO_SECURITY then fail STATUS_NOT_SUPPORTED
        else if si_infoType req =? SMB2_0_INFO_QUOTA then fail STATUS_NOT_SUPPORTED
        else fail STATUS_INVALID_PARAMETER)))).
End info.

(* ------------------------------------------------------------------ *)
(** ** Lemmas: parsing and sizes *)

Lemma parse_query_info_good : parses parse_query_info (λ req, 0 ≤ qi_outputBufferLength req).
Proof.
  intros P payload. unfold parse_query_info. wp_parse; [done|].
  intros r [= <-]. simpl. lia.
Qed.

Lemma parse_set_info_good : parses parse_set_info (λ req, 0 ≤ si_bufferLength req).
Proof.
  intros P payload. unfold parse_set_info. wp_parse; [done|].
  intros r [= <-]. simpl. lia.
Qed.

#[export] Hint Resolve parse_query_info_good parse_set_info_good : smb.

Lemma parse_rename_total P buffer : wpp P parse_rename (λ _ _, True) (NewByteReader buffer).
Proof.
  unfold parse_rename. wp_parse. eapply wpp_ReadBytes; [r_inv_tac|lia|]. intros ? ? ?. wp_parse.
  apply wpp_gets. wp_parse; [done|]. unfold ReadUTF16String. apply wpp_bind.
  eapply wpp_ReadBytes; [r_inv_tac|lia|]. intros. by apply wpp_ret, wpp_ret.
Qed.

Lemma parse_basic_eq buffer :
  40 ≤ len buffer →
  ∃ rd, parse_basic (NewByteReader buffer) = Ok ((le_get (sub buffer 16 8), le_get (sub buffer 32 4)), rd).
Proof.
  intros Hl. unfold parse_basic, ReadUint64, ReadUint32. m_simpl.
  assert (∀ n pos, 0 ≤ pos → pos + Z.of_nat n ≤ 40 →
    ReadUint n (mkReader buffer pos) = Ok (le_get (sub buffer (Z.to_nat pos) n), mkReader buffer (pos + Z.of_nat n))) as Hr.
  { intros n pos Hp Hn. rewrite ReadUint_in; [done| |simpl; lia]. unfold reader_ok. simpl. lia. }
  unfold NewByteReader. rewrite Hr by lia. rewrite Hr by lia. rewrite Hr by lia. rewrite Hr by lia. rewrite Hr by lia.
  by eexists.
Qed.

(** The allocation size of a file: the least multiple of 4096 that holds it. *)
Lemma info_allocation_spec size :
  0 ≤ size < 2 ^ 63 → size ≤ info_allocation size < size + 4096 ∧ info_allocation size mod 4096 = 0.
Proof.
  intros Hs. unfold info_allocation, u64. rewrite (Z.mod_small size) by lia.
  destruct (Z.ltb_spec 0 size); [|split; [lia|]; by replace size with 0 by lia].
  rewrite (Z.mod_small (size + 4095)) by lia.
  assert (size ≤ (size + 4095) / 4096 * 4096 < size + 4096) as Hb by (Z.to_euclidean_division_equations; lia).
  rewrite Z.mod_small by lia. split; [done|]. apply Z.mod_mul. lia.
Qed.

(** The mask of CREATE rounds the same way. *)
Lemma allocation_sizes_agree size :
  0 ≤ size < 2 ^ 63 - 4095 → u64 (allocation_size size) = info_allocation size.
Proof.
  intros Hs. unfold allocation_size, andnot. rewrite s64_small by lia.
  change 4095 with (Z.ones 12) at 2. rewrite Z.ldiff_ones_r, Z.shiftl_mul_pow2, Z.shiftr_div_pow2 by lia.
  unfold info_allocation, u64. rewrite (Z.mod_small size), (Z.mod_small (size + 4095)) by lia.
  change (2 ^ 12) with 4096.
  destruct (Z.ltb_spec 0 size); [done|]. by replace size with 0 by lia.
Qed.

(** Where a structure holds the allocation size; the size follows. *)
Definition size_offset (fileInfoClass : Z) : option nat :=
  if fileInfoClass =? FileStandardInformation then Some 0%nat
  else if fileInfoClass =? FileAllInformation then Some 40%nat
  else if fileInfoClass =? FileNetworkOpenInformation then Some 32%nat
  else None.

Section info_lemmas.
Context `{Absfs}.

Lemma wpp_file_position P o f (Q : Z → HS → Prop) h :
  of_File o = Some f → (∀ pos w, ro (hs_w h) w → Q pos (set_w w h)) → wpp P (file_position o) Q h.
Proof.
  intros Hf HQ. unfold file_position. apply wpp_bind. eapply wpp_the_file; [done|].
  destruct (f_Seek f) as [seek|] eqn:Es.
  - apply wpp_bind, wpp_io. intros r w E. apply wpp_ret, HQ, rtc_once.
    replace w with (seek 0 1 (hs_w h)).2 by (by rewrite E). by eapply ro_f_Seek.
  - apply wpp_ret. rewrite <-(set_w_id h). apply HQ, rtc_refl.
Qed.

Lemma wpp_time_Now P (Q : Z → HS → Prop) h :
  (∀ now w, ro (hs_w h) w → Q now (set_w w h)) → wpp P time_Now Q h.
Proof. intros HQ. apply wpp_io. intros now w E. apply HQ. by apply (ro_w_now _ now). Qed.

(** The sizes a reply carries are those [Stat] returned. *)
Definition reports_sizes (cls : Z) (info : FileInfo) (b : bytes) : Prop :=
  ∀ off, size_offset cls = Some off →
    sub b off 8 = le_put 8 (info_allocation (fi_Size info)) ∧ sub b (off + 8) 8 = le_put 8 (u64 (fi_Size info)).

Ltac reports :=
  intros off Hoff; vm_compute in Hoff; first [discriminate Hoff|injection Hoff as <-];
  unfold buildFileStandardInformation, write_info_times, write_standard, Bytes, NewByteWriter, WriteUint64,
    WriteUint32, WriteUint16, WriteOneByte; cbn [le_put app]; by split.

Lemma wpp_queryFileInfo P o f cls h :
  of_File o = Some f →
  wpp P (queryFileInfo o cls) (λ r h', ∃ w, h' = set_w w h ∧ ro (hs_w h) w
    ∧ (r.2 = STATUS_SUCCESS → ∃ info, (f_Stat f (hs_w h)).1 = inl info ∧ reports_sizes cls info r.1)) h.
Proof.
  intros Hf. unfold queryFileInfo. apply wpp_bind. eapply wpp_the_file; [done|].
  apply wpp_bind, wpp_io. intros info w E.
  assert (ro (hs_w h) w) as Hro.
  { apply rtc_once. replace w with (f_Stat f (hs_w h)).2 by (by rewrite E). constructor. }
  rewrite E. simpl. destruct info as [info|e]; [|apply wpp_ret; exists w; by split_and!].
  assert (∀ b w', ro w w' → reports_sizes cls info b →
    ∃ w0, set_w w' (set_w w h) = set_w w0 h ∧ ro (hs_w h) w0
      ∧ (STATUS_SUCCESS = STATUS_SUCCESS → ∃ i, @inl FileInfo error info = inl i ∧ reports_sizes cls i b)) as Hdone.
  { intros b w' Hw' Hr. exists w'. split; [done|]. split; [by etrans|eauto]. }
  assert (∀ b, reports_sizes cls info b →
    ∃ w0, set_w w h = set_w w0 h ∧ ro (hs_w h) w0
      ∧ (STATUS_SUCCESS = STATUS_SUCCESS → ∃ i, @inl FileInfo error info = inl i ∧ reports_sizes cls i b)) as Hnow
    by (intros b Hr; exists w; split_and!; [done|done|eauto]).
  repeat match goal with
  | |- wpp _ (if cls =? ?c then _ else _) _ _ => destruct (Z.eqb_spec cls c) as [->|?]
  | |- wpp _ (mret (_, STATUS_SUCCESS)) _ _ => apply wpp_ret, Hnow; first [reports|done]
  | |- wpp _ (mret _) _ _ => apply wpp_ret; exists w; by split_and!
  end.
  - unfold buildFileBasicInformation. apply wpp_bind, wpp_bind, wpp_time_Now. intros now w1 Hw1.
    apply wpp_ret, wpp_ret, Hdone; [done|reports].
  - apply wpp_bind, wpp_bind. eapply wpp_file_position; [done|]. intros pos w1 Hw1.
    apply wpp_ret, wpp_ret, Hdone; [done|reports].
  - unfold buildFileAllInformation. apply wpp_bind, wpp_bind, wpp_time_Now. intros now w1 Hw1.
    apply wpp_bind. eapply wpp_file_position; [done|]. intros pos w2 Hw2. simpl in Hw1, Hw2.
    apply wpp_ret, wpp_ret. apply (Hdone _ w2); [by etrans|reports].
  - unfold buildFileNetworkOpenInformation. apply wpp_bind, wpp_bind, wpp_time_Now. intros now w1 Hw1.
    apply wpp_ret, wpp_ret, Hdone; [done|reports].
Qed.

Lemma wpp_queryFilesystemInfo P cls h :
  wpp P (queryFilesystemInfo cls) (λ r h', ∃ w, h' = set_w w h ∧ ro (hs_w h) w) h.
Proof.
  unfold queryFilesystemInfo, buildFileFsVolumeInformation.
  assert (∃ w, h = set_w w h ∧ ro (hs_w h) w) as Hnow
    by (exists (hs_w h); split; [by rewrite set_w_id|apply rtc_refl]).
  repeat match goal with
  | |- wpp _ (if cls =? ?c then _ else _) _ _ => destruct (cls =? c)
  | |- wpp _ (mret _) _ _ => by apply wpp_ret
  end.
  apply wpp_bind, wpp_bind, wpp_time_Now. intros now w Hw. apply wpp_ret, wpp_ret. eauto.
Qed.

(** The state after the access time of a handle was refreshed. *)
Definition touched (t : TreeConnection) (id : FileID) (sh : Share) (h h1 : HS) : Prop :=
  ∃ now w, w_now (hs_w h) = (now, w)
    ∧ h1 = put_handles (t_Share t) (UpdateLastAccess now id (sh_fileHandles sh)) (set_w w h).

(** The handle a request designates. *)
Definition designates (h : HS) (header : SMB2Header) (id : FileID) (t : TreeConnection) (sh : Share)
    (q : ptr) (o : OpenFile File) (f : File) : Prop :=
  ∃ p s, tree_of h header p s t ∧ srv_shareHeap (hs_srv h) !! t_Share t = Some sh
    ∧ GetByTree id (t_ID t) (s_ID s) (sh_fileHandles sh) = Some q ∧ deref (sh_fileHandles sh) q = Some o
    ∧ of_File o = Some f ∧ of_ID o = id.

(** A reply of QUERY_INFO that is not an error. *)
Definition info_reply (req : QueryInfoRequest) (full : bytes) (r : reply) : Prop :=
  r = if qi_outputBufferLength req <? u32 (len full)
      then (query_info_response (take (Z.to_nat (qi_outputBufferLength req)) full), STATUS_BUFFER_OVERFLOW)
      else (query_info_response full, STATUS_SUCCESS).

Definition queried (h : HS) (msg : SMB2Message) (r : reply) : Prop :=
  ∃ req rd t sh q o f h1 full,
    parse_query_info (NewByteReader (m_Payload msg)) = Ok (Some req, rd)
    ∧ designates h (m_Header msg) (qi_fileID req) t sh q o f ∧ touched t (qi_fileID req) sh h h1
    ∧ info_reply req full r
    ∧ (qi_infoType req = SMB2_0_INFO_FILE →
         ∃ info, (f_Stat f (hs_w h1)).1 = inl info ∧ reports_sizes (qi_fileInfoClass req) info full).

Lemma wpp_finish_query_info P req (result : reply) (Q : reply → HS → Prop) h :
  0 ≤ qi_outputBufferLength req →
  (∀ st, st ≠ STATUS_SUCCESS → Q (buildErrorResponse, st) h) →
  (∀ r, result.2 = STATUS_SUCCESS → info_reply req result.1 r → Q r h) →
  wpp P (finish_query_info (qi_outputBufferLength req) result) Q h.
Proof.
  intros Hn Herr HQ. unfold finish_query_info. destruct result as [full st]. simpl in HQ.
  destruct (Z.eqb_spec st STATUS_SUCCESS) as [->|Hne]; cbn [negb]; [|by apply Herr].
  unfold info_reply in HQ. specialize (HQ _ eq_refl eq_refl).
  destruct (Z.ltb_spec (qi_outputBufferLength req) (u32 (len full))) as [Hlt|]; [|done].
  assert (u32 (len full) ≤ len full) by (pose proof (len_nonneg full); unfold u32; Z.to_euclidean_division_equations; lia).
  apply wpp_bind, wpp_lift; [rewrite slice_None; lia|]. intros b Hb.
  assert (b = take (Z.to_nat (qi_outputBufferLength req)) full) as ->; [|done].
  rewrite slice_ok in Hb by lia. injection Hb as <-. by rewrite Z.sub_0_r.
Qed.

Lemma wpp_handleQueryInfo P msg h :
  srv_ok (hs_srv h) →
  wpp P (handleQueryInfo msg) (λ r h', srv_ok (hs_srv h') ∧ ro (hs_w h) (hs_w h')
    ∧ (r.1 = buildErrorResponse ∧ r.2 ≠ STATUS_SUCCESS ∨ queried h msg r)) h.
Proof.
  intros Hok. unfold handleQueryInfo.
  assert (∀ st h', st ≠ STATUS_SUCCESS → srv_ok (hs_srv h') → ro (hs_w h) (hs_w h') →
    srv_ok (hs_srv h') ∧ ro (hs_w h) (hs_w h')
    ∧ ((buildErrorResponse, st).1 = buildErrorResponse ∧ (buildErrorResponse, st).2 ≠ STATUS_SUCCESS
       ∨ queried h msg (buildErrorResponse, st))) as Hrf by (intros; split_and!; auto).
  assert (ro (hs_w h) (hs_w h)) as Hrefl by apply rtc_refl.
  apply wpp_with_tree; [done|by apply Hrf..|]. intros p s t Ht Hid [sh Hsh].
  apply wpp_with_request; [eapply parses_total; auto with smb|by apply Hrf|].
  intros req rd _ Hparse. pose proof (parses_ok _ _ _ _ _ parse_query_info_good Hparse) as Hl.
  eapply wpp_with_open; [done|exact Hsh|by intros; apply Hrf|].
  intros q o f Hget Hq Ho Hoid Hot Hos Hf Hfs.
  apply wpp_bind. eapply wpp_touch; [exact Hsh|]. intros now w Hn.
  pose proof (srv_ok_touch now (qi_fileID req) (t_Share t) w sh h Hok Hsh) as Hok'.
  pose proof (ro_w_now _ _ _ Hn) as Hro.
  set (h1 := put_handles (t_Share t) (UpdateLastAccess now (qi_fileID req) (sh_fileHandles sh)) (set_w w h)) in *.
  assert (∀ full r, info_reply req full r →
    (qi_infoType req = SMB2_0_INFO_FILE →
       ∃ info, (f_Stat f (hs_w h1)).1 = inl info ∧ reports_sizes (qi_fileInfoClass req) info full) →
    queried h msg r) as Hq'.
  { intros full r Hr Hi. exists req, rd, t, sh, q, o, f, h1, full. split_and!; [done| |by exists now, w|done|done].
    by exists p, s. }
  destruct (Z.eqb_spec (qi_infoType req) SMB2_0_INFO_FILE) as [Hty|Hty].
  { apply wpp_bind. eapply wpp_mono; [by eapply wpp_queryFileInfo|]. intros r h2 (w2 & -> & Hro2 & Hinfo).
    assert (ro (hs_w h) w2) by (by etrans). apply wpp_finish_query_info; [done|intros; by apply Hrf|].
    intros r' Hs Hr. split_and!; [done|done|right]. by eapply Hq'; [|intros _; apply Hinfo]. }
  destruct (Z.eqb_spec (qi_infoType req) SMB2_0_INFO_FILESYSTEM).
  { apply wpp_bind. eapply wpp_mono; [apply wpp_queryFilesystemInfo|]. intros r h2 (w2 & -> & Hro2).
    assert (ro (hs_w h) w2) by (by etrans). apply wpp_finish_query_info; [done|intros; by apply Hrf|].
    intros r' Hs Hr. split_and!; [done|done|right]. by eapply Hq'. }
  by repeat case_match; apply Hrf.
Qed.

Lemma frames_handleQueryInfo msg : frames (handleQueryInfo msg).
Proof.
  unfold handleQueryInfo, queryFileInfo, queryFilesystemInfo, finish_query_info, buildFileBasicInformation,
    buildFileAllInformation, buildFileNetworkOpenInformation, buildFileFsVolumeInformation, file_position,
    the_file, time_Now.
  frames_tac.
Qed.
End info_lemmas.

(* ------------------------------------------------------------------ *)
(** ** SET_INFO *)

Section set_info.
Context `{Absfs}.

(** A call that is made only if [c] holds and the object has the method. *)
Definition optional_call (c : bool) (op : option (World → option error * World)) (w : World) : option error * World :=
  if c then match op with Some g => g w | None => (None, w) end else (None, w).

(** The fields of [FileBasicInformation] that are used: the last write time at
    offset 16 and the attributes at 32; 0 and all ones leave them as they are. *)
Definition set_times (f : File) (buffer : bytes) : World → option error * World :=
  let t := le_get (sub buffer 16 8) in
  optional_call (negb (t =? 0) && negb (t =? 0xFFFFFFFFFFFFFFFF))
    ((λ chtimes, chtimes (FiletimeToTime t) (FiletimeToTime t)) <$> f_Chtimes f).

Definition set_mode (f : File) (isDir : bool) (buffer : bytes) : World → option error * World :=
  let a := le_get (sub buffer 32 4) in
  optional_call (negb (a =? 0) && negb (a =? 0xFFFFFFFF))
    ((λ chmod, chmod (attributesToMode a isDir)) <$> f_Chmod f).

(** What a successful SET_INFO does, by information class: the handle map of
    the share and the calls into the file system, in order. *)
Inductive set_effect (share q : ptr) (sh : Share) (fs : FS) (o : OpenFile File) (f : File)
    (buffer : bytes) (h : HS) : Z → HS → Prop :=
| set_basic w1 e w2 :
    40 ≤ len buffer → set_times f buffer (hs_w h) = (None, w1) → set_mode f (of_IsDir o) buffer w1 = (e, w2) →
    set_effect share q sh fs o f buffer h FileBasicInformation (set_w w2 h)
| set_disposition b rest :
    buffer = b :: rest →
    set_effect share q sh fs o f buffer h FileDispositionInformation
      (put_handles share (SetDeleteOnClose (of_ID o) (negb (Z_of_byte b =? 0)) (sh_fileHandles sh)) h)
| set_rename replace newName rd info w1 rename w2 :
    parse_rename (NewByteReader buffer) = Ok (Some (replace, newName), rd) →
    fs_Stat fs (Join [Dir (of_Path o); newName]) (hs_w h) = (info, w1) →
    (replace = 0 → ∃ e, info = inr e) →
    fs_Rename fs = Some rename →
    rename (of_Path o) (Join [Dir (of_Path o); newName]) w1 = (None, w2) →
    set_effect share q sh fs o f buffer h FileRenameInformation
      (put_handles share (update q (set_Path (Join [Dir (of_Path o); newName])) (sh_fileHandles sh)) (set_w w2 h))
| set_end_of_file truncate w :
    8 ≤ len buffer → f_Truncate f = Some truncate →
    truncate (s64 (le_get (take 8 buffer))) (hs_w h) = (None, w) →
    set_effect share q sh fs o f buffer h FileEndOfFileInformation (set_w w h).

(** The calls a refused SET_INFO has made when it gives up, and its status:
    none, or one that fails (for a rename after the Stat of the target). *)
Inductive set_failure (fs : FS) (o : OpenFile File) (f : File) (buffer : bytes) (w : World) : Z → Z → World → Prop :=
| no_call cls st :
    st = STATUS_INVALID_PARAMETER ∨ st = STATUS_NOT_SUPPORTED → set_failure fs o f buffer w cls st w
| chtimes_fails e w1 :
    set_times f buffer w = (Some e, w1) →
    set_failure fs o f buffer w FileBasicInformation STATUS_ACCESS_DENIED w1
| target_exists newName rd info w1 :
    parse_rename (NewByteReader buffer) = Ok (Some (0, newName), rd) →
    fs_Stat fs (Join [Dir (of_Path o); newName]) w = (inl info, w1) →
    set_failure fs o f buffer w FileRenameInformation STATUS_OBJECT_NAME_COLLISION w1
| cannot_rename replace newName rd info w1 :
    parse_rename (NewByteReader buffer) = Ok (Some (replace, newName), rd) →
    fs_Stat fs (Join [Dir (of_Path o); newName]) w = (info, w1) → fs_Rename fs = None →
    set_failure fs o f buffer w FileRenameInformation STATUS_NOT_SUPPORTED w1
| rename_fails replace newName rd info w1 rename e w2 :
    parse_rename (NewByteReader buffer) = Ok (Some (replace, newName), rd) →
    fs_Stat fs (Join [Dir (of_Path o); newName]) w = (info, w1) → (replace = 0 → ∃ e, info = inr e) →
    fs_Rename fs = Some rename → rename (of_Path o) (Join [Dir (of_Path o); newName]) w1 = (Some e, w2) →
    set_failure fs o f buffer w FileRenameInformation
      (if os_IsNotExist e then STATUS_OBJECT_NAME_NOT_FOUND else STATUS_ACCESS_DENIED) w2
| truncate_fails truncate e w1 :
    8 ≤ len buffer → f_Truncate f = Some truncate →
    truncate (s64 (le_get (take 8 buffer))) w = (Some e, w1) →
    set_failure fs o f buffer w FileEndOfFileInformation STATUS_ACCESS_DENIED w1.

Lemma set_failure_error fs o f buffer w cls st w' :
  set_failure fs o f buffer w cls st w' → st ≠ STATUS_SUCCESS.
Proof. intros Hf. destruct Hf as [cls st Hst| | | | |]; [destruct Hst as [->| ->]|..]; try done. by case_match. Qed.

(** The status and the state after one of the setters. *)
Definition set_outcome (share q : ptr) (sh : Share) (fs : FS) (o : OpenFile File) (f : File)
    (buffer : bytes) (h : HS) (cls st : Z) (h' : HS) : Prop :=
  (∃ w, set_failure fs o f buffer (hs_w h) cls st w ∧ h' = set_w w h)
  ∨ (st = STATUS_SUCCESS ∧ set_effect share q sh fs o f buffer h cls h').

Section setters.
Context (P : Prop) (share q : ptr) (sh : Share) (fs : FS) (o : OpenFile File) (f : File) (buffer : bytes) (h : HS).
Context (Hsh : srv_shareHeap (hs_srv h) !! share = Some sh) (Hfs : sh_fs sh = Some fs) (Hf : of_File o = Some f).

Notation outcome_of cls := (set_outcome share q sh fs o f buffer h cls).

Lemma set_outcome_now cls st : st = STATUS_INVALID_PARAMETER ∨ st = STATUS_NOT_SUPPORTED → outcome_of cls st h.
Proof. intros Hst. left. exists (hs_w h). rewrite set_w_id. split; [by constructor|done]. Qed.

(** An optional call, as the code writes it. *)
Lemma wpp_optional_io {A} (c : bool) (op : option A) (call : A → World → option error * World)
    (Q : option error → HS → Prop) h0 :
  Q (optional_call c (call <$> op) (hs_w h0)).1 (set_w (optional_call c (call <$> op) (hs_w h0)).2 h0) →
  wpp P (if c then match op with Some g => io (call g) | None => mret None end else mret None) Q h0.
Proof.
  unfold optional_call. destruct c, op; simpl; rewrite ?set_w_id; [|by intros; apply wpp_ret..].
  intros HQ. apply wpp_io. intros e w E. by rewrite E in HQ.
Qed.

Lemma wpp_setFileBasicInformation :
  wpp P (setFileBasicInformation o buffer) (outcome_of FileBasicInformation) h.
Proof.
  unfold setFileBasicInformation. destruct (Z.ltb_spec (len buffer) 40); [by apply wpp_ret, set_outcome_now; left|].
  apply wpp_bind, wpp_local. unfold wpp at 1. destruct (parse_basic_eq buffer) as [rd ->]; [done|].
  set (t := le_get (sub buffer 16 8)). set (a := le_get (sub buffer 32 4)).
  apply wpp_bind. eapply wpp_the_file; [done|]. apply wpp_bind.
  apply (wpp_optional_io _ (f_Chtimes f) (λ chtimes, chtimes (FiletimeToTime t) (FiletimeToTime t))).
  change (optional_call _ _ (hs_w h)) with (set_times f buffer (hs_w h)). destruct (set_times f buffer (hs_w h)) as [[e|] w1] eqn:E1; cbn [fst snd].
  { apply wpp_ret. left. exists w1. split; [by econstructor|done]. }
  apply wpp_bind. apply (wpp_optional_io _ (f_Chmod f) (λ chmod, chmod (attributesToMode a (of_IsDir o)))).
  change (optional_call _ _ _) with (set_mode f (of_IsDir o) buffer w1).
  destruct (set_mode f (of_IsDir o) buffer w1) as [e w2] eqn:E2. cbn [fst snd].
  apply wpp_ret. right. split; [done|]. change (set_w w2 (set_w w1 h)) with (set_w w2 h).
  by apply (set_basic _ _ _ _ _ _ _ _ w1 e w2).
Qed.

Lemma wpp_setFileDispositionInformation :
  wpp P (setFileDispositionInformation share o buffer) (outcome_of FileDispositionInformation) h.
Proof.
  unfold setFileDispositionInformation. destruct buffer as [|b rest] eqn:Eb.
  { rewrite <-Eb. by apply wpp_ret, set_outcome_now; left. }
  apply wpp_bind. eapply wpp_handles_of; [done|]. apply wpp_bind, wpp_modify, wpp_ret.
  right. split; [done|]. by econstructor.
Qed.

Lemma wpp_setFileRenameInformation :
  wpp P (setFileRenameInformation share q o buffer) (outcome_of FileRenameInformation) h.
Proof.
  unfold setFileRenameInformation. destruct (len buffer <? 20); [by apply wpp_ret, set_outcome_now; left|].
  apply wpp_bind, wpp_local.
  pose proof (parse_rename_total P buffer) as Ht. unfold wpp at 1 in Ht. unfold wpp at 1.
  destruct (parse_rename (NewByteReader buffer)) as [[[[replace newName]|] rd]|] eqn:Ep; [|by apply wpp_ret, set_outcome_now; left|done].
  apply wpp_bind. eapply wpp_the_fs; [done|by eauto|]. intros fs' Hfs'. simplify_eq.
  apply wpp_bind, wpp_io. intros info w1 Hst.
  destruct (match info with inl _ => replace =? 0 | inr _ => false end) eqn:Ecol.
  { apply wpp_ret. left. exists w1. split; [|done]. destruct info as [info|]; [|done]. apply Z.eqb_eq in Ecol as ->.
    by eapply target_exists. }
  assert (replace = 0 → ∃ e, info = inr e) as Hnew by (intros ->; destruct info; [done|eauto]).
  destruct (fs_Rename fs) as [rename|] eqn:Ern; cycle 1.
  { apply wpp_ret. left. exists w1. split; [by eapply cannot_rename|done]. }
  apply wpp_bind, wpp_io. intros [e|] w2 Hre; simpl in Hre.
  { apply wpp_ret. left. exists w2. split; [by eapply rename_fails|done]. }
  apply wpp_bind. eapply wpp_handles_of; [done|]. apply wpp_bind, wpp_modify, wpp_ret. right. split; [done|].
  change (set_w w2 (set_w w1 h)) with (set_w w2 h). by eapply set_rename.
Qed.

Lemma wpp_setFileEndOfFileInformation :
  wpp P (setFileEndOfFileInformation o buffer) (outcome_of FileEndOfFileInformation) h.
Proof.
  unfold setFileEndOfFileInformation. destruct (Z.ltb_spec (len buffer) 8); [by apply wpp_ret, set_outcome_now; left|].
  apply wpp_bind, wpp_local. unfold wpp at 1, ReadUint64, ReadUint.
  change (r_pos (NewByteReader buffer) + Z.of_nat 8) with 8. cbn [r_data NewByteReader r_pos].
  rewrite (proj2 (Z.ltb_ge (len buffer) 8)) by done. simpl.
  apply wpp_bind. eapply wpp_the_file; [done|]. destruct (f_Truncate f) as [truncate|] eqn:Et;
    [|by apply wpp_ret, set_outcome_now; right].
  apply wpp_bind, wpp_io. intros e w Hw. apply wpp_ret. destruct e as [e|]; [left; exists w; split; [by econstructor|done]|right].
  split; [done|]. by econstructor.
Qed.

Lemma wpp_setFileInfo cls : wpp P (setFileInfo share q o cls buffer) (outcome_of cls) h.
Proof.
  unfold setFileInfo.
  destruct (Z.eqb_spec cls FileBasicInformation) as [->|]; [apply wpp_setFileBasicInformation|].
  destruct (Z.eqb_spec cls FileDispositionInformation) as [->|]; [apply wpp_setFileDispositionInformation|].
  destruct (Z.eqb_spec cls FileRenameInformation) as [->|]; [apply wpp_setFileRenameInformation|].
  destruct (Z.eqb_spec cls FileEndOfFileInformation) as [->|]; [apply wpp_setFileEndOfFileInformation|].
  by apply wpp_ret, set_outcome_now; right.
Qed.
End setters.

Lemma set_effect_ok share q sh fs o f buffer h cls h' :
  srv_ok (hs_srv h) → srv_shareHeap (hs_srv h) !! share = Some sh → is_Some (sh_fs sh) →
  set_effect share q sh fs o f buffer h cls h' → srv_ok (hs_srv h').
Proof.
  intros Hok Hsh [fs' Hfs] He. destruct (so_shares _ Hok _ _ Hsh) as [Hm _].
  assert (∀ m w, hm_ok m → srv_ok (hs_srv (put_handles share m (set_w w h)))) as Hput.
  { intros m w Hm'. apply srv_ok_put_handles; [done|]. simpl. intros sh' ?. simplify_eq.
    split; [done|]. simpl. congruence. }
  destruct He; [done| | |done].
  - rewrite <-(set_w_id h). apply Hput. unfold SetDeleteOnClose. case_match; [|done]. by apply hm_ok_update.
  - apply Hput. by apply hm_ok_update.
Qed.

(** A successful SET_INFO. *)
Definition info_set (h : HS) (msg : SMB2Message) (h' : HS) : Prop :=
  ∃ req rd t sh q o f fs h1 sh1 buffer,
    parse_set_info (NewByteReader (m_Payload msg)) = Ok (Some req, rd)
    ∧ designates h (m_Header msg) (si_fileID req) t sh q o f ∧ sh_fs sh = Some fs
    ∧ t_IsReadOnly t = false ∧ si_infoType req = SMB2_0_INFO_FILE
    ∧ touched t (si_fileID req) sh h h1 ∧ srv_shareHeap (hs_srv h1) !! t_Share t = Some sh1
    ∧ slice (m_Payload msg) (si_bufferOffset req - SMB2HeaderSize)
        (si_bufferOffset req - SMB2HeaderSize + si_bufferLength req) = Some buffer
    ∧ set_effect (t_Share t) q sh1 fs o f buffer h1 (si_fileInfoClass req) h'.

(** A refused one: nothing happened, or the access time of the handle was
    set and the calls of [set_failure] were made. *)
Definition set_refused (h : HS) (msg : SMB2Message) (st : Z) (h' : HS) : Prop :=
  h' = h ∨ ∃ req rd t sh q o f h1,
    parse_set_info (NewByteReader (m_Payload msg)) = Ok (Some req, rd)
    ∧ designates h (m_Header msg) (si_fileID req) t sh q o f ∧ t_IsReadOnly t = false
    ∧ touched t (si_fileID req) sh h h1
    ∧ (h' = h1 ∨ ∃ fs buffer w, sh_fs sh = Some fs ∧ si_infoType req = SMB2_0_INFO_FILE
         ∧ slice (m_Payload msg) (si_bufferOffset req - SMB2HeaderSize)
             (si_bufferOffset req - SMB2HeaderSize + si_bufferLength req) = Some buffer
         ∧ set_failure fs o f buffer (hs_w h1) (si_fileInfoClass req) st w ∧ h' = set_w w h1).

Lemma wpp_handleSetInfo P msg h :
  srv_ok (hs_srv h) →
  wpp P (handleSetInfo msg) (λ r h', srv_ok (hs_srv h')
    ∧ (r.1 = buildErrorResponse ∧ r.2 ≠ STATUS_SUCCESS ∧ set_refused h msg r.2 h'
       ∨ r.2 = STATUS_SUCCESS ∧ info_set h msg h')) h.
Proof.
  intros Hok. unfold handleSetInfo.
  assert (∀ st, st ≠ STATUS_SUCCESS → srv_ok (hs_srv h)
    ∧ ((buildErrorResponse, st).1 = buildErrorResponse ∧ (buildErrorResponse, st).2 ≠ STATUS_SUCCESS
         ∧ set_refused h msg st h ∨ (buildErrorResponse, st).2 = STATUS_SUCCESS ∧ info_set h msg h)) as Hnow
    by (intros; split; [done|left; split_and!; [done|done|by left]]).
  apply wpp_with_tree; [done|by apply Hnow..|]. intros p s t Ht Hid [sh Hsh].
  apply wpp_with_request; [eapply parses_total; auto with smb|by apply Hnow|].
  intros req rd _ Hparse. pose proof (parses_ok _ _ _ _ _ parse_set_info_good Hparse) as Hl.
  eapply wpp_with_open; [done|exact Hsh|by intros; apply Hnow|].
  intros q o f Hget Hq Ho Hoid Hot Hos Hf [fs Hfs].
  destruct (t_IsReadOnly t) eqn:Hrd; [by apply Hnow|].
  apply wpp_bind. eapply wpp_touch; [exact Hsh|]. intros now w Hn.
  pose proof (srv_ok_touch now (si_fileID req) (t_Share t) w sh h Hok Hsh) as Hok'.
  set (sh1 := set_fileHandles (UpdateLastAccess now (si_fileID req) (sh_fileHandles sh)) sh).
  set (h1 := put_handles (t_Share t) (UpdateLastAccess now (si_fileID req) (sh_fileHandles sh)) (set_w w h)) in *.
  assert (srv_shareHeap (hs_srv h1) !! t_Share t = Some sh1) as Hsh1 by (simpl; by rewrite lookup_alter_eq, Hsh).
  assert (designates h (m_Header msg) (si_fileID req) t sh q o f) as Hdes by (by exists p, s).
  assert (touched t (si_fileID req) sh h h1) as Hto by (by exists now, w).
  assert (∀ st, st ≠ STATUS_SUCCESS → srv_ok (hs_srv h1)
    ∧ ((buildErrorResponse, st).1 = buildErrorResponse ∧ (buildErrorResponse, st).2 ≠ STATUS_SUCCESS
         ∧ set_refused h msg st h1 ∨ (buildErrorResponse, st).2 = STATUS_SUCCESS ∧ info_set h msg h1)) as Hlate1.
  { intros st Hst. split; [done|left]. split_and!; [done|done|right].
    exists req, rd, t, sh, q, o, f, h1. by split_and!; [..|left]. }
  apply wpp_with_buffer; [done|by apply Hlate1|]. intros buffer _ Hbuf.
  destruct (Z.eqb_spec (si_infoType req) SMB2_0_INFO_FILE) as [Hty|Hty].
  - apply wpp_bind. eapply wpp_mono; [by eapply (wpp_setFileInfo P (t_Share t) q sh1)|].
    intros st h2 [(w' & Hfail & ->)|(-> & He)].
    + pose proof (set_failure_error _ _ _ _ _ _ _ _ Hfail) as Hst.
      destruct (Z.eqb_spec st STATUS_SUCCESS); [done|]. apply wpp_ret. split; [done|left].
      split_and!; [done|done|right]. exists req, rd, t, sh, q, o, f, h1. split_and!; try done.
      right. by exists fs, buffer, w'.
    + apply wpp_ret. split; [by eapply set_effect_ok|]. right. split; [done|].
      by exists req, rd, t, sh, q, o, f, fs, h1, sh1, buffer.
  - by repeat case_match; apply Hlate1.
Qed.

Lemma frames_handleSetInfo msg : frames (handleSetInfo msg).
Proof.
  unfold handleSetInfo, setFileInfo, setFileBasicInformation, setFileDispositionInformation,
    setFileRenameInformation, setFileEndOfFileInformation, the_file.
  frames_tac.
Qed.
End set_info.

(* ------------------------------------------------------------------ *)
(** ** Properties *)

Section info_properties.
Context `{Absfs}.

(** C35: QUERY_INFO only reads: it always answers, and what it answers is an
    error, or the information of a handle of the caller, cut to the client's
    buffer and then marked with STATUS_BUFFER_OVERFLOW.  The sizes in it are
    those the file's Stat returned, the allocation size being the least
    multiple of 4096 that holds them. *)
Theorem query_info_reply msg h :
  srv_ok (hs_srv h) →
  ∃ payload status h', handleQueryInfo msg h = Ok ((payload, status), h')
    ∧ srv_ok (hs_srv h') ∧ ro (hs_w h) (hs_w h')
    ∧ (payload = buildErrorResponse ∧ status ≠ STATUS_SUCCESS
       ∨ ∃ req rd t sh q o f h1 full,
           parse_query_info (NewByteReader (m_Payload msg)) = Ok (Some req, rd)
           ∧ designates h (m_Header msg) (qi_fileID req) t sh q o f ∧ touched t (qi_fileID req) sh h h1
           ∧ (payload, status) = (if qi_outputBufferLength req <? u32 (len full)
               then (query_info_response (take (Z.to_nat (qi_outputBufferLength req)) full), STATUS_BUFFER_OVERFLOW)
               else (query_info_response full, STATUS_SUCCESS))
           ∧ (∀ off, qi_infoType req = SMB2_0_INFO_FILE → size_offset (qi_fileInfoClass req) = Some off →
                ∃ info alloc, (f_Stat f (hs_w h1)).1 = inl info
                  ∧ sub full off 8 = le_put 8 alloc ∧ sub full (off + 8) 8 = le_put 8 (u64 (fi_Size info))
                  ∧ (0 ≤ fi_Size info < 2 ^ 63 → fi_Size info ≤ alloc < fi_Size info + 4096 ∧ alloc mod 4096 = 0))).
Proof.
  intros Hok. destruct (wpp_total _ _ _ (wpp_handleQueryInfo False msg h Hok))
    as ([payload status] & h' & E & Hok' & Hro & Hr).
  exists payload, status, h'. split_and!; [done..|].
  destruct Hr as [|(req & rd & t & sh & q & o & f & h1 & full & Hp & Hd & Ht & Hr & Hi)]; [by left|right].
  exists req, rd, t, sh, q, o, f, h1, full. split_and!; [done..|].
  intros off Hty Hoff. destruct (Hi Hty) as (info & Hst & Hs). destruct (Hs off Hoff) as [Ha Hz].
  exists info, (info_allocation (fi_Size info)). split_and!; try done. apply info_allocation_spec.
Qed.

(** C36: SET_INFO always answers and does exactly one thing, to a handle of
    the caller on a tree that is not read-only: set the file's times and mode,
    set or clear the handle's deletion mark, rename the file (after a Stat of
    the target, refusing an existing one unless told to replace it) and then
    the handle, or truncate the file; the calls on the file, with their
    arguments, are the ones of [set_effect].  A refusal changes nothing in the
    server but the handle's access time, and of the file system it has called
    nothing, or exactly the call that failed (for a rename after the Stat of
    the target); on a read-only tree nothing changes at all. *)
Theorem set_info_effect msg h :
  srv_ok (hs_srv h) →
  ∃ payload status h', handleSetInfo msg h = Ok ((payload, status), h') ∧ srv_ok (hs_srv h')
    ∧ (read_only_tree h msg → h' = h ∧ status ≠ STATUS_SUCCESS)
    ∧ (payload = buildErrorResponse ∧ status ≠ STATUS_SUCCESS ∧ set_refused h msg status h'
       ∨ status = STATUS_SUCCESS ∧ info_set h msg h').
Proof.
  intros Hok. destruct (wpp_total _ _ _ (wpp_handleSetInfo False msg h Hok))
    as ([payload status] & h' & E & Hok' & Hr).
  exists payload, status, h'. split_and!; [done..| |done]. intros Hrd.
  assert (∀ id t sh q o f, designates h (m_Header msg) id t sh q o f → t_IsReadOnly t = true) as Hro.
  { intros id t sh q o f (p & s & Ht & _). by eapply Hrd. }
  destruct Hr as [(_ & ? & [->|(req & rd & t & sh & q & o & f & h1 & _ & Hd & Hf & _)])
    |(_ & req & rd & t & sh & q & o & f & fs & h1 & sh1 & b & _ & Hd & _ & Hf & _)];
    [done|apply Hro in Hd; congruence..].
Qed.

Lemma frame_tree_of h h' hd p s t : frame h h' → tree_of h hd p s t → tree_of h' hd p s t.
Proof. intros Hfr (Hv & Hs & Ht). unfold tree_of. by rewrite (fr_sessions _ _ Hfr). Qed.

Lemma touched_deref t id sh h h1 sh1 q o :
  srv_shareHeap (hs_srv h) !! t_Share t = Some sh →
  touched t id sh h h1 → srv_shareHeap (hs_srv h1) !! t_Share t = Some sh1 →
  hm_handles (sh_fileHandles sh1) = hm_handles (sh_fileHandles sh) ∧ sh_fs sh1 = sh_fs sh
  ∧ (deref (sh_fileHandles sh) q = Some o →
     ∃ o', deref (sh_fileHandles sh1) q = Some o' ∧ of_Path o' = of_Path o ∧ of_ID o' = of_ID o).
Proof.
  intros Hsh (now & w & _ & ->). simpl. rewrite lookup_alter_eq, Hsh. intros [= <-]. simpl.
  unfold UpdateLastAccess. destruct (hm_handles (sh_fileHandles sh) !! id) as [p|]; [|by split_and!; eauto].
  simpl. split_and!; [done..|].
  unfold deref; simpl. destruct (decide (q = p)) as [->|Hne].
  - rewrite lookup_alter_eq. intros ->. simpl. eauto.
  - rewrite lookup_alter_ne by done. eauto.
Qed.

(** Deleting a file over SMB works in two requests: after a SET_INFO that
    marks a handle for deletion, the CLOSE of that handle by the same session
    and tree removes the file the handle has open, after reads only. *)
Theorem delete_pending_removes msg close h payload h1 payload2 h2 req rd t sh q o f b rest flags rd2 :
  srv_ok (hs_srv h) →
  designates h (m_Header msg) (si_fileID req) t sh q o f →
  parse_set_info (NewByteReader (m_Payload msg)) = Ok (Some req, rd) →
  si_fileInfoClass req = FileDispositionInformation →
  slice (m_Payload msg) (si_bufferOffset req - SMB2HeaderSize)
    (si_bufferOffset req - SMB2HeaderSize + si_bufferLength req) = Some (b :: rest) → Z_of_byte b ≠ 0 →
  handleSetInfo msg h = Ok ((payload, STATUS_SUCCESS), h1) →
  m_Header close = m_Header msg →
  parse_close (NewByteReader (m_Payload close)) = Ok (Some (flags, si_fileID req), rd2) →
  handleClose close h1 = Ok ((payload2, STATUS_SUCCESS), h2) →
  ∃ fs w, sh_fs sh = Some fs ∧ ro (hs_w h1) w ∧ hs_w h2 = (fs_Remove fs (of_Path o) w).2.
Proof.
  intros Hok (p & s & Ht & Hsh & Hget & Ho & Hf & Hid) Hparse Hcls Hbuf Hb E Hhd Hparse2 E2.
  destruct (wpp_ok True _ _ _ _ _ (wpp_handleSetInfo True msg h Hok) E) as [Hok1 [(_ & ? & _)|(_ & Hset)]]; [done|].
  destruct Hset as (req' & rd' & t' & sh' & q' & o' & f' & fs & h0 & sh1 & buf & Hp' & (p' & s' & Ht' & Hsh' & Hget' & Ho' & Hf' & Hid')
    & Hfs & _ & _ & Hto & Hsh1 & Hbuf' & He).
  rewrite Hparse in Hp'. injection Hp' as <- <-.
  destruct (tree_of_det _ _ _ _ _ _ _ _ Ht Ht') as (<- & <- & <-). rewrite Hsh in Hsh'. injection Hsh' as <-.
  rewrite Hget in Hget'. injection Hget' as <-. rewrite Ho in Ho'. injection Ho' as <-.
  rewrite Hbuf in Hbuf'. injection Hbuf' as <-.
  destruct (touched_deref _ _ _ _ _ _ q o Hsh Hto Hsh1) as (Hh & Hfs1 & (o1 & Ho1 & Hpath & Hid1)%(λ f, f Ho)).
  rewrite Hcls in He. inversion He as [| |? ? ? ? ? ? ? ? ? ? ? ? Hc|]; clear He; simplify_eq.
  destruct (wpp_ok True _ _ _ _ _ (wpp_handleClose True close _ Hok1) E2) as [(_ & ? & _)|Hcl]; [done|].
  destruct Hcl as (p2 & s2 & t2 & sh2 & sh2' & fl2 & id2 & rd2' & q2 & o2 & Ht2 & Hsh2 & _ & Hp2 & _ & Hget2 & Ho2 & Heff & _).
  rewrite Hparse2 in Hp2. simplify_eq. rewrite Hhd in Ht2.
  destruct (tree_of_det _ _ _ _ _ _ _ _ (frame_tree_of _ _ _ _ _ _ (frames_handleSetInfo msg _ _ _ E) Ht) Ht2)
    as (<- & <- & <-).
  simpl in Hsh2. rewrite lookup_alter_eq, Hsh1 in Hsh2. injection Hsh2 as <-. simpl in *.
  unfold close_effect in Heff. cbn [sh_fs set_fileHandles] in Heff. rewrite Hfs1, Hfs in Heff.
  assert (hm_handles (sh_fileHandles sh) !! si_fileID req = Some q) as Hq
    by (by destruct (GetByTree_Some _ _ _ _ _ (proj1 (so_shares _ Hok _ _ Hsh)) Hget) as (? & ? & _)).
  revert Hget2 Ho2. unfold SetDeleteOnClose.
  rewrite Hid, Hh, Hq, (proj2 (negb_true_iff _) (proj2 (Z.eqb_neq _ _) Hb)).
  unfold GetByTree. simpl. rewrite Hh, Hq. simpl. unfold deref in *. simpl. rewrite lookup_alter_eq, Ho1. simpl.
  destruct (negb _ || _); [done|]. intros [= <-]. rewrite lookup_alter_eq, Ho1. intros [= <-].
  simpl in Heff. destruct Heff as (fs' & w & [= <-] & Hw & Hw2). exists fs, w. by rewrite <-Hpath.
Qed.
End info_properties.

(* ------------------------------------------------------------------ *)
(** ** Witnesses *)

Definition query_info_msg (infoType cls outLen : Z) : SMB2Message :=
  sample_msg SMB2_QUERY_INFO 1
    (NewByteWriter |> WriteUint16 41 |> WriteOneByte infoType |> WriteOneByte cls |> WriteUint32 outLen
     |> WriteZeros 16 |> WriteFileID opened_id |> Bytes).

Definition set_info_msg (cls : Z) (buffer : bytes) : SMB2Message :=
  sample_msg SMB2_SET_INFO 1
    (NewByteWriter |> WriteUint16 33 |> WriteOneByte SMB2_0_INFO_FILE |> WriteOneByte cls
     |> WriteUint32 (len buffer) |> WriteUint16 96 |> WriteUint16 0 |> WriteUint32 0 |> WriteFileID opened_id
     |> WriteBytes buffer |> Bytes).

Definition rename_buffer (newName : string) : bytes :=
  let b := EncodeStringToUTF16LE (str newName) in
  NewByteWriter |> WriteZeros 16 |> WriteUint32 (len b) |> WriteBytes b |> Bytes.

Notation query_info m := (handleQueryInfo (H := mem_absfs) m).
Notation set_info m := (handleSetInfo (H := mem_absfs) m).

(** The file ["f"] has 5 bytes, in one 4096-byte unit; a short buffer
    truncates. *)
Example query_info_run :
  let q := query_info_msg SMB2_0_INFO_FILE FileStandardInformation 100 in
  let short := query_info_msg SMB2_0_INFO_FILE FileStandardInformation 10 in
  match query_info q (opened false 0), query_info short (opened false 0) with
  | Ok ((b, st), _), Ok ((b', st'), _) =>
    (le_get (sub b 8 8), le_get (sub b 16 8), len b, st, len b', st')
  | _, _ => (0, 0, 0, 0, 0, 0)
  end = (4096, 5, 32, STATUS_SUCCESS, 18, STATUS_BUFFER_OVERFLOW).
Proof. by vm_compute. Qed.

Lemma query_info_reply_witness :
  let m := query_info_msg SMB2_0_INFO_FILE FileStandardInformation 1000 in
  ∃ h' full off info,
    query_info m (opened false 0) = Ok ((query_info_response full, STATUS_SUCCESS), h')
    ∧ ro (H := mem_absfs) (hs_w (opened false 0)) (hs_w h')
    ∧ size_offset FileStandardInformation = Some off
    ∧ sub full (off + 8) 8 = le_put 8 (u64 (fi_Size info)).
Proof.
  intros m.
  destruct (query_info_reply (H := mem_absfs) m (opened false 0) (opened_ok false 0))
    as (payload & status & h' & E & _ & Hro & Hr).
  assert (status = STATUS_SUCCESS) as ->.
  { assert (status_of (query_info m) (opened false 0) = Some STATUS_SUCCESS) as Hst by by vm_compute.
    unfold status_of in Hst. rewrite E in Hst. by injection Hst. }
  destruct Hr as [(_ & Hne)|(req & rd & t & sh & q & o & f & h1 & full & Hp & _ & _ & Hpay & Hsz)]; [by destruct Hne|].
  assert (match parse_query_info (NewByteReader (m_Payload m)) with
    | Ok (Some r, _) => (qi_infoType r =? SMB2_0_INFO_FILE) && (qi_fileInfoClass r =? FileStandardInformation)
    | _ => false end = true) as Hq by by vm_compute.
  rewrite Hp in Hq. apply andb_true_iff in Hq as [Ht%Z.eqb_eq Hc%Z.eqb_eq]. rewrite Hc in Hsz.
  assert (is_Some (size_offset FileStandardInformation)) as [off Hoff] by (vm_compute; by eexists).
  destruct (Hsz off Ht Hoff) as (info & alloc & _ & _ & Hs & _).
  exists h', full, off, info. destruct (_ <? _); [by injection Hpay|]. injection Hpay as ->. by split_and!.
Defined.

Lemma set_info_effect_witness :
  ∃ payload h', set_info (set_info_msg FileRenameInformation (rename_buffer "g")) (opened false 0)
      = Ok ((payload, STATUS_SUCCESS), h')
    ∧ info_set (H := mem_absfs) (opened false 0) (set_info_msg FileRenameInformation (rename_buffer "g")) h'.
Proof.
  set (m := set_info_msg FileRenameInformation (rename_buffer "g")).
  destruct (set_info_effect (H := mem_absfs) m (opened false 0) (opened_ok false 0))
    as (payload & status & h' & E & _ & _ & Hr).
  assert (status = STATUS_SUCCESS) as ->.
  { assert (status_of (set_info m) (opened false 0) = Some STATUS_SUCCESS) as Hst by by vm_compute.
    unfold status_of in Hst. rewrite E in Hst. by injection Hst. }
  exists payload, h'. split; [exact E|]. destruct Hr as [(_ & Hne & _)|[_ Hs]]; [|exact Hs].
  exact (False_ind _ (Hne eq_refl)).
Defined.

(** The designated handle of a request on the sample server. *)
Lemma opened_designates readOnly options :
  (match srv_shareHeap (H := mem_absfs) (hs_srv (opened readOnly options)) !! 1%nat with
   | Some sh => match GetByTree opened_id 1 42 (sh_fileHandles sh) with
     | Some q => match deref (sh_fileHandles sh) q with
       | Some o => match of_File o with Some _ => bool_decide (of_Path o = str "f") && bool_decide (of_ID o = opened_id) | None => false end
       | None => false end
     | None => false end
   | None => false end = true) →
  request_tree (H := mem_absfs) (opened readOnly options) (Server.sample_header SMB2_SET_INFO 1)
    = Some (mkTree 1 (str "data") 1 0 3 readOnly) →
  ∃ sh q o f, designates (H := mem_absfs) (opened readOnly options) (Server.sample_header SMB2_SET_INFO 1)
    opened_id (mkTree 1 (str "data") 1 0 3 readOnly) sh q o f ∧ of_Path o = str "f".
Proof.
  intros Hc Ht.
  destruct (request_tree_inv (H := mem_absfs) _ _ _ Ht) as (p & s & Htree).
  assert (s_ID s = 42) as Hid.
  { destruct Htree as (Hv & Hs & _).
    destruct (ValidateSession_cases 42 _ (so_sessions _ (opened_ok readOnly options)))
      as [E|(p' & s' & E & _ & Hs' & Hid & _)];
      change (h_SessionID (Server.sample_header SMB2_SET_INFO 1)) with 42 in Hv; rewrite E in Hv; [discriminate Hv|].
    injection Hv as ->. rewrite Hs' in Hs. injection Hs as <-. exact Hid. }
  destruct (srv_shareHeap (H := mem_absfs) (hs_srv (opened readOnly options)) !! 1%nat) as [sh|] eqn:Esh; [|discriminate Hc].
  destruct (GetByTree opened_id 1 42 (sh_fileHandles sh)) as [q|] eqn:Eq; [|discriminate Hc].
  destruct (deref (sh_fileHandles sh) q) as [o|] eqn:Eo; [|discriminate Hc].
  destruct (of_File o) as [f|] eqn:Ef; [|discriminate Hc].
  apply andb_true_iff in Hc as [Hp%bool_decide_eq_true Hi%bool_decide_eq_true].
  exists sh, q, o, f. split; [|exact Hp]. exists p, s. split; [exact Htree|]. split; [exact Esh|].
  split; [rewrite Hid; exact Eq|]. split; [exact Eo|]. split; [exact Ef|exact Hi].
Qed.

Lemma delete_pending_removes_witness :
  let h := opened false 0 in
  let h1 := state_after (set_info (set_info_msg FileDispositionInformation [Byte.x01])) h in
  let h2 := state_after (handleClose (H := mem_absfs) (mkMessage (Server.sample_header SMB2_SET_INFO 1)
    (m_Payload (close_msg opened_id)) [] None 0)) h1 in
  ∃ w, hs_w h2 = mem_remove (str "f") w.
Proof.
  set (m := set_info_msg FileDispositionInformation [Byte.x01]).
  set (c := mkMessage (Server.sample_header SMB2_SET_INFO 1) (m_Payload (close_msg opened_id)) [] None 0).
  intros h h1 h2.
  destruct (opened_designates false 0 ltac:(by vm_compute) ltac:(by vm_compute)) as (sh & q & o & f & Hd & Hp).
  destruct (run_status (set_info m) h STATUS_SUCCESS) as [pl E]; [by vm_compute|].
  destruct (run_status (handleClose (H := mem_absfs) c) h1 STATUS_SUCCESS) as [pl2 E2]; [by vm_compute|].
  destruct (delete_pending_removes (H := mem_absfs) m c h pl h1 pl2 h2
    (mkSetInfo SMB2_0_INFO_FILE FileDispositionInformation 1 96 opened_id) (mkReader (m_Payload m) 32)
    (mkTree 1 (str "data") 1 0 3 false) sh q o f Byte.x01 [] 0 (mkReader (m_Payload c) 24)
    (opened_ok false 0) Hd ltac:(by vm_compute) eq_refl ltac:(by vm_compute) ltac:(by vm_compute)
    E eq_refl ltac:(by vm_compute) E2) as (fs & w & _ & _ & Hw).
  exists w. rewrite Hp in Hw. exact Hw.
Defined.

(** Renaming checks neither the rights of the handle nor the new name: a
    handle opened for reading attributes only, with no right to delete, renames
    the file, and a name with dot-dot components takes it out of the share's
    root. *)
Theorem rename_unchecked :
  let create := sample_msg SMB2_CREATE 1 (create_payload (str "f") FILE_READ_ATTRIBUTES 7 FILE_OPEN 0) in
  let h := state_after (handleCreate (H := mem_absfs) create) (sample_hs false) in
  let rename := set_info_msg FileRenameInformation (rename_buffer "../../etc/f") in
  status_of (handleCreate (H := mem_absfs) create) (sample_hs false) = Some STATUS_SUCCESS
  ∧ has_flag FILE_READ_ATTRIBUTES (Z.lor DELETE FILE_WRITE_DATA) = false
  ∧ status_of (set_info rename) h = Some STATUS_SUCCESS
  ∧ mw_files (hs_w (state_after (set_info rename) h)) = [(str "../../etc/f", str "hello")].
Proof. by vm_compute. Qed.
