(* ===== verification/Ioctl.v ===== *)
(** * IOCTL

    Models [smb2_ioctl.go].  The server implements no control code: after the
    session and the request have been checked every code is answered with
    STATUS_NOT_SUPPORTED. *)

From stdpp Require Import base numbers list gmap strings.
From S2P Require Import Prelude Constants Types Wire HandleMap Sessions Absfs Server.

Open Scope Z_scope.

Record IoctlRequest := mkIoctl {
  io_ctlCode : Z;
  io_inputOffset : Z;
  io_inputCount : Z;
  io_maxOutputResp : Z;
}.

Definition parse_ioctl : M ByteReader (option IoctlRequest) :=
  structSize ← ReadUint16;
  if negb (structSize =? 57) then mret None
  else
    reserved ← ReadUint16;
    ctlCode ← ReadUint32;
    persistent ← ReadUint64;
    volatile ← ReadUint64;
    inputOffset ← ReadUint32;
    inputCount ← ReadUint32;
    maxInputResponse ← ReadUint32;
    outputOffset ← ReadUint32;
    outputCount ← ReadUint32;
    maxOutputResp ← ReadUint32;
    flags ← ReadUint32;
    mret (Some (mkIoctl ctlCode inputOffset inputCount maxOutputResp)).

Section ioctl.
Context `{Absfs}.

(** The input of the control code; the nil slice is empty. *)
Definition ioctl_input (req : IoctlRequest) (payload : bytes) : M HS bytes :=
  if (0 <? io_inputCount req) && (0 <? io_inputOffset req) then
    let bufStart := io_inputOffset req - SMB2HeaderSize in
    if (0 <=? bufStart) && (bufStart + io_inputCount req <=? len payload)
    then lift_option (slice payload bufStart (bufStart + io_inputCount req))
    else mret []
  else mret [].

Definition handleValidateNegotiateInfo (input : bytes) (maxOutput : Z) : M HS reply :=
  fail STATUS_NOT_SUPPORTED.

Definition handlePipeTransceive (msg : SMB2Message) (input : bytes) (maxOutput : Z) : M HS reply :=
  fail STATUS_NOT_SUPPORTED.

Definition handleIOCTL (msg : SMB2Message) : M HS reply :=
  with_session (m_Header msg) (λ _ _,
  with_request 56 (m_Payload msg) parse_ioctl (λ req,
    inputBuffer ← ioctl_input req (m_Payload msg);
    if io_ctlCode req =? FSCTL_VALIDATE_NEGOTIATE_INFO
    then handleValidateNegotiateInfo inputBuffer (io_maxOutputResp req)
    else if io_ctlCode req =? FSCTL_QUERY_NETWORK_INTERFACE_INFO then fail STATUS_NOT_SUPPORTED
    else if (io_ctlCode req =? FSCTL_DFS_GET_REFERRALS) || (io_ctlCode req =? FSCTL_DFS_GET_REFERRALS_EX)
    then fail STATUS_NOT_SUPPORTED
    else if io_ctlCode req =? FSCTL_PIPE_TRANSCEIVE
    then handlePipeTransceive msg inputBuffer (io_maxOutputResp req)
    else if io_ctlCode req =? FSCTL_SRV_REQUEST_RESUME_KEY then fail STATUS_NOT_SUPPORTED
    else fail STATUS_NOT_SUPPORTED)).
End ioctl.

Definition buildIOCTLResponse (ctlCode : Z) (fileID output : bytes) : bytes :=
  let outputLen := len output in
  let w := NewByteWriter |> WriteUint16 49 |> WriteUint16 0 |> WriteUint32 ctlCode |> WriteBytes fileID in
  let w := if 0 <? outputLen
    then w |> WriteUint32 0 |> WriteUint32 0 |> WriteUint32 (u32 (SMB2HeaderSize + 48)) |> WriteUint32 (u32 outputLen)
    else w |> WriteUint32 0 |> WriteUint32 0 |> WriteUint32 0 |> WriteUint32 0 in
  let w := w |> WriteUint32 0 |> WriteUint32 0 in
  Bytes (if 0 <? outputLen then w |> WriteBytes output else w).

Lemma parse_ioctl_good : parses parse_ioctl (λ req, 0 ≤ io_inputCount req).
Proof.
  intros P payload. unfold parse_ioctl. wp_parse; [done|].
  intros r [= <-]. simpl. lia.
Qed.
#[export] Hint Resolve parse_ioctl_good : smb.

Section ioctl_lemmas.
Context `{Absfs}.

(** IOCTL always answers, with an error, and changes nothing. *)
Lemma wpp_handleIOCTL P msg h :
  srv_ok (hs_srv h) →
  wpp P (handleIOCTL msg) (λ r h', r.1 = buildErrorResponse ∧ r.2 ≠ STATUS_SUCCESS ∧ h' = h) h.
Proof.
  intros Hok. unfold handleIOCTL. apply wpp_with_session; [done|done|]. intros p s _ _ _.
  apply wpp_with_request; [eapply parses_total; auto with smb|done|]. intros req rd _ Hparse.
  pose proof (parses_ok _ _ _ _ _ parse_ioctl_good Hparse) as Hn. simpl in Hn.
  apply wpp_bind. apply (wpp_mono P _ (λ _ h', h' = h)).
  { unfold ioctl_input. destruct (_ && _); [|done].
    destruct (Z.leb_spec 0 (io_inputOffset req - SMB2HeaderSize)); [|done].
    destruct (Z.leb_spec (io_inputOffset req - SMB2HeaderSize + io_inputCount req) (len (m_Payload msg))); [|done].
    apply wpp_lift; [intros E; apply slice_None in E; lia|done]. }
  intros b h' ->. repeat case_match; done.
Qed.

Lemma frames_handleIOCTL msg : frames (handleIOCTL msg).
Proof. unfold handleIOCTL, ioctl_input, handleValidateNegotiateInfo, handlePipeTransceive. frames_tac. Qed.
End ioctl_lemmas.

(** The layout the output is found by: where the response announces it. *)
Lemma buildIOCTLResponse_output ctlCode fileID output :
  length fileID = 16%nat → output ≠ [] → len output < 2 ^ 32 →
  let r := buildIOCTLResponse ctlCode fileID output in
  let offset := le_get (sub r 32 4) in
  let count := le_get (sub r 36 4) in
  slice r (offset - SMB2HeaderSize) (offset - SMB2HeaderSize + count) = Some output.
Proof.
  intros Hf Ho Hlen r offset count.
  assert (0 < len output) as H0 by (destruct output; [done|rewrite len_cons; pose proof (len_nonneg output); lia]).
  assert (r = (le_put 2 49 ++ le_put 2 0 ++ le_put 4 ctlCode ++ fileID ++ le_put 4 0 ++ le_put 4 0)
    ++ le_put 4 112 ++ le_put 4 (u32 (len output)) ++ (le_put 4 0 ++ le_put 4 0) ++ output) as Hr.
  { unfold r, buildIOCTLResponse. rewrite (proj2 (Z.ltb_lt _ _) H0).
    unfold Bytes, NewByteWriter, WriteUint16, WriteUint32, WriteBytes. rewrite <-!app_assoc. done. }
  set (pre := le_put 2 49 ++ _) in Hr.
  assert (length pre = 32%nat) as Hpre by (unfold pre; rewrite !length_app, !length_le_put; lia).
  assert (offset = 112) as Hoff.
  { unfold offset. rewrite Hr, (sub_app_here pre (le_put 4 112)); [done|done|by rewrite length_le_put]. }
  assert (count = len output) as Hcount.
  { unfold count. rewrite Hr, app_assoc, (sub_app_here (pre ++ le_put 4 112) (le_put 4 (u32 (len output))));
      [|by rewrite length_app, Hpre|by rewrite length_le_put].
    unfold u32. rewrite le_get_put_u32; [|apply Z.mod_pos_bound; lia]. apply Z.mod_small. lia. }
  rewrite Hoff, Hcount. change (112 - SMB2HeaderSize) with 48.
  assert (len r = 48 + len output) as Hlr.
  { rewrite Hr. autorewrite with len. unfold len at 1. rewrite Hpre. lia. }
  rewrite slice_ok by lia. f_equal. rewrite Hr.
  replace (pre ++ le_put 4 112 ++ le_put 4 (u32 (len output)) ++ (le_put 4 0 ++ le_put 4 0) ++ output)
    with ((pre ++ le_put 4 112 ++ le_put 4 (u32 (len output)) ++ (le_put 4 0 ++ le_put 4 0)) ++ output)
    by (by rewrite <-!app_assoc).
  rewrite drop_app_ge; rewrite !length_app, !length_le_put, Hpre; [|lia].
  simpl. rewrite drop_0. apply take_ge. unfold len. lia.
Qed.
