(* ===== verification/Dispatch.v ===== *)
(** * Messages and connections

    Models [HandleMessage] of [smb2_handlers.go] and the connection handling
    of [server.go]: the framing of messages, the loop that serves a
    connection, and the loop that expires sessions.  The bytes a client sends
    are a list; [accepts] says whether a write of the response succeeds.
    Deadlines only read the clock here, and shutdown, which ends the loops
    between two messages, is not modelled. *)

From stdpp Require Import base numbers list gmap strings relations.
From S2P Require Import Prelude Unicode Constants Types Wire Errors HandleMap Signing Ntlm Sessions Absfs.
From S2P Require Import Server FileOps Connect Dir Info Ioctl.

Open Scope Z_scope.

(** ** Framing *)

(** [io.ReadFull]: the bytes read and the rest of the stream. *)
Definition ReadFull (n : Z) (stream : bytes) : (bytes + error) * bytes :=
  if len stream <? n then
    (inr (Sentinel (if len stream =? 0 then EOF else ErrUnexpectedEOF)), [])
  else (inl (take (Z.to_nat n) stream), drop (Z.to_nat n) stream).

Definition nb_length (nbHeader : bytes) : Z :=
  match nbHeader with
  | [_; b1; b2; b3] => Z.lor (Z.shiftl (Z_of_byte b1) 16) (Z.lor (Z.shiftl (Z_of_byte b2) 8) (Z_of_byte b3))
  | _ => 0
  end.

(** A synthetic NEGOTIATE request with an empty payload. *)
Definition handleSMB1Negotiate : SMB2Message :=
  mkMessage (mkHeader SMB2ProtocolID SMB2HeaderSize 0 0 SMB2_NEGOTIATE 0 0 0 0 0 0 0 (zeros 16)) [] [] None 0.

Definition SMB1ProtocolID : bytes := Byte.xff :: str "SMB".

Definition readMessage (stream : bytes) : (SMB2Message + error) * bytes :=
  match ReadFull 4 stream with
  | (inr e, stream) => (inr e, stream)
  | (inl nbHeader, stream) =>
    let msgLen := nb_length nbHeader in
    if msgLen <? SMB2HeaderSize then (inr (Sentinel ErrInvalidMessage), stream)
    else if MaxTransactSize <? msgLen then (inr (Sentinel ErrInvalidMessage), stream)
    else
      match ReadFull msgLen stream with
      | (inr e, stream) => (inr e, stream)
      | (inl msgData, stream) =>
        if negb (bool_decide (sub msgData 0 4 = SMB2ProtocolID)) then
          if bool_decide (sub msgData 0 4 = SMB1ProtocolID) then (inl handleSMB1Negotiate, stream)
          else (inr (Sentinel ErrInvalidMessage), stream)
        else
          match UnmarshalSMB2Header msgData with
          | None => (inr (Sentinel ErrInvalidMessage), stream)
          | Some header =>
            (inl (mkMessage header (drop (Z.to_nat SMB2HeaderSize) msgData) msgData None 0), stream)
          end
      end
  end.

Definition set_Status (status : Z) (hd : SMB2Header) : SMB2Header :=
  mkHeader (h_ProtocolID hd) (h_StructureSize hd) (h_CreditCharge hd) status (h_Command hd)
    (h_CreditRequest hd) (h_Flags hd) (h_NextCommand hd) (h_MessageID hd) (h_Reserved hd) (h_TreeID hd)
    (h_SessionID hd) (h_Signature hd).

Definition set_Flags (flags : Z) (hd : SMB2Header) : SMB2Header :=
  mkHeader (h_ProtocolID hd) (h_StructureSize hd) (h_CreditCharge hd) (h_Status hd) (h_Command hd)
    (h_CreditRequest hd) flags (h_NextCommand hd) (h_MessageID hd) (h_Reserved hd) (h_TreeID hd)
    (h_SessionID hd) (h_Signature hd).

Section framing.
Context `{Crypto}.

(** The SMB2 message of a response, signed if it carries a key. *)
Definition message_bytes (msg : SMB2Message) : bytes :=
  let smb2Message := Header_Marshal (m_Header msg) ++ m_Payload msg in
  match m_SigningKey msg with
  | Some key =>
    if 0 <? len key then
      match SignMessage smb2Message key (m_Dialect msg) with
      | Some signature => ApplySignature smb2Message signature
      | None => smb2Message
      end
    else smb2Message
  | None => smb2Message
  end.

(** The bytes written: NetBIOS header and message. *)
Definition writeMessage (msg : SMB2Message) : bytes :=
  let msgLen := len (Header_Marshal (m_Header msg)) + len (m_Payload msg) in
  [Byte.x00; byte_of_Z (Z.shiftr msgLen 16); byte_of_Z (Z.shiftr msgLen 8); byte_of_Z msgLen]
  ++ message_bytes msg.
End framing.

(** ** Dispatch *)

Definition credits_to_grant (creditRequest : Z) : Z :=
  let creditsToGrant := creditRequest in
  let creditsToGrant := if creditsToGrant <? 1 then 1 else creditsToGrant in
  if creditsToGrant <? 10 then 10 else creditsToGrant.

Definition response_header (header : SMB2Header) : SMB2Header :=
  mkHeader SMB2ProtocolID SMB2HeaderSize 0 0 (h_Command header) (credits_to_grant (h_CreditRequest header))
    SMB2_FLAGS_SERVER_TO_REDIR 0 (h_MessageID header) 0 (h_TreeID header) (h_SessionID header) (zeros 16).

Section dispatch.
Context `{Absfs} `{UnicodeTables} `{Crypto}.

(** [None]: CANCEL, which gets no response. *)
Definition route (msg : SMB2Message) : option (M HS reply) :=
  let cmd := h_Command (m_Header msg) in
  if cmd =? SMB2_NEGOTIATE then Some (handleNegotiateImpl msg)
  else if cmd =? SMB2_SESSION_SETUP then Some (handleSessionSetupImpl msg)
  else if cmd =? SMB2_LOGOFF then Some (handleLogoffImpl msg)
  else if cmd =? SMB2_TREE_CONNECT then Some (handleTreeConnectImpl msg)
  else if cmd =? SMB2_TREE_DISCONNECT then Some (handleTreeDisconnectImpl msg)
  else if cmd =? SMB2_CREATE then Some (handleCreate msg)
  else if cmd =? SMB2_CLOSE then Some (handleClose msg)
  else if cmd =? SMB2_READ then Some (handleRead msg)
  else if cmd =? SMB2_WRITE then Some (handleWrite msg)
  else if cmd =? SMB2_FLUSH then Some (handleFlush msg)
  else if cmd =? SMB2_QUERY_DIRECTORY then Some (handleQueryDirectory msg)
  else if cmd =? SMB2_QUERY_INFO then Some (handleQueryInfo msg)
  else if cmd =? SMB2_SET_INFO then Some (handleSetInfo msg)
  else if cmd =? SMB2_ECHO then Some handleEcho
  else if cmd =? SMB2_CANCEL then None
  else if cmd =? SMB2_IOCTL then Some (handleIOCTL msg)
  else Some (fail STATUS_NOT_SUPPORTED).

(** The key to sign the response with, if it is to be signed. *)
Definition signing_key (header : SMB2Header) (status : Z) : M HS (option bytes) :=
  conn ← gets hs_conn;
  match cs_session conn with
  | None => mret None
  | Some p =>
    session ← the_session p;
    match s_SigningKey session with
    | None => mret None
    | Some signingKey =>
      let requestSigned := has_flag (h_Flags header) SMB2_FLAGS_SIGNED in
      let shouldSign := cs_signingRequired conn || requestSigned in
      let shouldSign :=
        if (h_Command header =? SMB2_SESSION_SETUP) && negb (status =? STATUS_SUCCESS) then false else shouldSign in
      let shouldSign := if h_Command header =? SMB2_NEGOTIATE then false else shouldSign in
      mret (if shouldSign then Some signingKey else None)
    end
  end.

Definition HandleMessage (msg : SMB2Message) : M HS (option SMB2Message) :=
  let header := m_Header msg in
  modify (set_resp (response_header header));;
  match route msg with
  | None => mret None
  | Some handler =>
    '(payload, status) ← handler;
    modify (λ h, set_resp (set_Status status (hs_resp h)) h);;
    key ← signing_key header status;
    match key with
    | Some signingKey =>
      modify (λ h, set_resp (set_Flags (Z.lor (h_Flags (hs_resp h)) SMB2_FLAGS_SIGNED) (hs_resp h)) h);;
      respHeader ← gets hs_resp;
      dialect ← gets (λ h, cs_dialect (hs_conn h));
      mret (Some (mkMessage respHeader payload [] (Some signingKey) dialect))
    | None =>
      respHeader ← gets hs_resp;
      mret (Some (mkMessage respHeader payload [] None 0))
    end
  end.

(** ** Connections *)

Definition update_preauth (data : bytes) : M HS unit :=
  conn ← gets hs_conn;
  hash ← lift_outcome (UpdatePreauthHash (cs_preauthHash conn) data);
  modify (λ h, set_conn (mkConn (cs_session (hs_conn h)) (cs_remoteAddr (hs_conn h)) (cs_dialect (hs_conn h))
    (cs_signingRequired (hs_conn h)) hash) h).

(** [state.session == nil || state.session.State != SessionStateValid] *)
Definition unauthenticated : M HS bool :=
  conn ← gets hs_conn;
  match cs_session conn with
  | None => mret true
  | Some p => s ← the_session p; mret (negb (bool_decide (s_State s = SessionStateValid)))
  end.

(** Whether a request enters the preauthentication hash. *)
Definition hash_request (msg : SMB2Message) : M HS bool :=
  let cmd := h_Command (m_Header msg) in
  conn ← gets hs_conn;
  if (SMB3_1_1 <=? cs_dialect conn) || (cmd =? SMB2_NEGOTIATE) then
    if cmd =? SMB2_NEGOTIATE then mret true
    else if cmd =? SMB2_SESSION_SETUP then unauthenticated
    else mret false
  else mret false.

(** One round of the loop after a message was read: the bytes to write. *)
Definition process (msg : SMB2Message) : M HS (option SMB2Message) :=
  lastActive ← time_Now;
  hash ← hash_request msg;
  (if hash : bool then update_preauth (m_RawBytes msg) else mret tt);;
  HandleMessage msg.

(** After a successful write. *)
Definition sent (response : SMB2Message) : M HS unit :=
  conn ← gets hs_conn;
  if (SMB3_1_1 <=? cs_dialect conn)
     && ((h_Command (m_Header response) =? SMB2_NEGOTIATE)
         || ((h_Command (m_Header response) =? SMB2_SESSION_SETUP)
             && negb (h_Status (m_Header response) =? STATUS_SUCCESS)))
  then update_preauth (message_bytes response)
  else mret tt.

(** The message loop: the frames written until the stream ends, a read
    fails, or a write fails. Each round consumes at least a header, so the
    length of the stream is enough fuel. *)
Fixpoint message_loop (fuel : nat) (accepts : bytes → bool) (stream : bytes) : M HS (list bytes) :=
  match fuel with
  | O => mret []
  | S fuel =>
    deadline ← time_Now;
    match readMessage stream with
    | (inr _, _) => mret []
    | (inl msg, stream) =>
      response ← process msg;
      match response with
      | None => message_loop fuel accepts stream
      | Some response =>
        deadline ← time_Now;
        let frame := writeMessage response in
        if accepts frame then
          sent response;;
          rest ← message_loop fuel accepts stream;
          mret (frame :: rest)
        else mret [frame]
      end
    end
  end.

Definition handleConnection (remoteAddr : gostring) (accepts : bytes → bool) (stream : bytes) : M HS (list bytes) :=
  lastActive ← time_Now;
  modify (set_conn (new_conn remoteAddr));;
  message_loop (S (length stream)) accepts stream.

(** [share.fileHandles.ReleaseBySession(id)] *)
Definition release_by_session (sessionID : Z) (share : ptr) : M HS unit :=
  m ← handles_of share;
  m ← (λ h, let '(_, m, w) := ReleaseBySession f_Close (w_order (hs_w h)) sessionID m (hs_w h) in
            Ok (m, set_w w h));
  set_handles share m.

Fixpoint for_each {A} (f : A → M HS unit) (l : list A) : M HS unit :=
  match l with
  | [] => mret tt
  | x :: l => f x;; for_each f l
  end.

(** One tick of the cleanup loop. *)
Definition cleanup_tick : M HS unit :=
  now ← time_Now;
  m ← gets (λ h, srv_sessions (hs_srv h));
  order ← gets (λ h, w_order (hs_w h));
  let '(expired, m) := CleanupExpired order now m in
  on_sessions (λ _, m);;
  for_each (λ p,
    session ← the_session p;
    shares ← gets (λ h, w_order (hs_w h) (map_to_list (srv_shares (hs_srv h))).*2);
    for_each (release_by_session (s_ID session)) shares) expired.
End dispatch.

(* ------------------------------------------------------------------ *)
(** ** The invariant of the running server *)

Section invariant.
Context `{Absfs} `{UnicodeTables} `{Crypto}.

(** Every valid session is one the configuration permits. *)
Definition sessions_permitted (opts : ServerOptions) (m : SessionManager) : Prop :=
  ∀ q s, s_deref m q = Some s → s_State s = SessionStateValid → permitted opts (s_Username s) (s_IsGuest s).

Record srv_inv (s : Server) : Prop := {
  si_ok : srv_ok s;
  si_auths : auths_ok (srv_options s) (srv_sessions s);
  si_permitted : sessions_permitted (srv_options s) (srv_sessions s);
  si_dirs : dirs_ok (srv_dirStates s);
  si_read : 0 ≤ so_MaxReadSize (srv_options s);
}.

(** The session of a connection exists. *)
Definition conn_ok (s : Server) (c : connState) : Prop :=
  ∀ p, cs_session c = Some p → is_Some (s_deref (srv_sessions s) p).

(** A response header keeps all but the ids of the session and the tree. *)
Definition same_response (hd hd' : SMB2Header) : Prop :=
  ∃ sid tid, hd' = set_TreeID tid (set_SessionID sid hd).

(** What serving a request does to a state in order: it stays in order,
    sessions are never taken out of memory, and the configuration and the
    preauthentication hash are kept. *)
Record progress (h h' : HS) : Prop := {
  pr_inv : srv_inv (hs_srv h');
  pr_conn : conn_ok (hs_srv h') (hs_conn h');
  pr_heap : ∀ q, is_Some (s_deref (srv_sessions (hs_srv h)) q) → is_Some (s_deref (srv_sessions (hs_srv h')) q);
  pr_options : srv_options (hs_srv h') = srv_options (hs_srv h);
  pr_hash : cs_preauthHash (hs_conn h') = cs_preauthHash (hs_conn h);
}.

(** A handler moreover only fills in the ids of the response header. *)
Definition steps (h h' : HS) : Prop := progress h h' ∧ same_response (hs_resp h) (hs_resp h').

Lemma same_response_refl hd : same_response hd hd.
Proof. exists (h_SessionID hd), (h_TreeID hd). by destruct hd. Qed.

Lemma same_response_sid hd sid : same_response hd (set_SessionID sid hd).
Proof. exists sid, (h_TreeID hd). by destruct hd. Qed.

Lemma same_response_tid hd tid : same_response hd (set_TreeID tid hd).
Proof. exists (h_SessionID hd), tid. by destruct hd. Qed.

(** A step that leaves the server as it is. *)
Lemma steps_same h h' :
  srv_inv (hs_srv h) → conn_ok (hs_srv h) (hs_conn h) → hs_srv h' = hs_srv h → hs_resp h' = hs_resp h →
  cs_preauthHash (hs_conn h') = cs_preauthHash (hs_conn h) →
  (hs_conn h' = hs_conn h ∨ cs_session (hs_conn h') = None) → steps h h'.
Proof.
  intros Hi Hc Hs Hr Hh Hconn. split; [|rewrite Hr; apply same_response_refl].
  split; rewrite ?Hs; try done.
  - destruct Hconn as [->|Hn]; [done|]. intros p Hp. congruence.
Qed.

Lemma steps_refl h : srv_inv (hs_srv h) → conn_ok (hs_srv h) (hs_conn h) → steps h h.
Proof. intros. apply steps_same; auto. Qed.

(** A file operation. *)
Lemma steps_frame h h' :
  srv_inv (hs_srv h) → conn_ok (hs_srv h) (hs_conn h) → frame h h' → srv_ok (hs_srv h') → steps h h'.
Proof.
  intros [] Hc [Es Eo _ _ Ed _ Ec Er] Hok'. split; [|rewrite Er; apply same_response_refl]. split.
  - by split; rewrite ?Eo, ?Es, ?Ed.
  - rewrite Ec. intros p Hp. rewrite Es. by apply Hc.
  - by rewrite Es.
  - done.
  - by rewrite Ec.
Qed.

Lemma permitted_evolves opts m m' :
  evolves m m' → sessions_permitted opts m → sessions_permitted opts m'.
Proof.
  intros He Hp q s Hs Hv. destruct (evolves_valid _ _ _ _ He Hs Hv) as (s0 & Hs0 & a & ->).
  simpl in *. by eapply Hp.
Qed.

Lemma permitted_update opts p f m :
  (∀ s, s_deref m p = Some s → s_State (f s) = SessionStateValid →
     permitted opts (s_Username (f s)) (s_IsGuest (f s))) →
  sessions_permitted opts m → sessions_permitted opts (s_update p f m).
Proof.
  intros Hf Hp q s. unfold s_deref; simpl. destruct (decide (q = p)) as [->|Hne].
  - rewrite lookup_alter_eq. destruct (sm_heap m !! p) as [s0|] eqn:E; [|done]. intros [= <-]. by apply Hf.
  - rewrite lookup_alter_ne by done. apply Hp.
Qed.

Lemma permitted_keep opts p f m :
  (∀ s, s_State (f s) = s_State s ∧ s_Username (f s) = s_Username s ∧ s_IsGuest (f s) = s_IsGuest s) →
  sessions_permitted opts m → sessions_permitted opts (s_update p f m).
Proof.
  intros Hf Hp. apply permitted_update; [|done]. intros s Hs.
  destruct (Hf s) as (-> & -> & ->). by eapply Hp.
Qed.

Lemma s_update_grows p f m q : is_Some (s_deref m q) → is_Some (s_deref (s_update p f m) q).
Proof.
  unfold s_deref; simpl. intros [s Hs]. destruct (decide (q = p)) as [->|Hne].
  - rewrite lookup_alter_eq, Hs. eauto.
  - rewrite lookup_alter_ne by done. eauto.
Qed.

(** A step that changes the sessions only. *)
Lemma steps_mgr h m w c hd :
  srv_inv (hs_srv h) → mgr_ok h m → sessions_permitted (srv_options (hs_srv h)) m →
  (∀ q, is_Some (s_deref (srv_sessions (hs_srv h)) q) → is_Some (s_deref m q)) →
  (∀ p, cs_session c = Some p → is_Some (s_deref m p)) →
  cs_preauthHash c = cs_preauthHash (hs_conn h) → same_response (hs_resp h) hd →
  steps h (set_resp hd (set_conn c (on_mgr h m w))).
Proof.
  intros Hi Hm Hp Hg Hc Hh Hr. split; [|done]. split; try done.
  split; [by apply (mgr_ok_srv h m w); [apply Hi|]|apply Hm|done|apply Hi|apply Hi].
Qed.

Lemma inv_mgr h : srv_inv (hs_srv h) → mgr_ok h (srv_sessions (hs_srv h)).
Proof. intros Hi. split_and!; [apply Hi|apply Hi|by apply si_auths]. Qed.

Lemma steps_setup h r h' :
  srv_inv (hs_srv h) → conn_ok (hs_srv h) (hs_conn h) → setup_done h r h' → steps h h'.
Proof.
  intros Hi Hc (m & w & Hm & He & [(_ & sid & ->)|(p & s & t & u & d & g & key & _ & Hs & Hp & ->)]).
  - rewrite <-(set_conn_id (on_mgr h m w)). apply steps_mgr; [done|done|by eapply permitted_evolves, Hi|apply He| |done|].
    + intros q Hq. by apply He, Hc.
    + apply same_response_sid.
  - apply (steps_mgr h (s_update p (SetValid t u d g key) m) w); [done|by apply mgr_ok_SetValid| | | |done|].
    + apply permitted_update; [done|]. by eapply permitted_evolves, Hi.
    + intros q Hq. by apply s_update_grows, He.
    + intros q [= <-]. apply s_update_grows. eauto.
    + apply same_response_sid.
Qed.

Lemma steps_logoff `{!AbsfsLaws} h sid h' :
  srv_inv (hs_srv h) → logged_off h sid h' → steps h h'.
Proof.
  intros Hi (p & s & _ & _ & Hm & Hc & _ & Hok & Ho & Hd & Hr & Hh).
  destruct (inv_mgr h Hi) as (Hwf & Htr & Ha).
  assert (evolves (srv_sessions (hs_srv h)) (srv_sessions (hs_srv h'))) as He
    by (rewrite Hm; apply evolves_DestroySession).
  split; [|rewrite Hr; apply same_response_refl]. split; [split|..].
  - done.
  - rewrite Ho, Hm. by apply auths_ok_DestroySession.
  - rewrite Ho. by eapply permitted_evolves, Hi.
  - rewrite Hd. apply Hi.
  - rewrite Ho. apply Hi.
  - intros q. by rewrite Hc.
  - apply He.
  - done.
  - done.
Qed.

Lemma steps_connected h sid h' :
  srv_inv (hs_srv h) → conn_ok (hs_srv h) (hs_conn h) → connected h sid h' → steps h h'.
Proof.
  intros Hi Hc Hcon. pose proof (connected_ok _ _ _ (si_ok _ Hi) Hcon) as Hok.
  destruct Hcon as (p & s & sp & sh & name & t & w & _ & _ & _ & _ & _ & ->).
  destruct (inv_mgr h Hi) as (Hwf & Htr & Ha).
  rewrite <-(set_conn_id (on_mgr h _ w)). apply steps_mgr; [done| | | | |done|].
  - split_and!; [apply Hok|apply Hok|by apply auths_ok_keep].
  - by apply permitted_keep, Hi.
  - intros q. apply s_update_grows.
  - intros q Hq. by apply s_update_grows, Hc.
  - apply same_response_tid.
Qed.

Lemma steps_disconnect h h' p id :
  srv_inv (hs_srv h) → conn_ok (hs_srv h) (hs_conn h) → srv_ok (hs_srv h') →
  srv_options (hs_srv h') = srv_options (hs_srv h) → hs_conn h' = hs_conn h →
  srv_dirStates (hs_srv h') = srv_dirStates (hs_srv h) → hs_resp h' = hs_resp h →
  srv_sessions (hs_srv h') = s_update p (λ s, (RemoveTreeConnection id s).2) (srv_sessions (hs_srv h)) →
  steps h h'.
Proof.
  intros Hi Hc Hok Ho Hconn Hd Hr Hm. split; [|rewrite Hr; apply same_response_refl].
  split; [split|..]; rewrite ?Ho, ?Hm, ?Hd, ?Hconn.
  - done.
  - by apply auths_ok_keep, Hi.
  - by apply permitted_keep, Hi.
  - apply Hi.
  - apply Hi.
  - intros q Hq. rewrite Hm. by apply s_update_grows, Hc.
  - intros q. apply s_update_grows.
  - done.
  - done.
Qed.

Lemma steps_dir h msg r h' :
  srv_inv (hs_srv h) → conn_ok (hs_srv h) (hs_conn h) → dir_done h msg r h' → steps h h'.
Proof.
  intros Hi Hc (D & w & -> & HD & _). split; [|apply same_response_refl].
  split; try done. split; [by apply with_dirs_ok, Hi|apply Hi..|done|apply Hi].
Qed.

(** The inputs some handler panics on; for [P := False] they are excluded,
    for [P := True] nothing is required. *)
Record safe_for (P : Prop) (h : HS) (msg : SMB2Message) : Prop := {
  sf_create : h_Command (m_Header msg) = SMB2_CREATE → no_fs h msg → P;
  sf_setup : h_Command (m_Header msg) = SMB2_SESSION_SETUP → setup_blob_ok msg ∨ P;
  sf_dir : h_Command (m_Header msg) = SMB2_QUERY_DIRECTORY → index_ok h msg ∨ P;
  sf_raw : h_Command (m_Header msg) = SMB2_NEGOTIATE → len (m_RawBytes msg) ≠ 5 ∨ P;
}.

Lemma wpp_frames P {A} (m : M HS A) (Q : A → HS → Prop) h :
  frames m → wpp P m Q h → wpp P m (λ a h', Q a h' ∧ frame h h') h.
Proof. intros Hf. unfold wpp. destruct (m h) as [[a h']|] eqn:E; [|done]. eauto. Qed.

(** *** Every handler *)

(** A handler that is a frame and keeps the server in order. *)
Lemma wpp_frame_steps P (m : M HS reply) (Q : reply → HS → Prop) h :
  srv_inv (hs_srv h) → conn_ok (hs_srv h) (hs_conn h) → frames m → wpp P m Q h →
  (∀ r h', Q r h' → srv_ok (hs_srv h')) → wpp P m (λ _ h', steps h h') h.
Proof.
  intros Hi Hc Hf Hm HQ. eapply wpp_mono; [by apply wpp_frames|]. intros r h' [Hq Hfr]. apply steps_frame; eauto.
Qed.

Lemma handlers_step `{!AbsfsLaws} P msg h handler :
  srv_inv (hs_srv h) → conn_ok (hs_srv h) (hs_conn h) → safe_for P h msg →
  route msg = Some handler → wpp P handler (λ _ h', steps h h') h.
Proof.
  intros Hi Hc Hs. pose proof (si_ok _ Hi) as Hok.
  assert (∀ h', h' = h → steps h h') as Hsame by (intros h' ->; by apply steps_refl).
  pose proof (λ m Q, wpp_frame_steps P m Q h Hi Hc) as Hframe.
  unfold route. set (cmd := h_Command (m_Header msg)).
  destruct (Z.eqb_spec cmd SMB2_NEGOTIATE); [intros [= <-]|].
  { eapply wpp_mono; [apply wpp_handleNegotiate; by apply (sf_raw _ _ _ Hs)|]. intros r h' (? & ? & ? & ?). by apply steps_same. }
  destruct (Z.eqb_spec cmd SMB2_SESSION_SETUP); [intros [= <-]|].
  { eapply wpp_mono; [apply wpp_handleSessionSetup; [by apply inv_mgr|by apply (sf_setup _ _ _ Hs)]|].
    intros r h' [Hd _]. by eapply steps_setup. }
  destruct (Z.eqb_spec cmd SMB2_LOGOFF); [intros [= <-]|].
  { eapply wpp_mono; [by apply wpp_handleLogoff|]. intros r h' [[_ ?]|[_ Hl]]; [by apply Hsame|by eapply steps_logoff]. }
  destruct (Z.eqb_spec cmd SMB2_TREE_CONNECT); [intros [= <-]|].
  { eapply wpp_mono; [by apply wpp_handleTreeConnect|]. intros r h' [[_ ?]|[_ Hl]]; [by apply Hsame|].
    by eapply steps_connected. }
  destruct (Z.eqb_spec cmd SMB2_TREE_DISCONNECT); [intros [= <-]|].
  { eapply wpp_mono; [by apply wpp_handleTreeDisconnect|].
    intros r h' [[_ ?]|(p & s & t & _ & _ & ? & ? & ? & ? & ? & ?)]; [by apply Hsame|by eapply steps_disconnect]. }
  destruct (Z.eqb_spec cmd SMB2_CREATE); [intros [= <-]|].
  { eapply Hframe; [apply frames_handleCreate|eapply wpp_weaken; [by apply wpp_handleCreate|by apply (sf_create _ _ _ Hs)]|].
    intros r h' [Hr|Hr]; [by eapply refused_ok|by eapply created_ok]. }
  destruct (Z.eqb_spec cmd SMB2_CLOSE); [intros [= <-]|].
  { eapply Hframe; [apply frames_handleClose|by apply wpp_handleClose|].
    intros r h' [Hr|Hr]; [by eapply refused_ok|by eapply closed_ok]. }
  destruct (Z.eqb_spec cmd SMB2_READ); [intros [= <-]|].
  { eapply Hframe; [apply frames_handleRead|apply wpp_handleRead; [done|apply Hi]|].
    intros r h' [(_ & _ & ? & _)|(?&?&?&_&_&_&?&_)]; done. }
  destruct (Z.eqb_spec cmd SMB2_WRITE); [intros [= <-]|].
  { eapply Hframe; [apply frames_handleWrite|by apply wpp_handleWrite|]. by intros r h' [? _]. }
  destruct (Z.eqb_spec cmd SMB2_FLUSH); [intros [= <-]|].
  { eapply Hframe; [apply frames_handleFlush|by apply wpp_handleFlush|]. intros r h' E. by rewrite E. }
  destruct (Z.eqb_spec cmd SMB2_QUERY_DIRECTORY); [intros [= <-]|].
  { eapply wpp_mono; [apply wpp_handleQueryDirectory; [done|apply Hi|by apply (sf_dir _ _ _ Hs)]|].
    intros r h' Hd. by eapply steps_dir. }
  destruct (Z.eqb_spec cmd SMB2_QUERY_INFO); [intros [= <-]|].
  { eapply Hframe; [apply frames_handleQueryInfo|by apply wpp_handleQueryInfo|]. by intros r h' [? _]. }
  destruct (Z.eqb_spec cmd SMB2_SET_INFO); [intros [= <-]|].
  { eapply Hframe; [apply frames_handleSetInfo|by apply wpp_handleSetInfo|]. by intros r h' [? _]. }
  destruct (Z.eqb_spec cmd SMB2_ECHO); [intros [= <-]; apply wpp_ret; by apply Hsame|].
  destruct (Z.eqb_spec cmd SMB2_CANCEL); [done|].
  destruct (Z.eqb_spec cmd SMB2_IOCTL); intros [= <-]; [|apply wpp_ret; by apply Hsame].
  eapply Hframe; [apply frames_handleIOCTL|by apply wpp_handleIOCTL|]. by intros r h' (_ & _ & ->).
Qed.
End invariant.

(* ------------------------------------------------------------------ *)
(** ** Requests and responses *)

Section answers.
Context `{Absfs} `{UnicodeTables} `{Crypto}.

(** A response to the request with header [hd]. *)
Record answers (hd : SMB2Header) (response : SMB2Message) : Prop := {
  an_command : h_Command (m_Header response) = h_Command hd;
  an_id : h_MessageID (m_Header response) = h_MessageID hd;
  an_response : IsResponse (m_Header response) = true;
  an_credits : h_CreditRequest (m_Header response) = Z.max 10 (h_CreditRequest hd);
  an_signed : IsSigned (m_Header response) = true ↔ is_Some (m_SigningKey response);
  an_frame : h_ProtocolID (m_Header response) = SMB2ProtocolID
    ∧ h_StructureSize (m_Header response) = SMB2HeaderSize ∧ h_NextCommand (m_Header response) = 0
    ∧ h_Signature (m_Header response) = zeros 16 ∧ m_RawBytes response = [];
}.

Lemma credits_to_grant_max n : credits_to_grant n = Z.max 10 n.
Proof.
  unfold credits_to_grant. destruct (Z.ltb_spec n 1); [change (1 <? 10) with true; cbv iota; lia|].
  destruct (Z.ltb_spec n 10); lia.
Qed.

Lemma route_None msg : route msg = None ↔ h_Command (m_Header msg) = SMB2_CANCEL.
Proof.
  unfold route. split.
  - repeat match goal with
    | |- (if ?c =? ?d then _ else _) = None → _ => destruct (Z.eqb_spec c d)
    | |- Some _ = None → _ => discriminate
    end.
    intros _. assumption.
  - by intros ->.
Qed.

(** The key is the one of the connection's session. *)
Definition key_of (h : HS) : option bytes :=
  p ← cs_session (hs_conn h); s ← s_deref (srv_sessions (hs_srv h)) p; s_SigningKey s.

(** When a response is signed. *)
Definition must_sign (h : HS) (hd : SMB2Header) (status : Z) : bool :=
  (cs_signingRequired (hs_conn h) || IsSigned hd)
  && negb (h_Command hd =? SMB2_NEGOTIATE)
  && negb ((h_Command hd =? SMB2_SESSION_SETUP) && negb (status =? STATUS_SUCCESS)).

Lemma wpp_signing_key P hd st (Q : option bytes → HS → Prop) h :
  conn_ok (hs_srv h) (hs_conn h) → Q (if must_sign h hd st then key_of h else None) h →
  wpp P (signing_key hd st) Q h.
Proof.
  intros Hc HQ. unfold signing_key. apply wpp_bind, wpp_gets.
  unfold key_of, conn_ok in *. destruct (cs_session (hs_conn h)) as [p|]; simpl in HQ; [|by destruct (must_sign _ _ _)].
  destruct (Hc p eq_refl) as [s Hs]. rewrite Hs in HQ. simpl in HQ.
  apply wpp_bind. unfold the_session, wpp at 1, lift_option. rewrite Hs.
  destruct (s_SigningKey s) as [k|]; [|by destruct (must_sign _ _ _)]. apply wpp_ret.
  unfold must_sign, IsSigned in HQ. revert HQ.
  destruct (h_Command hd =? SMB2_NEGOTIATE), (h_Command hd =? SMB2_SESSION_SETUP), (st =? STATUS_SUCCESS),
    (cs_signingRequired (hs_conn h)), (has_flag (h_Flags hd) SMB2_FLAGS_SIGNED); done.
Qed.

Lemma safe_for_resp P h msg hd : safe_for P h msg → safe_for P (set_resp hd h) msg.
Proof. by intros []. Qed.

(** What HandleMessage returns. *)
Definition handled (msg : SMB2Message) (response : option SMB2Message) (h' : HS) : Prop :=
  match response with
  | None => h_Command (m_Header msg) = SMB2_CANCEL
  | Some r =>
    answers (m_Header msg) r
    ∧ m_SigningKey r = (if must_sign h' (m_Header msg) (h_Status (m_Header r)) then key_of h' else None)
    ∧ (is_Some (m_SigningKey r) → m_Dialect r = cs_dialect (hs_conn h'))
    ∧ h_Command (m_Header msg) ≠ SMB2_CANCEL
  end.

Lemma wpp_HandleMessage `{!AbsfsLaws} P msg h :
  srv_inv (hs_srv h) → conn_ok (hs_srv h) (hs_conn h) → safe_for P h msg →
  wpp P (HandleMessage msg) (λ r h', progress h h' ∧ handled msg r h') h.
Proof.
  intros Hi Hc Hs. unfold HandleMessage. apply wpp_bind, wpp_modify.
  set (h0 := set_resp (response_header (m_Header msg)) h).
  destruct (route msg) as [handler|] eqn:Er; cycle 1.
  { apply wpp_ret. split; [|by apply route_None].
    destruct (steps_refl h0) as [[] _]; [done|done|]. by split. }
  apply wpp_bind. eapply wpp_mono.
  { apply (handlers_step P msg h0); [done|done|by apply safe_for_resp|done]. }
  assert (h_Command (m_Header msg) ≠ SMB2_CANCEL) as Hnc by (intros E; apply route_None in E; congruence).
  intros [payload st] h1 [Hp (sid & tid & Hr)]. apply wpp_bind, wpp_modify, wpp_bind.
  assert (∀ hd, progress h (set_resp hd h1)) as Hprog by (intros hd; destruct Hp; by split).
  apply wpp_signing_key; [apply Hp|].
  set (h2 := set_resp (set_Status st (hs_resp h1)) h1).
  destruct (if must_sign h2 (m_Header msg) st then key_of h2 else None) as [k|] eqn:Ek.
  - apply wpp_bind, wpp_modify, wpp_bind, wpp_gets, wpp_bind, wpp_gets, wpp_ret.
    split; [apply Hprog|]. split_and!; [|by rewrite <-Ek|done|done].
    split; simpl; rewrite ?Hr; try done; apply credits_to_grant_max.
  - apply wpp_bind, wpp_gets, wpp_ret. split; [apply Hprog|]. split_and!; [|symmetry; exact Ek|intros [? Hx]; discriminate Hx|done].
    split; simpl; rewrite ?Hr; try done; apply credits_to_grant_max.
Qed.

(** C1: every request is answered: from a server in order, a message gets
    exactly one response, except CANCEL which gets none, and the server stays
    in order; the response carries the request's command and message id, the
    response flag and as many credits as were asked for (never fewer than
    ten).  It is signed exactly when the connection, as the request leaves it,
    has a session with a signing key, signing is required or the request was
    marked as signed, and it is neither a NEGOTIATE nor a failed SESSION_SETUP;
    the key is that session's.  (So a guest's responses are not signed, nor is
    that of LOGOFF, which has cleared the connection's session.)  Excluded are
    the inputs that can panic a handler, [safe_for]: a CREATE on a tree
    without a file system, a SESSION_SETUP with an NTLM authenticate message
    shorter than 60 bytes, a QUERY_DIRECTORY with an index beyond the cached
    entries, and a NEGOTIATE of five raw bytes. *)
Theorem every_request_answered `{!AbsfsLaws} msg h :
  srv_inv (hs_srv h) → conn_ok (hs_srv h) (hs_conn h) → safe_for False h msg →
  ∃ response h', HandleMessage msg h = Ok (response, h')
    ∧ srv_inv (hs_srv h') ∧ conn_ok (hs_srv h') (hs_conn h')
    ∧ match response with
      | None => h_Command (m_Header msg) = SMB2_CANCEL
      | Some r =>
        h_Command (m_Header msg) ≠ SMB2_CANCEL ∧ answers (m_Header msg) r
        ∧ m_SigningKey r = (if must_sign h' (m_Header msg) (h_Status (m_Header r)) then key_of h' else None)
      end.
Proof.
  intros Hi Hc Hs. destruct (wpp_total _ _ _ (wpp_HandleMessage False msg h Hi Hc Hs)) as (r & h' & E & Hp & Hr).
  exists r, h'. split_and!; [done|apply Hp|apply Hp|]. by destruct r as [r|]; [destruct Hr as (? & ? & _ & ?)|].
Qed.

(** *** Requests without a session *)

(** The commands that need no session. *)
Definition sessionless (cmd : Z) : bool :=
  (cmd =? SMB2_NEGOTIATE) || (cmd =? SMB2_SESSION_SETUP) || (cmd =? SMB2_ECHO) || (cmd =? SMB2_CANCEL).

Lemma with_session_refused hd k h st :
  ValidateSession (h_SessionID hd) (srv_sessions (hs_srv h)) = (None, st) →
  with_session hd k h = Ok ((buildErrorResponse, st), h).
Proof. intros Hv. unfold with_session, validateSession. m_simpl. by rewrite Hv. Qed.

Lemma with_tree_refused hd k h st :
  ValidateSession (h_SessionID hd) (srv_sessions (hs_srv h)) = (None, st) →
  with_tree hd k h = Ok ((buildErrorResponse, st), h).
Proof. intros Hv. unfold with_tree, validateTree, validateSession. m_simpl. by rewrite Hv. Qed.

(** The commands the server implements for clients with a session. *)
Definition session_commands : list Z :=
  [SMB2_LOGOFF; SMB2_TREE_CONNECT; SMB2_TREE_DISCONNECT; SMB2_CREATE; SMB2_CLOSE; SMB2_FLUSH; SMB2_READ;
   SMB2_WRITE; SMB2_IOCTL; SMB2_QUERY_DIRECTORY; SMB2_QUERY_INFO; SMB2_SET_INFO].

Definition refusal (cmd : Z) : Z :=
  if bool_decide (cmd ∈ session_commands) then STATUS_USER_SESSION_DELETED else STATUS_NOT_SUPPORTED.

Lemma route_refused msg h handler :
  ValidateSession (h_SessionID (m_Header msg)) (srv_sessions (hs_srv h)) = (None, STATUS_USER_SESSION_DELETED) →
  sessionless (h_Command (m_Header msg)) = false → route msg = Some handler →
  handler h = Ok ((buildErrorResponse, refusal (h_Command (m_Header msg))), h).
Proof.
  intros Hv Hn. unfold sessionless in Hn. repeat (apply orb_false_iff in Hn as [Hn ?]).
  unfold refusal, route. case_bool_decide as Hin.
  - repeat (apply elem_of_cons in Hin as [->|Hin]; [intros [= <-]; first [by apply with_tree_refused|by apply with_session_refused]|]).
    by apply not_elem_of_nil in Hin.
  - repeat match goal with
    | |- (if ?c =? ?d then _ else _) = Some _ → _ =>
      let Hc := fresh in destruct (Z.eqb_spec c d) as [Hc|Hc];
      [exfalso; rewrite Hc in *; first [done|destruct Hin; vm_compute; by repeat constructor]|]
    end.
    by intros [= <-].
Qed.

(** C3: without a session nothing can be done: a request whose session id
    designates no valid session is refused and changes nothing: no handle,
    session, directory state or file.  The status is STATUS_USER_SESSION_DELETED
    for each of the twelve commands the server implements for clients with a
    session and STATUS_NOT_SUPPORTED for every other command number.  The
    exceptions are NEGOTIATE, SESSION_SETUP, ECHO and CANCEL. *)
Theorem unauthenticated_refused msg h :
  conn_ok (hs_srv h) (hs_conn h) →
  ValidateSession (h_SessionID (m_Header msg)) (srv_sessions (hs_srv h)) = (None, STATUS_USER_SESSION_DELETED) →
  sessionless (h_Command (m_Header msg)) = false →
  ∃ r h', HandleMessage msg h = Ok (Some r, h')
    ∧ m_Payload r = buildErrorResponse
    ∧ h_Status (m_Header r) = (if bool_decide (h_Command (m_Header msg) ∈ session_commands)
        then STATUS_USER_SESSION_DELETED else STATUS_NOT_SUPPORTED)
    ∧ hs_srv h' = hs_srv h ∧ hs_conn h' = hs_conn h ∧ hs_w h' = hs_w h.
Proof.
  intros Hc Hv Hn.
  enough (wpp False (HandleMessage msg) (λ o h', ∃ r, o = Some r ∧ m_Payload r = buildErrorResponse
    ∧ h_Status (m_Header r) = refusal (h_Command (m_Header msg))
    ∧ hs_srv h' = hs_srv h ∧ hs_conn h' = hs_conn h ∧ hs_w h' = hs_w h) h) as Hw.
  { destruct (wpp_total _ _ _ Hw) as (o & h' & E & r & -> & Hr). eauto. }
  unfold HandleMessage. apply wpp_bind, wpp_modify.
  destruct (route msg) as [handler|] eqn:Er; cycle 1.
  { apply route_None in Er. by rewrite Er in Hn. }
  apply wpp_bind. unfold wpp at 1.
  rewrite (route_refused msg (set_resp (response_header (m_Header msg)) h) handler Hv Hn Er).
  apply wpp_bind, wpp_modify, wpp_bind, wpp_signing_key; [done|].
  destruct (if must_sign _ _ _ then _ else _);
    [apply wpp_bind, wpp_modify, wpp_bind, wpp_gets|]; apply wpp_bind, wpp_gets, wpp_ret; simpl; eauto 10.
Qed.
End answers.

(* ------------------------------------------------------------------ *)
(** ** Framing *)

Lemma lor_shiftl_add a b n : 0 ≤ n → 0 ≤ b < 2 ^ n → Z.lor (Z.shiftl a n) b = a * 2 ^ n + b.
Proof.
  intros Hn Hb. pose proof (Z.add_lor_land (Z.shiftl a n) b) as Ha.
  assert (Z.land (Z.shiftl a n) b = 0) as Hz.
  { apply Z.bits_inj'. intros i Hi. rewrite Z.land_spec, Z.shiftl_spec, Z.bits_0 by done.
    destruct (Z.lt_ge_cases i n) as [Hlt|Hge]; [by rewrite (Z.testbit_neg_r a) by lia|].
    rewrite (proj2 (Z.testbit_false b i Hi)); [apply andb_false_r|].
    rewrite Z.div_small; [done|]. split; [lia|]. eapply Z.lt_le_trans; [apply Hb|].
    apply Z.pow_le_mono_r; lia. }
  rewrite Hz, Z.add_0_r in Ha. rewrite Ha. by rewrite Z.shiftl_mul_pow2.
Qed.

Lemma nb_length_put n x :
  0 ≤ n < 2 ^ 24 →
  nb_length [x; byte_of_Z (Z.shiftr n 16); byte_of_Z (Z.shiftr n 8); byte_of_Z n] = n.
Proof.
  intros Hn. unfold nb_length. rewrite !Z_of_byte_of_Z, !Z.shiftr_div_pow2 by lia.
  pose proof (Z.mod_pos_bound n 256). pose proof (Z.mod_pos_bound (n / 2 ^ 8) 256).
  rewrite (lor_shiftl_add ((n / 2 ^ 8) mod 256) (n mod 256) 8) by lia.
  rewrite lor_shiftl_add by lia. Z.to_euclidean_division_equations. lia.
Qed.

Lemma sub_app_l {A} (a b : list A) off n : (off + n ≤ length a)%nat → sub (a ++ b) off n = sub a off n.
Proof.
  intros Hl. unfold sub. rewrite drop_app_le by lia. by rewrite take_app_le by (rewrite length_drop; lia).
Qed.

Lemma unmarshal_header_app hd p :
  header_ok hd → h_ProtocolID hd = SMB2ProtocolID → UnmarshalSMB2Header (Header_Marshal hd ++ p) = Some hd.
Proof.
  intros Hok Hid. pose proof (length_Header_Marshal hd Hok) as Hl.
  rewrite <-(marshal_unmarshal_header hd Hok Hid). unfold UnmarshalSMB2Header.
  rewrite len_app. pose proof (len_nonneg p). unfold len at 1 3. rewrite Hl. unfold SMB2HeaderSize.
  destruct (Z.ltb_spec (Z.of_nat 64 + len p) 64); [lia|]. destruct (Z.ltb_spec (Z.of_nat 64) 64); [lia|].
  by rewrite !sub_app_l by lia.
Qed.

Definition set_Signature (sig : bytes) (hd : SMB2Header) : SMB2Header :=
  mkHeader (h_ProtocolID hd) (h_StructureSize hd) (h_CreditCharge hd) (h_Status hd) (h_Command hd)
    (h_CreditRequest hd) (h_Flags hd) (h_NextCommand hd) (h_MessageID hd) (h_Reserved hd) (h_TreeID hd)
    (h_SessionID hd) sig.

Lemma header_ok_Signature sig hd : length sig = 16%nat → header_ok hd → header_ok (set_Signature sig hd).
Proof. by intros Hs []. Qed.

Lemma put_Signature sig hd p :
  header_ok hd → length sig = 16%nat →
  put_at 48 sig (Header_Marshal hd ++ p) = Header_Marshal (set_Signature sig hd) ++ p.
Proof.
  intros Hok Hs.
  assert (∀ s, Header_Marshal (set_Signature s hd) = take 48 (Header_Marshal hd) ++ s) as Hm.
  { intros s. unfold Header_Marshal. simpl. done. }
  assert (Header_Marshal hd = take 48 (Header_Marshal hd) ++ h_Signature hd) as Hh.
  { rewrite <-Hm. by destruct hd. }
  pose proof (length_Header_Marshal hd Hok) as Hl. unfold put_at. rewrite Hm, Hs.
  rewrite take_app_le by lia. rewrite <-app_assoc. do 2 f_equal.
  rewrite drop_app_ge by lia. rewrite Hl. by rewrite Nat.sub_diag.
Qed.

Section frames_on_the_wire.
Context `{CryptoLaws}.

(** The message on the wire: the response with its signature filled in. *)
Lemma message_bytes_spec msg :
  header_ok (m_Header msg) →
  ∃ sig, length sig = 16%nat
    ∧ message_bytes msg = Header_Marshal (set_Signature sig (m_Header msg)) ++ m_Payload msg
    ∧ (m_SigningKey msg = None → sig = h_Signature (m_Header msg))
    ∧ (∀ k, m_SigningKey msg = Some k → k ≠ [] → VerifySignature (message_bytes msg) k (m_Dialect msg) = true).
Proof.
  intros Hok. pose proof (ok_Signature _ Hok) as Hsig.
  set (body := Header_Marshal (m_Header msg) ++ m_Payload msg).
  assert (SMB2HeaderSize ≤ len body) as Hlen.
  { unfold body. rewrite len_app. unfold len at 1. rewrite length_Header_Marshal by done.
    pose proof (len_nonneg (m_Payload msg)). unfold SMB2HeaderSize. lia. }
  assert (body = Header_Marshal (set_Signature (h_Signature (m_Header msg)) (m_Header msg)) ++ m_Payload msg) as Hb
    by (unfold body; by destruct (m_Header msg)).
  unfold message_bytes. fold body.
  destruct (m_SigningKey msg) as [k|]; [|exists (h_Signature (m_Header msg)); by split_and!].
  destruct (Z.ltb_spec 0 (len k)) as [Hk|Hk].
  - assert (k ≠ []) as Hk' by (intros ->; by vm_compute in Hk).
    destruct (SignMessage_signs body k (m_Dialect msg) Hlen Hk') as (s & Hs & Hl & Happ & _).
    rewrite Hs, Happ. exists s. split_and!; [done|by apply put_Signature|done|].
    intros k' [= <-] _. by apply signed_verifies.
  - exists (h_Signature (m_Header msg)). split_and!; [done..|]. intros k' [= <-] Hne. destruct k; [done|].
    rewrite len_cons in Hk. pose proof (len_nonneg k). lia.
Qed.

Lemma ReadFull_app n a b : len a = n → ReadFull n (a ++ b) = (inl a, b).
Proof.
  intros Hn. unfold ReadFull. rewrite len_app. pose proof (len_nonneg b).
  destruct (Z.ltb_spec (len a + len b) n); [lia|]. unfold len in Hn.
  rewrite <-Hn, Nat2Z.id, take_app_length, drop_app_length. done.
Qed.

(** C13: what the server writes can be read: a response whose header has the
    field ranges of its types and whose size is at most the maximum is read
    back from the stream, exactly and with nothing of what follows it, as the
    message written; only the signature field may differ, and when the response
    carries a signing key the received message verifies under it. *)
Theorem frame_roundtrip msg rest :
  header_ok (m_Header msg) → h_ProtocolID (m_Header msg) = SMB2ProtocolID →
  SMB2HeaderSize + len (m_Payload msg) ≤ MaxTransactSize →
  ∃ sig, readMessage (writeMessage msg ++ rest)
      = (inl (mkMessage (set_Signature sig (m_Header msg)) (m_Payload msg) (message_bytes msg) None 0), rest)
    ∧ (m_SigningKey msg = None → sig = h_Signature (m_Header msg))
    ∧ (∀ k, m_SigningKey msg = Some k → k ≠ [] → VerifySignature (message_bytes msg) k (m_Dialect msg) = true).
Proof.
  intros Hok Hid Hmax. destruct (message_bytes_spec msg Hok) as (sig & Hsig & Hraw & Hnone & Hver).
  exists sig. split; [|done].
  pose proof (header_ok_Signature sig _ Hsig Hok) as Hok'.
  pose proof (length_Header_Marshal _ Hok) as Hl. pose proof (length_Header_Marshal _ Hok') as Hl'.
  pose proof (len_nonneg (m_Payload msg)) as Hp0.
  set (n := len (Header_Marshal (m_Header msg)) + len (m_Payload msg)).
  assert (n = 64 + len (m_Payload msg)) as Hn by (unfold n, len at 1; rewrite Hl; done).
  unfold SMB2HeaderSize, MaxTransactSize in Hmax.
  assert (len (message_bytes msg) = n) as Hlen by (rewrite Hraw, len_app; unfold len at 1; rewrite Hl'; lia).
  unfold readMessage, writeMessage. fold n. rewrite <-app_assoc, (ReadFull_app 4) by done.
  rewrite nb_length_put by lia.
  unfold SMB2HeaderSize, MaxTransactSize.
  destruct (Z.ltb_spec n 64); [lia|]. destruct (Z.ltb_spec (8 * 1024 * 1024) n); [lia|].
  rewrite ReadFull_app by done. rewrite Hraw. rewrite sub_app_l by lia.
  rewrite (bool_decide_true (sub _ 0 4 = SMB2ProtocolID)) by done. cbn [negb].
  rewrite unmarshal_header_app by (done || by destruct (m_Header msg)).
  do 3 f_equal. change (Z.to_nat 64) with 64%nat. by rewrite <-Hl', drop_app_length.
Qed.
End frames_on_the_wire.
