(* ===== verification/System.v ===== *)
(** * The running server

    The connection loop and the cleanup tick of [server.go], and the server as
    a whole: connections that come and go and send messages, shares that are
    added and removed, sessions that expire, in any order.  Messages of
    different connections interleave; each is handled in one step. *)

From stdpp Require Import base numbers list gmap strings relations.
From S2P Require Import Prelude Unicode Constants Types Wire Errors HandleMap Signing Ntlm Sessions Absfs.
From S2P Require Import Server FileOps Connect Dir Info Ioctl Dispatch.

Open Scope Z_scope.

(** ** Reading consumes the stream *)

Lemma ReadFull_inl n stream a rest :
  0 ≤ n → ReadFull n stream = (inl a, rest) → len a = n ∧ stream = a ++ rest.
Proof.
  intros Hn. unfold ReadFull. destruct (Z.ltb_spec (len stream) n); [done|]. intros [= <- <-].
  split; [|by rewrite take_drop]. unfold len in *. rewrite length_take. lia.
Qed.

(** A message takes its NetBIOS header and at least an SMB2 header; its raw
    bytes are a whole message or, for SMB1, absent. *)
Lemma readMessage_consumes stream msg rest :
  readMessage stream = (inl msg, rest) →
  (length rest + 68 ≤ length stream)%nat ∧ len (m_RawBytes msg) ≠ 5.
Proof.
  unfold readMessage. destruct (ReadFull 4 stream) as [[nb|e] s1] eqn:E1; [|done].
  apply ReadFull_inl in E1 as [H1 ->]; [|lia].
  destruct (Z.ltb_spec (nb_length nb) SMB2HeaderSize) as [|Hlo]; [done|].
  destruct (MaxTransactSize <? nb_length nb); [done|]. unfold SMB2HeaderSize in Hlo.
  destruct (ReadFull (nb_length nb) s1) as [[data|e] s2] eqn:E2; [|done].
  apply ReadFull_inl in E2 as [H2 ->]; [|lia].
  assert ((length s2 + 68 ≤ length (nb ++ data ++ s2))%nat) as Hl.
  { unfold len in *. rewrite !length_app. lia. }
  destruct (negb _).
  - destruct (bool_decide _); [|done]. intros [= <- <-]. by split.
  - destruct (UnmarshalSMB2Header data); [|done]. intros [= <- <-]. split; [done|]. simpl. lia.
Qed.

(** The requests of a stream that get a response. *)
Fixpoint requests (fuel : nat) (stream : bytes) : list SMB2Message :=
  match fuel with
  | O => []
  | S fuel =>
    match readMessage stream with
    | (inl msg, stream) =>
      if h_Command (m_Header msg) =? SMB2_CANCEL then requests fuel stream else msg :: requests fuel stream
    | (inr _, _) => []
    end
  end.

Section connections.
Context `{Absfs} `{UnicodeTables} `{Crypto}.

(** More fuel than the stream has bytes changes nothing. *)
Lemma message_loop_fuel accepts f1 f2 stream h :
  (length stream < f1)%nat → (length stream < f2)%nat →
  message_loop f1 accepts stream h = message_loop f2 accepts stream h.
Proof.
  revert f2 stream h; induction f1 as [|f1 IH]; intros f2 stream h Hf1 Hf2; [lia|].
  destruct f2 as [|f2]; [lia|]. cbn [message_loop]. unfold mbind, M_bind.
  destruct (time_Now h) as [[t h1]|]; [|done].
  destruct (readMessage stream) as [[msg|e] rest] eqn:Er; [|done].
  destruct (readMessage_consumes _ _ _ Er) as [Hlen _].
  assert (∀ h, message_loop f1 accepts rest h = message_loop f2 accepts rest h) as Hloop
    by (intros; apply IH; lia).
  destruct (process msg h1) as [[[r|] h2]|]; [|apply Hloop|done].
  destruct (time_Now h2) as [[t2 h3]|]; [|done].
  destruct (accepts (writeMessage r)); [|done]. destruct (sent r h3) as [[[] h4]|]; [|done]. by rewrite Hloop.
Qed.

(** C19: the loop that serves a connection ends: on a client that sends
    finitely many bytes, the message loop returns within as many rounds as
    there are bytes, because each round consumes a NetBIOS header and at least
    an SMB2 header; giving it more rounds makes no difference. *)
Theorem message_loop_terminates remoteAddr accepts stream fuel h :
  (length stream < fuel)%nat →
  handleConnection remoteAddr accepts stream h
  = (time_Now;; modify (set_conn (new_conn remoteAddr));; message_loop fuel accepts stream) h.
Proof.
  intros Hf. unfold handleConnection, mbind, M_bind. destruct (time_Now h) as [[t h1]|]; [|done].
  apply message_loop_fuel; lia.
Qed.

(** *** The parts of a round *)

Lemma progress_refl h : srv_inv (hs_srv h) → conn_ok (hs_srv h) (hs_conn h) → progress h h.
Proof. intros. by apply steps_refl. Qed.

(** Changing the world or the hash of the connection. *)
Definition sidestep (h h' : HS) : Prop :=
  hs_srv h' = hs_srv h ∧ cs_session (hs_conn h') = cs_session (hs_conn h).

Lemma wpp_update_preauth data h : wpp True (update_preauth data) (λ _ h', sidestep h h') h.
Proof.
  unfold update_preauth. apply wpp_bind, wpp_gets, wpp_bind. unfold lift_outcome, wpp at 1.
  destruct (UpdatePreauthHash _ _); [|done]. by apply wpp_modify.
Qed.

Lemma wpp_hash_request msg h : wpp True (hash_request msg) (λ _ h', h' = h) h.
Proof.
  unfold hash_request, unauthenticated. apply wpp_bind, wpp_gets. repeat case_match; try by apply wpp_ret.
  apply wpp_bind, wpp_gets. case_match; [|by apply wpp_ret]. apply wpp_bind. unfold the_session, wpp at 1, lift_option.
  destruct (s_deref _ _); [by apply wpp_ret|done].
Qed.

Lemma wpp_sent r h : wpp True (sent r) (λ _ h', sidestep h h') h.
Proof.
  unfold sent. apply wpp_bind, wpp_gets. destruct (_ && _); [apply wpp_update_preauth|by apply wpp_ret].
Qed.

Lemma sidestep_inv h h' :
  sidestep h h' → srv_inv (hs_srv h) ∧ conn_ok (hs_srv h) (hs_conn h) →
  srv_inv (hs_srv h') ∧ conn_ok (hs_srv h') (hs_conn h').
Proof. intros [Hs Hc] [Hi Ho]. unfold conn_ok. by rewrite Hs, Hc. Qed.

(** One message, whatever it is. *)
Lemma safe_for_any h msg : safe_for True h msg.
Proof. split; auto. Qed.

Lemma wpp_process `{!AbsfsLaws} msg h :
  srv_inv (hs_srv h) → conn_ok (hs_srv h) (hs_conn h) →
  wpp True (process msg) (λ r h', handled msg r h'
    ∧ (∀ q, is_Some (s_deref (srv_sessions (hs_srv h)) q) → is_Some (s_deref (srv_sessions (hs_srv h')) q))
    ∧ srv_options (hs_srv h') = srv_options (hs_srv h)
    ∧ srv_inv (hs_srv h') ∧ conn_ok (hs_srv h') (hs_conn h')) h.
Proof.
  intros Hi Hc. unfold process. apply wpp_bind, wpp_io. intros t w _.
  apply wpp_bind. eapply wpp_mono; [apply wpp_hash_request|]. intros b h1 ->.
  apply wpp_bind. apply (wpp_mono True _ (λ _ h', sidestep (set_w w h) h')).
  { destruct b; [apply wpp_update_preauth|by apply wpp_ret]. }
  intros [] h1 Hside. pose proof Hside as [Hsrv _].
  destruct (sidestep_inv _ h1 Hside) as [Hi1 Hc1]; [done|].
  eapply wpp_mono; [apply wpp_HandleMessage; [done|done|apply safe_for_any]|].
  intros r h2 [Hp Hh]. destruct Hp as [Hi2 Hc2 Hg Ho _]. rewrite Hsrv in Hg, Ho. split_and!; auto.
Qed.

(** C12: a connection gets its answers in order: on a server in order, while
    the client keeps reading, the frames written are the responses to the
    requests of the stream, one for each request but CANCEL and in the order of
    the requests, each with its request's command and message id; the server
    is in order at the end.  This is said of a run that ends without a panic
    ([safe_for] names the requests that can panic a handler); [fuel] bounds the rounds
    of the loop. *)
Theorem answers_in_order `{!AbsfsLaws} stream fuel h frames h' :
  srv_inv (hs_srv h) → conn_ok (hs_srv h) (hs_conn h) →
  message_loop fuel (λ _, true) stream h = Ok (frames, h') →
  srv_inv (hs_srv h') ∧
  ∃ responses, frames = map writeMessage responses
    ∧ Forall2 (λ msg r, answers (m_Header msg) r) (requests fuel stream) responses.
Proof.
  revert stream h frames h'; induction fuel as [|fuel IH]; intros stream h frames h' Hi Hc; cbn [message_loop requests].
  { intros [= <- <-]. split; [done|]. exists []. by split. }
  unfold mbind, M_bind, time_Now, io. destruct (w_now (hs_w h)) as [t w].
  destruct (readMessage stream) as [[msg|e] rest] eqn:Er; cycle 1.
  { intros [= <- <-]. split; [done|]. exists []. by split. }
  pose proof (wpp_process msg (set_w w h) Hi Hc) as Hp. unfold wpp in Hp.
  destruct (process msg (set_w w h)) as [[r h2]|]; [|done].
  destruct Hp as (Hh & _ & _ & Hinv). destruct r as [r|]; cycle 1.
  { simpl in Hh. rewrite Hh. destruct Hinv as [Hi2 Hc2]. by apply IH. }
  destruct Hh as (Ha & _ & _ & Hnc). destruct (w_now (hs_w h2)) as [t2 w2].
  pose proof (wpp_sent r (set_w w2 h2)) as Hs. unfold wpp in Hs.
  destruct (sent r (set_w w2 h2)) as [[[] h3]|]; [|done].
  destruct (sidestep_inv (set_w w2 h2) h3 Hs Hinv) as [Hi3 Hc3].
  destruct (message_loop fuel (λ _, true) rest h3) as [[frames' h4]|] eqn:El; [|done]. intros [= <- <-].
  destruct (IH rest h3 frames' h4 Hi3 Hc3 El) as (Hi4 & rs & -> & Hrs).
  split; [done|]. exists (r :: rs). split; [done|].
  rewrite (proj2 (Z.eqb_neq _ _) Hnc). by constructor.
Qed.
End connections.

(* ------------------------------------------------------------------ *)
(** ** Expiry of sessions *)

Section cleanup.
Context `{Absfs} `{UnicodeTables} `{Crypto}.

(** [o] is open as [id] in the share [sp]. *)
Definition has_open (h : HS) (sp : ptr) (id : FileID) (o : OpenFile File) : Prop :=
  ∃ os, opens h sp = Some os ∧ os !! id = Some o.

(** The share is one of the server's. *)
Definition listed (s : Server) (sp : ptr) : Prop := ∃ name, srv_shares s !! name = Some sp.

(** From [h] to [h'] exactly the files that satisfy [gone] were closed. *)
Definition closes (gone : ptr → OpenFile File → Prop) (h h' : HS) : Prop :=
  srv_ok (hs_srv h') ∧ frame h h' ∧ ∀ sp id o, has_open h' sp id o ↔ has_open h sp id o ∧ ¬ gone sp o.

Lemma closes_nothing gone h : srv_ok (hs_srv h) → (∀ sp o, ¬ gone sp o) → closes gone h h.
Proof. intros Hok Hg. split; [done|]. split; [done|]. naive_solver. Qed.

Lemma closes_trans g1 g2 g h1 h2 h3 :
  closes g1 h1 h2 → closes g2 h2 h3 → (∀ sp o, g sp o ↔ g1 sp o ∨ g2 sp o) → closes g h1 h3.
Proof.
  intros (_ & Hf1 & H12) (Hok & Hf2 & H23) Hg. split; [done|]. split; [by etrans|].
  intros sp id o. rewrite H23, H12, Hg. tauto.
Qed.

Lemma wpp_release_by_session `{!AbsfsLaws} P sid sp h :
  srv_ok (hs_srv h) → is_Some (srv_shareHeap (hs_srv h) !! sp) →
  wpp P (release_by_session sid sp) (λ _ h', closes (λ sp' o, sp' = sp ∧ of_SessionID o = sid) h h') h.
Proof.
  intros Hok Hsp. apply (release_where_run P sp (λ o, of_SessionID o =? sid)); [done|done|].
  intros h' Hok' Hfr Ho. split; [done|]. split; [done|]. intros sp' id o. unfold has_open. rewrite Ho.
  case_decide as Hd; [|naive_solver]. destruct (opens h sp') as [os|]; simpl; [|naive_solver].
  assert (filter (λ x : FileID * OpenFile File, (of_SessionID x.2 =? sid) = false) os !! id = Some o
    ↔ os !! id = Some o ∧ of_SessionID o ≠ sid) as Hfil.
  { rewrite map_lookup_filter_Some. simpl. by rewrite Z.eqb_neq. }
  naive_solver.
Qed.

Lemma frame_shares h h' sp :
  frame h h' → is_Some (srv_shareHeap (hs_srv h) !! sp) → is_Some (srv_shareHeap (hs_srv h') !! sp).
Proof.
  intros Hfr [x Hx]. pose proof (fr_shares _ _ Hfr sp) as Hs. rewrite Hx in Hs.
  destruct (srv_shareHeap (hs_srv h') !! sp); [eauto|done].
Qed.

Lemma wpp_release_shares `{!AbsfsLaws} P sid shares h :
  srv_ok (hs_srv h) → Forall (λ sp, is_Some (srv_shareHeap (hs_srv h) !! sp)) shares →
  wpp P (for_each (release_by_session sid) shares)
    (λ _ h', closes (λ sp o, sp ∈ shares ∧ of_SessionID o = sid) h h') h.
Proof.
  revert h; induction shares as [|sp shares IH]; intros h Hok Hall; cbn [for_each].
  { apply wpp_ret, closes_nothing; [done|]. intros sp o [?%not_elem_of_nil _]. done. }
  apply Forall_cons in Hall as [Hsp Hall]. apply wpp_bind.
  eapply wpp_mono; [by apply wpp_release_by_session|]. intros [] h1 Hc1. pose proof Hc1 as (Hok1 & Hf1 & _).
  eapply wpp_mono; [apply IH; [done|]|].
  { eapply Forall_impl; [exact Hall|]. intros sp'. by apply frame_shares. }
  intros [] h2 Hc2. eapply closes_trans; [done|done|]. intros sp' o. rewrite elem_of_cons. tauto.
Qed.

Lemma wpp_release_expired `{!AbsfsLaws} P expired h :
  srv_ok (hs_srv h) → Forall (λ p, is_Some (s_deref (srv_sessions (hs_srv h)) p)) expired →
  wpp P (for_each (λ p,
      session ← the_session p;
      shares ← gets (λ h, w_order (hs_w h) (map_to_list (srv_shares (hs_srv h))).*2);
      for_each (release_by_session (s_ID session)) shares) expired)
    (λ _ h', closes (λ sp o, listed (hs_srv h) sp ∧
       ∃ p s, p ∈ expired ∧ s_deref (srv_sessions (hs_srv h)) p = Some s ∧ of_SessionID o = s_ID s) h h') h.
Proof.
  revert h; induction expired as [|p expired IH]; intros h Hok Hall; cbn [for_each].
  { apply wpp_ret, closes_nothing; [done|]. intros sp o (_ & p & s & ?%not_elem_of_nil & _). done. }
  apply Forall_cons in Hall as [[s Hs] Hall]. apply wpp_bind, wpp_bind.
  eapply wpp_the_session; [exact Hs|]. apply wpp_bind, wpp_gets.
  set (shares := w_order (hs_w h) (map_to_list (srv_shares (hs_srv h))).*2).
  assert (∀ sp, sp ∈ shares ↔ listed (hs_srv h) sp) as Hshares.
  { intros sp. unfold shares, listed. rewrite w_order_perm, list_elem_of_fmap. split.
    - intros ([name sp'] & -> & Hx). apply elem_of_map_to_list in Hx. eauto.
    - intros [name Hx]. exists (name, sp). split; [done|]. by apply elem_of_map_to_list. }
  eapply wpp_mono.
  { apply wpp_release_shares; [done|]. apply Forall_forall. intros sp [name Hn]%Hshares. by eapply so_names. }
  intros [] h1 Hc1. pose proof Hc1 as (Hok1 & Hf1 & _).
  assert (srv_sessions (hs_srv h1) = srv_sessions (hs_srv h)) as Hm by apply Hf1.
  eapply wpp_mono; [apply IH; [done|by rewrite Hm]|]. intros [] h2 Hc2.
  eapply closes_trans; [exact Hc1|exact Hc2|]. intros sp o. unfold listed in *.
  rewrite Hm, (fr_names _ _ Hf1), Hshares. split.
  - intros (Hl & p' & s' & [->|Hp']%elem_of_cons & Hs' & Ho); [left|right]; [|by eauto 10].
    split; [done|]. rewrite Hs in Hs'. by injection Hs' as ->.
  - intros [[Hl Ho]|(Hl & p' & s' & Hp' & ?)]; (split; [done|]).
    + exists p, s. split; [by left|done].
    + exists p', s'. split; [by right|done].
Qed.

(** The sessions that are idle for too long at [now]. *)
Definition expired_at (now : Z) (m : SessionManager) (p : ptr) (s : Session) : Prop :=
  ∃ id, sm_sessions m !! id = Some p ∧ s_deref m p = Some s ∧ s_LastActivity s < now - sm_idleLimit m.

Lemma wpp_cleanup_tick `{!AbsfsLaws} P h :
  srv_ok (hs_srv h) →
  wpp P cleanup_tick (λ _ h', ∃ now w h1,
    w_now (hs_w h) = (now, w)
    ∧ sm_wf (srv_sessions (hs_srv h1)) ∧ sm_heap (srv_sessions (hs_srv h1)) = sm_heap (srv_sessions (hs_srv h))
    ∧ (∀ id p s, sm_sessions (srv_sessions (hs_srv h)) !! id = Some p →
         s_deref (srv_sessions (hs_srv h)) p = Some s →
         sm_sessions (srv_sessions (hs_srv h1)) !! id
         = if s_LastActivity s <? now - sm_idleLimit (srv_sessions (hs_srv h)) then None else Some p)
    ∧ h1 = on_mgr h (srv_sessions (hs_srv h1)) w
    ∧ closes (λ sp o, listed (hs_srv h) sp ∧
        ∃ p s, expired_at now (srv_sessions (hs_srv h)) p s ∧ of_SessionID o = s_ID s) h1 h') h.
Proof.
  intros Hok. unfold cleanup_tick. apply wpp_bind, wpp_io. intros now w Hn.
  apply wpp_bind, wpp_gets, wpp_bind, wpp_gets. simpl.
  pose proof (CleanupExpired_spec (w_order w) now (srv_sessions (hs_srv h)) (so_sessions _ Hok)
    (λ l, w_order_perm _ w l)) as Hc.
  destruct (CleanupExpired (w_order w) now (srv_sessions (hs_srv h))) as [expired m'].
  destruct Hc as (Hwf & Hheap & Hs & He). apply wpp_bind, wpp_modify.
  match goal with |- wpp _ _ _ ?h1 => change h1 with (on_mgr h m' w) end.
  assert (∀ p, s_deref m' p = s_deref (srv_sessions (hs_srv h)) p) as Hd by (intros; unfold s_deref; by rewrite Hheap).
  eapply wpp_mono; [apply wpp_release_expired|].
  - apply (set_sessions_ok m' (hs_srv h)); [done|done|]. intros p ses id t. rewrite Hd. apply (so_trees _ Hok).
  - apply Forall_forall. intros p (id & s & _ & Hp & _)%He. simpl. rewrite Hd. eauto.
  - intros [] h' (Hok' & Hfr & Ho). exists now, w, (on_mgr h m' w). split_and!; try done.
    split; [done|]. split; [done|]. intros sp id o. rewrite Ho. unfold expired_at. simpl.
    assert ((∃ p s, p ∈ expired ∧ s_deref m' p = Some s ∧ of_SessionID o = s_ID s) ↔
      ∃ p s, (∃ id, sm_sessions (srv_sessions (hs_srv h)) !! id = Some p
        ∧ s_deref (srv_sessions (hs_srv h)) p = Some s
        ∧ s_LastActivity s < now - sm_idleLimit (srv_sessions (hs_srv h))) ∧ of_SessionID o = s_ID s) as Hx.
    { split; intros (p & s & Hp & Hrest).
      - apply He in Hp as (id' & s' & ? & Hs' & ?). destruct Hrest as [Hs'' ?]. rewrite Hd, Hs' in Hs''.
        injection Hs'' as ->. eauto 10.
      - destruct Hp as (id' & ? & Hs' & ?). exists p, s. rewrite He, Hd. eauto 10. }
    unfold listed. simpl. rewrite Hx. done.
Qed.

(** C22: the periodic cleanup ends idle sessions with their files: a tick
    always completes, unregisters exactly the sessions whose last activity
    lies before the idle limit, and closes, in the shares the server lists,
    exactly the files those sessions had open; all other files stay open. *)
Theorem expiry_closes_files `{!AbsfsLaws} h :
  srv_ok (hs_srv h) →
  ∃ h' now w, cleanup_tick h = Ok (tt, h') ∧ w_now (hs_w h) = (now, w) ∧ srv_ok (hs_srv h')
    ∧ (∀ id p s, sm_sessions (srv_sessions (hs_srv h)) !! id = Some p →
         s_deref (srv_sessions (hs_srv h)) p = Some s →
         sm_sessions (srv_sessions (hs_srv h')) !! id
         = if s_LastActivity s <? now - sm_idleLimit (srv_sessions (hs_srv h)) then None else Some p)
    ∧ ∀ sp id o, has_open h' sp id o ↔ has_open h sp id o
        ∧ ¬ (listed (hs_srv h) sp ∧
             ∃ p s, expired_at now (srv_sessions (hs_srv h)) p s ∧ of_SessionID o = s_ID s).
Proof.
  intros Hok. destruct (wpp_total _ _ _ (wpp_cleanup_tick False h Hok))
    as ([] & h' & E & now & w & h1 & Hn & _ & _ & Hs & -> & Hok' & Hfr & Ho).
  exists h', now, w. split_and!; [done..| |done].
  intros id p s Hp Hd. rewrite (fr_sessions _ _ Hfr). by apply Hs.
Qed.
End cleanup.

(* ------------------------------------------------------------------ *)
(** ** All runs *)

Section system.
Context `{Absfs} `{UnicodeTables} `{Crypto}.

Record Sys := mkSys {
  sys_srv : Server;
  sys_w : World;
  sys_conns : gmap nat connState;
}.

(** The state a handler of connection [c] runs in. *)
Definition serve (hd : SMB2Header) (c : connState) (y : Sys) : HS := mkHS c hd (sys_srv y) (sys_w y).

Definition back (id : nat) (h : HS) (y : Sys) : Sys :=
  mkSys (hs_srv h) (hs_w h) (<[id := hs_conn h]> (sys_conns y)).

(** What can happen: a client connects, disconnects, sends a message, or has
    a response delivered; sessions expire; the program adds or removes a
    share; the environment changes on its own. *)
Inductive sys_step : Sys → Sys → Prop :=
| sys_accept id addr y :
    sys_conns y !! id = None →
    sys_step y (mkSys (sys_srv y) (sys_w y) (<[id := new_conn addr]> (sys_conns y)))
| sys_close id y :
    sys_step y (mkSys (sys_srv y) (sys_w y) (delete id (sys_conns y)))
| sys_message id c hd stream msg rest response h' y :
    sys_conns y !! id = Some c → readMessage stream = (inl msg, rest) →
    process msg (serve hd c y) = Ok (response, h') → sys_step y (back id h' y)
| sys_sent id c hd response h' y :
    sys_conns y !! id = Some c → sent response (serve hd c y) = Ok (tt, h') → sys_step y (back id h' y)
| sys_cleanup hd c h' y :
    cleanup_tick (serve hd c y) = Ok (tt, h') → sys_step y (mkSys (hs_srv h') (hs_w h') (sys_conns y))
| sys_add_share fs options y :
    sys_step y (mkSys (AddShare fs options (sys_srv y)).2 (sys_w y) (sys_conns y))
| sys_remove_share name y :
    sys_step y (mkSys (RemoveShare name (sys_srv y)).2 (sys_w y) (sys_conns y))
| sys_environment w y : sys_step y (mkSys (sys_srv y) w (sys_conns y)).

Definition sys_inv (y : Sys) : Prop :=
  srv_inv (sys_srv y) ∧ map_Forall (λ _ c, conn_ok (sys_srv y) c) (sys_conns y).

(** A configuration that does not give a negative limit. *)
Lemma NewServer_inv guid o s :
  0 ≤ so_MaxReadSize o → NewServer guid o = Some s → srv_inv s.
Proof.
  intros Hm E. pose proof (NewServer_ok _ _ _ E) as Hok. revert E. unfold NewServer.
  destruct (if bool_decide _ then _ else _) as [g|]; [|done]. intros [= <-].
  split; [done| | | |]; simpl.
  - intros q s a. unfold s_deref; simpl. by rewrite lookup_empty.
  - intros q s. unfold s_deref; simpl. by rewrite lookup_empty.
  - apply map_Forall_empty.
  - unfold or_default. destruct (_ =? 0); [unfold MaxReadSize; lia|done].
Qed.

Lemma srv_inv_config s s' :
  srv_ok s' → srv_options s' = srv_options s → srv_sessions s' = srv_sessions s →
  srv_dirStates s' = srv_dirStates s → srv_inv s → srv_inv s'.
Proof. intros Hok Ho Hs Hd []. by split; rewrite ?Ho, ?Hs, ?Hd. Qed.

Lemma install_share_same name sh s :
  srv_options (install_share name sh s) = srv_options s ∧ srv_sessions (install_share name sh s) = srv_sessions s
  ∧ srv_dirStates (install_share name sh s) = srv_dirStates s.
Proof. done. Qed.

(** Connections survive what happens to the others. *)
Lemma conns_grow y s' :
  (∀ q, is_Some (s_deref (srv_sessions (sys_srv y)) q) → is_Some (s_deref (srv_sessions s') q)) →
  map_Forall (λ _ c, conn_ok (sys_srv y) c) (sys_conns y) → map_Forall (λ _ c, conn_ok s' c) (sys_conns y).
Proof. intros Hg Hc id c Hid p Hp. by apply Hg, (Hc id c Hid). Qed.

Lemma back_inv id h y :
  srv_inv (hs_srv h) → conn_ok (hs_srv h) (hs_conn h) →
  map_Forall (λ _ c, conn_ok (hs_srv h) c) (sys_conns y) → sys_inv (back id h y).
Proof. intros Hi Hc Hall. split; [done|]. by apply map_Forall_insert_2. Qed.

Lemma sys_step_inv `{!AbsfsLaws} y y' : sys_step y y' → sys_inv y → sys_inv y'.
Proof.
  intros Hstep [Hi Hc]. pose proof (si_ok _ Hi) as Hok.
  destruct Hstep as [id addr y _|id y|id c hd stream msg rest response h' y Hid Hread E|id c hd response h' y Hid E
    |hd c h' y E|fs options y|name y|w y].
  - split; [done|]. apply map_Forall_insert_2; [by intros p|done].
  - split; [done|]. by apply map_Forall_delete.
  - destruct (wpp_ok True _ _ _ _ _ (wpp_process msg (serve hd c y) Hi (Hc _ _ Hid)) E)
      as (_ & Hg & _ & Hi' & Hc').
    apply back_inv; [done|done|]. by apply conns_grow.
  - destruct (wpp_ok True _ _ _ _ _ (wpp_sent response (serve hd c y)) E) as [Hsrv Hses]. simpl in Hsrv, Hses.
    apply back_inv; rewrite Hsrv; [done| |done]. intros p Hp. rewrite Hses in Hp. by apply (Hc _ _ Hid).
  - destruct (wpp_ok True _ _ _ _ _ (wpp_cleanup_tick True (serve hd c y) Hok) E)
      as (now & w & h1 & _ & _ & Hheap & _ & Hh1 & Hok' & Hfr & _).
    assert (∀ q, s_deref (srv_sessions (hs_srv h')) q = s_deref (srv_sessions (sys_srv y)) q) as Hd.
    { intros q. rewrite (fr_sessions _ _ Hfr). unfold s_deref. by rewrite Hheap. }
    assert (srv_options (hs_srv h') = srv_options (sys_srv y)) as Ho by (rewrite (fr_options _ _ Hfr), Hh1; done).
    split; simpl; [|apply (conns_grow y); [intros q; by rewrite Hd|done]].
    split; rewrite ?Ho; [done| | | |apply Hi].
    + intros q s a. rewrite Hd. apply (si_auths _ Hi).
    + intros q s. rewrite Hd. apply (si_permitted _ Hi).
    + rewrite (fr_dirs _ _ Hfr), Hh1. apply Hi.
  - pose proof (AddShare_ok fs options _ Hok) as Hok'. split; simpl.
    + eapply srv_inv_config; [done|..|exact Hi]; unfold AddShare; by repeat case_match.
    + apply (conns_grow y); [|done]. unfold AddShare. by repeat case_match.
  - pose proof (RemoveShare_ok name _ Hok) as Hok'. split; simpl.
    + eapply srv_inv_config; [done|..|exact Hi]; unfold RemoveShare; by repeat case_match.
    + apply (conns_grow y); [|done]. unfold RemoveShare. by repeat case_match.
  - done.
Qed.

Lemma sys_step_options `{!AbsfsLaws} y y' :
  sys_step y y' → sys_inv y → srv_options (sys_srv y') = srv_options (sys_srv y).
Proof.
  intros Hstep [Hi Hc]. pose proof (si_ok _ Hi) as Hok.
  destruct Hstep as [| |id c hd stream msg rest response h' y Hid Hread E|id c hd response h' y Hid E
    |hd c h' y E|fs options y|name y|]; try done; simpl.
  - by destruct (wpp_ok True _ _ _ _ _ (wpp_process msg (serve hd c y) Hi (Hc _ _ Hid)) E)
      as (_ & _ & Ho & _).
  - by destruct (wpp_ok True _ _ _ _ _ (wpp_sent response (serve hd c y)) E) as [-> _].
  - destruct (wpp_ok True _ _ _ _ _ (wpp_cleanup_tick True (serve hd c y) Hok) E)
      as (now & w & h1 & _ & _ & _ & _ & Hh1 & _ & Hfr & _).
    rewrite (fr_options _ _ Hfr), Hh1. done.
  - unfold AddShare. by repeat case_match.
  - unfold RemoveShare. by repeat case_match.
Qed.

Lemma reachable_inv `{!AbsfsLaws} y y' :
  rtc sys_step y y' → sys_inv y → sys_inv y' ∧ srv_options (sys_srv y') = srv_options (sys_srv y).
Proof.
  induction 1 as [y|y1 y2 y3 Hstep Hrest IH]; intros Hi; [done|].
  destruct (IH (sys_step_inv _ _ Hstep Hi)) as [Hi3 Ho]. split; [done|].
  by rewrite Ho, (sys_step_options _ _ Hstep Hi).
Qed.

(** C2: in every state the server can reach, whatever its clients send and
    in whatever order, a session id that validates belongs to a session that
    authenticated as the configuration demands: a guest only where guests are
    allowed, and otherwise a user that is configured.  ([MaxReadSize] is a
    uint32 in the code, so not negative.) *)
Theorem reachable_sessions_authenticated `{!AbsfsLaws} guid o s0 w y id p s :
  0 ≤ so_MaxReadSize o → NewServer guid o = Some s0 → rtc sys_step (mkSys s0 w ∅) y →
  ValidateSession id (srv_sessions (sys_srv y)) = (Some p, STATUS_SUCCESS) →
  s_deref (srv_sessions (sys_srv y)) p = Some s →
  (s_IsGuest s = true → so_AllowGuest o = true)
  ∧ (s_IsGuest s = false → ∃ name, is_Some (so_Users o !! name) ∧ ToUpper name = ToUpper (s_Username s)).
Proof.
  intros Hm E Hreach Hv Hs.
  assert (sys_inv (mkSys s0 w ∅)) as H0'.
  { split; [by eapply NewServer_inv|apply map_Forall_empty]. }
  destruct (reachable_inv _ _ Hreach H0') as [[Hi _] Ho]. simpl in Ho.
  assert (so_AllowGuest (srv_options s0) = so_AllowGuest o ∧ so_Users (srv_options s0) = so_Users o) as [Hg Hu].
  { revert E. unfold NewServer. destruct (if bool_decide _ then _ else _) as [g|]; [|done]. by intros [= <-]. }
  destruct (ValidateSession_cases id _ (so_sessions _ (si_ok _ Hi))) as [?|(p' & s' & ? & _ & Hs' & _ & Hst)]; [congruence|].
  assert (p' = p) as -> by congruence. assert (s' = s) as -> by congruence.
  pose proof (si_permitted _ Hi _ _ Hs Hst) as Hp. rewrite Ho in Hp. unfold permitted in Hp.
  rewrite Hg, Hu in Hp. by destruct (s_IsGuest s).
Qed.
End system.

(* ------------------------------------------------------------------ *)
(** ** Witnesses: a fresh server with the share ["data"], to which a client
    without credentials connects as a guest *)

Notation handle m := (HandleMessage (H := mem_absfs) (H0 := ascii_tables) (H1 := toy_crypto) m).

Definition fresh_hs : HS (H := mem_absfs) :=
  mkHS (H := mem_absfs) (new_conn []) (Server.sample_header 0 0) (sample_config false)
    (mkMem [(str "f", str "hello")] 100).

(** After SESSION_SETUP: the guest session 107. *)
Definition guest_hs : HS (H := mem_absfs) := state_after (handle (setup_msg 0)) fresh_hs.

Lemma sample_config_inv : srv_inv (H := mem_absfs) (H0 := ascii_tables) (sample_config false).
Proof.
  unfold sample_config.
  destruct (NewServer (H := mem_absfs) (Some (zeros 16)) DefaultServerOptions) as [s|] eqn:E; cycle 1.
  { exfalso. revert E. unfold NewServer. by destruct (bool_decide _). }
  pose proof (NewServer_inv (H := mem_absfs) (H0 := ascii_tables) (Some (zeros 16)) DefaultServerOptions s
    ltac:(by apply Z.leb_le; vm_compute) E) as Hi. cbn [default].
  eapply srv_inv_config; [apply AddShare_ok, Hi|..|exact Hi]; unfold AddShare; by repeat case_match.
Qed.

Lemma fresh_safe P msg :
  setup_blob_ok msg ∨ P → h_Command (m_Header msg) = SMB2_SESSION_SETUP → len (m_RawBytes msg) ≠ 5 →
  safe_for (H := mem_absfs) P fresh_hs msg.
Proof.
  intros Hb Hc Hr. split; rewrite ?Hc; try done.
Qed.

Lemma no_session h : cs_session (hs_conn h) = None → conn_ok (H := mem_absfs) (hs_srv h) (hs_conn h).
Proof. intros Hn p. by rewrite Hn. Qed.

Lemma setup_msg_blob : setup_blob_ok (setup_msg 0).
Proof.
  intros req rd blob Hp Hs.
  assert (parse_setup (NewByteReader (m_Payload (setup_msg 0)))
    = Ok (Some (mkSetup 0 0 0), mkReader (m_Payload (setup_msg 0)) 24)) as E by by vm_compute.
  rewrite E in Hp. injection Hp as <- _. by vm_compute in Hs.
Qed.

Lemma guest_inv : srv_inv (H := mem_absfs) (H0 := ascii_tables) (hs_srv guest_hs)
  ∧ conn_ok (H := mem_absfs) (hs_srv guest_hs) (hs_conn guest_hs).
Proof.
  unfold guest_hs, state_after.
  pose proof (wpp_HandleMessage (H := mem_absfs) (H0 := ascii_tables) (H1 := toy_crypto) (H2 := mem_absfs_laws) True
    (setup_msg 0) fresh_hs sample_config_inv (no_session fresh_hs eq_refl)
    (fresh_safe True (setup_msg 0) (or_intror I) eq_refl ltac:(by vm_compute))) as Hw. unfold wpp in Hw.
  destruct (handle (setup_msg 0) fresh_hs) as [[r h']|].
  - destruct Hw as [[Hi Hc] _]. split; [exact Hi|exact Hc].
  - split; [exact sample_config_inv|apply no_session; reflexivity].
Qed.

Lemma every_request_answered_witness :
  ∃ r h', handle (setup_msg 0) fresh_hs = Ok (Some r, h') ∧ answers (m_Header (setup_msg 0)) r
    ∧ srv_inv (H := mem_absfs) (H0 := ascii_tables) (hs_srv h').
Proof.
  destruct (every_request_answered (H := mem_absfs) (H0 := ascii_tables) (H1 := toy_crypto) (H2 := mem_absfs_laws)
    (setup_msg 0) fresh_hs sample_config_inv (no_session fresh_hs eq_refl)
    (fresh_safe False (setup_msg 0) (or_introl setup_msg_blob) eq_refl ltac:(by vm_compute)))
    as ([r|] & h' & E & Hi & _ & Hr); [|discriminate Hr].
  exists r, h'. split; [exact E|]. split; [exact (proj1 (proj2 Hr))|exact Hi].
Defined.

Lemma unauthenticated_refused_witness :
  ∃ r h', handle (create_msg 1 "f" FILE_OPEN 0) fresh_hs = Ok (Some r, h')
    ∧ h_Status (m_Header r) = STATUS_USER_SESSION_DELETED ∧ hs_w h' = hs_w fresh_hs.
Proof.
  destruct (unauthenticated_refused (H := mem_absfs) (H0 := ascii_tables) (H1 := toy_crypto)
    (create_msg 1 "f" FILE_OPEN 0) fresh_hs (no_session fresh_hs eq_refl) ltac:(by vm_compute) ltac:(by vm_compute))
    as (r & h' & E & _ & Hst & _ & _ & Hw).
  exists r, h'. split; [exact E|]. split; [|exact Hw]. rewrite Hst. by vm_compute.
Defined.

(** The frame of a request. *)
Definition frame_of (msg : SMB2Message) : bytes := writeMessage (H := toy_crypto) msg.

Definition echo_msg : SMB2Message :=
  mkMessage (mkHeader SMB2ProtocolID 64 0 0 SMB2_ECHO 1 0 0 9 0 0 0 (zeros 16)) empty_response [] None 0.

Definition signed_msg : SMB2Message :=
  mkMessage (mkHeader SMB2ProtocolID 64 0 0 SMB2_ECHO 1 9 0 9 0 0 107 (zeros 16)) empty_response []
    (Some (zeros 16)) SMB3_0.

Lemma frame_roundtrip_witness :
  ∃ sig, readMessage (frame_of signed_msg ++ str "next")
      = (inl (mkMessage (set_Signature sig (m_Header signed_msg)) empty_response
           (message_bytes (H := toy_crypto) signed_msg) None 0), str "next")
    ∧ VerifySignature (H := toy_crypto) (message_bytes (H := toy_crypto) signed_msg) (zeros 16) SMB3_0 = true.
Proof.
  assert (header_ok (m_Header signed_msg)) as Hok
    by (split; simpl; (reflexivity || (split; (apply Z.leb_le || apply Z.ltb_lt); reflexivity))).
  destruct (frame_roundtrip (H := toy_crypto) (H0 := toy_crypto_laws) signed_msg (str "next") Hok eq_refl
    ltac:(by apply Z.leb_le; vm_compute)) as (sig & E & _ & Hv).
  exists sig. split; [exact E|]. apply (Hv (zeros 16) eq_refl). discriminate.
Defined.

Definition two_requests : bytes := frame_of (setup_msg 0) ++ frame_of echo_msg.

Notation serve_stream f := (message_loop (H := mem_absfs) (H0 := ascii_tables) (H1 := toy_crypto) f (λ _, true) two_requests).

Lemma message_loop_terminates_witness :
  handleConnection (H := mem_absfs) (H0 := ascii_tables) (H1 := toy_crypto) [] (λ _, true) two_requests fresh_hs
  = (time_Now (H := mem_absfs);; modify (set_conn (H := mem_absfs) (new_conn []));; serve_stream 1000%nat) fresh_hs.
Proof.
  apply (message_loop_terminates (H := mem_absfs) (H0 := ascii_tables) (H1 := toy_crypto)).
  by apply Nat.ltb_lt; vm_compute.
Defined.

Lemma answers_in_order_witness :
  ∃ frames h' responses, serve_stream 10%nat fresh_hs = Ok (frames, h')
    ∧ frames = map (writeMessage (H := toy_crypto)) responses ∧ length responses = 2%nat.
Proof.
  destruct (run_ok (serve_stream 10%nat) fresh_hs) as [frames E]; [by vm_compute|].
  destruct (answers_in_order (H := mem_absfs) (H0 := ascii_tables) (H1 := toy_crypto) (H2 := mem_absfs_laws)
    two_requests 10 fresh_hs frames _ sample_config_inv (no_session fresh_hs eq_refl) E)
    as (_ & rs & Hf & Hrs).
  eexists frames, _, rs. split; [exact E|]. split; [exact Hf|].
  rewrite <-(Forall2_length _ _ _ Hrs). by vm_compute.
Defined.

(** The sample server twenty minutes later: the session of [alice], which has
    a file open, has been idle for longer than its limit of fifteen. *)
Definition idle_hs : HS (H := mem_absfs) := set_w (H := mem_absfs) (mkMem [] (20 * minute)) (opened false 0).

Lemma idle_session : ∃ p s, sm_sessions (srv_sessions (hs_srv idle_hs)) !! 42 = Some p
  ∧ s_deref (srv_sessions (hs_srv idle_hs)) p = Some s
  ∧ (s_LastActivity s <? 20 * minute - sm_idleLimit (srv_sessions (hs_srv idle_hs))) = true ∧ s_ID s = 42.
Proof.
  assert (match sm_sessions (srv_sessions (hs_srv idle_hs)) !! 42 with
    | Some p => match s_deref (srv_sessions (hs_srv idle_hs)) p with
      | Some s => (s_LastActivity s <? 20 * minute - sm_idleLimit (srv_sessions (hs_srv idle_hs))) && (s_ID s =? 42)
      | None => false end
    | None => false end = true) as Hb by (vm_compute; reflexivity).
  destruct (sm_sessions _ !! 42) as [p|]; [|done]. destruct (s_deref _ p) as [s|] eqn:Es; [|done].
  apply andb_true_iff in Hb as [Hb Hid%Z.eqb_eq]. by exists p, s.
Qed.

Lemma idle_file : ∃ o, has_open (H := mem_absfs) idle_hs 1 opened_id o ∧ of_SessionID o = 42.
Proof.
  assert (match opens (H := mem_absfs) idle_hs 1 with
    | Some os => match os !! opened_id with Some o => of_SessionID o =? 42 | None => false end
    | None => false end = true) as Hb by (vm_compute; reflexivity).
  unfold has_open. destruct (opens _ _) as [os|]; [|done]. destruct (os !! opened_id) as [o|] eqn:Eo; [|done].
  exists o. split; [by exists os|]. by apply Z.eqb_eq.
Qed.

Lemma expiry_closes_files_witness :
  is_Some (sm_sessions (srv_sessions (hs_srv idle_hs)) !! 42) ∧
  (∃ o, has_open (H := mem_absfs) idle_hs 1 opened_id o) ∧
  ∃ h', cleanup_tick (H := mem_absfs) idle_hs = Ok (tt, h') ∧ sm_sessions (srv_sessions (hs_srv h')) !! 42 = None
    ∧ ∀ o, ¬ has_open (H := mem_absfs) h' 1 opened_id o.
Proof.
  destruct idle_session as (p & s & Hp & Hd & Hold & Hid). destruct idle_file as (o0 & Ho0 & Hsid).
  split; [by exists p|]. split; [by exists o0|].
  destruct (expiry_closes_files (H := mem_absfs) (H2 := mem_absfs_laws) idle_hs (opened_ok false 0))
    as (h' & now & w & E & Hn & _ & Hs & Ho).
  assert (now = 20 * minute) as -> by (change (w_now (Absfs := mem_absfs) (hs_w idle_hs)) with (20 * minute, mkMem [] (20 * minute + 1)) in Hn; congruence).
  exists h'. split; [exact E|]. split.
  - rewrite (Hs 42 p s Hp Hd). by rewrite Hold.
  - intros o [Hopen Hkeep]%Ho. apply Hkeep. split.
    + exists (str "data"). vm_compute. reflexivity.
    + exists p, s. split; [exists 42; split; [exact Hp|]; split; [exact Hd|by apply Z.ltb_lt]|].
      destruct Hopen as (os & Hos & Hoo), Ho0 as (os0 & Hos0 & Hoo0). congruence.
Defined.

(** A run of the whole server: a client connects and becomes a guest. *)
Definition start_sys : Sys (H := mem_absfs) :=
  mkSys (H := mem_absfs)
    (default (mkServer DefaultServerOptions ∅ ∅ 0 (NewSessionManager 0) ∅)
      (NewServer (H := mem_absfs) (Some (zeros 16)) DefaultServerOptions)) (mkMem [] 100) ∅.

Definition setup_request : SMB2Message :=
  mkMessage (m_Header (setup_msg 0)) (m_Payload (setup_msg 0)) (message_bytes (H := toy_crypto) (setup_msg 0)) None 0.

Definition guest_sys : Sys (H := mem_absfs) :=
  let y := mkSys (H := mem_absfs) (sys_srv start_sys) (sys_w start_sys) (<[0%nat := new_conn []]> (sys_conns start_sys)) in
  back (H := mem_absfs) 0
    (state_after (process (H := mem_absfs) (H0 := ascii_tables) (H1 := toy_crypto) setup_request)
       (serve (Server.sample_header 0 0) (new_conn []) y)) y.

Lemma guest_sys_reachable :
  rtc (sys_step (H := mem_absfs) (H0 := ascii_tables) (H1 := toy_crypto)) start_sys guest_sys.
Proof.
  eapply rtc_l; [apply (sys_accept (H := mem_absfs) (H0 := ascii_tables) (H1 := toy_crypto) 0 []); by vm_compute|].
  apply rtc_once. unfold guest_sys. set (y := mkSys _ _ _).
  destruct (run_ok (process (H := mem_absfs) (H0 := ascii_tables) (H1 := toy_crypto) setup_request)
    (serve (Server.sample_header 0 0) (new_conn []) y)) as [r E]; [by vm_compute|].
  apply (sys_message (H := mem_absfs) (H0 := ascii_tables) (H1 := toy_crypto) 0 (new_conn []) (Server.sample_header 0 0)
    (frame_of (setup_msg 0)) setup_request [] r).
  - reflexivity.
  - by vm_compute.
  - exact E.
Qed.

Lemma reachable_sessions_authenticated_witness :
  ∃ p s, ValidateSession 108 (srv_sessions (sys_srv guest_sys)) = (Some p, STATUS_SUCCESS)
    ∧ s_deref (srv_sessions (sys_srv guest_sys)) p = Some s
    ∧ (s_IsGuest s = true → so_AllowGuest DefaultServerOptions = true).
Proof.
  assert (ValidateSession 108 (srv_sessions (sys_srv guest_sys)) = (Some 0%nat, STATUS_SUCCESS)) as Hv by by vm_compute.
  assert (match s_deref (srv_sessions (sys_srv guest_sys)) 0%nat with Some _ => true | None => false end = true) as Hb
    by by vm_compute.
  destruct (s_deref (srv_sessions (sys_srv guest_sys)) 0%nat) as [s|] eqn:Es; [|discriminate Hb].
  destruct (NewServer (H := mem_absfs) (Some (zeros 16)) DefaultServerOptions) as [s0|] eqn:E0; cycle 1.
  { assert (match NewServer (H := mem_absfs) (Some (zeros 16)) DefaultServerOptions with Some _ => true | None => false end = true)
      as Hc by by vm_compute. rewrite E0 in Hc. discriminate Hc. }
  pose proof guest_sys_reachable as Hr. unfold start_sys in Hr. rewrite E0 in Hr.
  exists 0%nat, s. split; [exact Hv|]. split; [exact Es|].
  apply (proj1 (reachable_sessions_authenticated (H := mem_absfs) (H0 := ascii_tables) (H1 := toy_crypto)
    (H2 := mem_absfs_laws) (Some (zeros 16)) DefaultServerOptions s0 (mkMem [] 100) guest_sys 108 0%nat s
    ltac:(by apply Z.leb_le; vm_compute) E0 Hr Hv Es)).
Defined.
