(* ===== verification/Lifecycle.v ===== *)
(** * The life of the server

    [Listen], the accept loop, the start and the end of [handleConnection],
    the end of the cleanup loop and [Stop] of [server.go], as a transition
    system of the server's goroutines.  A step is what a goroutine does
    between two points where another one can be noticed: a critical section
    of [connMu], a blocking call, the test of the context.  What a handler
    does with its messages is the subject of [Dispatch.v] and [System.v], and
    the ticks of the cleanup loop change nothing here.

    Each step is due to the server itself or to a peer: a connection arrives,
    a message arrives, a peer goes away or stays silent until the read
    deadline.  Without a peer, a read only ends because the server closed the
    connection, and [Accept] because it closed the listener.  [Listen] is
    called once, before [Stop].  A handler that has a message returns from it
    ([Dispatch.v] shows which requests are answered, and writing the answer
    has a deadline). *)

From stdpp Require Import base numbers list gmap sets fin_maps relations.
From S2P Require Import Prelude.

Open Scope Z_scope.

(** A [net.Conn]. *)
Notation conn := nat.

Inductive listener_state := NoListener | ListenerOpen | ListenerClosed.

(** Where the accept loop is: in [Accept], with a connection, with one that
    passed the limit, at its end. *)
Inductive accept_state := AcceptNone | Accepting | Accepted (c : conn) | Passed (c : conn) | AcceptDone.

(** Where [handleConnection] is: before it is tracked, at the head of the
    loop, in [readMessage], in [HandleMessage] and [writeMessage], in the
    deferred function. *)
Inductive handler_state := Started | AtLoop | Reading | Handling | Ending.

(** Where [Stop] is: not called, after the signals, after the listener was
    closed, waiting, returned. *)
Inductive stop_state := Running | Signalled | StopListening | Waiting | Stopped.

Record Life := mkLife {
  lf_MaxConnections : Z;
  lf_listener : listener_state;
  lf_cancelled : bool;              (* ctx *)
  lf_shutdownCh : bool;             (* closed *)
  lf_wg : Z;
  lf_conns : gset conn;
  lf_connCount : Z;
  lf_closed : gset conn;            (* sockets closed by the server *)
  lf_accept : accept_state;
  lf_cleanup : bool;                (* the cleanup loop runs *)
  lf_handlers : gmap conn handler_state;
  lf_stop : stop_state;
  lf_next : conn;                   (* connections accepted so far *)
}.

Definition NewLife (maxConnections : Z) : Life :=
  mkLife maxConnections NoListener false false 0 ∅ 0 ∅ AcceptNone false ∅ Running 0.

Definition set_accept (a : accept_state) (l : Life) : Life :=
  mkLife (lf_MaxConnections l) (lf_listener l) (lf_cancelled l) (lf_shutdownCh l) (lf_wg l) (lf_conns l) (lf_connCount l)
    (lf_closed l) a (lf_cleanup l) (lf_handlers l) (lf_stop l) (lf_next l).
Definition set_handler (c : conn) (h : handler_state) (l : Life) : Life :=
  mkLife (lf_MaxConnections l) (lf_listener l) (lf_cancelled l) (lf_shutdownCh l) (lf_wg l) (lf_conns l) (lf_connCount l)
    (lf_closed l) (lf_accept l) (lf_cleanup l) (<[c := h]> (lf_handlers l)) (lf_stop l) (lf_next l).
Definition set_stop (st : stop_state) (l : Life) : Life :=
  mkLife (lf_MaxConnections l) (lf_listener l) (lf_cancelled l) (lf_shutdownCh l) (lf_wg l) (lf_conns l) (lf_connCount l)
    (lf_closed l) (lf_accept l) (lf_cleanup l) (lf_handlers l) st (lf_next l).
Definition wg_add (n : Z) (l : Life) : Life :=
  mkLife (lf_MaxConnections l) (lf_listener l) (lf_cancelled l) (lf_shutdownCh l) (lf_wg l + n) (lf_conns l) (lf_connCount l)
    (lf_closed l) (lf_accept l) (lf_cleanup l) (lf_handlers l) (lf_stop l) (lf_next l).
Definition count_add (n : Z) (l : Life) : Life :=
  mkLife (lf_MaxConnections l) (lf_listener l) (lf_cancelled l) (lf_shutdownCh l) (lf_wg l) (lf_conns l) (lf_connCount l + n)
    (lf_closed l) (lf_accept l) (lf_cleanup l) (lf_handlers l) (lf_stop l) (lf_next l).
Definition set_conns (f : gset conn → gset conn) (l : Life) : Life :=
  mkLife (lf_MaxConnections l) (lf_listener l) (lf_cancelled l) (lf_shutdownCh l) (lf_wg l) (f (lf_conns l)) (lf_connCount l)
    (lf_closed l) (lf_accept l) (lf_cleanup l) (lf_handlers l) (lf_stop l) (lf_next l).
(** [conn.Close()] *)
Definition close_conns (cs : gset conn) (l : Life) : Life :=
  mkLife (lf_MaxConnections l) (lf_listener l) (lf_cancelled l) (lf_shutdownCh l) (lf_wg l) (lf_conns l) (lf_connCount l)
    (lf_closed l ∪ cs) (lf_accept l) (lf_cleanup l) (lf_handlers l) (lf_stop l) (lf_next l).

(** ** The operations *)

(** [Listen], when [net.Listen] succeeds: the two loops are started. *)
Definition Listen (l : Life) : Life :=
  wg_add 2 (mkLife (lf_MaxConnections l) ListenerOpen (lf_cancelled l) (lf_shutdownCh l) (lf_wg l) (lf_conns l) (lf_connCount l)
    (lf_closed l) Accepting true (lf_handlers l) (lf_stop l) (lf_next l)).

(** [Accept] returns a connection. *)
Definition accept_conn (l : Life) : Life :=
  mkLife (lf_MaxConnections l) (lf_listener l) (lf_cancelled l) (lf_shutdownCh l) (lf_wg l) (lf_conns l) (lf_connCount l)
    (lf_closed l) (Accepted (lf_next l)) (lf_cleanup l) (lf_handlers l) (lf_stop l) (S (lf_next l)).

(** [Accept] returns an error: the loop ends if the context has, and goes on
    otherwise. *)
Definition accept_error (l : Life) : Life :=
  if lf_cancelled l then wg_add (-1) (set_accept AcceptDone l) else l.

(** The connection limit. *)
Definition admit_conn (c : conn) (l : Life) : Life :=
  if 0 <? lf_MaxConnections l then
    if lf_MaxConnections l <=? lf_connCount l then set_accept Accepting (close_conns {[ c ]} l)
    else set_accept (Passed c) (count_add 1 l)
  else set_accept (Passed c) l.

(** [go s.handleConnection(conn)] *)
Definition spawn (c : conn) (l : Life) : Life := set_handler c Started (set_accept Accepting (wg_add 1 l)).

(** The connection is tracked. *)
Definition track (c : conn) (l : Life) : Life := set_handler c AtLoop (set_conns (union {[ c ]}) l).

(** The head of the loop. *)
Definition loop_head (c : conn) (l : Life) : Life :=
  set_handler c (if lf_cancelled l then Ending else Reading) l.

(** [readMessage] fails, or delivers a message. *)
Definition read_done (c : conn) (ok : bool) (l : Life) : Life := set_handler c (if ok then Handling else Ending) l.

(** The message was handled; [ok] unless the response could not be sent. *)
Definition handled (c : conn) (ok : bool) (l : Life) : Life := set_handler c (if ok then AtLoop else Ending) l.

(** The deferred functions. *)
Definition connection_end (c : conn) (l : Life) : Life :=
  let l := count_add (-1) (set_conns (λ cs, cs ∖ {[ c ]}) (close_conns {[ c ]} l)) in
  wg_add (-1) (mkLife (lf_MaxConnections l) (lf_listener l) (lf_cancelled l) (lf_shutdownCh l) (lf_wg l) (lf_conns l) (lf_connCount l)
    (lf_closed l) (lf_accept l) (lf_cleanup l) (delete c (lf_handlers l)) (lf_stop l) (lf_next l)).

Definition cleanup_end (l : Life) : Life :=
  wg_add (-1) (mkLife (lf_MaxConnections l) (lf_listener l) (lf_cancelled l) (lf_shutdownCh l) (lf_wg l) (lf_conns l) (lf_connCount l)
    (lf_closed l) (lf_accept l) false (lf_handlers l) (lf_stop l) (lf_next l)).

(** The start of [Stop]; closing the channel a second time panics. *)
Definition Stop_signal (l : Life) : outcome Life :=
  if lf_shutdownCh l then Panic
  else Ok (mkLife (lf_MaxConnections l) (lf_listener l) true true (lf_wg l) (lf_conns l) (lf_connCount l)
    (lf_closed l) (lf_accept l) (lf_cleanup l) (lf_handlers l) Signalled (lf_next l)).

Definition Stop_listener (l : Life) : Life :=
  mkLife (lf_MaxConnections l) (match lf_listener l with NoListener => NoListener | _ => ListenerClosed end) (lf_cancelled l)
    (lf_shutdownCh l) (lf_wg l) (lf_conns l) (lf_connCount l)
    (lf_closed l) (lf_accept l) (lf_cleanup l) (lf_handlers l) StopListening (lf_next l).

Definition Stop_conns (l : Life) : Life := set_stop Waiting (close_conns (lf_conns l) l).

Definition ConnectionCount (l : Life) : Z := lf_connCount l.

(** ** The goroutines *)

(** Who makes a step happen. *)
Inductive actor := Server | Peer.

Inductive life_act : actor → Life → Life → Prop :=
| ls_listen l : lf_listener l = NoListener → lf_stop l = Running → life_act Server l (Listen l)
| ls_accept l : lf_accept l = Accepting → lf_listener l = ListenerOpen → life_act Peer l (accept_conn l)
| ls_accept_error who l :
    lf_accept l = Accepting → who = Peer ∨ lf_listener l = ListenerClosed → life_act who l (accept_error l)
| ls_admit l c : lf_accept l = Accepted c → life_act Server l (admit_conn c l)
| ls_spawn l c : lf_accept l = Passed c → life_act Server l (spawn c l)
| ls_track l c : lf_handlers l !! c = Some Started → life_act Server l (track c l)
| ls_loop l c : lf_handlers l !! c = Some AtLoop → life_act Server l (loop_head c l)
| ls_message l c : lf_handlers l !! c = Some Reading → c ∉ lf_closed l → life_act Peer l (read_done c true l)
| ls_read_error who l c :
    lf_handlers l !! c = Some Reading → who = Peer ∨ c ∈ lf_closed l → life_act who l (read_done c false l)
| ls_handled l c ok : lf_handlers l !! c = Some Handling → life_act Server l (handled c ok l)
| ls_end l c : lf_handlers l !! c = Some Ending → life_act Server l (connection_end c l)
| ls_cleanup l : lf_cleanup l = true → lf_cancelled l = true → life_act Server l (cleanup_end l)
| ls_stop l l' : lf_stop l = Running → Stop_signal l = Ok l' → life_act Server l l'
| ls_stop_listener l : lf_stop l = Signalled → life_act Server l (Stop_listener l)
| ls_stop_conns l : lf_stop l = StopListening → life_act Server l (Stop_conns l)
| ls_stopped l : lf_stop l = Waiting → lf_wg l = 0 → life_act Server l (set_stop Stopped l).

Definition life_step (l l' : Life) : Prop := ∃ who, life_act who l l'.

(** ** The invariant *)

Definition accept_active (a : accept_state) : Z :=
  match a with Accepting | Accepted _ | Passed _ => 1 | AcceptNone | AcceptDone => 0 end.

(** The connection the accept loop holds. *)
Definition accept_holds (a : accept_state) : option conn :=
  match a with Accepted c | Passed c => Some c | _ => None end.

Definition is_admitted (a : accept_state) : Z := match a with Passed _ => 1 | _ => 0 end.
Definition is_pending (a : accept_state) : Z := match a with Accepted _ | Passed _ => 1 | _ => 0 end.

Definition live (l : Life) : Z := Z.of_nat (size (lf_handlers l)).

Record life_inv (l : Life) : Prop := {
  li_wg : lf_wg l = accept_active (lf_accept l) + (if lf_cleanup l then 1 else 0) + live l;
  li_fresh : ∀ c, is_Some (lf_handlers l !! c) → (c < lf_next l)%nat;
  li_holds : ∀ c, accept_holds (lf_accept l) = Some c → (c < lf_next l)%nat ∧ lf_handlers l !! c = None;
  li_conns : ∀ c, c ∈ lf_conns l ↔ ∃ h, lf_handlers l !! c = Some h ∧ h ≠ Started;
  li_signals : lf_shutdownCh l = lf_cancelled l ∧ (lf_cancelled l = true ↔ lf_stop l ≠ Running);
  li_listener : (lf_accept l = AcceptNone → lf_cleanup l = false) ∧ (lf_listener l = NoListener ↔ lf_accept l = AcceptNone)
    ∧ (lf_listener l = ListenerOpen → lf_stop l = Running ∨ lf_stop l = Signalled);
  li_limit : 0 < lf_MaxConnections l → lf_connCount l = live l + is_admitted (lf_accept l) ∧ lf_connCount l ≤ lf_MaxConnections l;
  li_unlimited : lf_MaxConnections l ≤ 0 → lf_connCount l = live l + is_pending (lf_accept l) - Z.of_nat (lf_next l);
}.

Lemma NewLife_inv n : life_inv (NewLife n).
Proof.
  split; simpl; try done.
  - intros c [? ?]. by rewrite lookup_empty in *.
  - intros c. split; [set_solver|]. intros (h & Hh & _). by rewrite lookup_empty in Hh.
  - intros Hn. change (live (NewLife n)) with 0. lia.
Qed.

(** A handler moves on within the tracked states. *)
Lemma set_handler_inv c h h' l :
  lf_handlers l !! c = Some h → h ≠ Started → h' ≠ Started → life_inv l → life_inv (set_handler c h' l).
Proof.
  intros Hc Hh Hh' [].
  assert (live (set_handler c h' l) = live l) as Hlive by (unfold live; simpl; by rewrite map_size_insert_Some).
  split; simpl; rewrite ?Hlive; try done.
  - intros c' Hc'. destruct (decide (c' = c)) as [->|]; [by apply li_fresh0; rewrite Hc|]. rewrite lookup_insert_ne in Hc' by done. by apply li_fresh0.
  - intros c' [Hlt Hnone]%li_holds0. split; [done|]. rewrite lookup_insert_ne; [done|]. intros <-. congruence.
  - intros c'. rewrite li_conns0. destruct (decide (c' = c)) as [->|]; [rewrite lookup_insert_eq, Hc|by rewrite lookup_insert_ne].
    split; intros _; eexists; by split.
Qed.

Ltac life_split := split; unfold live in *; simpl in *; try done; try lia.

Lemma track_inv c l : lf_handlers l !! c = Some Started → life_inv l → life_inv (track c l).
Proof.
  intros Hc []. unfold track.
  assert (size (<[c := AtLoop]> (lf_handlers l)) = size (lf_handlers l)) as Hs by (by rewrite map_size_insert_Some).
  life_split; rewrite ?Hs; try done.
  - intros c' Hc'. destruct (decide (c' = c)) as [->|]; [by apply li_fresh0; rewrite Hc|]. rewrite lookup_insert_ne in Hc' by done. by apply li_fresh0.
  - intros c' [Hlt Hnone]%li_holds0. split; [done|]. rewrite lookup_insert_ne; [done|]. intros <-. congruence.
  - intros c'. rewrite elem_of_union, elem_of_singleton, li_conns0. destruct (decide (c' = c)) as [->|].
    + rewrite lookup_insert_eq. split; [intros _; eexists; by split|by left].
    + rewrite lookup_insert_ne by done. naive_solver.
Qed.

Lemma spawn_inv c l : lf_accept l = Passed c → life_inv l → life_inv (spawn c l).
Proof.
  intros Ha []. rewrite Ha in *. destruct (li_holds0 c eq_refl) as [Hlt Hnone]. unfold spawn.
  assert (size (<[c := Started]> (lf_handlers l)) = S (size (lf_handlers l))) as Hs by (by rewrite map_size_insert_None).
  life_split; rewrite ?Hs; try lia.
  - intros c' Hc'. destruct (decide (c' = c)) as [->|]; [done|]. rewrite lookup_insert_ne in Hc' by done. by apply li_fresh0.
  - intros c'. rewrite li_conns0. destruct (decide (c' = c)) as [->|]; [|by rewrite lookup_insert_ne].
    rewrite lookup_insert_eq. naive_solver.
  - naive_solver.
Qed.

Lemma connection_end_inv c l : is_Some (lf_handlers l !! c) → life_inv l → life_inv (connection_end c l).
Proof.
  intros [h Hc] []. unfold connection_end.
  assert (Z.of_nat (size (delete c (lf_handlers l))) = Z.of_nat (size (lf_handlers l)) - 1) as Hs.
  { rewrite map_size_delete, Hc. pose proof (map_size_ne_0_lookup_2 (lf_handlers l) c (mk_is_Some _ _ Hc)). lia. }
  life_split; rewrite ?Hs; try lia.
  - intros c' Hc'. apply li_fresh0. destruct (decide (c' = c)) as [->|]; [by rewrite Hc|]. by rewrite lookup_delete_ne in Hc'.
  - intros c' [Hlt Hnone]%li_holds0. split; [done|]. destruct (decide (c' = c)) as [->|]; [apply lookup_delete_eq|by rewrite lookup_delete_ne].
  - intros c'. rewrite elem_of_difference, elem_of_singleton, li_conns0. destruct (decide (c' = c)) as [->|].
    + rewrite lookup_delete_eq. naive_solver.
    + rewrite lookup_delete_ne by done. naive_solver.
Qed.

Lemma admit_inv c l : lf_accept l = Accepted c → life_inv l → life_inv (admit_conn c l).
Proof.
  intros Ha []. rewrite Ha in *.
  assert (∀ a, a ≠ AcceptNone → (a = AcceptNone → lf_cleanup l = false) ∧ (lf_listener l = NoListener ↔ a = AcceptNone)
    ∧ (lf_listener l = ListenerOpen → lf_stop l = Running ∨ lf_stop l = Signalled)) as Hlis.
  { destruct li_listener0 as (_ & Hnl & Hop). intros a Hne. split; [done|]. split; [|done]. split; [by intros ?%Hnl|done]. }
  unfold admit_conn. destruct (Z.ltb_spec 0 (lf_MaxConnections l)) as [Hm|Hm].
  - destruct (li_limit0 Hm) as [Hc Hle]. destruct (Z.leb_spec (lf_MaxConnections l) (lf_connCount l)); life_split; by apply Hlis.
  - life_split; by apply Hlis.
Qed.

Lemma signalled l : life_inv l → lf_stop l ≠ Running → lf_shutdownCh l = true ∧ lf_cancelled l = true.
Proof. intros [] Hs. destruct li_signals0 as [-> Hk]. by rewrite (proj2 Hk Hs). Qed.

Lemma life_step_inv l l' : life_step l l' → life_inv l → life_inv l'.
Proof.
  intros [who Hstep] Hi. destruct Hstep as [l Hn Hs|l Ha Hl|who l Ha _|l c Ha|l c Ha|l c Hc|l c Hc|l c Hc _|who l c Hc _|l c ok Hc|l c Hc|l Hc Hk|l l' Hs Hst|l Hs|l Hs|l Hs Hw].
  - destruct Hi. assert (lf_accept l = AcceptNone) as Ha by (by apply li_listener0). rewrite Ha in *.
    destruct li_listener0 as (Hcl & _ & _). rewrite (Hcl eq_refl) in *. life_split. naive_solver.
  - destruct Hi. rewrite Ha in *. life_split.
    + intros c Hc%li_fresh0. lia.
    + intros c [= <-]. split; [lia|]. destruct (lf_handlers l !! lf_next l) eqn:E; [|done].
      specialize (li_fresh0 _ (mk_is_Some _ _ E)). lia.
    + naive_solver.
  - unfold accept_error. destruct (lf_cancelled l) eqn:Hk; [|done]. destruct Hi. rewrite Ha in *. life_split. naive_solver.
  - by apply admit_inv.
  - by apply spawn_inv.
  - by apply track_inv.
  - eapply set_handler_inv; [done|done| |done]. by destruct (lf_cancelled l).
  - by eapply set_handler_inv.
  - by eapply set_handler_inv.
  - eapply set_handler_inv; [done|done| |done]. by destruct ok.
  - apply connection_end_inv; [by rewrite Hc|done].
  - destruct Hi. rewrite Hc in *. life_split. naive_solver.
  - unfold Stop_signal in Hst. destruct (lf_shutdownCh l); [done|]. injection Hst as <-. destruct Hi. life_split. naive_solver.
  - pose proof (signalled l Hi ltac:(by rewrite Hs)) as Hk. destruct Hi, li_listener0 as (Hcl & Hnl & _). life_split.
    + destruct Hk as [-> ->]. by split.
    + split; [done|]. rewrite <-Hnl. by destruct (lf_listener l).
  - pose proof (signalled l Hi ltac:(by rewrite Hs)) as Hk. destruct Hi, li_listener0 as (Hcl & Hnl & Hop). life_split.
    + destruct Hk as [-> ->]. by split.
    + split; [done|]. split; [done|]. intros [?|?]%Hop; congruence.
  - pose proof (signalled l Hi ltac:(by rewrite Hs)) as Hk. destruct Hi, li_listener0 as (Hcl & Hnl & Hop). life_split.
    + destruct Hk as [-> ->]. by split.
    + split; [done|]. split; [done|]. intros [?|?]%Hop; congruence.
Qed.

Lemma life_reachable_inv n l : rtc life_step (NewLife n) l → life_inv l.
Proof. intros Hr. eapply (rtc_preserve _ life_inv life_step_inv); [exact Hr|apply NewLife_inv]. Qed.

Lemma MaxConnections_step l l' : life_step l l' → lf_MaxConnections l' = lf_MaxConnections l.
Proof.
  intros [who Hstep]. destruct Hstep as [| |who l ?|l c ?| | | | | | | | |l l' ? Hst| | |]; try done; unfold accept_error, admit_conn in *.
  - by destruct (lf_cancelled l).
  - destruct (_ <? _); [destruct (_ <=? _)|]; done.
  - unfold Stop_signal in Hst. destruct (lf_shutdownCh l); [done|]. by injection Hst as <-.
Qed.

Lemma MaxConnections_reachable n l : rtc life_step (NewLife n) l → lf_MaxConnections l = n.
Proof.
  intros Hr. apply (rtc_preserve _ (λ l, lf_MaxConnections l = n)) in Hr; [done| |done].
  intros l1 l2 Hs <-. by apply MaxConnections_step.
Qed.

(** ** The end *)

Definition handler_weight (h : handler_state) : nat :=
  match h with Reading => 5 | Handling => 4 | Started => 4 | AtLoop => 3 | Ending => 1 end.

Definition accept_weight (a : accept_state) : nat :=
  match a with Accepted _ => 7 | Passed _ => 6 | Accepting => 1 | AcceptNone | AcceptDone => 0 end.

Definition stop_weight (s : stop_state) : nat :=
  match s with Running => 4 | Signalled => 3 | StopListening => 2 | Waiting => 1 | Stopped => 0 end.

Definition weight (m : gmap conn handler_state) : nat := map_fold (λ _ h n, handler_weight h + n)%nat 0%nat m.

(** The steps that are left. *)
Definition life_measure (l : Life) : nat :=
  accept_weight (lf_accept l) + (if lf_cleanup l then 1 else 0) + weight (lf_handlers l) + stop_weight (lf_stop l).

Lemma weight_insert c h m : m !! c = None → weight (<[c := h]> m) = (handler_weight h + weight m)%nat.
Proof. intros Hc. unfold weight. rewrite map_fold_insert_L; [done|intros; lia|done]. Qed.

Lemma weight_delete c h m : m !! c = Some h → weight m = (handler_weight h + weight (delete c m))%nat.
Proof. intros Hc. unfold weight. rewrite (map_fold_delete_L _ _ c h m); [done|intros; lia|done]. Qed.

Lemma weight_update c h h' m :
  m !! c = Some h → (weight (<[c := h']> m) + handler_weight h = handler_weight h' + weight m)%nat.
Proof.
  intros Hc. rewrite (weight_delete c h m) by done. rewrite <-(insert_delete_eq m c h').
  rewrite weight_insert by apply lookup_delete_eq. lia.
Qed.

(** [Stop] has closed the listener. *)
Definition stopping (l : Life) : Prop := lf_stop l = StopListening ∨ lf_stop l = Waiting ∨ lf_stop l = Stopped.

Lemma stopping_step l l' :
  life_inv l → stopping l → life_step l l' → stopping l' ∧ (life_measure l' < life_measure l)%nat.
Proof.
  intros Hi Hst Hstep. assert (lf_stop l ≠ Running) as Hrun by (destruct Hst as [->|[->| ->]]; done).
  destruct (signalled l Hi Hrun) as [_ Hk]. destruct Hi.
  destruct Hstep as [who Hstep]. destruct Hstep as [l ? Hs|l Ha Hl|who l Ha _|l c Ha|l c Ha|l c Hc|l c Hc|l c Hc _|who l c Hc _|l c ok Hc|l c Hc|l Hc _|l l' Hs _|l Hs|l Hs|l Hs Hw];
    unfold stopping, life_measure in *; simpl in *; try done.
  - destruct li_listener0 as (_ & _ & Hop). destruct (Hop Hl) as [?|?]; naive_solver congruence.
  - unfold accept_error. rewrite Hk, Ha. simpl. split; [done|lia].
  - unfold admit_conn. rewrite Ha. destruct (_ <? _); [destruct (_ <=? _)|]; simpl; (split; [done|lia]).
  - rewrite Ha in *. rewrite weight_insert by (by apply li_holds0). simpl. split; [done|lia].
  - pose proof (weight_update c Started AtLoop _ Hc). simpl in *. split; [done|lia].
  - unfold loop_head. rewrite Hk. simpl. pose proof (weight_update c AtLoop Ending _ Hc). simpl in *. split; [done|lia].
  - pose proof (weight_update c Reading Handling _ Hc). simpl in *. split; [done|lia].
  - pose proof (weight_update c Reading Ending _ Hc). simpl in *. split; [done|lia].
  - split; [done|]. pose proof (weight_update c Handling (if ok then AtLoop else Ending) _ Hc). destruct ok; simpl in *; lia.
  - pose proof (weight_delete c Ending _ Hc). simpl in *. split; [done|lia].
  - rewrite Hc. simpl. split; [done|lia].
  - naive_solver congruence.
  - rewrite Hs. simpl. split; [tauto|lia].
  - rewrite Hs. simpl. split; [tauto|lia].
Qed.

(** Once [Stop] has closed the connections, whoever still reads does so from
    a closed one: a handler that was not yet tracked finds the context ended
    before it reads. *)
Definition readers_closed (l : Life) : Prop :=
  lf_stop l = Waiting ∨ lf_stop l = Stopped → ∀ c, lf_handlers l !! c = Some Reading → c ∈ lf_closed l.

Lemma set_handler_readers c h l : h ≠ Reading → readers_closed l → readers_closed (set_handler c h l).
Proof.
  intros Hh Hr Hs c'. simpl. destruct (decide (c' = c)) as [->|]; [rewrite lookup_insert_eq; congruence|].
  rewrite lookup_insert_ne by done. by apply Hr.
Qed.

Lemma readers_closed_step l l' : life_inv l → life_step l l' → readers_closed l → readers_closed l'.
Proof.
  intros Hi [who Hstep] Hr.
  destruct Hstep as [l ? Hs|l Ha Hl|who l Ha _|l c Ha|l c Ha|l c Hc|l c Hc|l c Hc _|who l c Hc _|l c ok Hc|l c Hc|l Hc _|l l' Hs Hst|l Hs|l Hs|l Hs Hw];
    try exact Hr.
  - unfold accept_error. by destruct (lf_cancelled l).
  - unfold admit_conn. destruct (_ <? _); [destruct (_ <=? _)|]; try done. intros Hs c' Hc'. simpl. apply elem_of_union_l. by apply Hr.
  - by apply set_handler_readers.
  - by apply set_handler_readers.
  - unfold loop_head. destruct (lf_cancelled l) eqn:Hk; [by apply set_handler_readers|].
    intros Hs. simpl in Hs. destruct (signalled l Hi) as [_ ?]; [destruct Hs as [->| ->]; done|congruence].
  - by apply set_handler_readers.
  - by apply set_handler_readers.
  - apply set_handler_readers; [by destruct ok|done].
  - intros Hs c' Hc'. simpl in *. apply lookup_delete_Some in Hc' as [_ Hc']. apply elem_of_union_l. by apply Hr.
  - unfold Stop_signal in Hst. destruct (lf_shutdownCh l); [done|]. injection Hst as <-. by intros [?|?].
  - by intros [?|?].
  - intros _ c Hc. simpl in *. apply elem_of_union_r, (li_conns _ Hi). by exists Reading.
  - intros _. apply Hr. by left.
Qed.

Lemma readers_reachable n l : rtc life_step (NewLife n) l → life_inv l ∧ readers_closed l.
Proof.
  intros Hr. apply (rtc_preserve _ (λ l, life_inv l ∧ readers_closed l)) in Hr; [done| |].
  - intros x y Hs [Hx Hxr]. split; [by eapply life_step_inv|by eapply readers_closed_step].
  - split; [apply NewLife_inv|by intros [?|?]].
Qed.

(** When the server cannot move by itself after it closed the connections,
    the loops and the handlers have ended. *)
Lemma nothing_left l :
  life_inv l → readers_closed l → lf_stop l = Waiting ∨ lf_stop l = Stopped → (∀ l', ¬ life_act Server l l') →
  lf_wg l = 0 ∧ lf_handlers l = ∅ ∧ lf_conns l = ∅.
Proof.
  intros Hi Hr Hw Hend. destruct (signalled l Hi) as [_ Hk]; [destruct Hw as [->| ->]; done|].
  assert (lf_handlers l = ∅) as He.
  { destruct (map_choose_or_empty (lf_handlers l)) as [(c & h & Hc)|He]; [exfalso|done].
    destruct h; eapply Hend; [by apply ls_track|by apply ls_loop|apply (ls_read_error _ _ c); [done|right; by apply Hr]
      |by apply (ls_handled l c true)|by apply ls_end]. }
  assert (lf_cleanup l = false) as Hcl by (destruct (lf_cleanup l) eqn:Hcl; [exfalso; by eapply Hend, ls_cleanup|done]).
  assert (accept_active (lf_accept l) = 0) as Ha.
  { destruct (lf_accept l) eqn:Ha; try done; exfalso; eapply Hend; [|by eapply ls_admit|by eapply ls_spawn].
    apply ls_accept_error; [done|right]. destruct (li_listener _ Hi) as (_ & Hnl & Hop). rewrite Ha in Hnl.
    destruct (lf_listener l); [by destruct Hnl as [Hnl _]; specialize (Hnl eq_refl)| |done].
    destruct (Hop eq_refl), Hw; congruence. }
  destruct Hi. split; [rewrite li_wg0, Ha, Hcl; unfold live; by rewrite He, map_size_empty|]. split; [done|].
  apply set_eq. intros c. rewrite li_conns0, He. split; [|set_solver]. intros (h & Hh & _). by rewrite lookup_empty in Hh.
Qed.

(** As long as [Stop] has not returned, the server can move. *)
Lemma stopping_stuck l :
  life_inv l → readers_closed l → stopping l → (∀ l', ¬ life_act Server l l') → lf_stop l = Stopped.
Proof.
  intros Hi Hr [Hs|[Hs|Hs]] Hend; [exfalso; by eapply Hend, ls_stop_conns| |done].
  exfalso. eapply Hend, ls_stopped; [done|]. apply nothing_left; auto.
Qed.

(** ** Properties *)

(** C21: The connection limit: when [MaxConnections] is positive, in every
    reachable state [ConnectionCount] is the number of connections being
    served (with the one about to be), at most [MaxConnections] connections
    are served or tracked, and the wait group counts the goroutines that
    run. *)
Theorem connection_limit max l :
  0 < max → rtc life_step (NewLife max) l →
  ConnectionCount l = live l + is_admitted (lf_accept l)
  ∧ live l ≤ max ∧ Z.of_nat (size (lf_conns l)) ≤ max
  ∧ lf_wg l = accept_active (lf_accept l) + (if lf_cleanup l then 1 else 0) + live l.
Proof.
  intros Hm Hr. pose proof (life_reachable_inv _ _ Hr) as Hi. pose proof (MaxConnections_reachable _ _ Hr) as Hmax.
  destruct (li_limit _ Hi) as [Hc Hle]; [lia|]. rewrite Hmax in Hle.
  assert (0 ≤ is_admitted (lf_accept l)) by (by destruct (lf_accept l)).
  assert (lf_conns l ⊆ dom (lf_handlers l)) as Hsub.
  { intros c (h & Hh & _)%(li_conns _ Hi). by apply elem_of_dom. }
  apply subseteq_size in Hsub. rewrite size_dom in Hsub. unfold ConnectionCount.
  split; [done|]. split; [lia|]. split; [unfold live in *; lia|]. apply (li_wg _ Hi).
Qed.

(** C20: [Stop] completes, also when the peers do nothing: once it has closed
    the listener the server makes at most [life_measure] more steps, whatever
    the peers do, and a state in which the server cannot move by itself (no
    message, error or deadline of a peer is counted on: what still blocks in
    [Accept] or in a read is woken by the closed listener and the closed
    connections) is one where [Stop] has returned, no goroutine is left and no
    connection is tracked. *)
Theorem stop_completes max l :
  rtc life_step (NewLife max) l → stopping l →
  (∀ n l', nsteps life_step n l l' → (n ≤ life_measure l)%nat)
  ∧ (∀ l', rtc life_step l l' → (∀ l'', ¬ life_act Server l' l'') →
       lf_stop l' = Stopped ∧ lf_wg l' = 0 ∧ lf_handlers l' = ∅ ∧ lf_conns l' = ∅).
Proof.
  intros Hr Hst. pose proof (life_reachable_inv _ _ Hr) as Hi. split.
  - intros n l' Hn. clear Hr. induction Hn as [l|n l l1 l' Hs Hn IH]; [lia|].
    destruct (stopping_step l l1 Hi Hst Hs) as [Hst1 Hlt]. specialize (IH Hst1 (life_step_inv _ _ Hs Hi)). lia.
  - intros l' Hr' Hend.
    assert (stopping l') as Hst'.
    { apply (rtc_preserve life_step (λ l, life_inv l ∧ stopping l)) in Hr'; [by destruct Hr'| |done].
      intros x y Hs [Hx1 Hx2]. split; [by eapply life_step_inv|by apply (stopping_step x y)]. }
    destruct (readers_reachable max l') as [Hi' Hrd]; [by etrans|].
    pose proof (stopping_stuck l' Hi' Hrd Hst' Hend) as Hs. split; [done|]. apply nothing_left; auto.
Qed.

(** Without a limit the count is wrong: [ConnectionCount] is minus the number
    of connections that have ended. *)
Theorem unlimited_count_negative max l :
  max ≤ 0 → rtc life_step (NewLife max) l →
  ConnectionCount l = live l + is_pending (lf_accept l) - Z.of_nat (lf_next l).
Proof.
  intros Hm Hr. apply (li_unlimited _ (life_reachable_inv _ _ Hr)). by rewrite (MaxConnections_reachable _ _ Hr).
Qed.

(** One connection is being read while [Stop] closes the listener: the states
    of the run. *)
Definition demo1 : Life := Eval vm_compute in Listen (NewLife 1).
Definition demo2 : Life := Eval vm_compute in accept_conn demo1.
Definition demo3 : Life := Eval vm_compute in admit_conn 0 demo2.
Definition demo4 : Life := Eval vm_compute in spawn 0 demo3.
Definition demo5 : Life := Eval vm_compute in track 0 demo4.
Definition demo6 : Life := Eval vm_compute in loop_head 0 demo5.
Definition demo7 : Life := Eval vm_compute in match Stop_signal demo6 with Ok l => l | Panic => demo6 end.
Definition demo8 : Life := Eval vm_compute in Stop_listener demo7.

Lemma demo_stop : rtc life_step (NewLife 1) demo8 ∧ stopping demo8 ∧ lf_handlers demo8 !! 0%nat = Some Reading ∧ ConnectionCount demo8 = 1.
Proof.
  split; [|split; [by left|by vm_compute]].
  eapply (rtc_l _ _ demo1); [eexists; exact (ls_listen (NewLife 1) eq_refl eq_refl)|].
  eapply (rtc_l _ _ demo2); [eexists; exact (ls_accept demo1 eq_refl eq_refl)|].
  eapply (rtc_l _ _ demo3); [eexists; exact (ls_admit demo2 0 eq_refl)|].
  eapply (rtc_l _ _ demo4); [eexists; exact (ls_spawn demo3 0 eq_refl)|].
  eapply (rtc_l _ _ demo5); [eexists; exact (ls_track demo4 0 eq_refl)|].
  eapply (rtc_l _ _ demo6); [eexists; exact (ls_loop demo5 0 eq_refl)|].
  eapply (rtc_l _ _ demo7); [eexists; exact (ls_stop demo6 demo7 eq_refl eq_refl)|].
  eapply (rtc_l _ _ demo8); [eexists; exact (ls_stop_listener demo7 eq_refl)|]. apply rtc_refl.
Qed.

Lemma connection_limit_witness :
  ∃ l, rtc life_step (NewLife 1) l ∧ ConnectionCount l = 1 ∧ live l ≤ 1.
Proof.
  destruct demo_stop as (Hr & _ & _ & Hc). exists demo8. split; [exact Hr|]. split; [exact Hc|].
  apply (connection_limit 1 demo8); [lia|exact Hr].
Defined.

Lemma stop_completes_witness :
  ∃ l, rtc life_step (NewLife 1) l ∧ stopping l ∧ lf_handlers l !! 0%nat = Some Reading
    ∧ (∀ n l', nsteps life_step n l l' → (n ≤ life_measure l)%nat)
    ∧ (∀ l', rtc life_step l l' → (∀ l'', ¬ life_act Server l' l'') → lf_stop l' = Stopped ∧ lf_handlers l' = ∅).
Proof.
  destruct demo_stop as (Hr & Hs & Hh & _). exists demo8. split; [exact Hr|]. split; [exact Hs|]. split; [exact Hh|].
  destruct (stop_completes 1 demo8 Hr Hs) as [Hsteps Hend]. split; [exact Hsteps|].
  intros l' Hl' Hstuck. destruct (Hend l' Hl' Hstuck) as (H1 & _ & H2 & _). by split.
Defined.
