(* ===== verification/Config.v ===== *)
(** * Client configuration and the SMB library interface

    [config.go] without the URL form of a configuration, and the interfaces
    of [smb_interfaces.go].  The library behind the interfaces is a parameter:
    [cworld] is its state together with the clock, and each method takes and
    returns it.  A [fs.FileInfo] is an object whose methods read the state, so
    an implementation may return a live view of a file. *)

From stdpp Require Import base numbers list gmap strings.
From S2P Require Import Prelude Errors Retry Cache.

Open Scope Z_scope.

(** ** config.go *)

Record Config := mkConfig {
  cf_Server : gostring;
  cf_Port : Z;
  cf_Share : gostring;
  cf_Username : gostring;
  cf_Password : gostring;
  cf_Domain : gostring;
  cf_UseKerberos : bool;
  cf_GuestAccess : bool;
  cf_Dialect : gostring;
  cf_Signing : bool;
  cf_Encryption : bool;
  cf_MaxIdle : Z;
  cf_MaxOpen : Z;
  cf_IdleTimeout : Z;   (* nanoseconds *)
  cf_ConnTimeout : Z;
  cf_OpTimeout : Z;
  cf_CaseSensitive : bool;
  cf_FollowSymlinks : bool;
  cf_ReadBufferSize : Z;
  cf_WriteBufferSize : Z;
  cf_Cache : CacheConfig;
  cf_RetryPolicy : option RetryPolicy;
}.

(** [if x == 0 { x = d }] *)
Definition if_zero (x d : Z) : Z := if x =? 0 then d else x.

Definition setDefaults (c : Config) : Config := {|
  cf_Server := cf_Server c;
  cf_Port := if_zero (cf_Port c) 445;
  cf_Share := cf_Share c;
  cf_Username := cf_Username c; cf_Password := cf_Password c; cf_Domain := cf_Domain c;
  cf_UseKerberos := cf_UseKerberos c; cf_GuestAccess := cf_GuestAccess c;
  cf_Dialect := cf_Dialect c; cf_Signing := cf_Signing c; cf_Encryption := cf_Encryption c;
  cf_MaxIdle := if_zero (cf_MaxIdle c) 5;
  cf_MaxOpen := if_zero (cf_MaxOpen c) 10;
  cf_IdleTimeout := if_zero (cf_IdleTimeout c) (5 * 60 * second);
  cf_ConnTimeout := if_zero (cf_ConnTimeout c) (30 * second);
  cf_OpTimeout := if_zero (cf_OpTimeout c) (60 * second);
  cf_CaseSensitive := cf_CaseSensitive c; cf_FollowSymlinks := cf_FollowSymlinks c;
  cf_ReadBufferSize := if_zero (cf_ReadBufferSize c) (64 * 1024);
  cf_WriteBufferSize := if_zero (cf_WriteBufferSize c) (64 * 1024);
  cf_Cache := if MaxCacheEntries (cf_Cache c) =? 0 then DefaultCacheConfig else cf_Cache c;
  cf_RetryPolicy := cf_RetryPolicy c;
|}.

(** [errors.New(msg)] *)
Definition new_error (msg : string) : error := OtherError (str msg) [] None.

(** The decimal digits of a number, most significant first. *)
Fixpoint digits (fuel : nat) (n : Z) (acc : gostring) : gostring :=
  match fuel with
  | O => acc
  | S fuel =>
    let acc := byte_of_Z (48 + n mod 10) :: acc in
    if n <? 10 then acc else digits fuel (n / 10) acc
  end.

(** [%d] of a 64-bit integer, which has at most 20 digits. *)
Definition format_d (n : Z) : gostring :=
  if n <? 0 then byte_of_Z 45 :: digits 20 (- n) [] else digits 20 n [].

Definition Validate (c : Config) : option error :=
  if bool_decide (cf_Server c = []) then Some (new_error "server is required")
  else if bool_decide (cf_Share c = []) then Some (new_error "share is required")
  else if (cf_Port c <? 1) || (65535 <? cf_Port c) then
    Some (OtherError (str "invalid port: " ++ format_d (cf_Port c)) [] None)
  else if negb (cf_GuestAccess c) then
    if bool_decide (cf_Username c = []) then Some (new_error "username is required for non-guest access")
    else if negb (cf_UseKerberos c) && bool_decide (cf_Password c = []) then
      Some (new_error "password is required when not using Kerberos")
    else None
  else None.

(** The remaining flags of package [os] (Linux values) and the origins of
    [io.Seeker]. *)
Definition O_WRONLY : Z := 0x1.
Definition O_EXCL : Z := 0x80.
Definition SeekStart : Z := 0.
Definition SeekCurrent : Z := 1.
Definition SeekEnd : Z := 2.

(** ** smb_interfaces.go *)

Class SMBLib := {
  cworld : Type;
  SMBSession : Type;
  SMBShare : Type;
  SMBFile : Type;
  StatInfo : Type;
  (** SMBSession *)
  ss_Logoff : SMBSession → cworld → option error * cworld;
  (** SMBShare *)
  sh_OpenFile : SMBShare → gostring → Z → Z → cworld → (SMBFile + error) * cworld;
  sh_Stat : SMBShare → gostring → cworld → (StatInfo + error) * cworld;
  sh_Mkdir : SMBShare → gostring → Z → cworld → option error * cworld;
  sh_Remove : SMBShare → gostring → cworld → option error * cworld;
  sh_Rename : SMBShare → gostring → gostring → cworld → option error * cworld;
  sh_Chmod : SMBShare → gostring → Z → cworld → option error * cworld;
  sh_Chtimes : SMBShare → gostring → Z → Z → cworld → option error * cworld;
  sh_Umount : SMBShare → cworld → option error * cworld;
  (** SMBFile *)
  sf_Read : SMBFile → Z → cworld → (bytes * option error) * cworld;
  sf_Write : SMBFile → bytes → cworld → (Z * option error) * cworld;
  sf_Seek : SMBFile → Z → Z → cworld → (Z + error) * cworld;
  sf_Close : SMBFile → cworld → option error * cworld;
  sf_Stat : SMBFile → cworld → (StatInfo + error) * cworld;
  sf_Readdir : SMBFile → Z → cworld → (list StatInfo + error) * cworld;
  (** fs.FileInfo *)
  st_Name : StatInfo → cworld → gostring;
  st_Size : StatInfo → cworld → Z;
  st_Mode : StatInfo → cworld → Z;
  st_ModTime : StatInfo → cworld → Z;
  st_IsDir : StatInfo → cworld → bool;
  (** ConnectionFactory, or the dialling of a real connection *)
  CreateConnection : Config → cworld → (SMBSession * SMBShare + error) * cworld;
  (** time.Now *)
  c_now : cworld → Z * cworld;
}.

(** What the client relies on: sizes are not negative, and a [Read] into a
    non-empty buffer that reports no error has read something. *)
Class SMBLibLaws `{SMBLib} : Prop := {
  st_Size_nonneg : ∀ i w, 0 ≤ st_Size i w;
  sf_Read_progress : ∀ f n w, 0 < n → (sf_Read f n w).1.2 = None → (sf_Read f n w).1.1 ≠ [];
}.

(** A configuration that passes [New] has limits the pool can work with. *)
Lemma setDefaults_idem c : setDefaults (setDefaults c) = setDefaults c.
Proof.
  assert (∀ x d, d ≠ 0 → if_zero (if_zero x d) d = if_zero x d) as Hz.
  { intros x d Hd. unfold if_zero. destruct (Z.eqb_spec x 0); [by apply Z.eqb_neq in Hd as ->|].
    by destruct (Z.eqb_spec x 0). }
  unfold setDefaults; simpl. rewrite !Hz by done. f_equal.
  destruct (Z.eqb_spec (MaxCacheEntries (cf_Cache c)) 0) as [_|E]; simpl; [done|].
  by rewrite (proj2 (Z.eqb_neq _ _) E).
Qed.
