(* ===== verification/Pool.v ===== *)
(** * Connection pool

    Models [connection.go].  The pooled connections are shared objects
    (the pool, a waiter's channel and the user hold the same pointer), so they
    live in a heap.  [get] and [createConnection] release the lock between
    their critical sections; each critical section is one definition here, and
    [pool_step] interleaves the sections of any number of users.  A [go
    conn.close()] is recorded in [p_closing] until it runs.

    The loop of [get] removes expired connections from [p.connections] while
    it ranges over the slice as it was at the start: the removal shifts the
    backing array both share.  [scan] keeps that array explicit. *)

From stdpp Require Import base numbers list gmap sets fin_maps strings relations.
From S2P Require Import Prelude Errors HandleMap Config.

Open Scope Z_scope.

Section pool.
Context `{SMBLib}.

Record pooledConn := mkPooled {
  pc_session : option SMBSession;
  pc_share : option SMBShare;
  pc_createdAt : Z;
  pc_lastUsed : Z;
  pc_inUse : bool;
}.

(** A waiter's channel: a buffer of one connection. *)
Record chan := mkChan { ch_buf : option ptr; ch_closed : bool }.

Record connectionPool := mkPool {
  p_config : Config;
  p_heap : gmap ptr pooledConn;
  p_next : ptr;
  p_chans : gmap nat chan;
  p_nextChan : nat;
  p_connections : list ptr;
  p_waiters : list nat;
  p_numOpen : Z;
  p_closed : bool;
  p_closing : list ptr;
}.

Definition set_heap (f : gmap ptr pooledConn → gmap ptr pooledConn) (p : connectionPool) : connectionPool :=
  mkPool (p_config p) (f (p_heap p)) (p_next p) (p_chans p) (p_nextChan p) (p_connections p) (p_waiters p)
    (p_numOpen p) (p_closed p) (p_closing p).
Definition set_chans (f : gmap nat chan → gmap nat chan) (p : connectionPool) : connectionPool :=
  mkPool (p_config p) (p_heap p) (p_next p) (f (p_chans p)) (p_nextChan p) (p_connections p) (p_waiters p)
    (p_numOpen p) (p_closed p) (p_closing p).
Definition set_connections (l : list ptr) (p : connectionPool) : connectionPool :=
  mkPool (p_config p) (p_heap p) (p_next p) (p_chans p) (p_nextChan p) l (p_waiters p)
    (p_numOpen p) (p_closed p) (p_closing p).
Definition set_waiters (l : list nat) (p : connectionPool) : connectionPool :=
  mkPool (p_config p) (p_heap p) (p_next p) (p_chans p) (p_nextChan p) (p_connections p) l
    (p_numOpen p) (p_closed p) (p_closing p).
Definition add_numOpen (d : Z) (p : connectionPool) : connectionPool :=
  mkPool (p_config p) (p_heap p) (p_next p) (p_chans p) (p_nextChan p) (p_connections p) (p_waiters p)
    (p_numOpen p + d) (p_closed p) (p_closing p).

(** [go conn.close()] *)
Definition go_close (c : ptr) (p : connectionPool) : connectionPool :=
  mkPool (p_config p) (p_heap p) (p_next p) (p_chans p) (p_nextChan p) (p_connections p) (p_waiters p)
    (p_numOpen p) (p_closed p) (p_closing p ++ [c]).

Definition set_inUse (b : bool) (pc : pooledConn) : pooledConn :=
  mkPooled (pc_session pc) (pc_share pc) (pc_createdAt pc) (pc_lastUsed pc) b.
Definition set_lastUsed (t : Z) (pc : pooledConn) : pooledConn :=
  mkPooled (pc_session pc) (pc_share pc) (pc_createdAt pc) t (pc_inUse pc).

(** [make([]*pooledConn, 0, config.MaxOpen)] panics for a negative capacity. *)
Definition newConnectionPool (config : Config) : outcome connectionPool :=
  if cf_MaxOpen config <? 0 then Panic
  else Ok (mkPool config ∅ 0 ∅ 0 [] [] 0 false []).

Definition is_inUse (p : connectionPool) (c : ptr) : bool :=
  match p_heap p !! c with Some pc => pc_inUse pc | None => false end.

Definition idle (p : connectionPool) (c : ptr) : Prop := is_inUse p c = false.

#[global] Instance idle_dec p c : Decision (idle p c).
Proof. unfold idle. apply _. Defined.

(** ** get *)

(** The loop over the idle connections. [todo] iterations are left, from
    index [i]; [arr] is the backing array of the slice ranged over, [k] the
    current length of [p.connections], whose elements are the first [k] of
    [arr]; [now i] is the clock reading of iteration [i]. The connection
    found, if any, and the slice at the end. *)
Fixpoint scan (now : nat → Z) (todo i : nat) (arr : list ptr) (k : nat) (p : connectionPool)
    : outcome (option ptr * list ptr * connectionPool) :=
  match todo with
  | O => Ok (None, take k arr, p)
  | S todo =>
    match arr !! i ≫= λ c, pair c <$> p_heap p !! c with
    | None => Panic
    | Some (c, conn) =>
      if pc_inUse conn then scan now todo (S i) arr k p
      else if now i - pc_lastUsed conn <? cf_IdleTimeout (p_config p) then Ok (Some c, take k arr, p)
      else if (k <? S i)%nat then Panic
      else scan now todo (S i) (remove_at i (take k arr) ++ drop (k - 1) arr) (k - 1)
             (p |> add_numOpen (-1) |> go_close c)
    end
  end.

Inductive got :=
| GotConn (c : ptr)
| GotError (e : error)
| Reserved
| Waiting (waiter : nat).

(** The first critical section of [get]. [t] is the clock reading stored in
    [lastUsed]. *)
Definition get_locked (now : nat → Z) (t : Z) (p : connectionPool) : outcome (got * connectionPool) :=
  if p_closed p then Ok (GotError (Sentinel ErrConnectionClosed), p)
  else
    match scan now (length (p_connections p)) 0 (p_connections p) (length (p_connections p)) p with
    | Panic => Panic
    | Ok (Some c, conns, p) =>
      Ok (GotConn c, p |> set_connections conns |> set_heap (alter (λ pc, pc |> set_inUse true |> set_lastUsed t) c))
    | Ok (None, conns, p) =>
      let p := set_connections conns p in
      if p_numOpen p <? cf_MaxOpen (p_config p) then Ok (Reserved, add_numOpen 1 p)
      else
        let waiter := p_nextChan p in
        Ok (Waiting waiter,
            mkPool (p_config p) (p_heap p) (p_next p) (<[waiter := mkChan None false]> (p_chans p)) (S waiter)
              (p_connections p) (p_waiters p ++ [waiter]) (p_numOpen p) (p_closed p) (p_closing p))
    end.

(** The end of [createConnection]: the new connection is appended. *)
Definition add_connection (session : SMBSession) (share : SMBShare) (createdAt lastUsed : Z)
    (p : connectionPool) : ptr * connectionPool :=
  let c := p_next p in
  (c, mkPool (p_config p) (<[c := mkPooled (Some session) (Some share) createdAt lastUsed true]> (p_heap p)) (S c)
        (p_chans p) (p_nextChan p) (p_connections p ++ [c]) (p_waiters p) (p_numOpen p) (p_closed p) (p_closing p)).

(** The end of [get] when the creation failed. *)
Definition create_failed (p : connectionPool) : connectionPool := add_numOpen (-1) p.

(** [case conn := <-waiter]: [None] while nothing can be received; a closed
    channel delivers nil. *)
Definition receive (waiter : nat) (p : connectionPool) : option (option ptr * connectionPool) :=
  match p_chans p !! waiter with
  | Some (mkChan (Some c) closed) =>
    Some (Some c, set_chans <[waiter := mkChan None closed]> p)
  | Some (mkChan None true) => Some (None, p)
  | _ => None
  end.

(** [case <-ctx.Done()] *)
Definition cancel_wait (waiter : nat) (p : connectionPool) : connectionPool :=
  set_waiters (remove_first (λ w, bool_decide (w = waiter)) (p_waiters p)) p.

(** [case <-time.After(p.config.ConnTimeout)]: the waiter leaves without a
    trace, its channel stays in [p.waiters]. *)
Definition timeout_wait (waiter : nat) (p : connectionPool) : connectionPool := p.

(** ** put *)

Definition idle_count (p : connectionPool) : Z :=
  len (filter (idle p) (p_connections p)).

Definition put (t : Z) (c : ptr) (p : connectionPool) : connectionPool :=
  if p_closed p then go_close c p
  else
    let p := set_heap (alter (λ pc, pc |> set_inUse false |> set_lastUsed t) c) p in
    match p_waiters p with
    | waiter :: waiters =>
      p |> set_waiters waiters |> set_heap (alter (set_inUse true) c)
        |> set_chans (alter (λ ch, mkChan (Some c) (ch_closed ch)) waiter)
    | [] =>
      if cf_MaxIdle (p_config p) <=? idle_count p then
        p |> add_numOpen (-1)
          |> set_connections (remove_first (λ c', bool_decide (c' = c)) (p_connections p))
          |> go_close c
      else p
    end.

(** ** Closing *)

(** [pooledConn.close], whose errors are dropped. *)
Definition conn_close (pc : pooledConn) (w : cworld) : pooledConn * cworld :=
  let w := match pc_share pc with Some share => (sh_Umount share w).2 | None => w end in
  let w := match pc_session pc with Some session => (ss_Logoff session w).2 | None => w end in
  (mkPooled None None (pc_createdAt pc) (pc_lastUsed pc) (pc_inUse pc), w).

(** The goroutine started by [go_close]. *)
Definition run_close (c : ptr) (w : cworld) (p : connectionPool) : connectionPool * cworld :=
  match p_heap p !! c with
  | Some pc => let '(pc, w) := conn_close pc w in (set_heap <[c := pc]> p, w)
  | None => (p, w)
  end.

Definition Pool_Close (p : connectionPool) : connectionPool :=
  if p_closed p then p
  else
    mkPool (p_config p) (p_heap p) (p_next p)
      (foldl (λ m w, alter (λ ch, mkChan (ch_buf ch) true) w m) (p_chans p) (p_waiters p))
      (p_nextChan p) [] [] 0 true (p_closing p ++ p_connections p).

(** The loop of [cleanup], which compacts the slice in place: [arr] is the
    slice, [i] the next position to write, [j] to read. *)
Fixpoint cleanup_loop (now : Z) (todo j i : nat) (arr : list ptr) (p : connectionPool)
    : list ptr * connectionPool :=
  match todo with
  | O => (take i arr, p)
  | S todo =>
    match arr !! j with
    | None => (take i arr, p)
    | Some c =>
      let lastUsed := default 0 (pc_lastUsed <$> p_heap p !! c) in
      if negb (is_inUse p c) && (cf_IdleTimeout (p_config p) <? now - lastUsed)
      then cleanup_loop now todo (S j) i arr (p |> add_numOpen (-1) |> go_close c)
      else cleanup_loop now todo (S j) (S i) (<[i := c]> arr) p
    end
  end.

Definition cleanup (now : Z) (p : connectionPool) : connectionPool :=
  if p_closed p then p
  else
    let '(conns, p) := cleanup_loop now (length (p_connections p)) 0 0 (p_connections p) p in
    set_connections conns p.

(** [startCleanup]: [time.NewTicker] panics unless its interval is positive;
    the goroutine calls [cleanup] at every tick until the context ends. *)
Definition startCleanup (p : connectionPool) : bool := 0 <? Z.quot (cf_IdleTimeout (p_config p)) 2.

Record PoolStats := mkPoolStats {
  ps_TotalConnections : Z;
  ps_ActiveConnections : Z;
  ps_IdleConnections : Z;
  ps_WaitersCount : Z;
  ps_IsClosed : bool;
}.

Definition Pool_Stats (p : connectionPool) : PoolStats := {|
  ps_TotalConnections := len (p_connections p);
  ps_ActiveConnections := len (filter (λ c, is_inUse p c = true) (p_connections p));
  ps_IdleConnections := len (filter (idle p) (p_connections p));
  ps_WaitersCount := len (p_waiters p);
  ps_IsClosed := p_closed p;
|}.

(** ** The pool and its users

    [us_creating] users are between the two critical sections of a creation,
    [us_waiting] are blocked on their channel, [us_holders] are the
    connections handed out and not yet given back. *)
Record Users := mkUsers {
  us_pool : connectionPool;
  us_creating : nat;
  us_waiting : list nat;
  us_holders : list ptr;
}.

(** Readings of the monotonic clock. *)
Definition monotonic (now : nat → Z) : Prop := ∀ i j, (i ≤ j)%nat → now i ≤ now j.

(** What can happen. A user gives back only what it holds ([File.Close] and
    the file system's operations do so once). *)
Inductive pool_step : Users → Users → Prop :=
| st_get now t p n ws hs c p' :
    monotonic now → get_locked now t p = Ok (GotConn c, p') →
    pool_step (mkUsers p n ws hs) (mkUsers p' n ws (c :: hs))
| st_get_error now t p n ws hs e p' :
    monotonic now → get_locked now t p = Ok (GotError e, p') →
    pool_step (mkUsers p n ws hs) (mkUsers p' n ws hs)
| st_reserve now t p n ws hs p' :
    monotonic now → get_locked now t p = Ok (Reserved, p') →
    pool_step (mkUsers p n ws hs) (mkUsers p' (S n) ws hs)
| st_wait now t p n ws hs w p' :
    monotonic now → get_locked now t p = Ok (Waiting w, p') →
    pool_step (mkUsers p n ws hs) (mkUsers p' n (w :: ws) hs)
| st_created session share t1 t2 p n ws hs c p' :
    add_connection session share t1 t2 p = (c, p') →
    pool_step (mkUsers p (S n) ws hs) (mkUsers p' n ws (c :: hs))
| st_create_failed p n ws hs :
    pool_step (mkUsers p (S n) ws hs) (mkUsers (create_failed p) n ws hs)
| st_receive w p n ws hs c p' :
    w ∈ ws → receive w p = Some (Some c, p') →
    pool_step (mkUsers p n ws hs) (mkUsers p' n (remove_first (λ w', bool_decide (w' = w)) ws) (c :: hs))
| st_receive_nil w p n ws hs p' :
    w ∈ ws → receive w p = Some (None, p') →
    pool_step (mkUsers p n ws hs) (mkUsers p' n (remove_first (λ w', bool_decide (w' = w)) ws) hs)
| st_cancel w p n ws hs :
    w ∈ ws →
    pool_step (mkUsers p n ws hs)
      (mkUsers (cancel_wait w p) n (remove_first (λ w', bool_decide (w' = w)) ws) hs)
| st_timeout w p n ws hs :
    w ∈ ws →
    pool_step (mkUsers p n ws hs)
      (mkUsers (timeout_wait w p) n (remove_first (λ w', bool_decide (w' = w)) ws) hs)
| st_put t c p n ws hs :
    c ∈ hs →
    pool_step (mkUsers p n ws hs)
      (mkUsers (put t c p) n ws (remove_first (λ c', bool_decide (c' = c)) hs))
| st_cleanup now p n ws hs : pool_step (mkUsers p n ws hs) (mkUsers (cleanup now p) n ws hs)
| st_close p n ws hs : pool_step (mkUsers p n ws hs) (mkUsers (Pool_Close p) n ws hs)
| st_run_close c w p n ws hs :
    c ∈ p_closing p → pool_step (mkUsers p n ws hs) (mkUsers (run_close c w p).1 n ws hs).

(** ** The scan *)

(** The pool after the idle connections [gone] were dropped. *)
Definition drop_idle (gone : list ptr) (p : connectionPool) : connectionPool :=
  mkPool (p_config p) (p_heap p) (p_next p) (p_chans p) (p_nextChan p) (p_connections p) (p_waiters p)
    (p_numOpen p - len gone) (p_closed p) (p_closing p ++ gone).

Lemma drop_idle_nil p : drop_idle [] p = p.
Proof. destruct p. unfold drop_idle; simpl. by rewrite Z.sub_0_r, app_nil_r. Qed.

Lemma drop_idle_cons c gone p :
  drop_idle gone (p |> add_numOpen (-1) |> go_close c) = drop_idle (c :: gone) p.
Proof. unfold drop_idle, go_close, add_numOpen; simpl. rewrite len_cons, <-app_assoc. f_equal. lia. Qed.

(** Removing the element at [i] from the first [k] elements of the backing
    array shifts the others; behind them the array repeats its last element. *)
Lemma shifted_array (i k : nat) (arr : list ptr) l :
  (i < k ≤ length arr)%nat → last (take k arr) = Some l → (∀ j, (k ≤ j < length arr)%nat → arr !! j = Some l) →
  let arr' := remove_at i (take k arr) ++ drop (k - 1) arr in
  length arr' = length arr ∧ take (k - 1) arr' = delete i (take k arr) ∧ arr !! (k - 1)%nat = Some l
  ∧ (∀ j, (k - 1 ≤ j < length arr')%nat → arr' !! j = Some l)
  ∧ (i ≠ k - 1 → last (take (k - 1) arr') = Some l)%nat.
Proof.
  intros Hik Hl Htail arr'.
  assert (arr' = delete i (take k arr) ++ drop (k - 1) arr) as -> by (unfold arr'; by rewrite delete_take_drop).
  assert (length (take k arr) = k) as Hlt by (rewrite length_take; lia).
  assert (length (delete i (take k arr)) = (k - 1)%nat) as Hld.
  { rewrite length_delete; [lia|]. apply lookup_lt_is_Some. lia. }
  assert (arr !! (k - 1)%nat = Some l) as Hlast.
  { rewrite last_lookup, Hlt, lookup_take_lt in Hl by lia. rewrite <-Hl. f_equal. lia. }
  assert (take (k - 1) (delete i (take k arr) ++ drop (k - 1) arr) = delete i (take k arr)) as Htk.
  { rewrite take_app_le by lia. apply take_ge. lia. }
  split; [rewrite length_app, Hld, length_drop; lia|]. split; [done|]. split; [done|]. split.
  - intros j. rewrite length_app, Hld, length_drop. intros Hj. rewrite lookup_app_r by lia. rewrite lookup_drop, Hld.
    replace (k - 1 + (j - (k - 1)))%nat with j by lia. destruct (decide (j = k - 1)%nat) as [->|]; [done|]. apply Htail. lia.
  - intros Hne. rewrite Htk, last_lookup, Hld, list_lookup_delete_ge by lia.
    replace (S (pred (k - 1)))%nat with (k - 1)%nat by lia. rewrite lookup_take_lt by lia. done.
Qed.

Lemma scan_spec now todo i arr k p l r conns p' :
  monotonic now → length arr = (i + todo)%nat → (k ≤ length arr)%nat →
  (∀ j, (k ≤ j < length arr)%nat → arr !! j = Some l) →
  (last (take k arr) = Some l ∨
   (k ≤ i)%nat ∧ ∃ pc, p_heap p !! l = Some pc ∧ pc_inUse pc = false ∧
     ∀ j, (i ≤ j)%nat → cf_IdleTimeout (p_config p) ≤ now j - pc_lastUsed pc) →
  scan now todo i arr k p = Ok (r, conns, p') →
  ∃ gone, p' = drop_idle gone p ∧ take k arr ≡ₚ conns ++ gone ∧ Forall (idle p) gone
    ∧ (∀ c, r = Some c → c ∈ conns ∧ idle p c ∧ is_Some (p_heap p !! c))
    ∧ (r = None → gone = [] → Forall (λ c, is_inUse p c = true) (drop i (take k arr))).
Proof.
  intros Hmono. revert i arr k p.
  induction todo as [|todo IH]; intros i arr k p Hlen Hk Htail Hl; cbn [scan].
  { intros [= <- <- <-]. exists []. rewrite drop_idle_nil, app_nil_r. split_and!; [done..|].
    intros _ _. rewrite drop_ge by (rewrite length_take; lia). constructor. }
  destruct (arr !! i) as [c|] eqn:Ec; [|done]. cbn [mbind option_bind].
  destruct (p_heap p !! c) as [pc|] eqn:Epc; [|done]. cbn [fmap option_fmap option_map].
  destruct (pc_inUse pc) eqn:Euse.
  { intros Hs. apply (IH (S i) arr k p) in Hs as (gone & ? & ? & ? & ? & Hall); [|lia|done|done|].
    { exists gone. split_and!; try done. intros Hr Hg. specialize (Hall Hr Hg).
      destruct (take k arr !! i) as [c'|] eqn:Ec'.
      - rewrite (drop_S _ c') by done. apply lookup_take_Some in Ec' as [Ec' _].
        constructor; [|done]. unfold is_inUse. assert (c' = c) as -> by congruence. by rewrite Epc.
      - rewrite drop_ge by (by apply lookup_ge_None in Ec'). constructor. }
    destruct Hl as [Hl|(Hki & pl & E1 & E2 & E3)]; [by left|right].
    split; [lia|]. exists pl. split_and!; auto. intros; apply E3; lia. }
  assert (idle p c) as Hidle by (unfold idle, is_inUse; by rewrite Epc).
  destruct (Z.ltb_spec (now i - pc_lastUsed pc) (cf_IdleTimeout (p_config p))) as [Hfresh|Hexp].
  { intros [= <- <- <-]. exists []. rewrite drop_idle_nil, app_nil_r. split_and!; [done..|constructor| |done].
    intros c' [= <-]. split_and!; [|done|eauto].
    destruct (decide (i < k)%nat) as [Hik|Hik].
    { apply list_elem_of_lookup. exists i. by rewrite lookup_take_lt. }
    rewrite Htail in Ec by lia. injection Ec as <-.
    destruct Hl as [Hl|(_ & pl & E1 & _ & E3)]; [by apply last_Some_elem_of|].
    rewrite Epc in E1. injection E1 as <-. specialize (E3 i ltac:(lia)). lia. }
  destruct (Nat.ltb_spec k (S i)) as [|Hik]; [done|].
  destruct Hl as [Hl|(? & _)]; [|lia].
  assert (Hci : take k arr !! i = Some c) by (rewrite lookup_take_lt; [done|lia]).
  destruct (shifted_array i k arr l) as (Hlen' & Htk & Hlast & Htail' & Hl'); [lia|done|done|].
  intros Hs. apply IH in Hs as (gone & -> & Hp & Hg & Hr & _); [|lia|lia|done|].
  - exists (c :: gone). rewrite drop_idle_cons. rewrite Htk in Hp. split_and!; [done| |by constructor|done|done].
    rewrite (delete_Permutation _ _ _ Hci), Hp. solve_Permutation.
  - destruct (decide (i = k - 1)%nat) as [->|Hne]; [right|by left; apply Hl'].
    split; [lia|]. rewrite Hlast in Ec. injection Ec as <-. exists pc. split_and!; auto.
    intros j Hj. specialize (Hmono (k - 1)%nat j ltac:(lia)). simpl. lia.
Qed.
(** Without some of its idle connections. *)
Definition without_idle (p : connectionPool) (conns gone : list ptr) : connectionPool :=
  set_connections conns (drop_idle gone p).

Definition idle_dropped (p : connectionPool) (conns gone : list ptr) : Prop :=
  p_connections p ≡ₚ conns ++ gone ∧ Forall (idle p) gone.

(** The outcomes of the critical section of [get]. *)
Inductive got_from (t : Z) (p : connectionPool) : got → connectionPool → Prop :=
| from_closed : p_closed p = true → got_from t p (GotError (Sentinel ErrConnectionClosed)) p
| from_idle conns gone c :
    p_closed p = false → idle_dropped p conns gone → c ∈ conns → idle p c → is_Some (p_heap p !! c) →
    got_from t p (GotConn c)
      (set_heap (alter (λ pc, pc |> set_inUse true |> set_lastUsed t) c) (without_idle p conns gone))
| from_reserve conns gone :
    p_closed p = false → idle_dropped p conns gone →
    p_numOpen p - len gone < cf_MaxOpen (p_config p) →
    (gone = [] → Forall (λ c, is_inUse p c = true) (p_connections p)) →
    got_from t p Reserved (add_numOpen 1 (without_idle p conns gone))
| from_wait conns gone :
    p_closed p = false → idle_dropped p conns gone →
    cf_MaxOpen (p_config p) ≤ p_numOpen p - len gone →
    (gone = [] → Forall (λ c, is_inUse p c = true) (p_connections p)) →
    got_from t p (Waiting (p_nextChan p))
      (mkPool (p_config p) (p_heap p) (p_next p) (<[p_nextChan p := mkChan None false]> (p_chans p))
         (S (p_nextChan p)) conns (p_waiters p ++ [p_nextChan p]) (p_numOpen p - len gone) false
         (p_closing p ++ gone)).

Lemma scan_all now p r conns p' :
  monotonic now →
  scan now (length (p_connections p)) 0 (p_connections p) (length (p_connections p)) p = Ok (r, conns, p') →
  ∃ gone, p' = drop_idle gone p ∧ idle_dropped p conns gone
    ∧ (∀ c, r = Some c → c ∈ conns ∧ idle p c ∧ is_Some (p_heap p !! c))
    ∧ (r = None → gone = [] → Forall (λ c, is_inUse p c = true) (p_connections p)).
Proof.
  intros Hmono. destruct (last (p_connections p)) as [l|] eqn:El.
  - intros Hs. eapply (scan_spec _ _ _ _ _ _ l) in Hs as (gone & -> & Hp & Hg & Hr & Hall);
      [|done|done|done|intros; lia|].
    + rewrite firstn_all in Hp, Hall. exists gone. split_and!; [done|by split|done|done].
    + rewrite firstn_all. by left.
  - apply last_None in El. unfold idle_dropped. rewrite El. intros [= <- <- <-]. exists [].
    rewrite drop_idle_nil. split_and!; [done|done|constructor|done|constructor].
Qed.

Lemma get_locked_spec now t p g p' :
  monotonic now → get_locked now t p = Ok (g, p') → got_from t p g p'.
Proof.
  intros Hmono. unfold get_locked. destruct (p_closed p) eqn:Ecl.
  { intros [= <- <-]. by constructor. }
  destruct (scan _ _ _ _ _ _) as [[[r conns] p1]|] eqn:Es; [|done].
  apply scan_all in Es as (gone & -> & Hd & Hr & Hall); [|done].
  destruct r as [c|]; cbn.
  { intros [= <- <-]. destruct (Hr c eq_refl) as (? & ? & ?). by apply (from_idle _ _ conns gone). }
  destruct (Z.ltb_spec (p_numOpen p - len gone) (cf_MaxOpen (p_config p))); intros [= <- <-].
  - apply (from_reserve _ _ conns gone); auto.
  - rewrite Ecl. apply (from_wait _ _ conns gone); auto.
Qed.

(** With at most one idle connection the scan does not run off the slice. *)
Lemma scan_total now todo i arr k p :
  length arr = (i + todo)%nat → (k ≤ length arr)%nat →
  (∀ c, c ∈ arr → is_Some (p_heap p !! c)) →
  (k = length arr ∧ len (filter (idle p) (drop i arr)) ≤ 1 ∨ Forall (λ c, ¬ idle p c) (drop i arr)) →
  scan now todo i arr k p ≠ Panic.
Proof.
  revert i arr k p. induction todo as [|todo IH]; intros i arr k p Hlen Hk Hlive Hidle; cbn [scan]; [done|].
  destruct (lookup_lt_is_Some_2 arr i) as [c Hc]; [lia|]. rewrite Hc. cbn [mbind option_bind].
  destruct (Hlive c) as [pc Hpc]; [by eapply list_elem_of_lookup_2|]. rewrite Hpc. cbn [fmap option_fmap option_map].
  rewrite (drop_S arr c i Hc) in Hidle.
  destruct (pc_inUse pc) eqn:Huse.
  { apply IH; [lia|done|done|]. destruct Hidle as [[? Hle]|Hf]; [left; split; [done|]|right].
    - rewrite filter_cons_False in Hle; [done|]. unfold idle, is_inUse. by rewrite Hpc, Huse.
    - by apply Forall_cons in Hf as [_ Hf]. }
  assert (idle p c) as Hid by (unfold idle, is_inUse; by rewrite Hpc).
  destruct (_ <? _); [done|].
  destruct Hidle as [[-> Hle]|Hf]; [|apply Forall_cons in Hf as [? _]; done].
  rewrite filter_cons_True in Hle by done. rewrite len_cons in Hle.
  assert (filter (idle p) (drop (S i) arr) = []) as Hnone
    by (destruct (filter (idle p) (drop (S i) arr)); [done|unfold len in Hle; simpl in Hle; lia]).
  destruct (Nat.ltb_spec (length arr) (S i)); [lia|].
  rewrite firstn_all. unfold remove_at.
  apply IH; rewrite ?length_app, ?length_take, ?length_drop; [lia|lia| |right].
  - intros c' Hc'. simpl. apply Hlive. pose proof (subseteq_take i arr). pose proof (subseteq_drop (S i) arr).
    pose proof (subseteq_drop (length arr - 1) arr). set_solver.
  - apply Forall_forall. intros c' Hc' Hid'. change (idle p c') in Hid'.
    assert (c' ∈ drop (S i) arr) as Hin; [|].
    { rewrite <-app_assoc, drop_app_ge in Hc' by (rewrite length_take; lia).
      rewrite length_take, Nat.min_l in Hc' by lia. replace (S i - i)%nat with 1%nat in Hc' by lia.
      destruct (decide (S i = length arr)) as [He|Hne].
      - rewrite (drop_ge _ (S i)) in Hc' by lia. rewrite app_nil_l, drop_drop, drop_ge in Hc' by lia.
        by apply not_elem_of_nil in Hc'.
      - apply subseteq_drop in Hc'. apply elem_of_app in Hc' as [|Hc']; [done|].
        replace (length arr - 1)%nat with (S i + (length arr - 1 - S i))%nat in Hc' by lia.
        rewrite <-drop_drop in Hc'. by apply subseteq_drop in Hc'. }
    assert (c' ∈ filter (idle p) (drop (S i) arr)) as Hf by (by apply list_elem_of_filter).
    rewrite Hnone in Hf. by apply not_elem_of_nil in Hf.
Qed.

(** The in-place loop of [cleanup] is a filter. *)
Definition expired (now : Z) (p : connectionPool) (c : ptr) : Prop :=
  idle p c ∧ cf_IdleTimeout (p_config p) < now - default 0 (pc_lastUsed <$> p_heap p !! c).

#[global] Instance expired_dec now p c : Decision (expired now p c).
Proof. unfold expired, idle. apply _. Defined.

Lemma cleanup_loop_filter now todo j i arr p :
  length arr = (j + todo)%nat → (i ≤ j)%nat →
  cleanup_loop now todo j i arr p
  = (take i arr ++ filter (λ c, ¬ expired now p c) (drop j arr),
     drop_idle (filter (expired now p) (drop j arr)) p).
Proof.
  revert j i arr p. induction todo as [|todo IH]; intros j i arr p Hlen Hij; cbn [cleanup_loop].
  { rewrite drop_ge by lia. by rewrite !filter_nil, app_nil_r, drop_idle_nil. }
  destruct (arr !! j) as [c|] eqn:Ec; [|apply lookup_ge_None in Ec; lia].
  rewrite (drop_S arr c j Ec), !filter_cons.
  destruct (decide (expired now p c)) as [[Hid Hexp]|Hn]; unfold idle in *.
  - rewrite decide_False by (intros Hx; by apply Hx). rewrite Hid. simpl. rewrite (proj2 (Z.ltb_lt _ _) Hexp).
    rewrite IH by lia. by rewrite drop_idle_cons.
  - rewrite decide_True by done.
    assert (negb (is_inUse p c) && (cf_IdleTimeout (p_config p) <? now - default 0 (pc_lastUsed <$> p_heap p !! c)) = false) as ->.
    { apply not_true_is_false. intros [H1 H2]%andb_true_iff. apply Hn. split.
      - by apply negb_true_iff in H1.
      - by apply Z.ltb_lt in H2. }
    rewrite IH by (rewrite ?length_insert; lia). f_equal.
    + rewrite drop_insert_lt by lia. rewrite (take_S_r _ _ c) by (apply list_lookup_insert_eq; lia).
      rewrite take_insert_ge by lia. by rewrite <-app_assoc.
    + by rewrite drop_insert_lt by lia.
Qed.

Lemma cleanup_filter now p :
  p_closed p = false →
  cleanup now p = without_idle p (filter (λ c, ¬ expired now p c) (p_connections p))
    (filter (expired now p) (p_connections p)).
Proof. intros Hc. unfold cleanup. rewrite Hc, cleanup_loop_filter by lia. done. Qed.

(** ** The invariant *)

(** What lies in the channel of a waiter. *)
Definition buffered (p : connectionPool) (w : nat) : option ptr := p_chans p !! w ≫= ch_buf.

(** [c] was handed out and has not come back. *)
Definition out (u : Users) (c : ptr) : Prop :=
  c ∈ us_holders u ∨ ∃ w, buffered (us_pool u) w = Some c.

Record pool_inv (u : Users) : Prop := {
  pi_heap : ∀ c, is_Some (p_heap (us_pool u) !! c) → (c < p_next (us_pool u))%nat;
  pi_conns : NoDup (p_connections (us_pool u));
  pi_live : ∀ c, c ∈ p_connections (us_pool u) → is_Some (p_heap (us_pool u) !! c);
  pi_chans : ∀ w, is_Some (p_chans (us_pool u) !! w) → (w < p_nextChan (us_pool u))%nat;
  pi_waiters : NoDup (p_waiters (us_pool u));
  pi_empty : ∀ w, w ∈ p_waiters (us_pool u) → p_chans (us_pool u) !! w = Some (mkChan None false);
  (** one user at a time *)
  pi_holders : NoDup (us_holders u);
  pi_out : ∀ c, out u c → is_inUse (us_pool u) c = true;
  pi_buffer : ∀ w c, buffered (us_pool u) w = Some c → c ∉ us_holders u;
  pi_buffers : ∀ w w' c, buffered (us_pool u) w = Some c → buffered (us_pool u) w' = Some c → w = w';
  (** the counters of an open pool *)
  pi_numOpen : p_closed (us_pool u) = false →
    p_numOpen (us_pool u) = len (p_connections (us_pool u)) + Z.of_nat (us_creating u);
  pi_max : p_closed (us_pool u) = false → p_numOpen (us_pool u) ≤ cf_MaxOpen (p_config (us_pool u));
  pi_idle : p_closed (us_pool u) = false →
    idle_count (us_pool u) ≤ Z.max 0 (cf_MaxIdle (p_config (us_pool u)) - 1);
  pi_known : p_closed (us_pool u) = false → ∀ c, out u c → c ∈ p_connections (us_pool u);
  pi_accounted : p_closed (us_pool u) = false →
    ∀ c, c ∈ p_connections (us_pool u) → is_inUse (us_pool u) c = true → out u c;
}.

Lemma new_pool_inv config p : newConnectionPool config = Ok p → pool_inv (mkUsers p 0 [] []).
Proof.
  unfold newConnectionPool. destruct (Z.ltb_spec (cf_MaxOpen config) 0); [done|]. intros [= <-].
  assert (∀ c, ¬ out (mkUsers (mkPool config ∅ 0 ∅ 0 [] [] 0 false []) 0 [] []) c) as Hout.
  { intros c [Hc|[w Hw]]; [by apply not_elem_of_nil in Hc|].
    unfold buffered in Hw; simpl in Hw. by rewrite lookup_empty in Hw. }
  constructor; simpl.
  - intros c [? Hc]. by rewrite lookup_empty in Hc.
  - constructor.
  - intros c Hc. by apply not_elem_of_nil in Hc.
  - intros w [? Hw]. by rewrite lookup_empty in Hw.
  - constructor.
  - intros w Hw. by apply not_elem_of_nil in Hw.
  - constructor.
  - intros c Hc. by destruct (Hout c).
  - intros w c Hw. by apply not_elem_of_nil.
  - intros w w' c Hw. destruct (Hout c). right; eauto.
  - done.
  - done.
  - intros _. unfold idle_count; simpl. rewrite filter_nil. unfold len; simpl. lia.
  - intros _ c Hc. by destruct (Hout c).
  - intros _ c Hc. by apply not_elem_of_nil in Hc.
Qed.

(** *** Counting the idle connections *)

Lemma filter_len_le {A} (P Q : A → Prop) `{!∀ x, Decision (P x), !∀ x, Decision (Q x)} (l : list A) :
  (∀ x, x ∈ l → P x → Q x) → len (filter P l) ≤ len (filter Q l).
Proof.
  unfold len. induction l as [|x l IH]; intros Hpq; rewrite ?filter_nil, ?filter_cons; [lia|].
  assert (∀ y, y ∈ l → P y → Q y) as Hl by (intros; apply Hpq; [by right|done]).
  specialize (IH Hl). destruct (decide (P x)) as [Hp|Hp], (decide (Q x)) as [Hq|Hq]; simpl; try lia.
  destruct Hq. apply Hpq; [by left|done].
Qed.

Lemma filter_len_sublist {A} (P : A → Prop) `{!∀ x, Decision (P x)} (k l : list A) :
  sublist k l → len (filter P k) ≤ len (filter P l).
Proof.
  unfold len. induction 1 as [|x k l _ IH|x k l _ IH]; [done|..]; rewrite ?filter_cons;
    destruct (decide (P x)); simpl; lia.
Qed.

Lemma filter_none {A} (P : A → Prop) `{!∀ x, Decision (P x)} (l : list A) :
  Forall (λ x, ¬ P x) l → filter P l = [].
Proof. induction 1 as [|x l Hx _ IH]; [done|]. rewrite filter_cons, decide_False by done. done. Qed.

Lemma filter_all {A} (P : A → Prop) `{!∀ x, Decision (P x)} (l : list A) : Forall P l → filter P l = l.
Proof. induction 1 as [|x l Hx _ IH]; [done|]. rewrite filter_cons, decide_True by done. by rewrite IH. Qed.

Lemma idle_count_without p conns gone :
  idle_dropped p conns gone → idle_count (without_idle p conns gone) = idle_count p - len gone.
Proof.
  intros [Hp Hg]. unfold idle_count, without_idle; simpl.
  assert (len (filter (idle p) (p_connections p))
          = len (filter (idle p) (conns ++ gone))) as ->.
  { unfold len. by rewrite Hp. }
  rewrite filter_app, len_app.
  rewrite (filter_all _ gone Hg). change (idle (set_connections conns (drop_idle gone p))) with (idle p).
  change (idle_dec (set_connections conns (drop_idle gone p))) with (idle_dec p). lia.
Qed.

(** One connection becomes, or stops being, idle. *)
Lemma filter_len_one {A} (P Q : A → Prop) `{!∀ x, Decision (P x), !∀ x, Decision (Q x)} (l : list A) c :
  NoDup l → c ∈ l → P c → (∀ x, x ∈ l → Q x ↔ P x ∧ x ≠ c) → len (filter P l) = 1 + len (filter Q l).
Proof.
  induction 1 as [|x l Hx Hnd IH]; intros Hc HP HQ; [by apply not_elem_of_nil in Hc|].
  rewrite !filter_cons. apply elem_of_cons in Hc as [->|Hc].
  - rewrite decide_True by done. rewrite (decide_False (P := Q x)) by (rewrite HQ by (by left); tauto).
    rewrite len_cons. f_equal. assert (∀ y, y ∈ l → P y ↔ Q y) as Heq.
    { intros y Hy. rewrite HQ by (by right). split; [|tauto]. intros. split; [done|]. by intros ->. }
    apply Z.le_antisymm; apply filter_len_le; naive_solver.
  - assert (∀ y, y ∈ l → Q y ↔ P y ∧ y ≠ c) as HQ' by (intros; apply HQ; by right).
    specialize (IH Hc HP HQ'). assert (x ≠ c) as Hne by (by intros ->).
    destruct (decide (P x)) as [Hp|Hp].
    + rewrite decide_True by (apply HQ; [by left|done]). rewrite !len_cons. lia.
    + rewrite decide_False by (rewrite HQ by (by left); tauto). done.
Qed.

(** Marking a connection. *)
Lemma is_inUse_alter f b c c' p :
  (∀ pc, pc_inUse (f pc) = b) → is_Some (p_heap p !! c) →
  is_inUse (set_heap (alter f c) p) c' = if decide (c' = c) then b else is_inUse p c'.
Proof.
  intros Hf [pc Hpc]. unfold is_inUse, set_heap; simpl. destruct (decide (c' = c)) as [->|Hne].
  - by rewrite lookup_alter_eq, Hpc; simpl.
  - by rewrite lookup_alter_ne by done.
Qed.

Lemma is_Some_alter f c c' (m : gmap ptr pooledConn) : is_Some (alter f c m !! c') ↔ is_Some (m !! c').
Proof.
  destruct (decide (c' = c)) as [->|Hne]; [|by rewrite lookup_alter_ne].
  rewrite lookup_alter_eq. apply fmap_is_Some.
Qed.

Lemma is_inUse_live p c : is_inUse p c = true → is_Some (p_heap p !! c).
Proof. unfold is_inUse. by destruct (p_heap p !! c). Qed.

(** *** The steps *)

Lemma inv_without p n ws hs conns gone :
  pool_inv (mkUsers p n ws hs) → idle_dropped p conns gone →
  pool_inv (mkUsers (without_idle p conns gone) n ws hs).
Proof.
  intros Hi Hd. pose proof Hd as [Hp Hg]. rewrite Forall_forall in Hg.
  assert (∀ c, c ∈ conns → c ∈ p_connections p) as Hsub by (intros c Hc; rewrite Hp; set_solver).
  destruct Hi; constructor; simpl in *; try done.
  - rewrite Hp in pi_conns0. by apply NoDup_app in pi_conns0 as [? _].
  - auto.
  - intros Hc. rewrite pi_numOpen0 by done. unfold len. rewrite Hp, length_app. lia.
  - intros Hc. specialize (pi_max0 Hc). pose proof (len_nonneg gone). lia.
  - intros Hc. specialize (pi_idle0 Hc). pose proof (len_nonneg gone). rewrite idle_count_without by done. lia.
  - intros Hc c Ho. specialize (pi_known0 Hc c Ho). rewrite Hp in pi_known0.
    apply elem_of_app in pi_known0 as [|Hgone]; [done|]. apply Hg in Hgone. unfold idle in Hgone.
    by rewrite (pi_out0 c Ho) in Hgone.
  - intros Hc c Hin. by apply pi_accounted0; auto.
Qed.

Lemma inv_take p n ws hs c f :
  (∀ pc, pc_inUse (f pc) = true) → p_closed p = false →
  pool_inv (mkUsers p n ws hs) → c ∈ p_connections p → idle p c →
  pool_inv (mkUsers (set_heap (alter f c) p) n ws (c :: hs)).
Proof.
  intros Hf Hopen Hi Hc Hidle. unfold idle in Hidle.
  assert (is_Some (p_heap p !! c)) as Hlive by (by apply (pi_live _ Hi)).
  assert (¬ out (mkUsers p n ws hs) c) as Hno.
  { intros Ho%(pi_out _ Hi). simpl in Ho. congruence. }
  assert (∀ c', out (mkUsers (set_heap (alter f c) p) n ws (c :: hs)) c' ↔ c' = c ∨ out (mkUsers p n ws hs) c') as Hout.
  { intros c'. unfold out; simpl. rewrite elem_of_cons. unfold buffered; simpl. tauto. }
  destruct Hi; constructor; simpl in *; try done.
  - intros c'. rewrite is_Some_alter. auto.
  - intros c'. rewrite is_Some_alter. auto.
  - constructor; [|done]. intros ?. apply Hno. by left.
  - intros c'. rewrite Hout, (is_inUse_alter _ true) by done. destruct (decide (c' = c)); [done|].
    intros [?|?]; [done|auto].
  - intros w c' Hw. rewrite not_elem_of_cons. split; [|by apply (pi_buffer0 w)].
    intros ->. apply Hno. right. by exists w.
  - intros _. specialize (pi_idle0 Hopen). etrans; [|done]. unfold idle_count; simpl. apply filter_len_le.
    intros c' _. unfold idle. rewrite (is_inUse_alter _ true) by done. by destruct (decide (c' = c)).
  - intros _ c'. rewrite Hout. intros [->|?]; auto.
  - intros _ c' Hc'. rewrite Hout, (is_inUse_alter _ true) by done.
    destruct (decide (c' = c)); [by left|]. intros. right. auto.
Qed.

Lemma inv_wait p n ws hs :
  p_closed p = false → pool_inv (mkUsers p n ws hs) →
  pool_inv (mkUsers (mkPool (p_config p) (p_heap p) (p_next p) (<[p_nextChan p := mkChan None false]> (p_chans p))
    (S (p_nextChan p)) (p_connections p) (p_waiters p ++ [p_nextChan p]) (p_numOpen p) false
    (p_closing p)) n (p_nextChan p :: ws) hs).
Proof.
  intros Hopen Hi. set (p' := mkPool _ _ _ _ _ _ _ _ _ _).
  assert (p_chans p !! p_nextChan p = None) as Hnew.
  { apply eq_None_not_Some. intros Hs%(pi_chans _ Hi). simpl in Hs. lia. }
  assert (∀ w, buffered p' w = buffered p w) as Hbuf.
  { intros w. unfold buffered; simpl. destruct (decide (w = p_nextChan p)) as [->|].
    - by rewrite lookup_insert_eq, Hnew.
    - by rewrite lookup_insert_ne by done. }
  assert (∀ c, out (mkUsers p' n (p_nextChan p :: ws) hs) c ↔ out (mkUsers p n ws hs) c) as Hout.
  { intros c. unfold out; simpl. by setoid_rewrite Hbuf. }
  destruct Hi; constructor; simpl in *; try done.
  - intros w. destruct (decide (w = p_nextChan p)) as [->|]; [lia|]. rewrite lookup_insert_ne by done.
    intros ?%pi_chans0. lia.
  - apply NoDup_app. split_and!; [done| |apply NoDup_singleton].
    intros w Hw ->%list_elem_of_singleton. apply pi_empty0 in Hw. congruence.
  - intros w. rewrite elem_of_app, list_elem_of_singleton. intros [Hw| ->]; [|by rewrite lookup_insert_eq].
    rewrite lookup_insert_ne; [auto|]. intros <-. apply pi_empty0 in Hw. congruence.
  - intros c. rewrite Hout. apply pi_out0.
  - intros w c. rewrite Hbuf. eauto.
  - intros w w' c. rewrite !Hbuf. eauto.
  - auto.
  - auto.
  - intros _. by apply pi_idle0.
  - intros _ c. rewrite Hout. by apply pi_known0.
  - intros _ c. rewrite Hout. by apply pi_accounted0.
Qed.

Lemma inv_created session share t1 t2 p n ws hs c p' :
  pool_inv (mkUsers p (S n) ws hs) → add_connection session share t1 t2 p = (c, p') →
  pool_inv (mkUsers p' n ws (c :: hs)).
Proof.
  intros Hi [= <- <-]. set (c := p_next p). set (p' := mkPool _ _ _ _ _ _ _ _ _ _).
  assert (p_heap p !! c = None) as Hnew.
  { apply eq_None_not_Some. intros Hs%(pi_heap _ Hi). simpl in Hs. subst c. lia. }
  assert (∀ c', is_inUse p' c' = if decide (c' = c) then true else is_inUse p c') as Huse.
  { intros c'. unfold is_inUse; simpl. destruct (decide (c' = c)) as [->|].
    - by rewrite lookup_insert_eq.
    - by rewrite lookup_insert_ne by done. }
  assert (¬ out (mkUsers p (S n) ws hs) c) as Hno.
  { intros Ho%(pi_out _ Hi)%is_inUse_live. simpl in Ho. rewrite Hnew in Ho. by destruct Ho. }
  assert (∀ c', out (mkUsers p' n ws (c :: hs)) c' ↔ c' = c ∨ out (mkUsers p (S n) ws hs) c') as Hout.
  { intros c'. unfold out; simpl. rewrite elem_of_cons. unfold buffered; simpl. tauto. }
  destruct Hi; constructor; simpl in *; try done.
  - intros c'. destruct (decide (c' = c)) as [->|]; [subst c; lia|]. rewrite lookup_insert_ne by done.
    intros ?%pi_heap0. subst c. lia.
  - apply NoDup_app. split_and!; [done| |apply NoDup_singleton].
    intros c' Hc' ->%list_elem_of_singleton. apply pi_live0 in Hc'. rewrite Hnew in Hc'. by destruct Hc'.
  - intros c'. rewrite elem_of_app, list_elem_of_singleton. intros [Hc'| ->]; [|by rewrite lookup_insert_eq].
    destruct (decide (c' = c)) as [->|]; [by rewrite lookup_insert_eq|]. rewrite lookup_insert_ne by done. auto.
  - constructor; [|done]. intros ?. apply Hno. by left.
  - intros c'. rewrite Hout, Huse. destruct (decide (c' = c)); [done|]. intros [?|?]; [done|auto].
  - intros w c' Hw. rewrite not_elem_of_cons. split; [|by apply (pi_buffer0 w)].
    intros ->. apply Hno. right. by exists w.
  - intros Hc. rewrite len_app, pi_numOpen0 by done. unfold len; simpl. lia.
  - intros Hc. etrans; [|by apply pi_idle0]. unfold idle_count; simpl. rewrite filter_app, filter_cons.
    rewrite decide_False by (unfold idle; by rewrite Huse, decide_True). rewrite filter_nil, app_nil_r.
    apply filter_len_le. intros c' _. unfold idle. rewrite Huse. by destruct (decide (c' = c)).
  - intros Hc c'. rewrite Hout, elem_of_app, list_elem_of_singleton. intros [?|?]; [by right|left; auto].
  - intros Hc c'. rewrite Hout, Huse, elem_of_app, list_elem_of_singleton.
    destruct (decide (c' = c)) as [->|]; [by left|]. intros [?|?]; [right; auto|done].
Qed.

Lemma receive_Some w p c p' :
  receive w p = Some (Some c, p') →
  ∃ closed, p_chans p !! w = Some (mkChan (Some c) closed) ∧ p' = set_chans <[w := mkChan None closed]> p.
Proof. unfold receive. destruct (p_chans p !! w) as [[[c'|] []]|]; intros [= <- <-]; eauto. Qed.

Lemma inv_receive w p n ws ws' hs c p' :
  pool_inv (mkUsers p n ws hs) → receive w p = Some (Some c, p') → pool_inv (mkUsers p' n ws' (c :: hs)).
Proof.
  intros Hi (closed & Ew & ->)%receive_Some. set (p' := set_chans _ p).
  assert (buffered p w = Some c) as Hw by (unfold buffered; by rewrite Ew).
  assert (∀ v, buffered p' v = if decide (v = w) then None else buffered p v) as Hbuf.
  { intros v; unfold buffered; simpl; destruct (decide (v = w)) as [->|];
      [by rewrite lookup_insert_eq|by rewrite lookup_insert_ne by done]. }
  assert (∀ v c', buffered p' v = Some c' → v ≠ w ∧ buffered p v = Some c') as Hbuf'.
  { intros v c'. rewrite Hbuf. by destruct (decide (v = w)). }
  assert (∀ c', out (mkUsers p' n ws' (c :: hs)) c' ↔ out (mkUsers p n ws hs) c') as Hout.
  { intros c'; unfold out; simpl; rewrite elem_of_cons; split.
    - intros [[->|?]|[v [? Hv]%Hbuf']]; eauto.
    - intros [?|[v Hv]]; [eauto|]. destruct (decide (v = w)) as [->|Hne]; [left; left; congruence|].
      right. exists v. rewrite Hbuf. by destruct (decide (v = w)). }
  destruct Hi; constructor; simpl in *; try done.
  - intros v. destruct (decide (v = w)) as [->|]; [|by rewrite lookup_insert_ne by done; auto].
    intros _. apply pi_chans0. by rewrite Ew.
  - intros v Hv. destruct (decide (v = w)) as [->|]; [|by rewrite lookup_insert_ne by done; auto].
    apply pi_empty0 in Hv. congruence.
  - constructor; [by apply (pi_buffer0 w)|done].
  - intros c'. rewrite Hout. apply pi_out0.
  - intros v c' [Hne Hv]%Hbuf'. rewrite not_elem_of_cons. split; [|by apply (pi_buffer0 v)].
    intros ->. by apply Hne, (pi_buffers0 _ _ c).
  - intros v v' c' [_ Hv]%Hbuf' [_ Hv']%Hbuf'. eauto.
  - intros Hc c'. rewrite Hout. by apply pi_known0.
  - intros Hc c'. rewrite Hout. by apply pi_accounted0.
Qed.

(** A user gives [c] back. *)
Lemma elem_of_without (l : list ptr) c x :
  NoDup l → x ∈ remove_first (λ c', bool_decide (c' = c)) l ↔ x ∈ l ∧ x ≠ c.
Proof.
  intros Hnd. split.
  - intros Hx. split; [by eapply elem_of_remove_first|]. intros ->.
    pose proof (remove_first_gone (λ c', bool_decide (c' = c)) l) as Hg.
    rewrite Forall_forall in Hg. specialize (Hg ltac:(intros ?? _ _ ->%bool_decide_eq_true ->%bool_decide_eq_true; done) Hnd _ Hx).
    by apply bool_decide_eq_false in Hg.
  - intros [? ?]. apply elem_of_remove_first_ne; [done|]. by apply bool_decide_eq_false.
Qed.

Lemma len_without (l : list ptr) c :
  c ∈ l → len l = 1 + len (remove_first (λ c', bool_decide (c' = c)) l).
Proof.
  induction l as [|x l IH]; [by intros ?%not_elem_of_nil|]. intros Hc. cbn [remove_first].
  case_bool_decide as Hx; rewrite !len_cons; [done|]. apply elem_of_cons in Hc as [->|Hc]; [done|].
  rewrite IH by done. lia.
Qed.

(** Delivering to the first waiter. *)
Lemma inv_deliver t w waiters c p n ws hs :
  p_closed p = false → p_waiters p = w :: waiters → c ∈ hs → pool_inv (mkUsers p n ws hs) →
  pool_inv (mkUsers (put t c p) n ws (remove_first (λ c', bool_decide (c' = c)) hs)).
Proof.
  intros Hopen Hws Hc Hi. unfold put. rewrite Hopen. simpl. rewrite Hws. simpl.
  set (p' := set_chans _ _).
  assert (is_inUse p c = true) as Huse by (apply (pi_out _ Hi); by left).
  pose proof (is_inUse_live _ _ Huse) as Hlive.
  assert (∀ c', is_inUse p' c' = is_inUse p c') as Hsame.
  { intros c'. change (is_inUse p' c') with
      (is_inUse (set_heap (alter (set_inUse true) c) (set_heap (alter (λ pc, set_lastUsed t (set_inUse false pc)) c) p)) c').
    rewrite (is_inUse_alter _ true), (is_inUse_alter _ false); [|done..|by apply is_Some_alter].
    destruct (decide (c' = c)) as [->|]; done. }
  assert (p_chans p !! w = Some (mkChan None false)) as Ew by (apply (pi_empty _ Hi); simpl; rewrite Hws; by left).
  assert (∀ v, buffered p' v = if decide (v = w) then Some c else buffered p v) as Hbuf.
  { intros v. unfold buffered; simpl. destruct (decide (v = w)) as [->|].
    - by rewrite lookup_alter_eq, Ew.
    - by rewrite lookup_alter_ne by done. }
  assert (∀ v, buffered p v = Some c → False) as Hnb by (intros v Hv; by apply (pi_buffer _ Hi v c Hv)).
  pose proof (λ x, elem_of_without hs c x (pi_holders _ Hi)) as Hhs.
  assert (∀ c', out (mkUsers p' n ws (remove_first (λ c', bool_decide (c' = c)) hs)) c'
    ↔ out (mkUsers p n ws hs) c') as Hout.
  { intros c'. unfold out; simpl. rewrite Hhs. split.
    - intros [[? ?]|[v Hv]]; [by left|]. rewrite Hbuf in Hv. destruct (decide (v = w)); [left; congruence|eauto].
    - intros [?|[v Hv]].
      + destruct (decide (c' = c)) as [->|]; [right; exists w; rewrite Hbuf; by destruct (decide (w = w))|by left].
      + right. exists v. rewrite Hbuf. destruct (decide (v = w)) as [->|]; [|done].
        unfold buffered in Hv. by rewrite Ew in Hv. }
  destruct Hi; simpl in *. rewrite Hws in pi_waiters0. apply NoDup_cons in pi_waiters0 as [Hw Hnd].
  constructor; simpl; try done.
  - intros c'. rewrite !is_Some_alter. auto.
  - intros c'. rewrite !is_Some_alter. auto.
  - intros v. destruct (decide (v = w)) as [->|]; [|by rewrite lookup_alter_ne by done; auto].
    intros _. apply pi_chans0. by rewrite Ew.
  - intros v Hv. rewrite lookup_alter_ne by set_solver. apply pi_empty0. rewrite Hws. by right.
  - by apply NoDup_remove_first.
  - intros c'. rewrite Hout, Hsame. apply pi_out0.
  - intros v c'. rewrite Hbuf, Hhs. destruct (decide (v = w)) as [->|]; [intros [= <-]; tauto|].
    intros Hv%pi_buffer0. tauto.
  - intros v v' c'. rewrite !Hbuf. destruct (decide (v = w)) as [->|], (decide (v' = w)) as [->|]; [done|..|eauto].
    + intros [= <-] Hv'. by destruct (Hnb v').
    + intros Hv [= <-]. by destruct (Hnb v).
  - intros _. etrans; [|by apply pi_idle0]. unfold idle_count; simpl. apply filter_len_le.
    intros c' _. unfold idle. by rewrite Hsame.
  - intros _ c'. rewrite Hout. by apply pi_known0.
  - intros _ c'. rewrite Hout, Hsame. by apply pi_accounted0.
Qed.

(** Keeping or closing it when nobody waits. *)
(** *** Giving a connection back *)

Section giving_back.
Context (t : Z) (c : ptr) (p : connectionPool) (n : nat) (ws : list nat) (hs : list ptr).
Context (Hc : c ∈ hs) (Hi : pool_inv (mkUsers p n ws hs)).

(** The connection is idle now; the other users have theirs. *)
Let p1 := set_heap (alter (λ pc, set_lastUsed t (set_inUse false pc)) c) p.
Let hs1 := remove_first (λ c', bool_decide (c' = c)) hs.

Lemma given_back_users x : x ∈ hs1 ↔ x ∈ hs ∧ x ≠ c.
Proof. apply elem_of_without, (pi_holders _ Hi). Qed.

Lemma given_back_inUse c' : is_inUse p1 c' = if decide (c' = c) then false else is_inUse p c'.
Proof.
  apply is_inUse_alter; [done|]. apply is_inUse_live, (pi_out _ Hi). by left.
Qed.

Lemma given_back_out c' : out (mkUsers p1 n ws hs1) c' ↔ out (mkUsers p n ws hs) c' ∧ c' ≠ c.
Proof.
  unfold out; simpl. rewrite given_back_users. split; [|tauto].
  intros [?|[v Hv]]; [tauto|]. split; [by eauto|]. intros ->. by apply (pi_buffer _ Hi v c).
Qed.

Lemma given_back_busy c' : out (mkUsers p1 n ws hs1) c' → is_inUse p1 c' = true.
Proof. intros [Ho Hne]%given_back_out. rewrite given_back_inUse, decide_False by done. by apply (pi_out _ Hi). Qed.

Lemma given_back_accounted c' :
  p_closed p = false → c' ∈ p_connections p → is_inUse p1 c' = true → out (mkUsers p1 n ws hs1) c'.
Proof.
  intros Hcl Hin. rewrite given_back_inUse, given_back_out. destruct (decide (c' = c)); [done|]. intros. split; [|done].
  by apply (pi_accounted _ Hi).
Qed.

(** The pool is closed. *)
Lemma inv_put_closed : p_closed p = true → pool_inv (mkUsers (go_close c p) n ws hs1).
Proof.
  intros Hcl.
  assert (∀ c', out (mkUsers (go_close c p) n ws hs1) c' → out (mkUsers p n ws hs) c') as Hout
    by (intros c' [?%given_back_users|?]; [left; tauto|by right]).
  destruct Hi; constructor; simpl in *; try done; try congruence.
  - by apply NoDup_remove_first.
  - intros c' ?%Hout. by apply pi_out0.
  - intros w c' Hw [? _]%given_back_users. by apply (pi_buffer0 w c').
Qed.

(** It stays in the list. *)
Lemma inv_put_keep : p_closed p = false → idle_count p1 < cf_MaxIdle (p_config p) → pool_inv (mkUsers p1 n ws hs1).
Proof.
  intros Hopen Hmax. pose proof given_back_busy as Hb. pose proof given_back_accounted as Hacc.
  pose proof given_back_out as Hout. pose proof given_back_users as Hhs.
  destruct Hi; constructor; simpl in *; try done.
  - intros c'. rewrite is_Some_alter. auto.
  - intros c'. rewrite is_Some_alter. auto.
  - by apply NoDup_remove_first.
  - intros v c' Hv [? _]%Hhs. by apply (pi_buffer0 v c').
  - intros _. lia.
  - intros _ c' [? ?]%Hout. by apply pi_known0.
  - intros _ c' ? ?. by apply Hacc.
Qed.

(** There are enough idle ones. *)
Lemma inv_put_drop :
  p_closed p = false →
  pool_inv (mkUsers (p1 |> add_numOpen (-1)
    |> set_connections (remove_first (λ c', bool_decide (c' = c)) (p_connections p1)) |> go_close c) n ws hs1).
Proof.
  intros Hopen. pose proof given_back_inUse as Hsame. pose proof given_back_busy as Hb. pose proof given_back_accounted as Hacc.
  pose proof given_back_out as Hout. pose proof given_back_users as Hhs.
  change (p_connections p1) with (p_connections p).
  set (conns := remove_first (λ c', bool_decide (c' = c)) (p_connections p)).
  assert (∀ x, x ∈ conns ↔ x ∈ p_connections p ∧ x ≠ c) as Hconns
    by (intros x; apply elem_of_without, (pi_conns _ Hi)).
  assert (c ∈ p_connections p) as Hin by (apply (pi_known _ Hi); [done|by left]).
  destruct Hi; constructor; simpl in *; try done.
  - intros c'. rewrite is_Some_alter. auto.
  - by apply NoDup_remove_first.
  - intros c' [? _]%Hconns. rewrite is_Some_alter. auto.
  - by apply NoDup_remove_first.
  - intros v c' Hv [? _]%Hhs. by apply (pi_buffer0 v c').
  - intros _. rewrite pi_numOpen0 by done.
    rewrite (len_without (p_connections p) c Hin). fold conns. lia.
  - intros _. specialize (pi_max0 Hopen). lia.
  - intros _. etrans; [|by apply pi_idle0]. unfold idle_count; simpl. etrans; [apply (filter_len_le _ (idle p))|].
    2: apply filter_len_sublist, remove_first_sublist.
    intros c' [_ Hne]%Hconns Hid. unfold idle. specialize (Hsame c'). destruct (decide (c' = c)); [done|]. by rewrite <-Hsame.
  - intros _ c' [? ?]%Hout. rewrite Hconns. auto.
  - intros _ c' [? ?]%Hconns ?. by apply Hacc.
Qed.

Lemma inv_put : pool_inv (mkUsers (put t c p) n ws hs1).
Proof.
  destruct (p_closed p) eqn:Hopen; [unfold put; rewrite Hopen; by apply inv_put_closed|].
  destruct (p_waiters p) as [|w waiters] eqn:Hws; [|by eapply inv_deliver].
  unfold put. rewrite Hopen. simpl. rewrite Hws. fold p1.
  destruct (Z.leb_spec (cf_MaxIdle (p_config p)) (idle_count p1)); [by apply inv_put_drop|by apply inv_put_keep].
Qed.
End giving_back.

Lemma inv_cancel w p n ws ws' hs :
  pool_inv (mkUsers p n ws hs) → pool_inv (mkUsers (cancel_wait w p) n ws' hs).
Proof.
  intros []; constructor; simpl in *; try done.
  - by apply NoDup_remove_first.
  - intros v Hv%elem_of_remove_first. auto.
Qed.

Lemma close_chans (l : list nat) (m : gmap nat chan) w :
  ((foldl (λ m w, alter (λ ch, mkChan (ch_buf ch) true) w m) m l !! w) ≫= ch_buf) = (m !! w ≫= ch_buf)
  ∧ (is_Some (foldl (λ m w, alter (λ ch, mkChan (ch_buf ch) true) w m) m l !! w) → is_Some (m !! w)).
Proof.
  revert m; induction l as [|v l IH]; intros m; cbn [foldl]; [done|].
  destruct (IH (alter (λ ch, mkChan (ch_buf ch) true) v m)) as [-> Hs]. split.
  - destruct (decide (w = v)) as [->|]; [rewrite lookup_alter_eq; by destruct (m !! v)|by rewrite lookup_alter_ne].
  - intros ?%Hs. destruct (decide (w = v)) as [->|]; [|by rewrite lookup_alter_ne in *].
    rewrite lookup_alter_eq in *. by eapply fmap_is_Some.
Qed.

Lemma inv_close p n ws hs : pool_inv (mkUsers p n ws hs) → pool_inv (mkUsers (Pool_Close p) n ws hs).
Proof.
  intros Hi. unfold Pool_Close. destruct (p_closed p) eqn:Hopen; [done|]. set (p' := mkPool _ _ _ _ _ _ _ _ _ _).
  assert (∀ w, buffered p' w = buffered p w) as Hbuf by (intros; apply close_chans).
  assert (∀ c, out (mkUsers p' n ws hs) c ↔ out (mkUsers p n ws hs) c) as Hout.
  { intros c. unfold out; simpl. by setoid_rewrite Hbuf. }
  destruct Hi; constructor; simpl in *; try done; try (by constructor).
  - intros c Hc. by apply not_elem_of_nil in Hc.
  - intros w Hw. apply pi_chans0. by eapply close_chans.
  - intros w Hw. by apply not_elem_of_nil in Hw.
  - intros c. rewrite Hout. apply pi_out0.
  - intros w c. rewrite Hbuf. apply pi_buffer0.
  - intros w w' c. rewrite !Hbuf. apply pi_buffers0.
Qed.

Lemma inv_run_close c w p n ws hs :
  pool_inv (mkUsers p n ws hs) → pool_inv (mkUsers (run_close c w p).1 n ws hs).
Proof.
  intros Hi. unfold run_close. destruct (p_heap p !! c) as [pc|] eqn:Epc; [|done]. simpl.
  set (p' := set_heap _ p).
  assert (∀ c', is_inUse p' c' = is_inUse p c') as Huse.
  { intros c'. unfold is_inUse; simpl. destruct (decide (c' = c)) as [->|];
      [by rewrite lookup_insert_eq, Epc|by rewrite lookup_insert_ne]. }
  assert (∀ c', is_Some (p_heap p' !! c') ↔ is_Some (p_heap p !! c')) as Hlive.
  { intros c'. simpl. destruct (decide (c' = c)) as [->|];
      [rewrite lookup_insert_eq, Epc; naive_solver|by rewrite lookup_insert_ne]. }
  destruct Hi; constructor; simpl in *; try done.
  - intros c'. rewrite Hlive. auto.
  - intros c'. rewrite Hlive. auto.
  - intros c'. rewrite Huse. apply pi_out0.
  - intros Hc. etrans; [|by apply pi_idle0]. apply filter_len_le. intros c' _. unfold idle. by rewrite Huse.
  - intros Hc c'. rewrite Huse. by apply pi_accounted0.
Qed.

Lemma inv_get t p g p' n ws hs :
  pool_inv (mkUsers p n ws hs) → got_from t p g p' →
  pool_inv match g with
           | GotConn c => mkUsers p' n ws (c :: hs)
           | GotError _ => mkUsers p' n ws hs
           | Reserved => mkUsers p' (S n) ws hs
           | Waiting w => mkUsers p' n (w :: ws) hs
           end.
Proof.
  intros Hi. destruct 1 as [|conns gone c Hopen Hd Hc Hidle Hlive|conns gone Hopen Hd Hmax _|conns gone Hopen Hd Hmax _]; [done|..].
  all: pose proof (inv_without _ _ _ _ _ _ Hi Hd) as Hi'.
  - by apply inv_take.
  - destruct Hi'; constructor; simpl in *; try done.
    + intros. rewrite pi_numOpen0 by done. lia.
    + intros. lia.
  - pose proof (inv_wait (without_idle p conns gone) n ws hs Hopen Hi') as Hw. exact Hw.
Qed.

(** A successful [get] from a pool with at most one idle connection leaves
    none idle. *)
Lemma got_idle t p g p' :
  NoDup (p_connections p) → idle_count p ≤ 1 → got_from t p g p' →
  match g with GotConn _ | Reserved => idle_count p' = 0 | _ => True end.
Proof.
  intros Hnd Hone. destruct 1 as [|conns gone c _ Hd Hc Hidle Hlive|conns gone _ Hd _ Hall|]; try done.
  - pose proof (idle_count_without _ _ _ Hd) as Hw. destruct Hd as [Hp _]. rewrite Hp in Hnd.
    apply NoDup_app in Hnd as [Hnd _].
    assert (idle_count (without_idle p conns gone)
      = 1 + idle_count (set_heap (alter (λ pc, pc |> set_inUse true |> set_lastUsed t) c) (without_idle p conns gone))) as Heq.
    { apply (filter_len_one _ _ _ c); [done..|]. intros x _. unfold idle. rewrite (is_inUse_alter _ true) by done.
      destruct (decide (x = c)); intuition congruence. }
    pose proof (len_nonneg gone). set (p1 := set_heap _ _) in *.
    assert (0 ≤ idle_count p1) as Hge by apply len_nonneg. lia.
  - pose proof (idle_count_without _ _ _ Hd) as Hw. change (idle_count (without_idle p conns gone) = 0).
    assert (0 ≤ idle_count (without_idle p conns gone)) as Hge by apply len_nonneg.
    destruct gone as [|c gone]; [|rewrite len_cons in Hw; pose proof (len_nonneg gone); lia].
    assert (idle_count p = 0) as Hz; [|rewrite Hz in Hw; unfold len in Hw; simpl in Hw; lia].
    unfold idle_count. rewrite filter_none; [done|]. eapply Forall_impl; [exact (Hall eq_refl)|].
    unfold idle. by intros x ->.
Qed.

Lemma put_idle t c p :
  NoDup (p_connections p) → is_inUse p c = true → idle_count (put t c p) ≤ idle_count p + 1.
Proof.
  intros Hnd Huse. pose proof (is_inUse_live _ _ Huse) as Hlive.
  set (p1 := set_heap (alter (λ pc, set_lastUsed t (set_inUse false pc)) c) p).
  assert (∀ x, is_inUse p1 x = if decide (x = c) then false else is_inUse p x) as Hsame
    by (intros; by apply is_inUse_alter).
  assert (idle_count p1 ≤ idle_count p + 1) as H1.
  { destruct (decide (c ∈ p_connections p)) as [Hin|Hin].
    - unfold idle_count. simpl. rewrite (filter_len_one (idle p1) (idle p) _ c); [lia|done|done|..].
      + unfold idle. rewrite Hsame. by destruct (decide (c = c)).
      + intros x _. unfold idle. rewrite Hsame. destruct (decide (x = c)) as [->|]; [rewrite Huse|]; intuition congruence.
    - transitivity (idle_count p); [|lia]. apply filter_len_le. intros x Hx. unfold idle. rewrite Hsame.
      by destruct (decide (x = c)) as [->|]. }
  unfold put. destruct (p_closed p); [unfold idle_count in *; simpl; change (idle (go_close c p)) with (idle p);
    change (idle_dec (go_close c p)) with (idle_dec p); lia|]. simpl. fold p1.
  destruct (p_waiters p) as [|w ws]; [destruct (_ <=? _); [|done]|].
  - transitivity (idle_count p1); [|done]. unfold idle_count at 1. simpl.
    etrans; [apply (filter_len_le _ (idle p1)); by intros|]. apply filter_len_sublist, remove_first_sublist.
  - transitivity (idle_count p); [|lia]. apply filter_len_le. intros x _. unfold idle.
    set (p2 := set_chans _ _). assert (is_inUse p2 x = is_inUse p x) as ->; [|done].
    change (is_inUse p2 x) with (is_inUse (set_heap (alter (set_inUse true) c) p1) x).
    rewrite (is_inUse_alter _ true), Hsame; [|done|by apply is_Some_alter]. by destruct (decide (x = c)) as [->|].
Qed.

Lemma cleanup_dropped now p :
  p_closed p = false →
  idle_dropped p (filter (λ c, ¬ expired now p c) (p_connections p)) (filter (expired now p) (p_connections p)).
Proof.
  intros _. split.
  - rewrite Permutation_app_comm. induction (p_connections p) as [|c l IH]; [done|]. rewrite !filter_cons.
    destruct (decide (expired now p c)) as [He|He].
    + rewrite decide_False by tauto. simpl. by rewrite <-IH.
    + rewrite decide_True by done. rewrite <-Permutation_middle. by rewrite <-IH.
  - apply Forall_forall. intros c [[Hi _] _]%list_elem_of_filter. done.
Qed.

Lemma pool_step_inv u u' : pool_step u u' → pool_inv u → pool_inv u'.
Proof.
  destruct 1 as [now t p n ws hs c p' Hm Hg|now t p n ws hs e p' Hm Hg|now t p n ws hs p' Hm Hg
    |now t p n ws hs w p' Hm Hg|session share t1 t2 p n ws hs c p' Ha|p n ws hs|w p n ws hs c p' Hw Hr
    |w p n ws hs p' Hw Hr|w p n ws hs Hw|w p n ws hs Hw|t c p n ws hs Hc|now p n ws hs|p n ws hs|c w p n ws hs Hc]; intros Hi.
  1-4: by pose proof (inv_get _ _ _ _ _ _ _ Hi (get_locked_spec _ _ _ _ _ Hm Hg)).
  - by eapply inv_created.
  - destruct Hi; constructor; simpl in *; try done.
    + intros. rewrite pi_numOpen0 by done. lia.
    + intros Hc. specialize (pi_max0 Hc). lia.
  - by eapply inv_receive.
  - unfold receive in Hr. destruct (p_chans p !! w) as [[[?|] []]|]; try done. injection Hr as <-. by destruct Hi.
  - by eapply inv_cancel.
  - by destruct Hi.
  - by apply inv_put.
  - destruct (p_closed p) eqn:Hopen; [by unfold cleanup; rewrite Hopen|].
    rewrite cleanup_filter by done. apply inv_without; [done|]. by apply cleanup_dropped.
  - by apply inv_close.
  - by apply inv_run_close.
Qed.

Lemma cleanup_loop_config now todo j i arr p : p_config (cleanup_loop now todo j i arr p).2 = p_config p.
Proof.
  revert j i arr p; induction todo as [|todo IH]; intros j i arr p; cbn [cleanup_loop]; [done|].
  destruct (arr !! j) as [c|]; [|done]. destruct (_ && _); by rewrite IH.
Qed.

Lemma pool_step_config u u' : pool_step u u' → p_config (us_pool u') = p_config (us_pool u).
Proof.
  destruct 1 as [now t p n ws hs c p' Hm Hg|now t p n ws hs e p' Hm Hg|now t p n ws hs p' Hm Hg
    |now t p n ws hs w p' Hm Hg|session share t1 t2 p n ws hs c p' [= <- <-]|p n ws hs|w p n ws hs c p' Hw Hr
    |w p n ws hs p' Hw Hr|w p n ws hs Hw|w p n ws hs Hw|t c p n ws hs Hc|now p n ws hs|p n ws hs|c w p n ws hs Hc];
    try done.
  1-4: apply get_locked_spec in Hg; [|done]; by inversion Hg.
  - by apply receive_Some in Hr as (? & _ & ->).
  - unfold receive in Hr. destruct (p_chans p !! w) as [[[?|] []]|]; by simplify_eq.
  - simpl. unfold put. destruct (p_closed p); [done|]. simpl. destruct (p_waiters p); [|done].
    by destruct (_ <=? _).
  - simpl. unfold cleanup. destruct (p_closed p); [done|].
    pose proof (cleanup_loop_config now (length (p_connections p)) 0 0 (p_connections p) p) as Hc.
    by destruct (cleanup_loop _ _ _ _ _ _).
  - simpl. unfold Pool_Close. by destruct (p_closed p).
  - simpl. unfold run_close. by destruct (p_heap p !! c).
Qed.

Lemma reachable_pool config p u :
  newConnectionPool config = Ok p → rtc pool_step (mkUsers p 0 [] []) u →
  pool_inv u ∧ p_config (us_pool u) = config.
Proof.
  intros Hp Hr. refine (rtc_preserve pool_step (λ u, pool_inv u ∧ p_config (us_pool u) = config) _ _ _ Hr _).
  - intros x y Hxy [Hi Hc]. split; [by eapply pool_step_inv|]. by rewrite (pool_step_config _ _ Hxy).
  - split; [by eapply new_pool_inv|]. unfold newConnectionPool in Hp. by destruct (_ <? _); simplify_eq.
Qed.

(** ** Properties *)

(** C9: A connection has one user at a time: however many goroutines get, wait
    for, give back, time out on and clean up connections, and in whatever
    order, no connection is in the hands of two users or both in a user's
    hands and on its way to a waiter; a connection in use is marked so, and
    in an open pool every connection marked in use was handed out and not
    given back. *)
Theorem pool_users_exclusive config p u :
  newConnectionPool config = Ok p → rtc pool_step (mkUsers p 0 [] []) u →
  NoDup (us_holders u)
  ∧ (∀ w c, buffered (us_pool u) w = Some c →
       c ∉ us_holders u ∧ ∀ w', buffered (us_pool u) w' = Some c → w' = w)
  ∧ (∀ c, out u c → is_inUse (us_pool u) c = true)
  ∧ (p_closed (us_pool u) = false → ∀ c, c ∈ p_connections (us_pool u) →
       is_inUse (us_pool u) c = true ↔ out u c).
Proof.
  intros Hp Hr. destruct (reachable_pool _ _ _ Hp Hr) as [Hi _]. destruct Hi. split_and!; [done| |done|].
  - intros w c Hw. split; [eauto|]. intros w' Hw'. eauto.
  - intros Hc c Hin. split; eauto.
Qed.

(** C14: The pool respects its limits: while it is open, [numOpen] counts the
    connections it lists and the ones being created, and never exceeds
    [MaxOpen]; the idle connections stay below [MaxIdle] (so one fewer than
    the configuration allows, since the connection given back is counted
    before it is kept). *)
Theorem pool_limits config p u :
  newConnectionPool config = Ok p → rtc pool_step (mkUsers p 0 [] []) u →
  p_closed (us_pool u) = false →
  p_numOpen (us_pool u) = len (p_connections (us_pool u)) + Z.of_nat (us_creating u)
  ∧ p_numOpen (us_pool u) ≤ cf_MaxOpen config
  ∧ NoDup (p_connections (us_pool u))
  ∧ ps_IdleConnections (Pool_Stats (us_pool u)) ≤ Z.max 0 (cf_MaxIdle config - 1).
Proof.
  intros Hp Hr Hc. destruct (reachable_pool _ _ _ Hp Hr) as [Hi <-]. destruct Hi. split_and!; auto.
Qed.

(** *** Crash on expired connections *)

Lemma scan_expired now todo i arr p :
  length arr = (i + todo)%nat → (1 ≤ todo)%nat → (2 ≤ length arr)%nat →
  (∀ c, c ∈ arr → ∃ pc, p_heap p !! c = Some pc ∧ pc_inUse pc = false
     ∧ ∀ j, cf_IdleTimeout (p_config p) ≤ now j - pc_lastUsed pc) →
  scan now todo i arr todo p = Panic.
Proof.
  revert i arr p. induction todo as [|todo IH]; intros i arr p Hlen Ht H2 Hexp; [lia|]. cbn [scan].
  destruct (lookup_lt_is_Some_2 arr i) as [c Hc]; [lia|]. rewrite Hc. cbn [mbind option_bind].
  destruct (Hexp c) as (pc & Epc & Huse & Hold); [by eapply list_elem_of_lookup_2|].
  rewrite Epc. simpl fmap. cbn iota beta. rewrite Huse. rewrite (proj2 (Z.ltb_ge _ _) (Hold i)).
  destruct (Nat.ltb_spec (S todo) (S i)) as [|Hle]; [done|].
  replace (S todo - 1)%nat with todo by lia. apply IH.
  - unfold remove_at. rewrite !length_app, length_take, length_drop, !length_take, length_drop. lia.
  - lia.
  - unfold remove_at. rewrite !length_app, length_take, length_drop, !length_take, length_drop. lia.
  - intros c' Hc'. simpl. apply Hexp. unfold remove_at in Hc'.
    pose proof (subseteq_take (S todo) arr). pose proof (subseteq_drop todo arr).
    pose proof (subseteq_take i (take (S todo) arr)). pose proof (subseteq_drop (S i) (take (S todo) arr)). set_solver.
Qed.

(** Two expired connections crash the client: when the pool has at least
    two connections, all idle for longer than [IdleTimeout], [get] panics with
    a slice index out of range, because the loop removes elements of the slice
    it ranges over. *)
Theorem expired_connections_panic now t p :
  p_closed p = false → (2 ≤ length (p_connections p))%nat →
  (∀ c, c ∈ p_connections p → ∃ pc, p_heap p !! c = Some pc ∧ pc_inUse pc = false
     ∧ ∀ j, cf_IdleTimeout (p_config p) ≤ now j - pc_lastUsed pc) →
  get_locked now t p = Panic.
Proof. intros Hc H2 Hexp. unfold get_locked. rewrite Hc. rewrite scan_expired; [done|lia..|done]. Qed.

(** *** Waiters that gave up *)

(** Nobody holds a connection and nobody will get one. *)
Record starved (u : Users) : Prop := {
  sv_holders : us_holders u = [];
  sv_creating : us_creating u = 0%nat;
  sv_waiting : ∀ w, w ∈ us_waiting u → buffered (us_pool u) w = None;
  sv_full : p_closed (us_pool u) = false →
    cf_MaxOpen (p_config (us_pool u)) ≤ p_numOpen (us_pool u)
    ∧ ∀ c, c ∈ p_connections (us_pool u) → is_inUse (us_pool u) c = true;
}.

Lemma nothing_idle p conns gone :
  (∀ c, c ∈ p_connections p → is_inUse p c = true) → idle_dropped p conns gone →
  gone = [] ∧ ∀ c, c ∈ conns → c ∈ p_connections p.
Proof.
  intros Hall [Hp Hg]. split; [|intros c Hc; rewrite Hp; set_solver].
  destruct gone as [|c gone]; [done|]. apply Forall_cons in Hg as [Hc _]. unfold idle in Hc.
  rewrite Hall in Hc; [done|]. rewrite Hp. set_solver.
Qed.

Lemma starved_step u u' : pool_step u u' → starved u → starved u'.
Proof.
  destruct 1 as [now t p n ws hs c p' Hm Hg|now t p n ws hs e p' Hm Hg|now t p n ws hs p' Hm Hg
    |now t p n ws hs w p' Hm Hg|session share t1 t2 p n ws hs c p' [= <- <-]|p n ws hs|w p n ws hs c p' Hw Hr
    |w p n ws hs p' Hw Hr|w p n ws hs Hw|w p n ws hs Hw|t c p n ws hs Hc|now p n ws hs|p n ws hs|c w p n ws hs Hc];
    intros [Hh Hn Hws Hfull]; simpl in *; subst; try done.
  - apply get_locked_spec in Hg; [|done]. inversion Hg; subst.
    destruct (Hfull ltac:(done)) as [_ Hall]. destruct (nothing_idle _ _ _ Hall ltac:(done)) as [_ Hin].
    match goal with Hid : idle p c |- _ => unfold idle in Hid; rewrite Hall in Hid; [done|auto] end.
  - apply get_locked_spec in Hg; [|done]. inversion Hg; subst. by constructor.
  - apply get_locked_spec in Hg; [|done]. inversion Hg; subst.
    destruct (Hfull ltac:(done)) as [Hmax Hall]. destruct (nothing_idle _ _ _ Hall ltac:(done)) as [-> _].
    unfold len in *; simpl in *. lia.
  - apply get_locked_spec in Hg; [|done]. inversion Hg; subst.
    destruct (Hfull ltac:(done)) as [Hmax Hall]. destruct (nothing_idle _ _ _ Hall ltac:(done)) as [-> Hsub].
    constructor; simpl; [done|done| |].
    + intros w. unfold buffered; simpl. destruct (decide (w = p_nextChan p)) as [->|Hne]; [by rewrite lookup_insert_eq|].
      rewrite lookup_insert_ne by done. intros [?|Hw]%elem_of_cons; [done|]. by apply Hws.
    + intros _. split; [unfold len; simpl; lia|]. intros c Hc. apply Hall. auto.
  - apply receive_Some in Hr as (cl & Ew & _). specialize (Hws w Hw). unfold buffered in Hws. by rewrite Ew in Hws.
  - unfold receive in Hr. destruct (p_chans p !! w) as [[[?|] []]|]; try done. injection Hr as <-.
    constructor; simpl; [done|done| |done]. intros v Hv%elem_of_remove_first. auto.
  - constructor; simpl; [done|done| |done]. intros v Hv%elem_of_remove_first. by apply Hws.
  - constructor; simpl; [done|done| |done]. intros v Hv%elem_of_remove_first. by apply Hws.
  - by apply not_elem_of_nil in Hc.
  - destruct (p_closed p) eqn:Hopen; [by unfold cleanup; rewrite Hopen; constructor; simpl; rewrite ?Hopen|].
    destruct (Hfull eq_refl) as [Hmax Hall]. rewrite cleanup_filter by done.
    destruct (nothing_idle _ _ _ Hall (cleanup_dropped now p Hopen)) as [-> Hsub].
    constructor; simpl; [done|done|done|]. intros _. split; [unfold len; simpl; lia|]. intros c Hc. apply Hall. auto.
  - unfold Pool_Close. destruct (p_closed p) eqn:Hopen; [by constructor; simpl; rewrite ?Hopen|].
    constructor; simpl; [done|done| |done]. intros w Hw. unfold buffered; simpl.
    rewrite (proj1 (close_chans _ _ _)). by apply Hws.
  - unfold run_close. destruct (p_heap p !! c) as [pc|] eqn:Epc; [|by constructor]. simpl.
    constructor; simpl; [done|done|done|]. intros Hopen. destruct (Hfull Hopen) as [Hmax Hall]. split; [done|].
    intros c' Hc'. specialize (Hall c' Hc'). unfold is_inUse in *; simpl.
    destruct (decide (c' = c)) as [->|]; [|by rewrite lookup_insert_ne].
    rewrite lookup_insert_eq. by rewrite Epc in Hall.
Qed.

(** C40: A waiter that times out can take the pool down.  Take a new pool with
    [MaxOpen = 1]: a first [get] reserves a place and creates the connection
    [c]; a second [get] finds it taken and waits on the channel [w]; its wait
    times out; then the first user gives [c] back.  Whatever the clock reads,
    the pool is then open and nobody holds, waits for or creates a connection,
    and yet whatever happens next no user ever gets one: [put] sent [c] to the
    channel of the waiter that is gone. *)
Theorem abandoned_waiter_starves config p (session : SMBSession) (share : SMBShare)
    (now1 now2 : nat → Z) (t1 t2 created used given : Z) :
  cf_MaxOpen config = 1 → newConnectionPool config = Ok p →
  ∃ p1 c p2 w p3,
    get_locked now1 t1 p = Ok (Reserved, p1) ∧ add_connection session share created used p1 = (c, p2)
    ∧ get_locked now2 t2 p2 = Ok (Waiting w, p3)
    ∧ let after := put given c (timeout_wait w p3) in
      p_closed after = false ∧ ∀ u', rtc pool_step (mkUsers after 0 [] []) u' → us_holders u' = [].
Proof.
  destruct config; simpl. intros ->. intros [= <-]. do 5 eexists.
  split; [done|]. split; [done|]. split; [done|]. cbv zeta. split; [done|].
  intros u' Hr. apply sv_holders. refine (rtc_preserve _ _ starved_step _ _ Hr _).
  constructor; [done|done|by intros w Hw%not_elem_of_nil|]. simpl. intros _. split; [lia|].
  intros c ->%list_elem_of_singleton. done.
Qed.

End pool.
