(* ===== verification/Mock.v ===== *)
(** * The mock SMB server

    Models [mock_smb.go], an implementation of the interfaces of
    [smb_interfaces.go] in memory: an instance of [SMBLib].  File data,
    sessions, shares and open files are shared objects (an open file and the
    file table hold the same data, and a [FileInfo] is a view of it), so they
    live in heaps of the world.  A [range] over the file table that deletes
    and adds entries ([Rename] of a directory) visits the entries the table
    had when it began; Go leaves open whether entries added meanwhile are
    visited. Memory and offsets are unbounded. *)

From stdpp Require Import base numbers list gmap sets fin_maps strings.
From S2P Require Import Prelude Errors HandleMap Path Attributes Absfs Config.

Open Scope Z_scope.

(** ** Data *)

Record mockFileData := mkData {
  md_name : gostring;
  md_content : bytes;
  md_mode : Z;
  md_modTime : Z;
  md_isDir : bool;
}.

(** An argument of [recordOp]. *)
Inductive mock_arg := ArgInt (n : Z) | ArgMode (m : Z) | ArgString (s : gostring) | ArgTime (t : Z).

Record MockOperation := mkOperation {
  mo_Op : gostring;
  mo_Path : gostring;
  mo_Args : list mock_arg;
  mo_Time : Z;
}.

(** The injected errors may be nil, which hides later checks. *)
Record MockSMBBackend := mkBackend {
  mb_files : gmap gostring ptr;
  mb_shares : gset gostring;
  mb_errorOnPath : gmap gostring (option error);
  mb_errorOnOp : gmap gostring (option error);
  mb_operations : list MockOperation;
}.

Record MockSMBSession := mkMockSession { ms_loggedOff : bool }.
Record MockSMBShare := mkMockShare { msh_shareName : gostring; msh_unmounted : bool }.
Record MockSMBFile := mkMockFile {
  mf_path : gostring;
  mf_data : ptr;
  mf_flag : Z;
  mf_offset : nat;   (* never negative: Seek refuses; int64 overflow is left out *)
  mf_closed : bool;
}.

(** The backend, the objects, the factory's counters and the clock. *)
Record MockWorld := mkMockWorld {
  mw_backend : MockSMBBackend;
  mw_data : gmap ptr mockFileData;
  mw_sessions : gmap ptr MockSMBSession;
  mw_mounts : gmap ptr MockSMBShare;
  mw_opens : gmap ptr MockSMBFile;
  mw_next : ptr;
  mw_ConnectError : option error;
  mw_connectAttempts : Z;
  mw_connectionsMade : Z;
  mw_clock : nat → Z;
  mw_ticks : nat;
}.

Definition on_backend (f : MockSMBBackend → MockSMBBackend) (w : MockWorld) : MockWorld :=
  mkMockWorld (f (mw_backend w)) (mw_data w) (mw_sessions w) (mw_mounts w) (mw_opens w) (mw_next w)
    (mw_ConnectError w) (mw_connectAttempts w) (mw_connectionsMade w) (mw_clock w) (mw_ticks w).
Definition on_data (f : gmap ptr mockFileData → gmap ptr mockFileData) (w : MockWorld) : MockWorld :=
  mkMockWorld (mw_backend w) (f (mw_data w)) (mw_sessions w) (mw_mounts w) (mw_opens w) (mw_next w)
    (mw_ConnectError w) (mw_connectAttempts w) (mw_connectionsMade w) (mw_clock w) (mw_ticks w).
Definition on_sessions (f : gmap ptr MockSMBSession → gmap ptr MockSMBSession) (w : MockWorld) : MockWorld :=
  mkMockWorld (mw_backend w) (mw_data w) (f (mw_sessions w)) (mw_mounts w) (mw_opens w) (mw_next w)
    (mw_ConnectError w) (mw_connectAttempts w) (mw_connectionsMade w) (mw_clock w) (mw_ticks w).
Definition on_mounts (f : gmap ptr MockSMBShare → gmap ptr MockSMBShare) (w : MockWorld) : MockWorld :=
  mkMockWorld (mw_backend w) (mw_data w) (mw_sessions w) (f (mw_mounts w)) (mw_opens w) (mw_next w)
    (mw_ConnectError w) (mw_connectAttempts w) (mw_connectionsMade w) (mw_clock w) (mw_ticks w).
Definition on_opens (f : gmap ptr MockSMBFile → gmap ptr MockSMBFile) (w : MockWorld) : MockWorld :=
  mkMockWorld (mw_backend w) (mw_data w) (mw_sessions w) (mw_mounts w) (f (mw_opens w)) (mw_next w)
    (mw_ConnectError w) (mw_connectAttempts w) (mw_connectionsMade w) (mw_clock w) (mw_ticks w).

(** A fresh address. *)
Definition new_ptr : ST MockWorld ptr := λ w,
  (mw_next w,
   mkMockWorld (mw_backend w) (mw_data w) (mw_sessions w) (mw_mounts w) (mw_opens w) (S (mw_next w))
     (mw_ConnectError w) (mw_connectAttempts w) (mw_connectionsMade w) (mw_clock w) (mw_ticks w)).

Definition mock_now : ST MockWorld Z := λ w,
  (mw_clock w (mw_ticks w),
   mkMockWorld (mw_backend w) (mw_data w) (mw_sessions w) (mw_mounts w) (mw_opens w) (mw_next w)
     (mw_ConnectError w) (mw_connectAttempts w) (mw_connectionsMade w) (mw_clock w) (S (mw_ticks w))).

Definition st_modify (f : MockWorld → MockWorld) : ST MockWorld unit := λ w, (tt, f w).
Definition st_gets {A} (f : MockWorld → A) : ST MockWorld A := λ w, (f w, w).

Definition set_files (f : gmap gostring ptr → gmap gostring ptr) (b : MockSMBBackend) : MockSMBBackend :=
  mkBackend (f (mb_files b)) (mb_shares b) (mb_errorOnPath b) (mb_errorOnOp b) (mb_operations b).

(** ** The backend *)

Definition normalizeMockPath (p : gostring) : gostring :=
  let p := replace_all backslash slash p in
  let p := if has_prefix [slash] p then p else slash :: p in
  Clean p.

(** [m.files[path] = &mockFileData{...}] *)
Definition add_data (path : gostring) (d : mockFileData) : ST MockWorld ptr :=
  q ← new_ptr;
  st_modify (on_data <[q := d]>);;
  st_modify (on_backend (set_files <[path := q]>));;
  mret q.

Definition mode_755 : Z := 0x1ed.

(** A clean path gets shorter at each level; [fuel] is its length. *)
Fixpoint ensureParentDirs (fuel : nat) (p : gostring) : ST MockWorld unit :=
  match fuel with
  | O => mret tt
  | S fuel =>
    let dir := Dir p in
    if bool_decide (dir = p) || bool_decide (dir = [slash]) then mret tt
    else
      exists_ ← st_gets (λ w, mb_files (mw_backend w) !! dir);
      match exists_ with
      | Some _ => mret tt
      | None =>
        t ← mock_now;
        add_data dir (mkData (Base dir) [] (Z.lor ModeDir mode_755) t true);;
        ensureParentDirs fuel dir
      end
  end.

Definition AddFile (path : gostring) (content : bytes) (mode : Z) : ST MockWorld unit :=
  let path := normalizeMockPath path in
  t ← mock_now;
  add_data path (mkData (Base path) content mode t false);;
  ensureParentDirs (length path) path.

Definition AddDir (path : gostring) (mode : Z) : ST MockWorld unit :=
  let path := normalizeMockPath path in
  t ← mock_now;
  add_data path (mkData (Base path) [] (Z.lor ModeDir mode) t true);;
  ensureParentDirs (length path) path.

Definition Mock_AddShare (name : gostring) : ST MockWorld unit :=
  st_modify (on_backend (λ b, mkBackend (mb_files b) ({[name]} ∪ mb_shares b) (mb_errorOnPath b) (mb_errorOnOp b) (mb_operations b))).

Definition SetError (path : gostring) (err : option error) : ST MockWorld unit :=
  st_modify (on_backend (λ b, mkBackend (mb_files b) (mb_shares b) (<[normalizeMockPath path := err]> (mb_errorOnPath b)) (mb_errorOnOp b) (mb_operations b))).

Definition SetOperationError (op : gostring) (err : option error) : ST MockWorld unit :=
  st_modify (on_backend (λ b, mkBackend (mb_files b) (mb_shares b) (mb_errorOnPath b) (<[op := err]> (mb_errorOnOp b)) (mb_operations b))).

Definition ClearErrors : ST MockWorld unit :=
  st_modify (on_backend (λ b, mkBackend (mb_files b) (mb_shares b) ∅ ∅ (mb_operations b))).

Definition ClearOperations : ST MockWorld unit :=
  st_modify (on_backend (λ b, mkBackend (mb_files b) (mb_shares b) (mb_errorOnPath b) (mb_errorOnOp b) [])).

Definition GetOperations (w : MockWorld) : list MockOperation := mb_operations (mw_backend w).

(** The data at a path. *)
Definition data_at (w : MockWorld) (path : gostring) : option (ptr * mockFileData) :=
  q ← mb_files (mw_backend w) !! path; pair q <$> mw_data w !! q.

Definition GetFile (path : gostring) (w : MockWorld) : option bytes :=
  match data_at w (normalizeMockPath path) with
  | Some (_, d) => if negb (md_isDir d) then Some (md_content d) else None
  | None => None
  end.

Definition FileExists (path : gostring) (w : MockWorld) : bool :=
  bool_decide (is_Some (mb_files (mw_backend w) !! normalizeMockPath path)).

Definition recordOp (op path : gostring) (args : list mock_arg) : ST MockWorld unit :=
  t ← mock_now;
  st_modify (on_backend (λ b, mkBackend (mb_files b) (mb_shares b) (mb_errorOnPath b) (mb_errorOnOp b)
    (mb_operations b ++ [mkOperation op path args t]))).

Definition checkError (op path : gostring) (w : MockWorld) : option error :=
  match mb_errorOnOp (mw_backend w) !! op with
  | Some err => err
  | None => match mb_errorOnPath (mw_backend w) !! path with Some err => err | None => None end
  end.

(** ** MockSMBSession *)

Definition NewMockSMBSession : ST MockWorld ptr :=
  q ← new_ptr; st_modify (on_sessions <[q := mkMockSession false]>);; mret q.

Definition Session_Mount (s : ptr) (shareName : gostring) : ST MockWorld (ptr + error) :=
  w ← st_gets id;
  if from_option ms_loggedOff false (mw_sessions w !! s) then mret (inr (new_error "session logged off"))
  else match checkError (str "mount") shareName w with
  | Some err => mret (inr err)
  | None =>
    if negb (bool_decide (shareName ∈ mb_shares (mw_backend w))) then
      mret (inr (OtherError (str "share not found: " ++ shareName) [] None))
    else
      recordOp (str "mount") shareName [];;
      q ← new_ptr;
      st_modify (on_mounts <[q := mkMockShare shareName false]>);;
      mret (inl q)
  end.

Definition Session_Logoff (s : ptr) : ST MockWorld (option error) :=
  w ← st_gets id;
  if from_option ms_loggedOff false (mw_sessions w !! s) then mret None
  else
    st_modify (on_sessions <[s := mkMockSession true]>);;
    recordOp (str "logoff") [] [];;
    mret None.

(** ** MockSMBShare *)

Definition unmounted (sh : ptr) (w : MockWorld) : bool :=
  from_option msh_unmounted false (mw_mounts w !! sh).

Definition share_unmounted : error := new_error "share unmounted".

(** The checks at the start of every operation on a path. *)
Definition on_path {A} (sh : ptr) (op name : gostring) (fail : error → A)
    (k : gostring → ST MockWorld A) : ST MockWorld A :=
  w ← st_gets id;
  if unmounted sh w then mret (fail share_unmounted)
  else
    let name := normalizeMockPath name in
    match checkError op name w with
    | Some err => mret (fail err)
    | None => k name
    end.

Definition Share_OpenFile (sh : ptr) (name : gostring) (flag perm : Z) : ST MockWorld (ptr + error) :=
  on_path sh (str "open") name inr (λ name,
    recordOp (str "open") name [ArgInt flag; ArgMode perm];;
    found ← st_gets (λ w, data_at w name);
    let create := has_flag flag O_CREATE in
    let excl := has_flag flag O_EXCL in
    let trunc := has_flag flag O_TRUNC in
    if excl && bool_decide (is_Some found) then mret (inr (Sentinel ErrExist))
    else if bool_decide (found = None) && negb create then mret (inr (Sentinel ErrNotExist))
    else
      '(q, data) ← match found with
        | Some (q, data) => mret (q, data)
        | None =>
          t ← mock_now;
          let data := mkData (Base name) [] perm t false in
          q ← add_data name data;
          ensureParentDirs (length name) name;;
          mret (q, data)
        end;
      if md_isDir data && has_flag flag (Z.lor O_WRONLY O_RDWR) then mret (inr (new_error "is a directory"))
      else
        (if trunc && negb (md_isDir data) then
           t ← mock_now;
           st_modify (on_data (alter (λ d, mkData (md_name d) [] (md_mode d) t (md_isDir d)) q))
         else mret tt);;
        f ← new_ptr;
        st_modify (on_opens <[f := mkMockFile name q flag 0 false]>);;
        mret (inl f)).

Definition Share_Stat (sh : ptr) (name : gostring) : ST MockWorld (ptr + error) :=
  on_path sh (str "stat") name inr (λ name,
    recordOp (str "stat") name [];;
    found ← st_gets (λ w, mb_files (mw_backend w) !! name);
    mret (match found with None => inr (Sentinel ErrNotExist) | Some q => inl q end)).

Definition Share_Mkdir (sh : ptr) (name : gostring) (perm : Z) : ST MockWorld (option error) :=
  on_path sh (str "mkdir") name Some (λ name,
    recordOp (str "mkdir") name [ArgMode perm];;
    w ← st_gets id;
    if bool_decide (is_Some (mb_files (mw_backend w) !! name)) then mret (Some (Sentinel ErrExist))
    else match data_at w (Dir name) with
    | None => mret (Some (Sentinel ErrNotExist))
    | Some (_, parentData) =>
      if negb (md_isDir parentData) then mret (Some (new_error "parent is not a directory"))
      else
        t ← mock_now;
        add_data name (mkData (Base name) [] (Z.lor ModeDir perm) t true);;
        mret None
    end).

Definition Share_Remove (sh : ptr) (name : gostring) : ST MockWorld (option error) :=
  on_path sh (str "remove") name Some (λ name,
    recordOp (str "remove") name [];;
    w ← st_gets id;
    match data_at w name with
    | None => mret (Some (Sentinel ErrNotExist))
    | Some (_, data) =>
      if md_isDir data
         && existsb (λ p, negb (bool_decide (p = name)) && has_prefix (name ++ [slash]) p)
              (map_to_list (mb_files (mw_backend w))).*1
      then mret (Some (new_error "directory not empty"))
      else
        st_modify (on_backend (set_files (delete name)));;
        mret None
    end).

Definition set_name (name : gostring) (d : mockFileData) : mockFileData :=
  mkData name (md_content d) (md_mode d) (md_modTime d) (md_isDir d).

(** The loop over the children of a renamed directory, on the entries present
    when it starts: Go leaves open whether entries inserted during the loop
    are visited, which matters only for a directory moved below itself. *)
Fixpoint rename_children (oldname newname : gostring) (entries : list (gostring * ptr)) : ST MockWorld unit :=
  match entries with
  | [] => mret tt
  | (p, q) :: entries =>
    (if has_prefix (oldname ++ [slash]) p then
       let newPath := newname ++ TrimPrefix p oldname in
       st_modify (on_backend (set_files (delete p)));;
       st_modify (on_data (alter (set_name (Base newPath)) q));;
       st_modify (on_backend (set_files <[newPath := q]>))
     else mret tt);;
    rename_children oldname newname entries
  end.

Definition Share_Rename (sh : ptr) (oldname newname : gostring) : ST MockWorld (option error) :=
  let newname := normalizeMockPath newname in
  on_path sh (str "rename") oldname Some (λ oldname,
    recordOp (str "rename") oldname [ArgString newname];;
    w ← st_gets id;
    match data_at w oldname with
    | None => mret (Some (Sentinel ErrNotExist))
    | Some (q, data) =>
      if bool_decide (is_Some (mb_files (mw_backend w) !! newname)) then mret (Some (Sentinel ErrExist))
      else
        st_modify (on_backend (set_files (delete oldname)));;
        st_modify (on_data (alter (set_name (Base newname)) q));;
        st_modify (on_backend (set_files <[newname := q]>));;
        (if md_isDir data then
           entries ← st_gets (λ w, map_to_list (mb_files (mw_backend w)));
           rename_children oldname newname entries
         else mret tt);;
        mret None
    end).

Definition Share_Chmod (sh : ptr) (name : gostring) (mode : Z) : ST MockWorld (option error) :=
  on_path sh (str "chmod") name Some (λ name,
    recordOp (str "chmod") name [ArgMode mode];;
    found ← st_gets (λ w, data_at w name);
    match found with
    | None => mret (Some (Sentinel ErrNotExist))
    | Some (q, _) =>
      st_modify (on_data (alter (λ d, mkData (md_name d) (md_content d)
        (if md_isDir d then Z.lor ModeDir mode else mode) (md_modTime d) (md_isDir d)) q));;
      mret None
    end).

Definition Share_Chtimes (sh : ptr) (name : gostring) (atime mtime : Z) : ST MockWorld (option error) :=
  on_path sh (str "chtimes") name Some (λ name,
    recordOp (str "chtimes") name [ArgTime atime; ArgTime mtime];;
    found ← st_gets (λ w, data_at w name);
    match found with
    | None => mret (Some (Sentinel ErrNotExist))
    | Some (q, _) =>
      st_modify (on_data (alter (λ d, mkData (md_name d) (md_content d) (md_mode d) mtime (md_isDir d)) q));;
      mret None
    end).

Definition Share_Umount (sh : ptr) : ST MockWorld (option error) :=
  found ← st_gets (λ w, mw_mounts w !! sh);
  match found with
  | Some (mkMockShare shareName false) =>
    st_modify (on_mounts <[sh := mkMockShare shareName true]>);;
    recordOp (str "umount") shareName [];;
    mret None
  | _ => mret None
  end.

(** ** MockSMBFile *)

(** An open file that was not closed, with its data. *)
Definition open_file (f : ptr) (w : MockWorld) : option (MockSMBFile * mockFileData) :=
  file ← mw_opens w !! f;
  if mf_closed file then None else pair file <$> mw_data w !! mf_data file.

Definition set_offset (off : Z) (file : MockSMBFile) : MockSMBFile :=
  mkMockFile (mf_path file) (mf_data file) (mf_flag file) (Z.to_nat off) (mf_closed file).

Definition MockFile_Read (f : ptr) (n : Z) : ST MockWorld (bytes * option error) :=
  w ← st_gets id;
  match open_file f w with
  | None => mret ([], Some (Sentinel ErrClosed))
  | Some (file, data) =>
    match checkError (str "read") (mf_path file) w with
    | Some err => mret ([], Some err)
    | None =>
      if md_isDir data then mret ([], Some (new_error "is a directory"))
      else if len (md_content data) <=? Z.of_nat (mf_offset file) then mret ([], Some (Sentinel EOF))
      else
        let p := take (Z.to_nat n) (drop (mf_offset file) (md_content data)) in
        let offset := Z.of_nat (mf_offset file) + len p in
        st_modify (on_opens <[f := set_offset offset file]>);;
        mret (p, if len (md_content data) <=? offset then Some (Sentinel EOF) else None)
    end
  end.

(** [content] with [p] copied to [offset], extended with zeros as needed. *)
Definition write_content (content : bytes) (offset : Z) (p : bytes) : bytes :=
  let endOffset := offset + len p in
  let content := if len content <? endOffset then content ++ zeros (Z.to_nat (endOffset - len content)) else content in
  put_at (Z.to_nat offset) p content.

Definition MockFile_Write (f : ptr) (p : bytes) : ST MockWorld (Z * option error) :=
  w ← st_gets id;
  match open_file f w with
  | None => mret (0, Some (Sentinel ErrClosed))
  | Some (file, data) =>
    if negb (has_flag (mf_flag file) (Z.lor O_WRONLY O_RDWR)) then
      mret (0, Some (new_error "file not opened for writing"))
    else match checkError (str "write") (mf_path file) w with
    | Some err => mret (0, Some err)
    | None =>
      if md_isDir data then mret (0, Some (new_error "is a directory"))
      else if len p =? 0 then
        if Z.of_nat (mf_offset file) <? len (md_content data) then
          t ← mock_now;
          st_modify (on_data <[mf_data file := mkData (md_name data)
            (take (mf_offset file) (md_content data)) (md_mode data) t (md_isDir data)]>);;
          mret (0, None)
        else mret (0, None)
      else
        st_modify (on_opens <[f := set_offset (Z.of_nat (mf_offset file) + len p) file]>);;
        t ← mock_now;
        st_modify (on_data <[mf_data file := mkData (md_name data)
          (write_content (md_content data) (Z.of_nat (mf_offset file)) p) (md_mode data) t (md_isDir data)]>);;
        mret (len p, None)
    end
  end.

Definition MockFile_Seek (f : ptr) (offset whence : Z) : ST MockWorld (Z + error) :=
  w ← st_gets id;
  match open_file f w with
  | None => mret (inr (Sentinel ErrClosed))
  | Some (file, data) =>
    let target :=
      if whence =? SeekStart then Some offset
      else if whence =? SeekCurrent then Some (Z.of_nat (mf_offset file) + offset)
      else if whence =? SeekEnd then Some (len (md_content data) + offset)
      else None in
    match target with
    | None => mret (inr (new_error "invalid whence"))
    | Some newOffset =>
      if newOffset <? 0 then mret (inr (new_error "negative offset"))
      else
        st_modify (on_opens <[f := set_offset newOffset file]>);;
        mret (inl newOffset)
    end
  end.

Definition MockFile_Close (f : ptr) : ST MockWorld (option error) :=
  w ← st_gets id;
  match mw_opens w !! f with
  | Some (mkMockFile path data flag offset false) =>
    st_modify (on_opens <[f := mkMockFile path data flag offset true]>);;
    recordOp (str "close") path [];;
    mret None
  | _ => mret None
  end.

Definition MockFile_Stat (f : ptr) : ST MockWorld (ptr + error) :=
  w ← st_gets id;
  match open_file f w with
  | None => mret (inr (Sentinel ErrClosed))
  | Some (file, _) =>
    match checkError (str "stat") (mf_path file) w with
    | Some err => mret (inr err)
    | None => mret (inl (mf_data file))
    end
  end.

(** Byte-wise comparison of strings. *)
Fixpoint string_lt (a b : gostring) : bool :=
  match a, b with
  | [], [] => false
  | [], _ :: _ => true
  | _ :: _, [] => false
  | x :: a, y :: b =>
    if Z_of_byte x =? Z_of_byte y then string_lt a b else Z_of_byte x <? Z_of_byte y
  end.

Fixpoint insert_by_name (e : gostring * ptr) (l : list (gostring * ptr)) : list (gostring * ptr) :=
  match l with
  | [] => [e]
  | e' :: l => if string_lt e'.1 e.1 then e' :: insert_by_name e l else e :: e' :: l
  end.

(** [sort.Slice] by name; the names of one directory differ. *)
Definition sort_by_name (l : list (gostring * ptr)) : list (gostring * ptr) :=
  foldr insert_by_name [] l.

(** Whether [p] is a direct child of [dir]. *)
Definition is_child (dir p : gostring) : bool :=
  let prefix := if bool_decide (dir = [slash]) then dir else dir ++ [slash] in
  negb (bool_decide (p = dir)) && has_prefix prefix p
  && negb (contains_byte slash (TrimPrefix p prefix)).

Definition name_of (w : MockWorld) (q : ptr) : gostring := from_option md_name [] (mw_data w !! q).

Definition children (w : MockWorld) (dir : gostring) : list ptr :=
  (sort_by_name (map (λ e, (name_of w e.2, e.2))
     (filter (λ e, is_child dir e.1 = true) (map_to_list (mb_files (mw_backend w)))))).*2.

Definition MockFile_Readdir (f : ptr) (n : Z) : ST MockWorld (list ptr + error) :=
  w ← st_gets id;
  match open_file f w with
  | None => mret (inr (Sentinel ErrClosed))
  | Some (file, data) =>
    if negb (md_isDir data) then mret (inr (new_error "not a directory"))
    else match checkError (str "readdir") (mf_path file) w with
    | Some err => mret (inr err)
    | None =>
      let infos := children w (mf_path file) in
      mret (inl (if n <=? 0 then infos else take (Z.to_nat n) infos))
    end
  end.

(** ** mockFileInfo *)

Definition mock_info {A} (f : mockFileData → A) (d : A) (q : ptr) (w : MockWorld) : A :=
  from_option f d (mw_data w !! q).

(** ** MockConnectionFactory *)

Definition on_factory (attempts made : Z) (w : MockWorld) : MockWorld :=
  mkMockWorld (mw_backend w) (mw_data w) (mw_sessions w) (mw_mounts w) (mw_opens w) (mw_next w)
    (mw_ConnectError w) (mw_connectAttempts w + attempts) (mw_connectionsMade w + made) (mw_clock w) (mw_ticks w).

Definition Mock_CreateConnection (config : Config) : ST MockWorld (ptr * ptr + error) :=
  st_modify (on_factory 1 0);;
  err ← st_gets mw_ConnectError;
  match err with
  | Some err => mret (inr err)
  | None =>
    Mock_AddShare (cf_Share config);;
    session ← NewMockSMBSession;
    share ← Session_Mount session (cf_Share config);
    match share with
    | inr err => mret (inr err)
    | inl share =>
      st_modify (on_factory 0 1);;
      mret (inl (session, share))
    end
  end.

(** [ConnectionsMade], [ConnectAttempts] and [Reset]. *)
Definition Factory_Reset (w : MockWorld) : MockWorld :=
  on_factory (- mw_connectAttempts w) (- mw_connectionsMade w) w.

(** [NewMockSMBBackend], with a factory on it. *)
Definition NewMockSMBBackend (clock : nat → Z) : MockWorld :=
  mkMockWorld (mkBackend {[ [slash] := 0%nat ]} {[ str "testshare" ]} ∅ ∅ [])
    {[ 0%nat := mkData [slash] [] (Z.lor ModeDir mode_755) (clock 0%nat) true ]} ∅ ∅ ∅ 1 None 0 0 clock 1.

(** ** The library the client runs on in the tests *)
#[local] Instance mock_lib : SMBLib := {
  cworld := MockWorld;
  SMBSession := ptr;
  SMBShare := ptr;
  SMBFile := ptr;
  StatInfo := ptr;
  ss_Logoff := Session_Logoff;
  sh_OpenFile := Share_OpenFile;
  sh_Stat := Share_Stat;
  sh_Mkdir := Share_Mkdir;
  sh_Remove := Share_Remove;
  sh_Rename := Share_Rename;
  sh_Chmod := Share_Chmod;
  sh_Chtimes := Share_Chtimes;
  sh_Umount := Share_Umount;
  sf_Read := MockFile_Read;
  sf_Write := MockFile_Write;
  sf_Seek := MockFile_Seek;
  sf_Close := MockFile_Close;
  sf_Stat := MockFile_Stat;
  sf_Readdir := MockFile_Readdir;
  st_Name := mock_info md_name [];
  st_Size := mock_info (λ d, len (md_content d)) 0;
  st_Mode := mock_info md_mode 0;
  st_ModTime := mock_info md_modTime 0;
  st_IsDir := mock_info md_isDir false;
  CreateConnection := Mock_CreateConnection;
  c_now := mock_now;
}.

(** ** Lemmas *)

Lemma stp_modify f (Q : unit → MockWorld → Prop) w : Q tt (f w) → stp (st_modify f) Q w.
Proof. done. Qed.

Lemma stp_gets {A} (f : MockWorld → A) (Q : A → MockWorld → Prop) w : Q (f w) w → stp (st_gets f) Q w.
Proof. done. Qed.

#[local] Instance mock_lib_laws : SMBLibLaws.
Proof.
  split.
  - intros q w. change (0 ≤ from_option (λ d, len (md_content d)) 0 (mw_data w !! q)).
    destruct (mw_data w !! q); simpl; [apply len_nonneg|done].
  - intros f n w Hn. simpl. unfold MockFile_Read. rewrite st_bind_eq. simpl.
    destruct (open_file f w) as [[file data]|]; [|done]. destruct (checkError _ _ _); [done|].
    destruct (md_isDir data); [done|]. destruct (Z.leb_spec (len (md_content data)) (Z.of_nat (mf_offset file))); [done|].
    rewrite st_bind_eq. simpl. intros _ Hnil.
    assert (length (drop (mf_offset file) (md_content data)) = 0%nat) as Hd.
    { destruct (drop _ _); [done|]. destruct (Z.to_nat n) eqn:E; [lia|done]. }
    rewrite length_drop in Hd. unfold len in *. lia.
Qed.
