(* ===== verification/Tree.v ===== *)
(** * The file system a client sees, as a tree

    The abstract specification of the client on the mock server: a map from
    normalised paths to directories and files with their content, and for
    each operation the answer it gives and the tree it leaves.  Connections,
    pointers, open files, times and retries do not appear in it.
    [ClientTree.v] proves that the client implements it. *)

From stdpp Require Import base numbers list gmap sets fin_maps strings sorting.
From S2P Require Import Prelude Unicode Errors Path HandleMap Attributes Absfs Config Mock.

Open Scope Z_scope.

(** ** Trees *)

Inductive node := DirNode | FileNode (content : bytes).

#[global] Instance node_eq_dec : EqDecision node.
Proof. solve_decision. Defined.

Notation tree := (@gmap (list Byte.byte) (@list_eq_dec Byte.byte byte_eq_dec)
  (@list_countable Byte.byte byte_eq_dec byte_countable) node).

(** What an operation answers: errors up to their kind. *)
Inductive kind := KNotExist | KExist | KInvalid | KOther.
Inductive answer :=
| ADone
| ABytes (content : bytes)
| AStat (isDir : bool) (size : Z)
| ANames (names : list gostring)
| AFail (k : kind).

(** ** Operations on normalised paths *)

Definition node_size (x : node) : Z := match x with DirNode => 0 | FileNode c => len c end.
Definition is_dir (x : node) : bool := match x with DirNode => true | FileNode _ => false end.

Definition t_stat (n : gostring) (t : tree) : answer * tree :=
  (match t !! n with None => AFail KNotExist | Some x => AStat (is_dir x) (node_size x) end, t).

Definition t_mkdir (n : gostring) (t : tree) : answer * tree :=
  match t !! n, t !! Dir n with
  | Some _, _ => (AFail KExist, t)
  | None, None => (AFail KNotExist, t)
  | None, Some (FileNode _) => (AFail KOther, t)
  | None, Some DirNode => (ADone, <[n := DirNode]> t)
  end.

(** A directory with the missing ones above it, from the top down; a file in
    the way stops it. Each level is shorter; [fuel] is the length of the
    path. *)
Fixpoint t_mkdir_all (fuel : nat) (n : gostring) (t : tree) : answer * tree :=
  match t !! n with
  | Some DirNode => (ADone, t)
  | Some (FileNode _) => (AFail KOther, t)
  | None =>
    let parent := Dir n in
    let '(a, t) :=
      match fuel with
      | O => (ADone, t)
      | S fuel =>
        if bool_decide (parent = [slash]) || bool_decide (parent = [dot]) then (ADone, t)
        else t_mkdir_all fuel parent t
      end in
    match a with ADone => t_mkdir n t | _ => (a, t) end
  end.

(** The elements of an absolute path, from the root: the root alone is
    [[""]], [/a/b] is [["", "a", "b"]]. *)
Definition elements (p : gostring) : list gostring :=
  if bool_decide (p = [slash]) then [[]] else split_on slash p.

(** [p] lies somewhere below the directory [d]: the elements of [d] come
    first in it, and others follow. *)
Definition below (d p : gostring) : bool :=
  bool_decide (elements d `prefix_of` elements p) && negb (bool_decide (elements p = elements d)).

(** [p] lies directly in [d]. *)
Definition child (d p : gostring) : bool :=
  below d p && (length (elements p) =? S (length (elements d)))%nat.

(** Whether there is anything below the directory [n]. *)
Definition inhabited (n : gostring) (t : tree) : bool := existsb (below n) (map_to_list t).*1.

(** A file or an empty directory is removed. *)
Definition t_remove (n : gostring) (t : tree) : answer * tree :=
  match t !! n with
  | None => (AFail KNotExist, t)
  | Some x => if is_dir x && inhabited n t then (AFail KOther, t) else (ADone, delete n t)
  end.

(** Where a path ends up when the directory [o] becomes [n]. *)
Definition moved (o n p : gostring) : gostring :=
  if below o p then join_with slash (elements n ++ drop (length (elements o)) (elements p)) else p.

Definition t_rename (o n : gostring) (t : tree) : answer * tree :=
  match t !! o, t !! n with
  | None, _ => (AFail KNotExist, t)
  | Some _, Some _ => (AFail KExist, t)
  | Some (FileNode c), None => (ADone, <[n := FileNode c]> (delete o t))
  | Some DirNode, None => (ADone, kmap (moved o n) (<[n := DirNode]> (delete o t)))
  end.

(** A rename that the specification fixes: of a directory, not of the root or
    to it, not to a path below itself nor to one below which something was
    left over (the order of the mock's table would decide). *)
Definition rename_ok (o n : gostring) (t : tree) : bool :=
  match t !! o, t !! n with
  | Some DirNode, None =>
    negb (bool_decide (o = [slash])) && negb (bool_decide (n = [slash])) && negb (below o n) && negb (inhabited n t)
  | _, _ => true
  end.

(** A removal that it fixes: not of the root while something is in it (the
    mock removes it then, [ClientMock.v], [root_removed_with_children]). *)
Definition remove_ok (n : gostring) (t : tree) : bool :=
  negb (bool_decide (n = [slash])) || negb (inhabited n t).

(** [Chmod] and [Chtimes] change nothing that the tree shows. *)
Definition t_touch (n : gostring) (t : tree) : answer * tree :=
  (match t !! n with None => AFail KNotExist | Some _ => ADone end, t).

(** The missing directories above [p]. *)
Fixpoint t_parents (fuel : nat) (p : gostring) (t : tree) : tree :=
  match fuel with
  | O => t
  | S fuel =>
    let dir := Dir p in
    if bool_decide (dir = p) || bool_decide (dir = [slash]) then t
    else match t !! dir with
      | Some _ => t
      | None => t_parents fuel dir (<[dir := DirNode]> t)
      end
  end.

(** The tree with the new file [n] in it. *)
Definition t_new (n : gostring) (t : tree) : tree := t_parents (length n) n (<[n := FileNode []]> t).

(** Creating an empty file, or emptying an existing one. *)
Definition t_create (n : gostring) (t : tree) : option tree :=
  match t !! n with
  | Some DirNode => None
  | Some (FileNode _) => Some (<[n := FileNode []]> t)
  | None => Some (t_new n t)
  end.

Definition t_write (n : gostring) (data : bytes) (t : tree) : answer * tree :=
  match t_create n t with
  | None => (AFail KOther, t)
  | Some t => (ADone, <[n := FileNode data]> t)
  end.

Definition t_read (n : gostring) (t : tree) : answer * tree :=
  (match t !! n with
   | None => AFail KNotExist
   | Some DirNode => AFail KOther
   | Some (FileNode c) => ABytes c
   end, t).

(** Cut off at [size], or extended to it with zeros. *)
Definition resized (content : bytes) (size : Z) : bytes :=
  take (Z.to_nat size) content ++ zeros (Z.to_nat (size - len content)).

Definition t_truncate (n : gostring) (size : Z) (t : tree) : answer * tree :=
  match t !! n with
  | None => (AFail KNotExist, t)
  | Some DirNode => (AFail KOther, t)
  | Some (FileNode c) =>
    if size <? 0 then (AFail KOther, t) else (ADone, <[n := FileNode (resized c size)]> t)
  end.

(** The names in a directory, sorted; reading an empty one fails with
    [io.EOF]. *)
Definition name_le (a b : gostring) : Prop := string_lt b a = false.

#[global] Instance name_le_dec : RelDecision name_le.
Proof. intros a b. unfold name_le. apply _. Defined.

Definition t_names (dir : gostring) (t : tree) : list gostring :=
  filter (λ b, b ≠ [dot] ∧ b ≠ dotdot)
    (merge_sort name_le (Base <$> filter (λ p, child dir p = true) (map_to_list t).*1)).

Definition t_readdir (n : gostring) (t : tree) : answer * tree :=
  (match t !! n with
   | None => AFail KNotExist
   | Some (FileNode _) => AFail KOther
   | Some DirNode => match t_names n t with [] => AFail KOther | names => ANames names end
   end, t).

(** ** The operations of the client *)

Inductive fsop :=
| OpStat (name : gostring)
| OpMkdir (name : gostring) (perm : Z)
| OpMkdirAll (name : gostring) (perm : Z)
| OpRemove (name : gostring)
| OpRename (oldname newname : gostring)
| OpChmod (name : gostring) (mode : Z)
| OpChtimes (name : gostring) (atime mtime : Z)
| OpWrite (name : gostring) (data : bytes)   (* Create, Write and Close *)
| OpRead (name : gostring)
| OpTruncate (name : gostring) (size : Z)
| OpReadDir (name : gostring).

Section spec.
Context `{UnicodeTables} (cs : bool).

(** A path that is not valid is refused, another one normalised. *)
Definition t_path (name : gostring) (k : gostring → tree → answer * tree) (t : tree) : answer * tree :=
  if validatePath name then k (normalize cs name) t else (AFail KInvalid, t).

Definition t_step (op : fsop) : tree → answer * tree :=
  match op with
  | OpStat name => t_path name t_stat
  | OpMkdir name _ => t_path name t_mkdir
  | OpMkdirAll name _ => t_path name (λ n, t_mkdir_all (length n) n)
  | OpRemove name => t_path name t_remove
  | OpRename o n => t_path o (λ o, t_path n (t_rename o))
  | OpChmod name _ | OpChtimes name _ _ => t_path name t_touch
  | OpWrite name data => t_path name (λ n, t_write n data)
  | OpRead name => t_path name t_read
  | OpTruncate name size => t_path name (λ n, t_truncate n size)
  | OpReadDir name => t_path name t_readdir
  end.

Fixpoint t_run (ops : list fsop) (t : tree) : list answer * tree :=
  match ops with
  | [] => ([], t)
  | op :: ops =>
    let '(a, t) := t_step op t in
    let '(l, t) := t_run ops t in
    (a :: l, t)
  end.

(** The operations whose outcome the specification fixes; sizes are 64-bit
    integers. *)
Definition op_ok (op : fsop) (t : tree) : bool :=
  match op with
  | OpTruncate _ size => (- 2 ^ 63 <=? size) && (size <? 2 ^ 63)
  | OpRemove name => remove_ok (normalize cs name) t
  | OpRename o n => rename_ok (normalize cs o) (normalize cs n) t
  | _ => true
  end.

Fixpoint ops_ok (ops : list fsop) (t : tree) : bool :=
  match ops with
  | [] => true
  | op :: ops => op_ok op t && ops_ok ops (t_step op t).2
  end.
End spec.
