(* ===== verification/MockServer.v ===== *)
(** * The mock server as a tree

    What the operations of [mock_smb.go] do to the files of the server when no
    errors are injected: each one gives the answer of the abstract
    specification ([Tree.v]) and leaves the tree it says. *)

From stdpp Require Import base numbers list gmap sets fin_maps strings sorting.
From S2P Require Import Prelude Unicode Errors Path HandleMap Attributes Absfs Config Mock Tree.

Open Scope Z_scope.

(** ** The state of the mock server *)

(** No injected errors; the tables point to existing objects, different paths
    to different ones, and a file is named as its path says. *)
Record mock_ok (w : MockWorld) : Prop := {
  mo_errorOnPath : mb_errorOnPath (mw_backend w) = ∅;
  mo_errorOnOp : mb_errorOnOp (mw_backend w) = ∅;
  mo_connect : mw_ConnectError w = None;
  mo_files : ∀ p q, mb_files (mw_backend w) !! p = Some q → is_Some (mw_data w !! q);
  mo_data : ∀ q, is_Some (mw_data w !! q) → (q < mw_next w)%nat;
  mo_opens : ∀ f, is_Some (mw_opens w !! f) → (f < mw_next w)%nat;
  mo_mounts : ∀ sh, is_Some (mw_mounts w !! sh) → (sh < mw_next w)%nat;
  mo_inj : ∀ p p' q, mb_files (mw_backend w) !! p = Some q → mb_files (mw_backend w) !! p' = Some q → p = p';
  mo_names : ∀ p q d, mb_files (mw_backend w) !! p = Some q → mw_data w !! q = Some d → md_name d = Base p;
}.

Definition mounted (w : MockWorld) (sh : ptr) : Prop := ∃ name, mw_mounts w !! sh = Some (mkMockShare name false).

(** The files and what is open. *)
Definition files_view (w : MockWorld) := (mb_files (mw_backend w), mw_data w, mw_opens w).

Lemma no_error w op path : mock_ok w → checkError op path w = None.
Proof. intros [Hp Ho _ _ _ _ _ _ _]. unfold checkError. by rewrite Hp, Ho, !lookup_empty. Qed.

Lemma data_at_Some w n q d :
  data_at w n = Some (q, d) ↔ mb_files (mw_backend w) !! n = Some q ∧ mw_data w !! q = Some d.
Proof.
  unfold data_at. destruct (mb_files (mw_backend w) !! n) as [q'|] eqn:E; simpl; [|naive_solver].
  destruct (mw_data w !! q') eqn:E2; simpl; naive_solver.
Qed.

(** ** The tree of a server *)

Definition node_of (d : mockFileData) : node := if md_isDir d then DirNode else FileNode (md_content d).

Definition tree_of (w : MockWorld) : tree := omap (λ q, node_of <$> mw_data w !! q) (mb_files (mw_backend w)).

Lemma tree_lookup w p : tree_of w !! p = (λ e : ptr * mockFileData, node_of e.2) <$> data_at w p.
Proof.
  unfold tree_of, data_at. rewrite lookup_omap. destruct (mb_files (mw_backend w) !! p) as [q|]; [|done]. simpl.
  by destruct (mw_data w !! q).
Qed.

Lemma tree_of_view w w' :
  mb_files (mw_backend w') = mb_files (mw_backend w) → mw_data w' = mw_data w → tree_of w' = tree_of w.
Proof. unfold tree_of. by intros -> ->. Qed.

Lemma tree_None w p : mock_ok w → tree_of w !! p = None ↔ mb_files (mw_backend w) !! p = None.
Proof.
  intros Hok. unfold tree_of. rewrite lookup_omap. destruct (mb_files (mw_backend w) !! p) as [q|] eqn:E; [|done]. simpl.
  destruct (mo_files _ Hok _ _ E) as [d ->]. done.
Qed.

Lemma tree_Some w p x :
  tree_of w !! p = Some x → ∃ q d, mb_files (mw_backend w) !! p = Some q ∧ mw_data w !! q = Some d ∧ x = node_of d.
Proof.
  rewrite tree_lookup. destruct (data_at w p) as [[q d]|] eqn:E; [|done]. intros [= <-]. apply data_at_Some in E as [? ?].
  by exists q, d.
Qed.

(** Changing one object changes one node. *)
Lemma tree_of_set w w' n q d' :
  mock_ok w → mb_files (mw_backend w) !! n = Some q → mb_files (mw_backend w') = mb_files (mw_backend w) →
  mw_data w' = <[q := d']> (mw_data w) → tree_of w' = <[n := node_of d']> (tree_of w).
Proof.
  intros Hok Hn Hf Hd. apply map_eq. intros p. unfold tree_of. rewrite Hf, Hd, lookup_omap.
  destruct (decide (p = n)) as [->|Hne].
  { rewrite Hn. simpl. by rewrite !lookup_insert_eq. }
  rewrite lookup_insert_ne, lookup_omap by done.
  destruct (mb_files (mw_backend w) !! p) as [q'|] eqn:E; [|done]. simpl. rewrite lookup_insert_ne; [done|].
  intros ->. apply Hne. by eapply mo_inj.
Qed.

Lemma tree_of_add path d w q :
  mock_ok w → (q = mw_next w) →
  tree_of (on_backend (set_files <[path := q]>) (on_data <[q := d]> w)) = <[path := node_of d]> (tree_of w).
Proof.
  intros Hok ->. apply map_eq. intros p. unfold tree_of. simpl. rewrite lookup_omap.
  destruct (decide (p = path)) as [->|].
  { rewrite !lookup_insert_eq. simpl. by rewrite lookup_insert_eq. }
  rewrite !lookup_insert_ne, lookup_omap by done. destruct (mb_files (mw_backend w) !! p) as [q|] eqn:E; [|done]. simpl.
  rewrite lookup_insert_ne; [done|]. intros <-. pose proof (mo_data _ Hok _ (mo_files _ Hok _ _ E)). lia.
Qed.

(** ** Steps *)

(** Steps that leave the files alone: the clock, the log, the factory. *)
Record idle_step (w w' : MockWorld) : Prop := {
  is_ok : mock_ok w → mock_ok w';
  is_view : files_view w' = files_view w;
  is_mounted : ∀ sh, mock_ok w → mounted w sh → mounted w' sh;
}.

Lemma idle_step_refl w : idle_step w w.
Proof. by split. Qed.

Lemma idle_step_trans w1 w2 w3 : idle_step w1 w2 → idle_step w2 w3 → idle_step w1 w3.
Proof. intros [H1 H2 H3] [H4 H5 H6]. split; [auto|congruence|auto]. Qed.

Lemma idle_step_now w : idle_step w (mock_now w).2.
Proof. split; [|done|done]. intros []. by split. Qed.

Lemma idle_step_record op path args w : idle_step w (recordOp op path args w).2.
Proof. split; [|done|done]. intros []. by split. Qed.

(** A step that only adds objects of a kind the files do not use. *)
Lemma idle_step_alloc w w' :
  files_view w' = files_view w → mb_errorOnPath (mw_backend w') = mb_errorOnPath (mw_backend w) →
  mb_errorOnOp (mw_backend w') = mb_errorOnOp (mw_backend w) → mw_ConnectError w' = mw_ConnectError w →
  (mw_next w ≤ mw_next w')%nat →
  (∀ sh, is_Some (mw_mounts w' !! sh) → is_Some (mw_mounts w !! sh) ∨ (sh < mw_next w')%nat) →
  (∀ sh, mock_ok w → mounted w sh → mounted w' sh) → idle_step w w'.
Proof.
  intros Hv H1 H2 H3 Hn Hm Hmm. split; [|done|done]. unfold files_view in Hv. injection Hv as Hf Hd Ho.
  intros []. split; rewrite ?Hf, ?Hd, ?Ho; try congruence.
  - done.
  - intros q Hq. specialize (mo_data0 q Hq). lia.
  - intros f Hf'. specialize (mo_opens0 f Hf'). lia.
  - intros sh [Hs|Hs]%Hm; [|done]. specialize (mo_mounts0 sh Hs). lia.
  - done.
  - done.
Qed.

Lemma stp_create cfg w :
  mock_ok w → stp (Mock_CreateConnection cfg)
    (λ r w', idle_step w w' ∧ ∃ session share, r = inl (session, share) ∧ mounted w' share) w.
Proof.
  intros Hok. unfold Mock_CreateConnection. apply stp_bind, stp_modify. apply stp_bind, stp_gets.
  change (mw_ConnectError (on_factory 1 0 w)) with (mw_ConnectError w). rewrite (mo_connect _ Hok).
  apply stp_bind, stp_modify. apply stp_bind. unfold NewMockSMBSession.
  apply stp_bind. unfold stp at 1. cbn [new_ptr fst snd]. apply stp_bind, stp_modify, stp_ret.
  set (w1 := on_sessions _ _).
  assert (mock_ok w1) as Hok1.
  { apply (is_ok w); [|done]. apply idle_step_alloc; try done; simpl; [lia|by left]. }
  apply stp_bind. unfold Session_Mount. apply stp_bind, stp_gets. cbn [id].
  change (mw_sessions w1) with (<[mw_next w := mkMockSession false]> (mw_sessions w)).
  rewrite lookup_insert_eq. cbn [from_option]. cbn [ms_loggedOff]. rewrite no_error by done.
  rewrite bool_decide_true by (simpl; set_solver). cbn [negb].
  apply stp_bind. unfold stp at 1. apply stp_bind. unfold stp at 1. cbn [new_ptr fst snd].
  apply stp_bind, stp_modify, stp_ret. apply stp_bind, stp_modify, stp_ret.
  split.
  - apply idle_step_alloc; try done; simpl; [lia|..].
    + intros sh. destruct (decide (sh = S (mw_next w))) as [->|]; [lia|]. rewrite lookup_insert_ne by done. by left.
    + intros sh _ [name Hs]. exists name. simpl. rewrite lookup_insert_ne; [done|]. intros <-.
      pose proof (mo_mounts _ Hok _ (mk_is_Some _ _ Hs)). lia.
  - eexists _, _. split; [done|]. eexists. simpl. apply lookup_insert_eq.
Qed.

(** ** The file table *)

(** Entries and objects may be added, those that exist stay. *)
Record grows (w w' : MockWorld) : Prop := {
  gr_ok : mock_ok w → mock_ok w';
  gr_files : ∀ p q, mb_files (mw_backend w) !! p = Some q → mb_files (mw_backend w') !! p = Some q;
  gr_data : ∀ q d, mock_ok w → mw_data w !! q = Some d → mw_data w' !! q = Some d;
  gr_opens : mw_opens w' = mw_opens w;
  gr_mounts : mw_mounts w' = mw_mounts w;
  gr_next : (mw_next w ≤ mw_next w')%nat;
}.

Lemma grows_refl w : grows w w.
Proof. by split. Qed.

Lemma grows_trans w1 w2 w3 : grows w1 w2 → grows w2 w3 → grows w1 w3.
Proof. intros [] []. split; [auto|auto|auto|congruence|congruence|lia]. Qed.

Lemma stp_now (Q : Z → MockWorld → Prop) w : (∀ t w', grows w w' → files_view w' = files_view w → Q t w') → stp mock_now Q w.
Proof. intros HQ. apply HQ; [|done]. split; simpl; try done. intros []. by split. Qed.

Lemma stp_record op path args (Q : unit → MockWorld → Prop) w :
  (∀ w', grows w w' → files_view w' = files_view w → Q tt w') → stp (recordOp op path args) Q w.
Proof. intros HQ. apply HQ; [|done]. split; simpl; try done. intros []. by split. Qed.

Lemma stp_add_data path d w :
  mock_ok w → mb_files (mw_backend w) !! path = None → md_name d = Base path →
  stp (add_data path d) (λ q w', grows w w' ∧ mb_files (mw_backend w') !! path = Some q ∧ mw_data w' !! q = Some d
    ∧ tree_of w' = <[path := node_of d]> (tree_of w)) w.
Proof.
  intros Hok Hnew Hname. unfold add_data. apply stp_bind. unfold stp at 1. cbn [new_ptr fst snd].
  apply stp_bind, stp_modify. apply stp_bind, stp_modify, stp_ret.
  split; [|by split_and!; [simpl; rewrite !lookup_insert_eq..|exact (tree_of_add path d w _ Hok eq_refl)]]. destruct Hok. split; simpl; try done; [..|lia].
  - intros _. split; simpl; try done.
    + intros p q. destruct (decide (p = path)) as [->|].
      * rewrite lookup_insert_eq. intros [= <-]. by rewrite lookup_insert_eq.
      * rewrite lookup_insert_ne by done. intros Hq%mo_files0.
        destruct (decide (q = mw_next w)) as [->|]; [by rewrite lookup_insert_eq|by rewrite lookup_insert_ne].
    + intros q. destruct (decide (q = mw_next w)) as [->|]; [lia|]. rewrite lookup_insert_ne by done.
      intros Hq%mo_data0. lia.
    + intros f Hf%mo_opens0. lia.
    + intros f Hf%mo_mounts0. lia.
    + assert (∀ p q, mb_files (mw_backend w) !! p = Some q → q ≠ mw_next w) as Hlt.
      { intros p q Hq ->. specialize (mo_data0 _ (mo_files0 _ _ Hq)). lia. }
      intros p p' q. rewrite !lookup_insert_Some. intros [[<- <-]|[_ Hp]] [[<- Hq]|[_ Hp']]; try done.
      * by destruct (Hlt _ _ Hp').
      * by destruct (Hlt _ _ Hp).
      * eauto.
    + intros p q d'. rewrite !lookup_insert_Some. intros [[<- <-]|[_ Hp]] [[Hq <-]|[Hq Hd']]; try done; [|eauto].
      subst q. specialize (mo_data0 _ (mo_files0 _ _ Hp)). lia.
  - intros p q Hp. rewrite lookup_insert_ne; [done|]. intros <-. congruence.
  - intros q d' _ Hq. rewrite lookup_insert_ne; [done|]. intros <-. specialize (mo_data0 _ (mk_is_Some _ _ Hq)). lia.
Qed.

Lemma stp_ensureParentDirs fuel p w :
  mock_ok w → stp (ensureParentDirs fuel p) (λ _ w', grows w w' ∧ tree_of w' = t_parents fuel p (tree_of w)) w.
Proof.
  revert p w. induction fuel as [|fuel IH]; intros p w Hok; cbn [ensureParentDirs t_parents]; [by split; [apply grows_refl|]|].
  destruct (_ || _); [by split; [apply grows_refl|]|]. apply stp_bind, stp_gets.
  destruct (mb_files (mw_backend w) !! Dir p) eqn:E.
  { split; [apply grows_refl|]. destruct (tree_of w !! Dir p) eqn:E'; [done|]. apply tree_None in E'; [congruence|done]. }
  rewrite (proj2 (tree_None w _ Hok) E).
  apply stp_bind, stp_now. intros t w1 Hg Hv. injection Hv as Hf Hd _. apply stp_bind.
  eapply stp_mono; [apply stp_add_data; [by apply (gr_ok _ _ Hg)|by rewrite Hf|done]|].
  intros q w2 (Hg2 & _ & _ & Ht2). eapply stp_mono; [apply IH; by apply (gr_ok _ _ Hg2), (gr_ok _ _ Hg)|].
  intros [] w3 [Hg3 Ht3]. split; [eapply grows_trans; [|done]; by eapply grows_trans|].
  by rewrite Ht3, Ht2, (tree_of_view w w1).
Qed.

Lemma stp_AddFile path content mode w :
  mock_ok w → mb_files (mw_backend w) !! normalizeMockPath path = None →
  stp (AddFile path content mode) (λ _ w', mock_ok w' ∧ mw_mounts w' = mw_mounts w) w.
Proof.
  intros Hok Hnew. unfold AddFile. apply stp_bind, stp_now. intros t w1 Hg1 Hv. injection Hv as Hv1 _ _. apply stp_bind.
  eapply stp_mono; [apply stp_add_data; [by apply (gr_ok _ _ Hg1)|by rewrite Hv1|done]|].
  intros q w2 (Hg2 & _). pose proof (gr_ok _ _ Hg2 (gr_ok _ _ Hg1 Hok)) as Hok2.
  eapply stp_mono; [by apply stp_ensureParentDirs|]. intros [] w3 [Hg3 _]. split; [by apply (gr_ok _ _ Hg3)|].
  by rewrite (gr_mounts _ _ Hg3), (gr_mounts _ _ Hg2), (gr_mounts _ _ Hg1).
Qed.

(** A file of the server: what its path leads to. *)
Definition holds_file (w : MockWorld) (n : gostring) (q : ptr) (content : bytes) : Prop :=
  mb_files (mw_backend w) !! n = Some q
  ∧ ∃ d, mw_data w !! q = Some d ∧ md_content d = content ∧ md_isDir d = false.

(** The same in the tree [T], up to the content of the file. *)
Definition file_in (T : tree) (w : MockWorld) (n : gostring) (q : ptr) (content : bytes) : Prop :=
  holds_file w n q content ∧ tree_of w = <[n := FileNode content]> T.

Lemma holds_file_in w n q content : holds_file w n q content → file_in (tree_of w) w n q content.
Proof.
  intros Hh. split; [done|]. rewrite insert_id; [done|]. destruct Hh as [Hf (d & Hd & <- & Hdir)].
  rewrite tree_lookup. replace (data_at w n) with (Some (q, d)) by (symmetry; by apply data_at_Some).
  simpl. unfold node_of. by rewrite Hdir.
Qed.

Lemma file_in_view T w w' n q content :
  mb_files (mw_backend w') = mb_files (mw_backend w) → mw_data w' = mw_data w → file_in T w n q content → file_in T w' n q content.
Proof.
  intros Hf Hd [Hh HT]. split; [unfold holds_file; by rewrite Hf, Hd|]. by rewrite (tree_of_view w).
Qed.

Lemma file_in_set T w w' n q content d' :
  mock_ok w → file_in T w n q content → mb_files (mw_backend w') = mb_files (mw_backend w) →
  mw_data w' = <[q := d']> (mw_data w) → md_isDir d' = false → file_in T w' n q (md_content d').
Proof.
  intros Hok [[Hf _] HT] Hf' Hd' Hdir. split.
  - split; [by rewrite Hf'|]. exists d'. by rewrite Hd', lookup_insert_eq.
  - rewrite (tree_of_set w w' n q d'), HT by done. rewrite insert_insert_eq. unfold node_of. by rewrite Hdir.
Qed.

(** [f] is open on the data [q]. *)
Definition opened_at (w : MockWorld) (f : ptr) (n : gostring) (q : ptr) (flag : Z) (off : nat) : Prop :=
  mock_ok w ∧ mw_opens w !! f = Some (mkMockFile n q flag off false).

Lemma normalizeMockPath_SMB n : normal_path n → normalizeMockPath (toSMBPath n) = n.
Proof. apply fromSMB_toSMB. Qed.

(** The end of [OpenFile]. *)
Lemma stp_new_open n q flag w (Q : ptr + error → MockWorld → Prop) :
  mock_ok w →
  (∀ f w', opened_at w' f n q flag 0 → mb_files (mw_backend w') = mb_files (mw_backend w) →
     mw_data w' = mw_data w → mw_mounts w' = mw_mounts w → Q (inl f) w') →
  stp (f ← new_ptr; st_modify (on_opens <[f := mkMockFile n q flag 0 false]>);; mret (inl f)) Q w.
Proof.
  intros [] HQ. apply stp_bind. unfold stp at 1. cbn [new_ptr fst snd]. apply stp_bind, stp_modify, stp_ret.
  apply HQ; try done. split; [|simpl; by rewrite lookup_insert_eq]. split; simpl; try done.
  - intros q' Hq%mo_data0. lia.
  - intros g. destruct (decide (g = mw_next w)) as [->|]; [lia|]. rewrite lookup_insert_ne by done.
    intros Hg%mo_opens0. lia.
  - intros g Hg%mo_mounts0. lia.
Qed.

Lemma alter_as_insert {A} (g : A → A) q x (m : gmap ptr A) : m !! q = Some x → alter g q m = <[q := g x]> m.
Proof.
  intros Hx. apply map_eq. intros k. destruct (decide (k = q)) as [->|].
  - by rewrite lookup_alter_eq, lookup_insert_eq, Hx.
  - by rewrite lookup_alter_ne, lookup_insert_ne.
Qed.

Lemma mock_ok_set w d d' q : mock_ok w → mw_data w !! q = Some d → md_name d' = md_name d → mock_ok (on_data <[q := d']> w).
Proof.
  intros [] Hq Hname. split; simpl; try done.
  - intros p q' Hp. destruct (decide (q' = q)) as [->|]; [by rewrite lookup_insert_eq|]. rewrite lookup_insert_ne by done. eauto.
  - intros q'. destruct (decide (q' = q)) as [->|]; [by intros _; apply mo_data0|]. rewrite lookup_insert_ne by done. auto.
  - intros p q' d0 Hp. rewrite lookup_insert_Some. intros [[<- <-]|[_ Hd]]; [rewrite Hname|]; eauto.
Qed.

Lemma mock_ok_opens w f file : mock_ok w → is_Some (mw_opens w !! f) → mock_ok (on_opens <[f := file]> w).
Proof.
  intros [] Hf. split; simpl; try done. intros g. destruct (decide (g = f)) as [->|]; [by intros _; apply mo_opens0|].
  rewrite lookup_insert_ne by done. auto.
Qed.

(** The checks pass. *)
Lemma stp_on_path {A} sh op name (fail : error → A) k (Q : A → MockWorld → Prop) w :
  mock_ok w → mounted w sh → stp (k (normalizeMockPath name)) Q w → stp (on_path sh op name fail k) Q w.
Proof.
  intros Hok [share Hm] Hk. unfold on_path. apply stp_bind, stp_gets. cbn [id]. unfold unmounted. rewrite Hm.
  cbn [from_option msh_unmounted]. by rewrite no_error.
Qed.

(** Truncation, if asked for, and the new open file. *)
Lemma stp_open_data (trunc : bool) T n q flag content w (Q : ptr + error → MockWorld → Prop) :
  mock_ok w → file_in T w n q content →
  (∀ f w', opened_at w' f n q flag 0 → file_in T w' n q (if trunc then [] else content) →
     mw_mounts w' = mw_mounts w → Q (inl f) w') →
  stp ((if trunc && negb false then
          t ← mock_now;
          st_modify (on_data (alter (λ d, mkData (md_name d) [] (md_mode d) t (md_isDir d)) q))
        else mret tt);;
       f ← new_ptr; st_modify (on_opens <[f := mkMockFile n q flag 0 false]>);; mret (inl f)) Q w.
Proof.
  intros Hok Hin HQ. pose proof Hin as [[Hf (d & Hd & Hc & Hdir)] _]. apply stp_bind. destruct trunc; cbn [negb andb].
  - apply stp_bind, stp_now. intros t w1 Hg Hv. injection Hv as Hv1 Hv2 _. apply stp_modify.
    pose proof (alter_as_insert (λ d, mkData (md_name d) [] (md_mode d) t (md_isDir d)) q d (mw_data w1)) as Halt.
    rewrite Hv2 in Halt. specialize (Halt Hd). cbn beta in Halt. rewrite Hdir in Halt.
    assert (mock_ok w1) as Hok1 by (by apply (gr_ok _ _ Hg)).
    pose proof (mock_ok_set w1 d (mkData (md_name d) [] (md_mode d) t false) q Hok1) as Hset. rewrite Hv2 in Hset.
    specialize (Hset Hd eq_refl). unfold on_data. rewrite Hv2, Halt. unfold on_data in Hset. rewrite Hv2 in Hset.
    apply stp_new_open; [done|]. intros f w' Hopen Hfiles Hdata Hmounts.
    apply HQ; [done| |rewrite Hmounts; apply (gr_mounts _ _ Hg)].
    apply (file_in_set T w w' n q content (mkData (md_name d) [] (md_mode d) t false)); [done|done| |done|done].
    rewrite Hfiles. cbn. by rewrite Hv1.
  - apply stp_ret. apply stp_new_open; [done|]. intros f w' Hopen Hfiles Hdata Hmounts.
    apply HQ; [done| |done]. by eapply file_in_view.
Qed.

Lemma stp_open_existing T sh name flag perm n q content w :
  mock_ok w → mounted w sh → normalizeMockPath name = n → file_in T w n q content →
  has_flag flag O_EXCL = false →
  stp (Share_OpenFile sh name flag perm) (λ r w', ∃ f, r = inl f ∧ opened_at w' f n q flag 0
    ∧ file_in T w' n q (if has_flag flag O_TRUNC then [] else content) ∧ mw_mounts w' = mw_mounts w) w.
Proof.
  intros Hok Hm Hn Hin Hexcl. pose proof Hin as [[Hf (d & Hd & Hc & Hdir)] _].
  unfold Share_OpenFile. apply stp_on_path; [done..|]. rewrite Hn.
  apply stp_bind, stp_record. intros w1 Hg Hv. injection Hv as Hv1 Hv2 _. apply stp_bind, stp_gets.
  assert (data_at w1 n = Some (q, d)) as -> by (apply data_at_Some; by rewrite Hv1, Hv2).
  rewrite Hexcl. cbn [andb]. rewrite bool_decide_false by done. cbn [andb]. apply stp_bind, stp_ret. cbn beta iota.
  rewrite Hdir. cbn [andb]. eapply stp_open_data; [by apply (gr_ok _ _ Hg)|by eapply file_in_view|].
  intros f w' ? ? Hmm. exists f. split_and!; [done..|]. rewrite Hmm. apply (gr_mounts _ _ Hg).
Qed.

Lemma t_parents_keep fuel p t k x : t !! k = Some x → t_parents fuel p t !! k = Some x.
Proof.
  revert p t. induction fuel as [|fuel IH]; intros p t Hk; cbn [t_parents]; [done|]. destruct (_ || _); [done|].
  destruct (t !! Dir p) eqn:E; [done|]. apply IH. rewrite lookup_insert_ne; [done|]. congruence.
Qed.

Lemma stp_open_new sh name flag perm n w :
  mock_ok w → mounted w sh → normalizeMockPath name = n → mb_files (mw_backend w) !! n = None →
  has_flag flag O_CREATE = true →
  stp (Share_OpenFile sh name flag perm) (λ r w', ∃ f q, r = inl f ∧ opened_at w' f n q flag 0
    ∧ file_in (t_new n (tree_of w)) w' n q [] ∧ mw_mounts w' = mw_mounts w) w.
Proof.
  intros Hok Hm Hn Hf Hc. unfold Share_OpenFile. apply stp_on_path; [done..|]. rewrite Hn.
  apply stp_bind, stp_record. intros w1 Hg Hv. injection Hv as Hv1 Hv2 _. apply stp_bind, stp_gets.
  assert (data_at w1 n = None) as -> by (unfold data_at; by rewrite Hv1, Hf).
  rewrite bool_decide_false by (by intros [? ?]). rewrite andb_false_r, Hc, andb_false_r. cbn [negb].
  apply stp_bind, stp_bind, stp_now. intros t w2 Hg2 Hv2'. injection Hv2' as Hv3 Hv4 _. apply stp_bind.
  eapply stp_mono; [apply (stp_add_data n (mkData (Base n) [] perm t false))|].
  { by apply (gr_ok _ _ Hg2), (gr_ok _ _ Hg). }
  { by rewrite Hv3, Hv1. }
  { done. }
  intros q w3 (Hg3 & Hf3 & Hd3 & Ht3). rewrite (tree_of_view w w2) in Ht3 by congruence. apply stp_bind.
  assert (mock_ok w3) as Hok3 by (by apply (gr_ok _ _ Hg3), (gr_ok _ _ Hg2), (gr_ok _ _ Hg)).
  eapply stp_mono; [by apply stp_ensureParentDirs|]. intros [] w4 [Hg4 Ht4]. apply stp_ret. cbn beta iota. cbn [md_isDir andb].
  eapply (stp_open_data _ (t_new n (tree_of w))); [by apply (gr_ok _ _ Hg4)| |].
  - split; [split; [by apply (gr_files _ _ Hg4)|]|].
    + exists (mkData (Base n) [] perm t false). split_and!; [by apply (gr_data _ _ Hg4)|done..].
    + rewrite Ht4, Ht3. symmetry. apply insert_id, t_parents_keep, lookup_insert_eq.
  - intros f w' Ho Hh Hmm. exists f, q. split_and!; [done|done|by destruct (has_flag flag O_TRUNC)|].
    rewrite Hmm, (gr_mounts _ _ Hg4), (gr_mounts _ _ Hg3), (gr_mounts _ _ Hg2). apply (gr_mounts _ _ Hg).
Qed.

(** ** Open files *)

Lemma opened_data T w f n q flag off content :
  opened_at w f n q flag off → file_in T w n q content →
  ∃ d, open_file f w = Some (mkMockFile n q flag off false, d) ∧ mw_data w !! q = Some d
    ∧ md_content d = content ∧ md_isDir d = false.
Proof.
  intros [_ Ho] [[_ (d & Hd & Hc & Hdir)] _]. exists d. unfold open_file. rewrite Ho. simpl. rewrite Hd. by split_and!.
Qed.

(** Writing at the end appends. *)
Lemma write_content_end content p : write_content content (len content) p = content ++ p.
Proof.
  unfold write_content, put_at. replace (Z.to_nat (len content)) with (length content) by (unfold len; lia). destruct (Z.ltb_spec (len content) (len content + len p)) as [Hlt|Hge].
  - rewrite take_app_length', drop_ge, app_nil_r; [done| |done].
    rewrite length_app. unfold zeros. rewrite length_replicate. unfold len. lia.
  - assert (p = []) as -> by (destruct p; [done|]; rewrite len_cons in Hge; pose proof (len_nonneg p); lia).
    by rewrite take_ge, drop_ge, !app_nil_r by (cbn; lia).
Qed.

(** What a write leaves in the file. *)
Definition written (content : bytes) (off : nat) (p : bytes) : bytes :=
  match p with
  | [] => take off content
  | _ => write_content content (Z.of_nat off) p
  end.

Lemma written_nil p : written [] 0 p = p.
Proof. destruct p as [|b p]; [done|]. exact (write_content_end [] _). Qed.

Lemma stp_write T f n q flag off content p w :
  opened_at w f n q flag off → file_in T w n q content → has_flag flag (Z.lor O_WRONLY O_RDWR) = true →
  stp (MockFile_Write f p) (λ r w', r = (len p, None) ∧ opened_at w' f n q flag (off + length p)
    ∧ file_in T w' n q (written content off p) ∧ mw_mounts w' = mw_mounts w) w.
Proof.
  intros Ho Hh Hw. destruct (opened_data _ _ _ _ _ _ _ _ Ho Hh) as (d & Hof & Hd & Hc & Hdir).
  destruct Ho as [Hok Ho].
  unfold MockFile_Write. apply stp_bind, stp_gets. cbn [id]. rewrite Hof. cbn [mf_flag mf_path]. rewrite Hw. cbn [negb].
  rewrite no_error by done. rewrite Hdir, Hc. destruct p as [|b p].
  - change (len (@nil byte) =? 0) with true. cbn [length]. rewrite Nat.add_0_r. cbn [mf_offset].
    destruct (Z.ltb_spec (Z.of_nat off) (len content)) as [Hlt|Hge].
    + apply stp_bind, stp_now. intros t w1 Hg Hv. injection Hv as Hv1 Hv2 Hv3. apply stp_bind, stp_modify, stp_ret.
      split; [done|]. split; [|split].
      * split; [eapply mock_ok_set; [by apply (gr_ok _ _ Hg)|by rewrite Hv2|done]|cbn; by rewrite Hv3].
      * eapply (file_in_set T w _ n q content (mkData _ _ _ _ _)); [done|done|cbn; by rewrite Hv1|cbn; by rewrite Hv2|done].
      * apply (gr_mounts _ _ Hg).
    + apply stp_ret. split; [done|]. split; [done|]. split; [|done].
      cbn [written]. rewrite take_ge; [done|]. unfold len in Hge. lia.
  - rewrite (proj2 (Z.eqb_neq (len (b :: p)) 0)) by (rewrite len_cons; pose proof (len_nonneg p); lia).
    apply stp_bind, stp_modify. apply stp_bind, stp_now. intros t w1 Hg Hv. injection Hv as Hv1 Hv2 Hv3.
    apply stp_bind, stp_modify, stp_ret. split; [done|].
    assert (mock_ok (on_opens <[f := set_offset (Z.of_nat off + len (b :: p)) (mkMockFile n q flag off false)]> w)) as Hok1
      by (apply mock_ok_opens; [done|by rewrite Ho]).
    split; [|split].
    + split; [eapply mock_ok_set; [by apply (gr_ok _ _ Hg)|by rewrite Hv2|done]|].
      cbn. rewrite Hv3. cbn. rewrite lookup_insert_eq. unfold set_offset. cbn [mf_path mf_data mf_flag mf_closed].
      do 2 f_equal. unfold len. cbn [length]. lia.
    + eapply (file_in_set T w _ n q content (mkData _ _ _ _ _)); [done|done|cbn; by rewrite Hv1|cbn; by rewrite Hv2|done].
    + cbn. by rewrite (gr_mounts _ _ Hg).
Qed.

Lemma stp_seek T f n q flag off content offset whence target w :
  opened_at w f n q flag off → file_in T w n q content →
  (whence = SeekStart ∧ target = offset ∨ whence = SeekEnd ∧ target = len content + offset) → 0 ≤ target →
  stp (MockFile_Seek f offset whence) (λ r w', r = inl target ∧ opened_at w' f n q flag (Z.to_nat target)
    ∧ file_in T w' n q content ∧ mw_mounts w' = mw_mounts w) w.
Proof.
  intros Ho Hh Ht Hpos. destruct (opened_data _ _ _ _ _ _ _ _ Ho Hh) as (d & Hof & Hd & Hc & Hdir).
  destruct Ho as [Hok Ho]. unfold MockFile_Seek. apply stp_bind, stp_gets. cbn [id]. rewrite Hof.
  assert ((if whence =? SeekStart then Some offset else if whence =? SeekCurrent then Some (Z.of_nat (mf_offset (mkMockFile n q flag off false)) + offset)
    else if whence =? SeekEnd then Some (len (md_content d) + offset) else None) = Some target) as ->.
  { by destruct Ht as [[-> ->]|[-> ->]]; rewrite ?Hc. }
  rewrite (proj2 (Z.ltb_ge target 0)) by lia. apply stp_bind, stp_modify, stp_ret.
  split; [done|]. split; [|by split]. split; [apply mock_ok_opens; [done|by rewrite Ho]|].
  cbn. by rewrite lookup_insert_eq.
Qed.

Lemma stp_seek_negative T f n q flag off content offset w :
  opened_at w f n q flag off → file_in T w n q content → offset < 0 →
  stp (MockFile_Seek f offset SeekStart) (λ r w', r = inr (new_error "negative offset") ∧ w' = w) w.
Proof.
  intros Ho Hh Hneg. destruct (opened_data _ _ _ _ _ _ _ _ Ho Hh) as (d & Hof & _).
  unfold MockFile_Seek. apply stp_bind, stp_gets. cbn [id]. rewrite Hof. cbn [Z.eqb SeekStart].
  rewrite (proj2 (Z.ltb_lt offset 0)) by lia. by apply stp_ret.
Qed.

Lemma stp_file_stat T f n q flag off content w :
  opened_at w f n q flag off → file_in T w n q content → stp (MockFile_Stat f) (λ r w', r = inl q ∧ w' = w) w.
Proof.
  intros Ho Hh. destruct (opened_data _ _ _ _ _ _ _ _ Ho Hh) as (d & Hof & _). destruct Ho as [Hok _].
  unfold MockFile_Stat. apply stp_bind, stp_gets. cbn [id]. rewrite Hof. rewrite no_error by done. by apply stp_ret.
Qed.

(** Reading a whole file from its start. *)
Lemma stp_read_all T f n q flag content w :
  opened_at w f n q flag 0 → file_in T w n q content → content ≠ [] →
  stp (MockFile_Read f (len content)) (λ r w', r = (content, Some (Sentinel EOF)) ∧ opened_at w' f n q flag (length content)
    ∧ file_in T w' n q content ∧ mw_mounts w' = mw_mounts w) w.
Proof.
  intros Ho Hh Hne. destruct (opened_data _ _ _ _ _ _ _ _ Ho Hh) as (d & Hof & Hd & Hc & Hdir). destruct Ho as [Hok Ho].
  unfold MockFile_Read. apply stp_bind, stp_gets. cbn [id]. rewrite Hof. rewrite no_error by done. rewrite Hdir, Hc.
  cbn [mf_offset]. assert (0 < len content) as Hpos by (destruct content; [done|rewrite len_cons; pose proof (len_nonneg content); lia]).
  rewrite (proj2 (Z.leb_gt (len content) (Z.of_nat 0))) by lia. rewrite drop_0, take_ge by (unfold len; lia).
  apply stp_bind, stp_modify, stp_ret. split; [rewrite (proj2 (Z.leb_le _ _)) by lia; done|].
  split; [|by split]. split; [apply mock_ok_opens; [done|by rewrite Ho]|]. cbn. rewrite lookup_insert_eq.
  unfold set_offset. cbn [mf_path mf_data mf_flag mf_closed]. do 2 f_equal. unfold len. lia.
Qed.

Lemma stp_close T f n q flag off content w :
  opened_at w f n q flag off → file_in T w n q content →
  stp (MockFile_Close f) (λ r w', r = None ∧ mock_ok w' ∧ file_in T w' n q content ∧ mw_mounts w' = mw_mounts w) w.
Proof.
  intros [Hok Ho] Hh. unfold MockFile_Close. apply stp_bind, stp_gets. cbn [id]. rewrite Ho.
  apply stp_bind, stp_modify. apply stp_bind, stp_record. intros w1 Hg Hv. injection Hv as Hv1 Hv2 _. apply stp_ret.
  split; [done|]. split; [apply (gr_ok _ _ Hg), mock_ok_opens; [done|by rewrite Ho]|].
  split; [|apply (gr_mounts _ _ Hg)]. by eapply file_in_view.
Qed.

(** ** The operations on paths *)

(** The mock's own errors of a kind. *)
Definition plain_error (k : kind) (e : error) : Prop :=
  match k with
  | KNotExist => e = Sentinel ErrNotExist
  | KExist => e = Sentinel ErrExist
  | KInvalid => False
  | KOther => ∃ msg, e = OtherError msg [] None
  end.

Definition served (r : option error) (a : answer) : Prop :=
  match a with
  | ADone => r = None
  | AFail k => ∃ e, r = Some e ∧ plain_error k e
  | _ => False
  end.

(** [m] does to the server of [w] what [f] does to its tree. *)
Definition serves (m : ST MockWorld (option error)) (f : tree → answer * tree) (w : MockWorld) : Prop :=
  stp m (λ r w', mock_ok w' ∧ mw_mounts w' = mw_mounts w
    ∧ served r (f (tree_of w)).1 ∧ tree_of w' = (f (tree_of w)).2) w.

(** The start of each: checks and the log entry. *)
Lemma serves_on_path sh op op' name n args k f w :
  mock_ok w → mounted w sh → normalizeMockPath name = n →
  (∀ w1, mock_ok w1 → mw_mounts w1 = mw_mounts w → tree_of w1 = tree_of w → serves (k n) f w1) →
  serves (on_path sh op name Some (λ name, recordOp op' name (args name);; k name)) f w.
Proof.
  intros Hok Hm Hn Hk. apply stp_on_path; [done..|]. rewrite Hn. apply stp_bind, stp_record. intros w1 Hg Hv.
  injection Hv as Hf Hd _. assert (tree_of w1 = tree_of w) as Ht by (by apply tree_of_view).
  eapply stp_mono; [apply (Hk w1); [by apply (gr_ok _ _ Hg)|apply (gr_mounts _ _ Hg)|done]|].
  rewrite Ht. intros r w' (? & -> & ? & ?). split_and!; [done|apply (gr_mounts _ _ Hg)|done..].
Qed.

(** An answer that leaves the server alone. *)
Lemma serves_ret r f w :
  mock_ok w → served r (f (tree_of w)).1 → (f (tree_of w)).2 = tree_of w → serves (mret r) f w.
Proof. intros ? ? ?. by apply stp_ret. Qed.

Lemma data_at_tree w n : mock_ok w →
  match data_at w n with
  | Some (q, d) => mb_files (mw_backend w) !! n = Some q ∧ mw_data w !! q = Some d ∧ tree_of w !! n = Some (node_of d)
  | None => mb_files (mw_backend w) !! n = None ∧ tree_of w !! n = None
  end.
Proof.
  intros Hok. pose proof (tree_lookup w n) as Ht. destruct (data_at w n) as [[q d]|] eqn:E.
  - apply data_at_Some in E as [? ?]. done.
  - simpl in Ht. split; [by apply tree_None|done].
Qed.

Lemma stp_Share_Mkdir sh name n perm w :
  mock_ok w → mounted w sh → normalizeMockPath name = n → serves (Share_Mkdir sh name perm) (t_mkdir n) w.
Proof.
  intros Hok Hm Hn. unfold Share_Mkdir. apply (serves_on_path _ _ _ _ n (λ _, [ArgMode perm]) (λ name, w ← st_gets id; _)); [done..|].
  intros w1 Hok1 _ _. apply stp_bind, stp_gets. cbn [id]. unfold t_mkdir.
  destruct (mb_files (mw_backend w1) !! n) as [q|] eqn:E.
  - rewrite bool_decide_true by eauto. destruct (tree_of w1 !! n) eqn:Et; [|apply tree_None in Et; [congruence|done]].
    apply stp_ret. split_and!; [done..| |done]. by eexists.
  - rewrite bool_decide_false by (by intros [? ?]). rewrite (proj2 (tree_None w1 n Hok1) E).
    pose proof (data_at_tree w1 (Dir n) Hok1) as Hd. destruct (data_at w1 (Dir n)) as [[q d]|].
    2:{ destruct Hd as [_ ->]. apply stp_ret. split_and!; [done..| |done]. by eexists. }
    destruct Hd as (_ & _ & ->). unfold node_of at 1 2. destruct (md_isDir d) eqn:Hdir; cbn [negb].
    2:{ apply stp_ret. split_and!; [done..| |done]. eexists. split; [done|]. by eexists. }
    apply stp_bind, stp_now. intros t w2 Hg Hv. injection Hv as Hf Hdt _. apply stp_bind.
    eapply stp_mono; [apply stp_add_data; [by apply (gr_ok _ _ Hg)|by rewrite Hf|done]|].
    intros q' w3 (Hg3 & _ & _ & Ht3). apply stp_ret. split_and!; [by apply (gr_ok _ _ Hg3), (gr_ok _ _ Hg)| |done|].
    + by rewrite (gr_mounts _ _ Hg3), (gr_mounts _ _ Hg).
    + by rewrite Ht3, (tree_of_view w1).
Qed.

Lemma mock_ok_delete n w : mock_ok w → mock_ok (on_backend (set_files (delete n)) w).
Proof.
  intros []. split; simpl; try done.
  - intros p q [_ ?]%lookup_delete_Some. eauto.
  - intros p p' q [_ ?]%lookup_delete_Some [_ ?]%lookup_delete_Some. eauto.
  - intros p q d [_ ?]%lookup_delete_Some. eauto.
Qed.

Lemma tree_of_delete n w : tree_of (on_backend (set_files (delete n)) w) = delete n (tree_of w).
Proof. apply omap_delete. Qed.

(** The table and the tree have the same paths. *)
Lemma tree_paths w : mock_ok w → (map_to_list (mb_files (mw_backend w))).*1 ≡ₚ (map_to_list (tree_of w)).*1.
Proof.
  intros Hok. apply NoDup_Permutation; [apply NoDup_fst_map_to_list..|]. intros p.
  rewrite !list_elem_of_fmap. split; intros ([p' x] & -> & Hx%elem_of_map_to_list); cbn [fst].
  - destruct (tree_of w !! p') as [y|] eqn:E; [|apply tree_None in E; [congruence|done]].
    exists (p', y). by split; [|apply elem_of_map_to_list].
  - apply tree_Some in Hx as (q & d & Hq & _). exists (p', q). by split; [|apply elem_of_map_to_list].
Qed.

Lemma existsb_perm {A} (f : A → bool) l k : l ≡ₚ k → existsb f l = existsb f k.
Proof.
  intros Hp. apply eq_true_iff_eq. rewrite !existsb_exists. setoid_rewrite <-list_elem_of_In. by setoid_rewrite Hp.
Qed.

Lemma has_prefix_TrimPrefix o p : has_prefix (o ++ [slash]) p = true → ∃ k, p = o ++ slash :: k ∧ TrimPrefix p o = slash :: k.
Proof.
  rewrite has_prefix_spec. intros [k ->]. exists k. rewrite <-app_assoc. split; [done|]. unfold TrimPrefix.
  assert (has_prefix o (o ++ [slash] ++ k) = true) as -> by (apply has_prefix_spec; by eexists). by rewrite drop_app_length.
Qed.

(** *** Paths by their elements *)

Lemma elements_split p : p ≠ [slash] → elements p = split_on slash p.
Proof. intros Hp. unfold elements. by rewrite bool_decide_false. Qed.

Lemma nested_not_root (d k : gostring) : d ≠ [] → d ++ slash :: k ≠ [slash].
Proof. intros Hd Heq%(f_equal length). rewrite length_app in Heq. destruct d; cbn in Heq; [done|lia]. Qed.

Lemma below_spec d p : d ≠ [] → d ≠ [slash] → below d p = true ↔ ∃ k, p = d ++ slash :: k.
Proof.
  intros Hd0 Hd. unfold below. rewrite andb_true_iff, bool_decide_eq_true, negb_true_iff, bool_decide_eq_false.
  rewrite (elements_split d) by done. split.
  - intros [[l Hl] Hne]. destruct (decide (p = [slash])) as [->|Hp].
    + change (elements [slash]) with [@nil byte] in *. destruct (split_on slash d) as [|w ws] eqn:E; [by apply split_on_nonempty in E|].
      injection Hl as <- [-> ->]%eq_sym%app_nil. done.
    + rewrite elements_split in Hl, Hne by done. exists (join_with slash l).
      rewrite <-(join_split slash p), Hl, join_app, join_split; [done|apply split_on_nonempty|].
      intros ->. by rewrite app_nil_r in Hl.
  - intros [k ->]. rewrite elements_split, split_on_app by (by apply nested_not_root).
    split; [by eexists|]. intros Heq. rewrite <-(app_nil_r (split_on slash d)) in Heq at 2.
    apply (inj (app _)) in Heq. by apply split_on_nonempty in Heq.
Qed.

Lemma below_prefix d p : d ≠ [] → d ≠ [slash] → below d p = has_prefix (d ++ [slash]) p.
Proof.
  intros Hd0 Hd. apply eq_true_iff_eq. rewrite below_spec, has_prefix_spec by done.
  by setoid_rewrite <-app_assoc.
Qed.

(** What starts with two slashes is below the root, too. *)
Lemma root_below p : has_prefix [slash; slash] p = true → below [slash] p = true.
Proof.
  intros [k ->]%has_prefix_spec. unfold below. rewrite (elements_split ([slash; slash] ++ k)) by done.
  change (split_on slash ([slash; slash] ++ k)) with ([] :: [] :: split_on slash k).
  change (elements [slash]) with [@nil byte].
  rewrite bool_decide_true, bool_decide_false; [done|congruence|]. by exists ([] :: split_on slash k).
Qed.

Lemma child_is_child d p : d ≠ [] → child d p = is_child d p.
Proof.
  intros Hd0. unfold is_child. destruct (decide (d = [slash])) as [->|Hd].
  - rewrite (bool_decide_true ([slash] = [slash])) by done. unfold child, below. change (elements [slash]) with [@nil byte].
    destruct (decide (p = [slash])) as [->|Hp]; [done|]. rewrite (bool_decide_false (p = [slash])) by done.
    rewrite elements_split by done. apply eq_true_iff_eq.
    rewrite !andb_true_iff, !negb_true_iff, bool_decide_eq_true, bool_decide_eq_false, Nat.eqb_eq, has_prefix_spec.
    unfold contains_byte. rewrite bool_decide_eq_false. split.
    + intros [[[l Hl] _] Hlen]. rewrite Hl in Hlen. destruct l as [|k [|]]; [done| |done].
      pose proof (split_on_no_sep slash p) as Hns. rewrite Hl in Hns. apply Forall_app in Hns as [_ Hns].
      rewrite Forall_singleton in Hns. assert (p = slash :: k) as ->.
      { rewrite <-(join_split slash p), Hl. done. }
      split; [split; [done|by exists k]|exact Hns].
    + intros [[_ [k ->]] Hk]. change (TrimPrefix ([slash] ++ k) [slash]) with k in Hk.
      change (split_on slash ([slash] ++ k)) with ([] :: split_on slash k). rewrite split_on_single by done.
      split; [split; [by exists [k]|done]|done].
  - rewrite (bool_decide_false (d = [slash])) by done. unfold child. apply eq_true_iff_eq.
    rewrite !andb_true_iff, !negb_true_iff, below_spec, bool_decide_eq_false, Nat.eqb_eq, has_prefix_spec by done.
    assert (∀ k, d ++ slash :: k ≠ [slash] ∧ d ++ slash :: k ≠ d ∧ TrimPrefix (d ++ slash :: k) (d ++ [slash]) = k) as Hk.
    { intros k. split; [by apply nested_not_root|]. split.
      - intros Heq%(f_equal length). rewrite length_app in Heq. cbn in Heq. lia.
      - change (d ++ slash :: k) with (d ++ [slash] ++ k). rewrite app_assoc. unfold TrimPrefix.
        assert (has_prefix (d ++ [slash]) ((d ++ [slash]) ++ k) = true) as -> by (apply has_prefix_spec; by eexists).
        by rewrite drop_app_length. }
    unfold contains_byte. rewrite bool_decide_eq_false. split.
    + intros [[k ->] Hlen]. destruct (Hk k) as (H1 & H2 & ->). split; [split; [done|exists k; by rewrite <-app_assoc]|].
      rewrite !elements_split, split_on_app, length_app in Hlen by done.
      destruct (split_on slash k) as [|w [|]] eqn:E; [by apply split_on_nonempty in E| |cbn in Hlen; lia].
      pose proof (split_on_no_sep slash k) as Hns. rewrite E in Hns. rewrite Forall_singleton in Hns.
      by rewrite <-(join_split slash k), E.
    + intros [[_ [k ->]] Hn]. rewrite <-app_assoc in Hn |- *. cbn [app] in Hn |- *. destruct (Hk k) as (H1 & H2 & H3). rewrite H3 in Hn.
      split; [by exists k|]. rewrite !elements_split, split_on_app, length_app, (split_on_single slash k) by done. cbn. lia.
Qed.

(** The mock's test for an empty directory, where [remove_ok] holds. *)
Lemma emptiness_test n (t : tree) : n ≠ [] → remove_ok n t = true →
  existsb (λ p, negb (bool_decide (p = n)) && has_prefix (n ++ [slash]) p) (map_to_list t).*1 = inhabited n t.
Proof.
  intros Hn0 Hok. unfold remove_ok in Hok. unfold inhabited in *.
  destruct (decide (n = [slash])) as [->|Hn].
  - rewrite bool_decide_true in Hok by done. apply negb_true_iff in Hok. rewrite Hok.
    apply not_true_iff_false. intros (p & Hin & [_ Hp]%andb_true_iff)%existsb_exists.
    apply not_true_iff_false in Hok. apply Hok, existsb_exists. exists p. split; [done|]. by apply root_below.
  - clear Hok. generalize ((map_to_list t).*1). intros l. induction l as [|p l IH]; [done|]. cbn [existsb]. rewrite IH. f_equal.
    rewrite below_prefix by done. case_bool_decide as Hp; [|done]. subst p. symmetry. apply not_true_iff_false.
    intros [k Hk%(f_equal length)]%has_prefix_spec. rewrite !length_app in Hk. cbn in Hk. lia.
Qed.

Lemma stp_Share_Remove sh name n w :
  mock_ok w → mounted w sh → normalizeMockPath name = n → n ≠ [] → remove_ok n (tree_of w) = true →
  serves (Share_Remove sh name) (t_remove n) w.
Proof.
  intros Hok Hm Hn Hn0 Hrm. unfold Share_Remove. apply (serves_on_path _ _ _ _ n (λ _, []) (λ name, w ← st_gets id; _)); [done..|].
  intros w1 Hok1 _ Hw1. rewrite <-Hw1 in Hrm. apply stp_bind, stp_gets. cbn [id]. unfold t_remove.
  pose proof (data_at_tree w1 n Hok1) as Hd. destruct (data_at w1 n) as [[q d]|].
  2:{ destruct Hd as [_ ->]. apply stp_ret. split_and!; [done..| |done]. by eexists. }
  destruct Hd as (_ & _ & ->). rewrite (existsb_perm _ _ _ (tree_paths w1 Hok1)). rewrite emptiness_test by done.
  replace (is_dir (node_of d)) with (md_isDir d) by (unfold node_of; by destruct (md_isDir d)).
  destruct (_ && _).
  - apply stp_ret. split_and!; [done..| |done]. eexists. split; [done|]. by eexists.
  - apply stp_bind, stp_modify, stp_ret. split_and!; [by apply mock_ok_delete|done|done|apply tree_of_delete].
Qed.

(** [Chmod] and [Chtimes]: an attribute of the data changes. *)
Lemma serves_alter g n w :
  mock_ok w → (∀ d, md_name (g d) = md_name d) → (∀ d, node_of (g d) = node_of d) →
  serves (found ← st_gets (λ w, data_at w n);
          match found with
          | None => mret (Some (Sentinel ErrNotExist))
          | Some (q, _) => st_modify (on_data (alter g q));; mret None
          end) (t_touch n) w.
Proof.
  intros Hok Hname Hnode. apply stp_bind, stp_gets. unfold t_touch.
  pose proof (data_at_tree w n Hok) as Hd. destruct (data_at w n) as [[q d]|].
  2:{ destruct Hd as [_ ->]. apply stp_ret. split_and!; [done..| |done]. by eexists. }
  destruct Hd as (Hq & Hd & Ht). rewrite Ht. apply stp_bind, stp_modify, stp_ret.
  unfold on_data. rewrite (alter_as_insert _ _ d) by done.
  split_and!; [by apply (mock_ok_set w d)|done|done|]. cbn [snd].
  rewrite (tree_of_set w _ n q (g d)); [|done..]. by rewrite Hnode, insert_id.
Qed.

Lemma stp_Share_Chmod sh name n mode w :
  mock_ok w → mounted w sh → normalizeMockPath name = n → serves (Share_Chmod sh name mode) (t_touch n) w.
Proof.
  intros Hok Hm Hn. unfold Share_Chmod.
  apply (serves_on_path _ _ _ _ n (λ _, [ArgMode mode]) (λ name, found ← st_gets (λ w, data_at w name); _)); [done..|].
  intros w1 Hok1 _ _. by apply serves_alter.
Qed.

Lemma stp_Share_Chtimes sh name n atime mtime w :
  mock_ok w → mounted w sh → normalizeMockPath name = n → serves (Share_Chtimes sh name atime mtime) (t_touch n) w.
Proof.
  intros Hok Hm Hn. unfold Share_Chtimes.
  apply (serves_on_path _ _ _ _ n (λ _, [ArgTime atime; ArgTime mtime]) (λ name, found ← st_gets (λ w, data_at w name); _)); [done..|].
  intros w1 Hok1 _ _. by apply serves_alter.
Qed.

(** *** Rename *)

(** Moving and its condition as the mock tests them, on strings. *)
Definition prefix_moved (o n p : gostring) : gostring :=
  if has_prefix (o ++ [slash]) p then n ++ TrimPrefix p o else p.

Definition prefix_rename_ok (o n : gostring) (t : tree) : bool :=
  match t !! o with
  | Some DirNode => negb (has_prefix (o ++ [slash]) n) && forallb (λ p, negb (has_prefix (n ++ [slash]) p)) (map_to_list t).*1
  | _ => true
  end.

Lemma moved_prefix o n p :
  o ≠ [] → o ≠ [slash] → n ≠ [slash] → moved o n p = prefix_moved o n p.
Proof.
  intros Ho0 Ho Hn. unfold moved, prefix_moved. rewrite below_prefix by done.
  destruct (has_prefix (o ++ [slash]) p) eqn:Hp; [|done]. apply has_prefix_TrimPrefix in Hp as (k & -> & ->).
  rewrite !elements_split, split_on_app by (done || by apply nested_not_root). rewrite drop_app_length.
  by rewrite join_app, !join_split by apply split_on_nonempty.
Qed.

(** One entry of the table moves, and its data is renamed. *)
Definition move_entry (o n : gostring) (q : ptr) (w : MockWorld) : MockWorld :=
  w |> on_backend (set_files (delete o)) |> on_data (alter (set_name (Base n)) q) |> on_backend (set_files <[n := q]>).

Lemma move_entry_ok o n q w : mock_ok w → mb_files (mw_backend w) !! o = Some q → mock_ok (move_entry o n q w).
Proof.
  intros [] Ho. destruct (mo_files0 _ _ Ho) as [d Hd].
  assert (∀ p q', <[n := q]> (delete o (mb_files (mw_backend w))) !! p = Some q' →
    p = n ∧ q' = q ∨ p ≠ n ∧ q' ≠ q ∧ mb_files (mw_backend w) !! p = Some q') as Hcases.
  { intros p q' [[<- <-]|[Hne [Hne' Hp]%lookup_delete_Some]]%lookup_insert_Some; [by left|]. right. split_and!; [done| |done].
    intros ->. apply Hne'. eauto. }
  split; simpl; rewrite ?(alter_as_insert _ _ d) by done; try done.
  - intros p q' [(-> & ->)|(_ & Hne & Hp)]%Hcases; [by rewrite lookup_insert_eq|]. rewrite lookup_insert_ne by done. eauto.
  - intros q' Hq'. apply mo_data0. destruct (decide (q' = q)) as [->|]; [eauto|]. by rewrite lookup_insert_ne in Hq'.
  - intros p p' q' [(-> & ->)|(? & ? & Hp)]%Hcases [(-> & ?)|(? & ? & Hp')]%Hcases; try done. eauto.
  - intros p q' d' [(-> & ->)|(_ & Hne & Hp)]%Hcases.
    + rewrite lookup_insert_eq. by intros [= <-].
    + rewrite lookup_insert_ne by done. eauto.
Qed.

Lemma move_entry_tree o n q x w :
  mock_ok w → mb_files (mw_backend w) !! o = Some q → tree_of w !! o = Some x →
  tree_of (move_entry o n q w) = <[n := x]> (delete o (tree_of w)).
Proof.
  intros Hok Ho Hx. apply tree_Some in Hx as (q' & d & Hq' & Hd & ->). simplify_eq.
  apply map_eq. intros p. unfold tree_of, move_entry. simpl. rewrite (alter_as_insert _ _ d), lookup_omap by done.
  destruct (decide (p = n)) as [->|]; [rewrite !lookup_insert_eq; simpl; by rewrite lookup_insert_eq|].
  rewrite !lookup_insert_ne by done. destruct (decide (p = o)) as [->|]; [by rewrite !lookup_delete_eq|].
  rewrite !lookup_delete_ne, lookup_omap by done. destruct (mb_files (mw_backend w) !! p) as [q'|] eqn:E; [|done]. simpl.
  rewrite lookup_insert_ne; [done|]. intros ->. destruct Hok. by eauto.
Qed.

(** The same for a node of the tree, when it is below [o]. *)
Definition move_node (o n : gostring) (t : tree) (p : gostring) : tree :=
  if has_prefix (o ++ [slash]) p
  then match t !! p with Some x => <[prefix_moved o n p := x]> (delete p t) | None => t end
  else t.

Lemma stp_rename_children o n entries w :
  mock_ok w → NoDup entries.*1 →
  (∀ p q, (p, q) ∈ entries → mb_files (mw_backend w) !! p = Some q) →
  (∀ p, p ∈ entries.*1 → has_prefix (o ++ [slash]) p = true → prefix_moved o n p ∉ entries.*1) →
  stp (rename_children o n entries) (λ _ w', mock_ok w' ∧ mw_mounts w' = mw_mounts w
    ∧ tree_of w' = foldl (move_node o n) (tree_of w) entries.*1) w.
Proof.
  revert w. induction entries as [|[p q] entries IH]; intros w Hok Hnd Hin Hfresh; [by apply stp_ret|].
  cbn [rename_children fmap list_fmap foldl fst]. apply NoDup_cons in Hnd as [Hp Hnd].
  assert (mb_files (mw_backend w) !! p = Some q) as Hpq by (apply Hin; by left).
  apply stp_bind. unfold move_node at 2. destruct (has_prefix (o ++ [slash]) p) eqn:Epre.
  - destruct (tree_of w !! p) as [x|] eqn:Ex; [|apply tree_None in Ex; [congruence|done]].
    apply stp_bind, stp_modify, stp_bind, stp_modify, stp_modify.
    assert (prefix_moved o n p = n ++ TrimPrefix p o) as Em by (unfold prefix_moved; by rewrite Epre). rewrite <-Em.
    fold (move_entry p (prefix_moved o n p) q w).
    rewrite <-(move_entry_tree _ _ _ _ _ Hok Hpq Ex). eapply stp_mono; [apply IH|by intros [] w' (? & -> & ?)].
    + by apply move_entry_ok.
    + done.
    + intros p' q' Hp'. assert (p' ∈ entries.*1) as Hp1 by (apply list_elem_of_fmap; by exists (p', q')).
      cbn. rewrite lookup_insert_ne, lookup_delete_ne; [apply Hin; by right|by intros ->|].
      intros Heq. apply (Hfresh p); [by left|done|]. rewrite Heq. by right.
    + intros p' Hp' Hpre Hmv. apply (Hfresh p'); [by right|done|by right].
  - apply stp_ret. eapply stp_mono; [apply IH; [done|done|by intros; apply Hin; right|]|done].
    intros p' Hp' Hpre Hmv. apply (Hfresh p'); [by right|done|by right].
Qed.

Lemma moved_prefixed o n p : has_prefix (o ++ [slash]) p = true → has_prefix (n ++ [slash]) (prefix_moved o n p) = true.
Proof.
  intros Hp. unfold prefix_moved. rewrite Hp. apply has_prefix_TrimPrefix in Hp as (k & -> & ->). apply has_prefix_spec.
  exists k. by rewrite <-app_assoc.
Qed.

Lemma moved_inj o n p p' :
  has_prefix (o ++ [slash]) p = true → has_prefix (o ++ [slash]) p' = true → prefix_moved o n p = prefix_moved o n p' → p = p'.
Proof.
  intros Hp Hp'. unfold prefix_moved. rewrite Hp, Hp'. apply has_prefix_TrimPrefix in Hp as (k & -> & ->).
  apply has_prefix_TrimPrefix in Hp' as (k' & -> & ->). intros Heq%(inj (app n)). by rewrite Heq.
Qed.

(** Where [p] is when the nodes of [l] have moved. *)
Definition dest (o n : gostring) (l : list gostring) (p : gostring) : gostring :=
  if decide (p ∈ l) then prefix_moved o n p else p.

Lemma dest_here o n p l : dest o n (p :: l) p = prefix_moved o n p.
Proof. unfold dest. by rewrite decide_True by (by left). Qed.
Lemma dest_out o n p l : p ∉ l → dest o n l p = p.
Proof. unfold dest. intros. by rewrite decide_False. Qed.
Lemma dest_ne o n p p0 l : p0 ≠ p → dest o n (p :: l) p0 = dest o n l p0.
Proof.
  intros Hne. unfold dest. destruct (decide (p0 ∈ l)); [by rewrite decide_True by (by right)|].
  rewrite decide_False; [done|]. by intros [?|?]%elem_of_cons.
Qed.

(** Moving the nodes one by one moves each to its place. *)
Lemma move_nodes o n l t r x :
  NoDup l → (∀ p, p ∈ l → is_Some (t !! p)) →
  (∀ p, p ∈ l → has_prefix (o ++ [slash]) p = true → t !! prefix_moved o n p = None) →
  foldl (move_node o n) t l !! r = Some x ↔ ∃ p, t !! p = Some x ∧ r = dest o n l p.
Proof.
  revert t. induction l as [|p l IH]; intros t Hnd Hin Hfree; cbn [foldl].
  { split; [intros Hx; exists r; by rewrite dest_out by apply not_elem_of_nil|].
    intros (p & Hp & ->). by rewrite dest_out by apply not_elem_of_nil. }
  apply NoDup_cons in Hnd as [Hpl Hnd]. destruct (Hin p (list_elem_of_here _ _)) as [y Hy].
  unfold move_node at 2. destruct (has_prefix (o ++ [slash]) p) eqn:Epre.
  - rewrite Hy. pose proof (Hfree p (list_elem_of_here _ _) Epre) as Hfp.
    assert (∀ p', p' ∈ l → p' ≠ p ∧ p' ≠ prefix_moved o n p) as Hne.
    { intros p' Hp'. split; [by intros ->|]. intros ->. destruct (Hin (prefix_moved o n p)) as [? ?]; [by right|]. congruence. }
    assert (dest o n l (prefix_moved o n p) = prefix_moved o n p) as Hd by (apply dest_out; intros Hm; by destruct (Hne _ Hm)).
    rewrite IH; [|done|..].
    + split.
      * intros (p0 & [[<- <-]|[_ [Hne1 Hp0]%lookup_delete_Some]]%lookup_insert_Some & ->).
        { exists p. by rewrite dest_here. }
        exists p0. by rewrite dest_ne.
      * intros (p0 & Hp0 & ->). destruct (decide (p0 = p)) as [->|Hne0].
        { exists (prefix_moved o n p). rewrite lookup_insert_eq, dest_here. split; congruence. }
        exists p0. rewrite lookup_insert_ne, lookup_delete_ne, dest_ne by congruence. done.
    + intros p' Hp'. destruct (Hne p' Hp'). rewrite lookup_insert_ne, lookup_delete_ne by done. apply Hin. by right.
    + intros p' Hp' Hpre'. rewrite lookup_insert_ne.
      2:{ intros Heq. apply Hpl. by rewrite (moved_inj o n p p' Epre Hpre' Heq). }
      apply lookup_delete_None. right. apply Hfree; [by right|done].
  - rewrite IH; [|done|by intros; apply Hin; right|by intros; apply Hfree; [right|]].
    assert (dest o n (p :: l) p = p) as Hid by (rewrite dest_here; unfold prefix_moved; by rewrite Epre).
    assert (∀ p0, dest o n (p :: l) p0 = dest o n l p0) as Hall.
    { intros p0. destruct (decide (p0 = p)) as [->|]; [|by apply dest_ne]. by rewrite Hid, dest_out. }
    by setoid_rewrite Hall.
Qed.

Lemma kmap_moved (o n : gostring) (t : tree) (r : gostring) (x : node) :
  (∀ p, is_Some (t !! p) → has_prefix (o ++ [slash]) p = true → t !! prefix_moved o n p = None) →
  (kmap (prefix_moved o n) t : tree) !! r = Some x ↔ ∃ p, t !! p = Some x ∧ r = prefix_moved o n p.
Proof.
  intros Hfree.
  assert (∀ p p', is_Some (t !! p) → is_Some (t !! p') → prefix_moved o n p = prefix_moved o n p' → p = p') as Hinj.
  { intros p p' Hp Hp' Heq. destruct (has_prefix (o ++ [slash]) p) eqn:E, (has_prefix (o ++ [slash]) p') eqn:E'.
    - by eapply moved_inj.
    - pose proof (Hfree p Hp E) as Hn. rewrite Heq in Hn. unfold prefix_moved in Hn. rewrite E' in Hn. rewrite Hn in Hp'. by destruct Hp'.
    - pose proof (Hfree p' Hp' E') as Hn. rewrite <-Heq in Hn. unfold prefix_moved in Hn. rewrite E in Hn. rewrite Hn in Hp. by destruct Hp.
    - unfold prefix_moved in Heq. by rewrite E, E' in Heq. }
  unfold kmap. split.
  - intros Hx%elem_of_list_to_map_2. apply list_elem_of_fmap in Hx as ([p y] & [= -> ->] & Hp%elem_of_map_to_list). by exists p.
  - intros (p & Hp & ->). apply elem_of_list_to_map_1'.
    + intros y ([p' z] & [= Heq ->] & Hp'%elem_of_map_to_list)%list_elem_of_fmap.
      rewrite (Hinj p p' (mk_is_Some _ _ Hp) (mk_is_Some _ _ Hp') Heq) in Hp. congruence.
    + apply list_elem_of_fmap. exists (p, x). by split; [|apply elem_of_map_to_list].
Qed.

Lemma move_all_nodes (o n : gostring) (t : tree) (l : list gostring) :
  l ≡ₚ (map_to_list t).*1 →
  (∀ p, is_Some (t !! p) → has_prefix (o ++ [slash]) p = true → t !! prefix_moved o n p = None) →
  foldl (move_node o n) t l = kmap (prefix_moved o n) t.
Proof.
  intros Hl Hfree.
  assert (∀ p, p ∈ l ↔ is_Some (t !! p)) as Hdom.
  { intros p. rewrite Hl, list_elem_of_fmap. split.
    - intros ([p' x] & -> & Hx%elem_of_map_to_list). by eexists.
    - intros [x Hx]. exists (p, x). by split; [|apply elem_of_map_to_list]. }
  apply map_eq. intros r. apply option_eq. intros x. rewrite kmap_moved by done.
  rewrite move_nodes; [|rewrite Hl; apply NoDup_fst_map_to_list|by intros p; apply Hdom|by intros p Hp%Hdom; apply Hfree].
  split; intros (p & Hp & ->); exists p; (split; [done|]); unfold dest; rewrite decide_True; [done| |done|]; apply Hdom; by eexists.
Qed.

Lemma rename_targets_free o n t :
  t !! o = Some DirNode → prefix_rename_ok o n t = true →
  ∀ p, is_Some (<[n := DirNode]> (delete o t) !! p) → has_prefix (o ++ [slash]) p = true →
    <[n := DirNode]> (delete o t) !! prefix_moved o n p = None.
Proof.
  intros Ho Hren p Hp Hpre. unfold prefix_rename_ok in Hren. rewrite Ho in Hren. apply andb_true_iff in Hren as [_ Hall].
  assert (∀ p, is_Some (t !! p) → has_prefix (n ++ [slash]) p = false) as Hn.
  { intros p' [x Hx]. rewrite forallb_forall in Hall. apply negb_true_iff, Hall, list_elem_of_In, list_elem_of_fmap.
    exists (p', x). by split; [|apply elem_of_map_to_list]. }
  pose proof (moved_prefixed o n p Hpre) as Hm.
  rewrite lookup_insert_ne.
  - apply lookup_delete_None. right. destruct (t !! prefix_moved o n p) eqn:E; [|done].
    rewrite (Hn (prefix_moved o n p)) in Hm by (by eexists). done.
  - intros Heq. rewrite <-Heq in Hm. apply has_prefix_spec in Hm as [k Hk].
    apply (f_equal length) in Hk. rewrite !length_app in Hk. cbn in Hk. lia.
Qed.

Lemma rename_ok_prefix o n (t : tree) :
  o ≠ [] → n ≠ [] → t !! o = Some DirNode → t !! n = None → rename_ok o n t = true →
  o ≠ [slash] ∧ n ≠ [slash] ∧ prefix_rename_ok o n t = true.
Proof.
  unfold rename_ok, prefix_rename_ok, inhabited. intros Ho0 Hn0 -> ->.
  rewrite !andb_true_iff, !negb_true_iff, !bool_decide_eq_false. intros [[[Ho Hn] Hb] Hi]. split; [done|]. split; [done|].
  split; [by rewrite <-below_prefix|]. apply forallb_forall. intros p Hp. apply negb_true_iff, not_true_iff_false.
  rewrite <-below_prefix by done. intros Hbp. apply not_true_iff_false in Hi. apply Hi, existsb_exists. eauto.
Qed.

Lemma stp_Share_Rename sh oldname newname o n w :
  mock_ok w → mounted w sh → normalizeMockPath oldname = o → normalizeMockPath newname = n → o ≠ [] → n ≠ [] →
  rename_ok o n (tree_of w) = true → serves (Share_Rename sh oldname newname) (t_rename o n) w.
Proof.
  intros Hok Hm Ho Hn Ho0 Hn0 Hren. unfold Share_Rename. rewrite Hn.
  apply (serves_on_path _ _ _ _ o (λ _, [ArgString n]) (λ oldname, w ← st_gets id; _)); [done..|].
  intros w1 Hok1 _ Hw1. rewrite <-Hw1 in Hren. apply stp_bind, stp_gets. cbn [id]. unfold t_rename.
  pose proof (data_at_tree w1 o Hok1) as Hd. destruct (data_at w1 o) as [[q d]|].
  2:{ destruct Hd as [_ ->]. apply stp_ret. split_and!; [done..| |done]. by eexists. }
  destruct Hd as (Hq & Hd & Hx). rewrite Hx. case_bool_decide as Hex.
  { destruct (tree_of w1 !! n) eqn:E; [|apply tree_None in E; [by destruct Hex as [? ?]; congruence|done]].
    destruct (node_of d); (apply stp_ret; split_and!; [done..| |done]; by eexists). }
  apply eq_None_not_Some in Hex. rewrite (proj2 (tree_None w1 n Hok1) Hex).
  apply stp_bind, stp_modify, stp_bind, stp_modify, stp_bind, stp_modify. fold (move_entry o n q w1).
  pose proof (move_entry_ok o n q w1 Hok1 Hq) as Hok2. pose proof (move_entry_tree o n q _ w1 Hok1 Hq Hx) as Ht2.
  unfold node_of in *. destruct (md_isDir d) eqn:Edir; cbn [fst snd].
  2:{ by apply stp_bind, stp_ret, stp_ret. }
  apply stp_bind, stp_bind, stp_gets. pose proof (tree_paths _ Hok2) as Hperm. rewrite Ht2 in Hperm.
  destruct (rename_ok_prefix o n (tree_of w1)) as (Hor & Hnr & Hpre); [done..|by apply tree_None|done|].
  pose proof (rename_targets_free o n (tree_of w1) Hx Hpre) as Hfree. clear Hpre.
  eapply stp_mono; [apply stp_rename_children; [done|apply NoDup_fst_map_to_list| |]|].
  - intros p q'. by rewrite elem_of_map_to_list.
  - intros p Hp Hpre. rewrite Hperm in Hp |- *. apply list_elem_of_fmap in Hp as ([p' x] & -> & Hp%elem_of_map_to_list).
    specialize (Hfree p' (mk_is_Some _ _ Hp) Hpre). intros ([r y] & Heq & Hr%elem_of_map_to_list)%list_elem_of_fmap.
    cbn in Heq, Hfree. rewrite Heq in Hfree. congruence.
  - intros [] w' (Hok' & Hm' & Ht'). apply stp_ret. split_and!; [done|by rewrite Hm'|done|].
    rewrite Ht', Ht2, move_all_nodes by done. unfold kmap. f_equal. apply list_fmap_ext. intros i [p x] _. cbn. by rewrite moved_prefix.
Qed.

Lemma stp_Share_Stat sh name n w :
  mock_ok w → mounted w sh → normalizeMockPath name = n →
  stp (Share_Stat sh name) (λ r w', mock_ok w' ∧ mw_mounts w' = mw_mounts w ∧ tree_of w' = tree_of w
    ∧ match tree_of w !! n with
      | None => r = inr (Sentinel ErrNotExist)
      | Some x => ∃ q d, r = inl q ∧ mw_data w' !! q = Some d ∧ x = node_of d
      end) w.
Proof.
  intros Hok Hm Hn. unfold Share_Stat. apply stp_on_path; [done..|]. rewrite Hn. apply stp_bind, stp_record.
  intros w1 Hg Hv. injection Hv as Hf Hd _. apply stp_bind, stp_gets, stp_ret.
  split_and!; [by apply (gr_ok _ _ Hg)|apply (gr_mounts _ _ Hg)|by apply tree_of_view|]. rewrite Hf.
  destruct (tree_of w !! n) as [x|] eqn:E.
  - apply tree_Some in E as (q & d & -> & Hd' & ->). exists q, d. by rewrite Hd.
  - apply tree_None in E as ->; done.
Qed.

(** ** Opening what is not a file to be written *)

(** Opens that fail, and a directory opened for reading. *)
Lemma stp_open_other sh name flag perm n w :
  mock_ok w → mounted w sh → normalizeMockPath name = n → has_flag flag O_EXCL = false →
  (tree_of w !! n = None ∧ has_flag flag O_CREATE = false) ∨ tree_of w !! n = Some DirNode →
  stp (Share_OpenFile sh name flag perm) (λ r w', mock_ok w' ∧ mw_mounts w' = mw_mounts w ∧ tree_of w' = tree_of w
    ∧ match tree_of w !! n with
      | None => r = inr (Sentinel ErrNotExist)
      | Some _ =>
        if has_flag flag (Z.lor O_WRONLY O_RDWR) then r = inr (new_error "is a directory")
        else ∃ f q d, r = inl f ∧ opened_at w' f n q flag 0 ∧ mw_data w' !! q = Some d ∧ md_isDir d = true
      end) w.
Proof.
  intros Hok Hm Hn Hexcl Hcase. unfold Share_OpenFile. apply stp_on_path; [done..|]. rewrite Hn.
  apply stp_bind, stp_record. intros w1 Hg Hv. injection Hv as Hf Hd _. apply stp_bind, stp_gets.
  assert (mock_ok w1) as Hok1 by (by apply (gr_ok _ _ Hg)). pose proof (gr_mounts _ _ Hg) as Hmm.
  pose proof (tree_of_view w w1 Hf Hd) as Ht. rewrite <-Ht in Hcase |- *. rewrite Hexcl. cbn [andb].
  pose proof (data_at_tree w1 n Hok1) as Hda. destruct (data_at w1 n) as [[q d]|].
  - destruct Hda as (Hq & Hdq & Hx). rewrite Hx in Hcase |- *. destruct Hcase as [[? _]|Hdir]; [done|].
    unfold node_of in Hdir. destruct (md_isDir d) eqn:Edir; [|done].
    rewrite bool_decide_false by done. cbn [andb]. apply stp_bind, stp_ret. cbn beta iota. rewrite Edir.
    destruct (has_flag flag (Z.lor O_WRONLY O_RDWR)); cbn [andb].
    { by apply stp_ret. }
    rewrite andb_false_r. apply stp_bind, stp_ret. apply stp_new_open; [done|]. intros f w' Ho Hf' Hd' Hmm'.
    split_and!; [apply Ho|congruence|by apply tree_of_view|]. exists f, q, d. rewrite Hd'. done.
  - destruct Hda as [_ Hx]. rewrite Hx in Hcase |- *. destruct Hcase as [[_ Hc]|?]; [|done]. rewrite Hc.
    rewrite bool_decide_true by done. by apply stp_ret.
Qed.

(** ** Listing a directory *)

Lemma string_lt_asym a b : string_lt a b = true → string_lt b a = false.
Proof.
  revert b. induction a as [|x a IH]; intros [|y b]; cbn; try done.
  destruct (Z.eqb_spec (Z_of_byte x) (Z_of_byte y)) as [->|Hne]; [rewrite Z.eqb_refl; apply IH|].
  rewrite (proj2 (Z.eqb_neq (Z_of_byte y) (Z_of_byte x))) by congruence.
  destruct (Z.ltb_spec (Z_of_byte x) (Z_of_byte y)); [|done]. intros _. apply Z.ltb_ge. lia.
Qed.

#[global] Instance name_le_total : Total name_le.
Proof.
  intros a b. unfold name_le. destruct (string_lt b a) eqn:E; [|by left]. right. by apply string_lt_asym.
Qed.

#[global] Instance name_le_antisymm : AntiSymm (=) name_le.
Proof.
  unfold name_le. intros a. induction a as [|x a IH]; intros [|y b]; cbn; try done.
  destruct (Z.eqb_spec (Z_of_byte y) (Z_of_byte x)) as [E|Hne].
  - rewrite E, Z.eqb_refl. apply (inj Z_of_byte) in E as ->. intros H1 H2. f_equal. by apply IH.
  - rewrite (proj2 (Z.eqb_neq (Z_of_byte x) (Z_of_byte y))) by congruence.
    intros H1%Z.ltb_ge H2%Z.ltb_ge. lia.
Qed.

#[global] Instance name_le_trans : Transitive name_le.
Proof.
  unfold name_le. intros a. induction a as [|x a IH]; intros [|y b] [|z c]; cbn; try done.
  destruct (Z.eqb_spec (Z_of_byte y) (Z_of_byte x)) as [E1|], (Z.eqb_spec (Z_of_byte z) (Z_of_byte y)) as [E2|];
    destruct (Z.eqb_spec (Z_of_byte z) (Z_of_byte x)) as [E3|]; try congruence; rewrite ?Z.ltb_ge; try lia.
  apply IH.
Qed.

Lemma insert_by_name_spec e l : Sorted name_le l.*1 →
  Sorted name_le (insert_by_name e l).*1 ∧ insert_by_name e l ≡ₚ e :: l.
Proof.
  induction l as [|e' l IH]; intros Hs; cbn [insert_by_name]; [by split; [repeat constructor|]|].
  cbn in Hs. inversion Hs as [|? ? Hs' Hh]; subst. destruct (string_lt e'.1 e.1) eqn:E.
  - destruct (IH Hs') as [Hs1 Hp]. split; [|by rewrite Hp; constructor]. cbn. constructor; [done|].
    assert (name_le e'.1 e.1) as Hle by (by apply string_lt_asym).
    destruct l as [|e2 l]; cbn in *; [by constructor|]. destruct (string_lt e2.1 e.1); cbn; constructor; [|done].
    by inversion Hh.
  - split; [|done]. cbn. by repeat constructor.
Qed.

Lemma sort_by_name_spec l : Sorted name_le (sort_by_name l).*1 ∧ sort_by_name l ≡ₚ l.
Proof.
  induction l as [|e l [Hs Hp]]; [by split; [constructor|]|]. cbn.
  destruct (insert_by_name_spec e (foldr insert_by_name [] l) Hs) as [? Hp']. split; [done|]. by rewrite Hp', Hp.
Qed.

Lemma children_names w dir : mock_ok w → dir ≠ [] →
  name_of w <$> children w dir = merge_sort name_le (Base <$> filter (λ p, child dir p = true) (map_to_list (tree_of w)).*1).
Proof.
  intros Hok Hdir.
  assert (∀ l, filter (λ p, child dir p = true) l = filter (λ p, is_child dir p = true) l) as ->
    by (intros l; apply list_filter_iff; intros p; by rewrite child_is_child).
  unfold children. set (L := map _ _). destruct (sort_by_name_spec L) as [Hs Hp].
  assert (name_of w <$> (sort_by_name L).*2 = (sort_by_name L).*1) as ->.
  { rewrite <-list_fmap_compose. apply list_fmap_ext. intros i [a q] Hi%list_elem_of_lookup_2. rewrite Hp in Hi.
    apply list_elem_of_fmap in Hi as ([p q'] & [= -> ->] & _). done. }
  apply (StronglySorted_unique name_le).
  - by apply Sorted_StronglySorted; [apply _|].
  - apply (StronglySorted_merge_sort name_le).
  - rewrite merge_sort_Permutation, Hp. unfold L. change (map ?f) with (fmap (M := list) f). rewrite <-list_fmap_compose.
    rewrite <-(tree_paths w Hok).
    assert (∀ es : list (gostring * ptr), (∀ p q, (p, q) ∈ es → mb_files (mw_backend w) !! p = Some q) →
      (fst ∘ λ e : gostring * ptr, (name_of w e.2, e.2)) <$> filter (λ e, is_child dir e.1 = true) es
      = Base <$> filter (λ p, is_child dir p = true) es.*1) as Hes.
    { intros es Hes. induction es as [|[p q] es IH]; [done|]. cbn [fmap list_fmap fst].
      specialize (IH (λ p q H, Hes p q (list_elem_of_further _ _ _ H))).
      destruct (decide (is_child dir p = true)).
      - rewrite !filter_cons_True by done. cbn. f_equal; [|done]. pose proof (Hes p q (list_elem_of_here _ _)) as Hq.
        destruct (mo_files _ Hok _ _ Hq) as [d Hd]. unfold name_of. rewrite Hd. by eapply mo_names.
      - by rewrite !filter_cons_False. }
    rewrite Hes; [done|]. intros p q. apply elem_of_map_to_list.
Qed.

Lemma stp_readdir f n q flag off d w :
  opened_at w f n q flag off → mw_data w !! q = Some d → md_isDir d = true →
  stp (MockFile_Readdir f (-1)) (λ r w', r = inl (children w n) ∧ w' = w) w.
Proof.
  intros [Hok Ho] Hd Hdir. unfold MockFile_Readdir. apply stp_bind, stp_gets. cbn [id]. unfold open_file. rewrite Ho. cbn.
  rewrite Hd. cbn. rewrite Hdir, no_error by done. by apply stp_ret.
Qed.

(** [Stat] and [Close] of an open directory. *)
Lemma stp_dir_stat f n q flag off d w :
  opened_at w f n q flag off → mw_data w !! q = Some d → stp (MockFile_Stat f) (λ r w', r = inl q ∧ w' = w) w.
Proof.
  intros [Hok Ho] Hd. unfold MockFile_Stat. apply stp_bind, stp_gets. cbn [id]. unfold open_file. rewrite Ho. cbn.
  rewrite Hd. cbn. rewrite no_error by done. by apply stp_ret.
Qed.

Lemma stp_dir_close f n q flag off w :
  opened_at w f n q flag off →
  stp (MockFile_Close f) (λ r w', r = None ∧ mock_ok w' ∧ tree_of w' = tree_of w ∧ mw_mounts w' = mw_mounts w) w.
Proof.
  intros [Hok Ho]. unfold MockFile_Close. apply stp_bind, stp_gets. cbn [id]. rewrite Ho.
  apply stp_bind, stp_modify. apply stp_bind, stp_record. intros w1 Hg Hv. injection Hv as Hv1 Hv2 _. apply stp_ret.
  split; [done|]. split; [apply (gr_ok _ _ Hg), mock_ok_opens; [done|by rewrite Ho]|].
  split; [by apply tree_of_view|apply (gr_mounts _ _ Hg)].
Qed.
