(* ===== verification/Client.v ===== *)
(** * The client file system

    Models [filesystem.go], [file.go] and [shares.go].  A method is a
    computation over [FileSystem]: the configuration, the connection pool, the
    metadata cache, whether the context is cancelled, and the world of the SMB
    library.  A method of [File] takes the file object and returns it
    updated.

    A method runs without interruption by other goroutines (their
    interleaving inside the pool is the subject of [Pool.v]): a [get] that has
    to wait is ended by its timer, and the context is cancelled only by
    [Close].  The clock is read once for the whole scan of [get]. *)

From stdpp Require Import base numbers list gmap sets fin_maps strings.
From S2P Require Import Prelude Unicode Errors Path Retry HandleMap Attributes Cache Absfs Config Pool.

Open Scope Z_scope.

Section client.
Context `{UnicodeTables} `{SMBLib}.

(** ** Data *)

Record fileInfo := mkInfo { in_stat : StatInfo; in_name : gostring }.
Record dirEntry := mkDirEntry { de_info : fileInfo }.

Record FileSystem := mkFS {
  fs_config : Config;
  fs_pool : connectionPool;
  fs_cache : @metadataCache (list dirEntry) fileInfo;
  fs_cancelled : bool;
  fs_w : cworld;
}.

Record File := mkFile {
  f_conn : option ptr;
  f_file : option SMBFile;
  f_path : gostring;
  f_offset : Z;
  f_dirEntry : option (list dirEntry);
  f_dirPos : nat;
}.

Definition set_pool (p : connectionPool) (s : FileSystem) : FileSystem :=
  mkFS (fs_config s) p (fs_cache s) (fs_cancelled s) (fs_w s).
Definition on_cache (f : @metadataCache (list dirEntry) fileInfo → @metadataCache (list dirEntry) fileInfo) (s : FileSystem) : FileSystem :=
  mkFS (fs_config s) (fs_pool s) (f (fs_cache s)) (fs_cancelled s) (fs_w s).
Definition set_cworld (w : cworld) (s : FileSystem) : FileSystem :=
  mkFS (fs_config s) (fs_pool s) (fs_cache s) (fs_cancelled s) w.

Definition set_file_offset (off : Z) (f : File) : File :=
  mkFile (f_conn f) (f_file f) (f_path f) off (f_dirEntry f) (f_dirPos f).
Definition set_dir (entries : option (list dirEntry)) (pos : nat) (f : File) : File :=
  mkFile (f_conn f) (f_file f) (f_path f) (f_offset f) entries pos.

(** A call of the library. *)
Definition call {A} (f : cworld → A * cworld) : M FileSystem A := λ s,
  let '(a, w) := f (fs_w s) in Ok (a, set_cworld w s).

Definition now : M FileSystem Z := call c_now.

Definition modify_pool (f : connectionPool → connectionPool) : M FileSystem unit :=
  modify (λ s, set_pool (f (fs_pool s)) s).

(** ** fileInfo and dirEntry *)

Definition info_Name (fi : fileInfo) : gostring := in_name fi.
Definition info_Size (fi : fileInfo) (w : cworld) : Z := st_Size (in_stat fi) w.
Definition info_Mode (fi : fileInfo) (w : cworld) : Z := st_Mode (in_stat fi) w.
Definition info_ModTime (fi : fileInfo) (w : cworld) : Z := st_ModTime (in_stat fi) w.
Definition info_IsDir (fi : fileInfo) (w : cworld) : bool := st_IsDir (in_stat fi) w.
(** A placeholder in the source. *)
Definition info_WindowsAttributes (fi : fileInfo) : option WindowsAttributes := None.

Definition entry_Name (de : dirEntry) : gostring := info_Name (de_info de).
Definition entry_IsDir (de : dirEntry) (w : cworld) : bool := info_IsDir (de_info de) w.
Definition entry_Type (de : dirEntry) (w : cworld) : Z := Z.land (info_Mode (de_info de) w) ModeType.
Definition entry_Info (de : dirEntry) : fileInfo := de_info de.

(** ** Errors *)

Definition wrap (op : string) (path : gostring) (e : error) : error :=
  default e (wrapPathError (str op) path (Some e)).
Definition convert (e : error) : error := default e (convertError (Some e)).

(** [err == io.EOF] *)
Definition is_EOF (e : error) : bool := match e with Sentinel EOF => true | _ => false end.

(** ** Connections *)

(** [fsys.pool.get(fsys.ctx)] *)
Definition pool_get : M FileSystem (ptr + error) :=
  t ← now;
  p ← gets fs_pool;
  match get_locked (λ _, t) t p with
  | Panic => panic
  | Ok (g, p) =>
    modify (set_pool p);;
    match g with
    | GotConn c => mret (inl c)
    | GotError e => mret (inr e)
    | Reserved =>
      config ← gets fs_config;
      r ← call (CreateConnection config);
      match r with
      | inr e => modify_pool create_failed;; mret (inr e)
      | inl (session, share) =>
        createdAt ← now;
        lastUsed ← now;
        p ← gets fs_pool;
        let '(c, p) := add_connection session share createdAt lastUsed p in
        modify (set_pool p);;
        mret (inl c)
      end
    | Waiting _ => mret (inr (Sentinel ErrPoolExhausted))
    end
  end.

Definition pool_put (c : ptr) : M FileSystem unit :=
  t ← now;
  modify_pool (put t c).

(** [conn.share]; calling a method of a nil share panics. *)
Definition conn_share (c : ptr) : M FileSystem SMBShare :=
  p ← gets fs_pool;
  lift_option (p_heap p !! c ≫= pc_share).

(** ** Retries *)

Section retrying.
Context {A : Type} (op : M FileSystem (A + error)).

(** One attempt: the variable the closure assigns beside the state, and the
    panic that ends the program. *)
Definition attempt (st : outcome (FileSystem * option A)) : option error * outcome (FileSystem * option A) :=
  match st with
  | Panic => (None, Panic)
  | Ok (s, result) =>
    match op s with
    | Panic => (None, Panic)
    | Ok (inl a, s) => (None, Ok (s, Some a))
    | Ok (inr e, s) => (Some e, Ok (s, result))
    end
  end.

Definition ctx_error (st : outcome (FileSystem * option A)) : option error :=
  match st with
  | Ok (s, _) => if fs_cancelled s then Some (Sentinel ContextCanceled) else None
  | Panic => None
  end.

(** [fsys.withRetry(fsys.ctx, op)] *)
Definition with_retry : M FileSystem (A + error) := λ s,
  match withRetry attempt ctx_error (λ _ st, (ctx_error st, st)) (cf_RetryPolicy (fs_config s)) (Ok (s, None)) with
  | (Some e, Ok (s, _), _) => Ok (inr e, s)
  | (None, Ok (s, Some a), _) => Ok (inl a, s)
  | _ => Panic
  end.
End retrying.

(** ** File *)

Definition File_Name (f : File) : gostring := f_path f.

Definition File_Read (n : Z) (f : File) : M FileSystem (bytes * option error * File) :=
  match f_file f with
  | None => mret ([], Some (Sentinel ErrClosed), f)
  | Some file =>
    '(p, err) ← call (sf_Read file n);
    match err with
    | Some e =>
      if is_EOF e then mret (p, err, set_file_offset (s64 (f_offset f + len p)) f)
      else mret (p, Some (wrap "read" (f_path f) e), f)
    | None => mret (p, None, set_file_offset (s64 (f_offset f + len p)) f)
    end
  end.

Definition File_Write (p : bytes) (f : File) : M FileSystem (Z * option error * File) :=
  match f_file f with
  | None => mret (0, Some (Sentinel ErrClosed), f)
  | Some file =>
    '(n, err) ← call (sf_Write file p);
    match err with
    | Some e => mret (n, Some (wrap "write" (f_path f) e), f)
    | None => mret (n, None, set_file_offset (s64 (f_offset f + n)) f)
    end
  end.

Definition File_WriteString (s : gostring) (f : File) : M FileSystem (Z * option error * File) := File_Write s f.

Definition File_Seek (offset whence : Z) (f : File) : M FileSystem ((Z + error) * File) :=
  match f_file f with
  | None => mret (inr (Sentinel ErrClosed), f)
  | Some file =>
    r ← call (sf_Seek file offset whence);
    match r with
    | inr e => mret (inr (wrap "seek" (f_path f) e), f)
    | inl newOffset => mret (inl newOffset, set_file_offset newOffset f)
    end
  end.

Definition File_Close (f : File) : M FileSystem (option error * File) :=
  match f_file f with
  | None => mret (None, f)
  | Some file =>
    err ← call (sf_Close file);
    match f_conn f with
    | Some c => pool_put c
    | None => mret tt
    end;;
    mret (wrap "close" (f_path f) <$> err,
          mkFile None None (f_path f) (f_offset f) (f_dirEntry f) (f_dirPos f))
  end.

Definition File_Stat (f : File) : M FileSystem (fileInfo + error) :=
  match f_file f with
  | None => mret (inr (Sentinel ErrClosed))
  | Some file =>
    config ← gets fs_config;
    r ← call (sf_Stat file);
    match r with
    | inr e => mret (inr (wrap "stat" (f_path f) e))
    | inl stat => mret (inl (mkInfo stat (pn_base (cf_CaseSensitive config) (f_path f))))
    end
  end.

(** Writing [remaining] zeros, at most 4096 at a time. *)
Fixpoint write_zeros (fuel : nat) (file : SMBFile) (remaining : Z) : M FileSystem (option error) :=
  match fuel with
  | O => mret None
  | S fuel =>
    if remaining <=? 0 then mret None
    else
      let toWrite := if 4096 <? remaining then 4096 else remaining in
      '(_, err) ← call (sf_Write file (zeros (Z.to_nat toWrite)));
      match err with
      | Some e => mret (Some e)
      | None => write_zeros fuel file (remaining - toWrite)
      end
  end.

(** The number of rounds that [write_zeros] needs. *)
Definition zero_rounds (remaining : Z) : nat := Z.to_nat ((remaining + 4095) / 4096).

Definition File_Truncate (size : Z) (f : File) : M FileSystem (option error) :=
  match f_file f with
  | None => mret (Some (Sentinel ErrClosed))
  | Some file =>
    r ← call (sf_Stat file);
    match r with
    | inr e => mret (Some (wrap "truncate" (f_path f) e))
    | inl info =>
      currentSize ← gets (λ s, st_Size info (fs_w s));
      if size =? currentSize then mret None
      else if size <? currentSize then
        r ← call (sf_Seek file size SeekStart);
        match r with
        | inr e => mret (Some (wrap "truncate" (f_path f) e))
        | inl _ =>
          '(_, err) ← call (sf_Write file []);
          mret (wrap "truncate" (f_path f) <$> err)
        end
      else
        r ← call (sf_Seek file 0 SeekEnd);
        match r with
        | inr e => mret (Some (wrap "truncate" (f_path f) e))
        | inl _ =>
          let remaining := s64 (size - currentSize) in
          err ← write_zeros (zero_rounds remaining) file remaining;
          mret (wrap "truncate" (f_path f) <$> err)
        end
    end
  end.

(** The position is restored after the transfer; a failure to restore it is
    reported when there was no other error. *)
Definition restored (op : string) (f : File) (err : option error) (seek : Z + error) : option error :=
  match err, seek with
  | None, inr e => Some (wrap op (f_path f) e)
  | _, _ => err
  end.

Definition File_ReadAt (n : Z) (off : Z) (f : File) : M FileSystem (bytes * option error) :=
  match f_file f with
  | None => mret ([], Some (Sentinel ErrClosed))
  | Some file =>
    let currentPos := f_offset f in
    r ← call (sf_Seek file off SeekStart);
    match r with
    | inr e => mret ([], Some (wrap "readat" (f_path f) e))
    | inl _ =>
      '(b, err) ← call (sf_Read file n);
      back ← call (sf_Seek file currentPos SeekStart);
      match restored "readat" f err back with
      | Some e => mret (b, Some (if is_EOF e then e else wrap "readat" (f_path f) e))
      | None => mret (b, None)
      end
    end
  end.

Definition File_WriteAt (b : bytes) (off : Z) (f : File) : M FileSystem (Z * option error) :=
  match f_file f with
  | None => mret (0, Some (Sentinel ErrClosed))
  | Some file =>
    let currentPos := f_offset f in
    r ← call (sf_Seek file off SeekStart);
    match r with
    | inr e => mret (0, Some (wrap "writeat" (f_path f) e))
    | inl _ =>
      '(n, err) ← call (sf_Write file b);
      back ← call (sf_Seek file currentPos SeekStart);
      mret (n, wrap "writeat" (f_path f) <$> restored "writeat" f err back)
    end
  end.

Definition File_Sync (f : File) : option error :=
  match f_file f with None => Some (Sentinel ErrClosed) | Some _ => None end.

(** ["."] and [".."] are skipped. *)
Definition dir_entries (infos : list StatInfo) (w : cworld) : list dirEntry :=
  map (λ e, mkDirEntry (mkInfo e (st_Name e w)))
    (filter (λ e, st_Name e w ≠ [dot] ∧ st_Name e w ≠ dotdot) infos).

(** From the entries read so far; the file's position moves. *)
Definition next_entries (n : Z) (entries : list dirEntry) (f : File) : M FileSystem ((list dirEntry + error) * File) :=
  if n <=? 0 then
    let rest := drop (f_dirPos f) entries in
    let f := set_dir (Some entries) (length entries) f in
    mret (if len rest =? 0 then inr (Sentinel EOF) else inl rest, f)
  else if (length entries <=? f_dirPos f)%nat then mret (inr (Sentinel EOF), set_dir (Some entries) (f_dirPos f) f)
  else
    let end_ := s64 (Z.of_nat (f_dirPos f) + n) in
    let end_ := if len entries <? end_ then len entries else end_ in
    page ← lift_option (slice entries (Z.of_nat (f_dirPos f)) end_);
    mret (inl page, set_dir (Some entries) (Z.to_nat end_) f).

Definition File_ReadDir (n : Z) (f : File) : M FileSystem ((list dirEntry + error) * File) :=
  match f_file f with
  | None => mret (inr (Sentinel ErrClosed), f)
  | Some file =>
    match f_dirEntry f with
    | Some entries => next_entries n entries f
    | None =>
      r ← call (sf_Readdir file (-1));
      match r with
      | inr e => mret (inr (wrap "readdir" (f_path f) e), f)
      | inl infos =>
        entries ← gets (λ s, dir_entries infos (fs_w s));
        next_entries n entries (set_dir (Some entries) 0 f)
      end
    end
  end.

Definition File_Readdir (n : Z) (f : File) : M FileSystem ((list fileInfo + error) * File) :=
  match f_file f with
  | None => mret (inr (Sentinel ErrClosed), f)
  | Some _ =>
    '(r, f) ← File_ReadDir n f;
    mret (match r with inr e => inr e | inl entries => inl (map entry_Info entries) end, f)
  end.

Definition File_Readdirnames (n : Z) (f : File) : M FileSystem ((list gostring + error) * File) :=
  match f_file f with
  | None => mret (inr (Sentinel ErrClosed), f)
  | Some _ =>
    '(r, f) ← File_ReadDir n f;
    mret (match r with inr e => inr e | inl entries => inl (map entry_Name entries) end, f)
  end.

(** ** FileSystem *)

(** [New]; a nil configuration is [None]. *)
Definition New (config : option Config) (w : cworld) : outcome (FileSystem + error) :=
  match config with
  | None => Ok (inr (Sentinel ErrInvalidConfig))
  | Some config =>
    let config := setDefaults config in
    match Validate config with
    | Some err => Ok (inr err)
    | None =>
      match newConnectionPool config with
      | Panic => Panic
      | Ok pool =>
        match newMetadataCache (cf_Cache config) with
        | Panic => Panic
        | Ok cache => if startCleanup pool then Ok (inl (mkFS config pool cache false w)) else Panic
        end
      end
    end
  end.

(** The same with the connections of the given factory, which is the
    [CreateConnection] of the library here. *)
Definition NewWithFactory (config : option Config) (w : cworld) : outcome (FileSystem + error) := New config w.

(** The start of a method: the path is validated and normalised. *)
Definition with_path {A} (op : string) (name : gostring) (k : gostring → M FileSystem (A + error))
    : M FileSystem (A + error) :=
  if negb (validatePath name) then mret (inr (wrap op name (Sentinel ErrInvalidPath)))
  else
    config ← gets fs_config;
    k (normalize (cf_CaseSensitive config) name).

Definition invalidate_path (name : gostring) : M FileSystem unit := modify (on_cache (invalidate name)).

Definition wrap_result {A} (op : string) (name : gostring) (r : A + error) : A + error :=
  match r with inl a => inl a | inr e => inr (wrap op name e) end.

Definition OpenFile (name : gostring) (flag perm : Z) : M FileSystem (File + error) :=
  with_path "open" name (λ name,
    let smbPath := toSMBPath name in
    r ← with_retry (
      conn ← pool_get;
      match conn with
      | inr e => mret (inr e)
      | inl c =>
        share ← conn_share c;
        file ← call (sh_OpenFile share smbPath flag perm);
        match file with
        | inr e => pool_put c;; mret (inr (convert e))
        | inl file => mret (inl (mkFile (Some c) (Some file) name 0 None 0))
        end
      end);
    match r with
    | inr e => mret (inr (wrap "open" name e))
    | inl file =>
      (if has_flag flag O_CREATE then invalidate_path name else mret tt);;
      mret (inl file)
    end).

Definition Open (name : gostring) : M FileSystem (File + error) := OpenFile name O_RDONLY 0.

Definition Create (name : gostring) : M FileSystem (File + error) :=
  OpenFile name (Z.lor O_RDWR (Z.lor O_CREATE O_TRUNC)) perm_666.

Definition Stat (name : gostring) : M FileSystem (fileInfo + error) :=
  with_path "stat" name (λ name,
    t ← now;
    cached ← gets (λ s, getStatInfo t name (fs_cache s));
    match cached with
    | Some info => mret (inl info)
    | None =>
      let smbPath := toSMBPath name in
      r ← with_retry (
        conn ← pool_get;
        match conn with
        | inr e => mret (inr e)
        | inl c =>
          share ← conn_share c;
          config ← gets fs_config;
          stat ← call (sh_Stat share smbPath);
          pool_put c;;
          mret (match stat with
                | inr e => inr (convert e)
                | inl stat => inl (mkInfo stat (pn_base (cf_CaseSensitive config) name))
                end)
        end);
      match r with
      | inr e => mret (inr (wrap "stat" name e))
      | inl info =>
        t ← now;
        modify (on_cache (putStatInfo t name info));;
        mret (inl info)
      end
    end).

Definition Lstat (name : gostring) : M FileSystem (fileInfo + error) := Stat name.

(** [defer f.Close()] *)
Definition closing {A} (f : File) (m : M FileSystem (A * File)) : M FileSystem A :=
  '(a, f) ← m;
  File_Close f;;
  mret a.

Definition ReadDir (name : gostring) : M FileSystem (list dirEntry + error) :=
  with_path "readdir" name (λ name,
    t ← now;
    cached ← gets (λ s, getDirEntries t name (fs_cache s));
    match cached with
    | Some entries => mret (inl entries)
    | None =>
      r ← Open name;
      match r with
      | inr e => mret (inr e)
      | inl f =>
        closing f (
          info ← File_Stat f;
          match info with
          | inr e => mret (inr (wrap "readdir" name e), f)
          | inl info =>
            isDir ← gets (λ s, info_IsDir info (fs_w s));
            if negb isDir then mret (inr (wrap "readdir" name (Sentinel ErrNotDirectory)), f)
            else
              '(r, f) ← File_ReadDir (-1) f;
              match r with
              | inr e => mret (inr e, f)
              | inl entries =>
                t ← now;
                modify (on_cache (putDirEntries t name entries));;
                mret (inl entries, f)
              end
          end)
      end
    end).

(** The body of the methods that change one path: [Mkdir], [Remove],
    [Rename], [Chmod] and [Chtimes]. The paths in [stale] are invalidated. *)
Definition on_share (op : string) (name : gostring) (stale : list gostring)
    (f : SMBShare → cworld → option error * cworld) : M FileSystem (unit + error) :=
  conn ← pool_get;
  match conn with
  | inr e => mret (inr (wrap op name e))
  | inl c =>
    share ← conn_share c;
    err ← call (f share);
    r ← match err with
      | Some e => mret (inr (wrap op name (convert e)))
      | None => modify (on_cache (λ c, foldl (λ c p, invalidate p c) c stale));; mret (inl tt)
      end;
    pool_put c;;
    mret r
  end.

Definition Mkdir (name : gostring) (perm : Z) : M FileSystem (unit + error) :=
  with_path "mkdir" name (λ name,
    on_share "mkdir" name [name] (λ share, sh_Mkdir share (toSMBPath name) perm)).

Definition Remove (name : gostring) : M FileSystem (unit + error) :=
  with_path "remove" name (λ name,
    on_share "remove" name [name] (λ share, sh_Remove share (toSMBPath name))).

Definition Rename (oldname newname : gostring) : M FileSystem (unit + error) :=
  with_path "rename" oldname (λ oldname,
  with_path "rename" newname (λ newname,
    on_share "rename" oldname [oldname; newname]
      (λ share, sh_Rename share (toSMBPath oldname) (toSMBPath newname)))).

Definition Chmod (name : gostring) (mode : Z) : M FileSystem (unit + error) :=
  with_path "chmod" name (λ name,
    on_share "chmod" name [name] (λ share, sh_Chmod share (toSMBPath name) mode)).

Definition Chown (name : gostring) (uid gid : Z) : M FileSystem (unit + error) :=
  mret (inr (wrap "chown" name (Sentinel ErrNotImplemented))).

Definition Chtimes (name : gostring) (atime mtime : Z) : M FileSystem (unit + error) :=
  with_path "chtimes" name (λ name,
    on_share "chtimes" name [name] (λ share, sh_Chtimes share (toSMBPath name) atime mtime)).

(** Each level removes a component of the path. *)
Fixpoint MkdirAll (fuel : nat) (name : gostring) (perm : Z) : M FileSystem (unit + error) :=
  match fuel with
  | O => panic
  | S fuel =>
    with_path "mkdir" name (λ name,
      stat ← Stat name;
      match stat with
      | inl stat =>
        isDir ← gets (λ s, info_IsDir stat (fs_w s));
        mret (if negb isDir then inr (wrap "mkdir" name (Sentinel ErrNotDirectory)) else inl tt)
      | inr _ =>
        config ← gets fs_config;
        let parent := pn_dir (cf_CaseSensitive config) name in
        r ← (if negb (bool_decide (parent = [slash])) && negb (bool_decide (parent = [dot]))
             then MkdirAll fuel parent perm else mret (inl tt));
        match r with
        | inr e => mret (inr e)
        | inl _ => Mkdir name perm
        end
      end)
  end.

(** Each level goes one directory down; [fuel] bounds the depth. *)
Fixpoint RemoveAll (fuel : nat) (name : gostring) : M FileSystem (unit + error) :=
  match fuel with
  | O => panic
  | S fuel =>
    with_path "remove" name (λ name,
      stat ← Stat name;
      match stat with
      | inr e => mret (if os_IsNotExist e then inl tt else inr e)
      | inl info =>
        isDir ← gets (λ s, info_IsDir info (fs_w s));
        if negb isDir then Remove name
        else
          r ← ReadDir name;
          match r with
          | inr e => mret (inr e)
          | inl entries =>
            config ← gets fs_config;
            r ← (fix remove_children (entries : list dirEntry) : M FileSystem (unit + error) :=
                   match entries with
                   | [] => mret (inl tt)
                   | entry :: entries =>
                     r ← RemoveAll fuel (pn_join (cf_CaseSensitive config) [name; entry_Name entry]);
                     match r with
                     | inr e => mret (inr e)
                     | inl _ => remove_children entries
                     end
                   end) entries;
            match r with
            | inr e => mret (inr e)
            | inl _ => Remove name
            end
          end
      end)
  end.

Definition TempDir : gostring := str "/tmp".

Definition Truncate (name : gostring) (size : Z) : M FileSystem (unit + error) :=
  with_path "truncate" name (λ name,
    r ← OpenFile name O_WRONLY 0;
    match r with
    | inr e => mret (inr e)
    | inl f =>
      closing f (
        err ← File_Truncate size f;
        match err with
        | Some e => mret (inr (wrap "truncate" name e), f)
        | None => invalidate_path name;; mret (inl tt, f)
        end)
    end).

Definition FS_Close : M FileSystem (option error) :=
  modify (λ s, mkFS (fs_config s) (fs_pool s) (fs_cache s) true (fs_w s));;
  modify_pool Pool_Close;;
  mret None.

Definition convertFlags (flag : Z) : Z * Z :=
  let m := Z.land flag (Z.lor O_RDONLY (Z.lor O_WRONLY O_RDWR)) in
  let accessMode :=
    if m =? O_RDONLY then 0x80000000
    else if m =? O_WRONLY then 0x40000000
    else if m =? O_RDWR then 0xC0000000
    else 0 in
  let createDisposition :=
    if has_flag flag O_CREATE && has_flag flag O_EXCL then 1
    else if has_flag flag O_CREATE && has_flag flag O_TRUNC then 2
    else if has_flag flag O_CREATE then 4
    else if has_flag flag O_TRUNC then 5
    else 3 in
  (accessMode, createDisposition).

Definition Chdir (dir : gostring) : M FileSystem (unit + error) :=
  with_path "chdir" dir (λ dir,
    info ← Stat dir;
    match info with
    | inr e => mret (inr e)
    | inl info =>
      isDir ← gets (λ s, info_IsDir info (fs_w s));
      mret (if negb isDir then inr (wrap "chdir" dir (Sentinel ErrNotDirectory)) else inl tt)
    end).

Definition Getwd : gostring := [slash].

(** [io.ReadFull(f, buf)]: the bytes read and the error. A round reads at
    least one byte or fails, so [size] rounds are enough. *)
Fixpoint read_full (fuel : nat) (size : Z) (acc : bytes) (f : File) : M FileSystem (bytes * option error * File) :=
  if size <=? len acc then mret (acc, None, f)
  else
    match fuel with
    | O => panic
    | S fuel =>
      '(p, err, f) ← File_Read (size - len acc) f;
      let acc := acc ++ p in
      match err with
      | None => read_full fuel size acc f
      | Some e =>
        if size <=? len acc then mret (acc, None, f)
        else if (0 <? len acc) && is_EOF e then mret (acc, Some (Sentinel ErrUnexpectedEOF), f)
        else mret (acc, Some e, f)
      end
    end.

(** The errors [ReadFile] overlooks. *)
Definition end_of_file (e : error) : bool :=
  match e with Sentinel EOF | Sentinel ErrUnexpectedEOF => true | _ => false end.

Definition ReadFile (name : gostring) : M FileSystem (bytes + error) :=
  with_path "readfile" name (λ name,
    r ← Open name;
    match r with
    | inr e => mret (inr e)
    | inl f =>
      closing f (
        info ← File_Stat f;
        match info with
        | inr e => mret (inr (wrap "readfile" name e), f)
        | inl info =>
          isDir ← gets (λ s, info_IsDir info (fs_w s));
          if isDir : bool then mret (inr (wrap "readfile" name (Sentinel ErrNotDirectory)), f)
          else
            size ← gets (λ s, info_Size info (fs_w s));
            if size <? 0 then panic
            else
              '(buf, err, f) ← read_full (Z.to_nat size) size [] f;
              match err with
              | Some e => if end_of_file e then mret (inl buf, f) else mret (inr (wrap "readfile" name e), f)
              | None => mret (inl buf, f)
              end
        end)
    end).

(** ** subFS *)

Definition sub_joinPath (root name : gostring) : M FileSystem gostring :=
  if negb (validatePath name) then mret name
  else
    config ← gets fs_config;
    let name := normalize (cf_CaseSensitive config) name in
    mret (pn_join (cf_CaseSensitive config) [root; name]).

Definition sub_OpenFile (root name : gostring) (flag perm : Z) : M FileSystem (File + error) :=
  p ← sub_joinPath root name; OpenFile p flag perm.
Definition sub_Mkdir (root name : gostring) (perm : Z) : M FileSystem (unit + error) :=
  p ← sub_joinPath root name; Mkdir p perm.
Definition sub_Remove (root name : gostring) : M FileSystem (unit + error) :=
  p ← sub_joinPath root name; Remove p.
Definition sub_Rename (root oldpath newpath : gostring) : M FileSystem (unit + error) :=
  p ← sub_joinPath root oldpath; q ← sub_joinPath root newpath; Rename p q.
Definition sub_Stat (root name : gostring) : M FileSystem (fileInfo + error) :=
  p ← sub_joinPath root name; Stat p.
Definition sub_Chmod (root name : gostring) (mode : Z) : M FileSystem (unit + error) :=
  p ← sub_joinPath root name; Chmod p mode.
Definition sub_Chtimes (root name : gostring) (atime mtime : Z) : M FileSystem (unit + error) :=
  p ← sub_joinPath root name; Chtimes p atime mtime.
Definition sub_Chown (root name : gostring) (uid gid : Z) : M FileSystem (unit + error) :=
  p ← sub_joinPath root name; Chown p uid gid.
Definition sub_ReadDir (root name : gostring) : M FileSystem (list dirEntry + error) :=
  p ← sub_joinPath root name; ReadDir p.
Definition sub_ReadFile (root name : gostring) : M FileSystem (bytes + error) :=
  p ← sub_joinPath root name; ReadFile p.

(** ** shares.go *)

Definition ShareTypeDisk : Z := 0x00000000.
Definition ShareTypePrintQueue : Z := 0x00000001.
Definition ShareTypeDevice : Z := 0x00000002.
Definition ShareTypeIPC : Z := 0x00000003.
Definition ShareTypeSpecial : Z := 0x80000000.
Definition ShareTypeTemporary : Z := 0x40000000.

Definition ShareType_String (st : Z) : gostring :=
  if st =? ShareTypeDisk then str "Disk"
  else if st =? ShareTypePrintQueue then str "Print Queue"
  else if st =? ShareTypeDevice then str "Device"
  else if st =? ShareTypeIPC then str "IPC"
  else if st =? ShareTypeSpecial then str "Special"
  else if st =? ShareTypeTemporary then str "Temporary"
  else str "Unknown(" ++ format_d st ++ str ")".

Record ShareInfo := mkShareInfo { si_Name : gostring; si_Type : Z; si_Comment : gostring }.

Definition FS_ListShares (s : FileSystem) : list ShareInfo :=
  [mkShareInfo (cf_Share (fs_config s)) ShareTypeDisk (str "Current share")].

(** ** Lemmas: connections

    [pool_ok cfg hs p]: the pool is open, its invariant holds with the
    connections [hs] in the hands of users, nobody waits or has given up
    waiting, and the listed connections have their share. *)
Record pool_ok (cfg : Config) (hs : list ptr) (p : connectionPool) : Prop := {
  po_inv : pool_inv (mkUsers p 0 [] hs);
  po_config : p_config p = cfg;
  po_open : p_closed p = false;
  po_waiters : p_waiters p = [];
  po_buffers : ∀ w, buffered p w = None;
  po_shares : ∀ c, c ∈ p_connections p → ∃ pc share, p_heap p !! c = Some pc ∧ pc_share pc = Some share;
}.

(** [s'] differs from [s] in the pool and the world. *)
Definition same_client (s s' : FileSystem) : Prop :=
  fs_config s' = fs_config s ∧ fs_cache s' = fs_cache s ∧ fs_cancelled s' = fs_cancelled s.

Lemma same_client_refl s : same_client s s.
Proof. done. Qed.

Lemma same_client_trans s1 s2 s3 : same_client s1 s2 → same_client s2 s3 → same_client s1 s3.
Proof. intros (? & ? & ?) (? & ? & ?). repeat split; congruence. Qed.

Lemma wpp_call {A} P (f : cworld → A * cworld) (Q : A → FileSystem → Prop) s :
  Q (f (fs_w s)).1 (set_cworld (f (fs_w s)).2 s) → wpp P (call f) Q s.
Proof. unfold wpp, call. by destruct (f (fs_w s)). Qed.

Lemma pool_ok_held cfg hs p c : pool_ok cfg hs p → c ∈ hs → c ∈ p_connections p.
Proof. intros [Hi _ Ho _ _ _] Hc. apply (pi_known _ Hi); [done|by left]. Qed.

(** Every connection in use is held, so [hs] bounds them. *)
Lemma pool_ok_room cfg hs p :
  pool_ok cfg hs p → Forall (λ c, is_inUse p c = true) (p_connections p) →
  p_numOpen p ≤ len hs.
Proof.
  intros [Hi _ Ho _ Hb _] Hall. rewrite Forall_forall in Hall.
  pose proof (pi_numOpen _ Hi Ho) as Hn. simpl in Hn. rewrite Hn, Z.add_0_r. unfold len.
  apply inj_le, submseteq_length, NoDup_submseteq; [apply (pi_conns _ Hi)|].
  intros c Hc. destruct (pi_accounted _ Hi Ho c Hc (Hall c Hc)) as [|[w Hw]]; [done|]. simpl in Hw.
  by rewrite Hb in Hw.
Qed.

Lemma get_locked_ok cfg hs t p :
  pool_ok cfg hs p → len hs < cf_MaxOpen cfg →
  match get_locked (λ _, t) t p with
  | Ok (GotConn c, p') => pool_ok cfg (c :: hs) p'
  | Ok (Reserved, p') =>
    p_config p' = cfg ∧ p_closed p' = false ∧ pool_inv (mkUsers p' 1 [] hs) ∧ p_waiters p' = []
    ∧ (∀ w, buffered p' w = None)
    ∧ ∀ c, c ∈ p_connections p' → ∃ pc share, p_heap p' !! c = Some pc ∧ pc_share pc = Some share
  | Ok _ => False
  | Panic => 1 < idle_count p
  end.
Proof.
  intros Hok Hroom. pose proof Hok as [Hi Hcfg Ho Hw Hb Hs].
  destruct (get_locked (λ _, t) t p) as [[g p']|] eqn:Eg.
  - apply get_locked_spec in Eg; [|by intros ??]. pose proof (inv_get _ _ _ _ _ _ _ Hi Eg) as Hi'.
    destruct Eg as [|conns gone c _ [Hp Hg] Hc Hidle Hlive|conns gone _ [Hp Hg] Hmax _|conns gone _ [Hp Hg] Hmax Hall].
    + congruence.
    + split; simpl; try done. intros c' Hc'. destruct (Hs c') as (pc & share & Epc & Esh); [rewrite Hp; set_solver|].
      destruct (decide (c' = c)) as [->|]; [rewrite lookup_alter_eq, Epc; simpl; by eauto|].
      rewrite lookup_alter_ne by done. eauto.
    + split_and!; simpl; try done. intros c' Hc'. apply Hs. rewrite Hp. set_solver.
    + destruct gone as [|c gone].
      * pose proof (pool_ok_room _ _ _ Hok (Hall eq_refl)). unfold len in *; simpl in *. subst cfg. lia.
      * pose proof (pi_max _ Hi Ho) as Hm. simpl in Hm. rewrite len_cons in Hmax. pose proof (len_nonneg gone). lia.
  - unfold get_locked in Eg. rewrite Ho in Eg.
    destruct (Z.lt_ge_cases 1 (idle_count p)) as [|Hidle]; [done|exfalso]. unfold idle_count in Hidle.
    pose proof (scan_total (λ _, t) (length (p_connections p)) 0 (p_connections p) (length (p_connections p)) p
      eq_refl (le_n _) (pi_live _ Hi)) as Hn.
    destruct (scan _ _ _ _ _ _) as [[[[c|] conns] p1]|] eqn:Es; [done| |].
    + simpl in Eg. by destruct (_ <? _).
    + apply Hn; [|done]. left. split; [done|]. rewrite drop_0. lia.
Qed.

Lemma wpp_pool_get cfg hs s :
  fs_config s = cfg → pool_ok cfg hs (fs_pool s) → len hs < cf_MaxOpen cfg →
  wpp (2 < cf_MaxIdle cfg) pool_get (λ r s', same_client s s' ∧
    match r with
    | inl c => pool_ok cfg (c :: hs) (fs_pool s')
    | inr _ => pool_ok cfg hs (fs_pool s')
    end) s.
Proof.
  intros Hcfg Hok Hroom. unfold pool_get, now. apply wpp_bind, wpp_call. apply wpp_bind, wpp_gets. simpl.
  set (t := (c_now (fs_w s)).1). pose proof (get_locked_ok cfg hs t (fs_pool s) Hok Hroom) as Hg.
  destruct (get_locked (λ _, t) t (fs_pool s)) as [[g p]|].
  2:{ pose proof (pi_idle _ (po_inv _ _ _ Hok) (po_open _ _ _ Hok)) as Hidle. simpl in Hidle.
      rewrite (po_config _ _ _ Hok) in Hidle. unfold wpp, panic. lia. }
  apply wpp_bind, wpp_modify. destruct g as [c|e| |w]; [|done| |done].
  { apply wpp_ret. by split. }
  destruct Hg as (Hc & Ho & Hi & Hw & Hb & Hs).
  apply wpp_bind, wpp_gets. apply wpp_bind, wpp_call. simpl.
  destruct (CreateConnection _ _) as [[[session share]|e] w1]; simpl.
  - apply wpp_bind, wpp_call. apply wpp_bind, wpp_call. apply wpp_bind, wpp_gets. simpl.
    apply wpp_bind, wpp_modify. apply wpp_ret. split; [done|]. simpl.
    split; simpl; [exact (inv_created session share _ _ _ _ _ _ _ _ Hi eq_refl)|done..|].
    intros c Hc'. apply elem_of_app in Hc' as [Hc'| ->%list_elem_of_singleton]; [|rewrite lookup_insert_eq; by eauto].
    destruct (decide (c = p_next p)) as [->|]; [rewrite lookup_insert_eq; by eauto|].
    rewrite lookup_insert_ne by done. by apply Hs.
  - apply wpp_bind, wpp_modify. apply wpp_ret. split; [done|]. simpl.
    split; simpl; try done. exact (pool_step_inv _ _ (st_create_failed p 0 [] hs) Hi).
Qed.

Lemma put_ok cfg hs t c p : pool_ok cfg (c :: hs) p → pool_ok cfg hs (put t c p).
Proof.
  intros [Hi Hcfg Ho Hw Hb Hs].
  pose proof (inv_put t c p 0 [] (c :: hs) ltac:(set_solver) Hi) as Hi'.
  cbn [remove_first] in Hi'. rewrite bool_decide_true in Hi' by done.
  assert (∀ c', c' ∈ p_connections p → ∃ pc share,
    alter (λ pc, set_lastUsed t (set_inUse false pc)) c (p_heap p) !! c' = Some pc ∧ pc_share pc = Some share) as Hs'.
  { intros c' Hc'. destruct (Hs c' Hc') as (pc & share & Epc & Esh).
    destruct (decide (c' = c)) as [->|]; [rewrite lookup_alter_eq, Epc; simpl; by eauto|].
    rewrite lookup_alter_ne by done. eauto. }
  unfold put in *. rewrite Ho in *. simpl in *. rewrite Hw in *.
  destruct (_ <=? _); split; simpl; try done.
  intros c' Hc'%elem_of_remove_first. auto.
Qed.

Lemma wpp_pool_put cfg hs c s :
  pool_ok cfg (c :: hs) (fs_pool s) →
  wpp False (pool_put c) (λ _ s', same_client s s' ∧ pool_ok cfg hs (fs_pool s')) s.
Proof.
  intros Hok. unfold pool_put, now, modify_pool. apply wpp_bind, wpp_call, wpp_modify. split; [done|].
  by apply put_ok.
Qed.

Lemma wpp_conn_share cfg hs c s (Q : SMBShare → FileSystem → Prop) P :
  pool_ok cfg hs (fs_pool s) → c ∈ hs → (∀ share, Q share s) → wpp P (conn_share c) Q s.
Proof.
  intros Hok Hc HQ. destruct (po_shares _ _ _ Hok c) as (pc & share & Epc & Esh); [by eapply pool_ok_held|].
  unfold conn_share. apply wpp_bind, wpp_gets. apply wpp_lift; rewrite Epc; simpl; rewrite Esh; [done|].
  by intros _ [= <-].
Qed.

Lemma wpp_with_retry {A} P (op : M FileSystem (A + error)) (I : FileSystem → Prop) (Q : A → FileSystem → Prop) s :
  (∀ s, I s → wpp P op (λ r s', match r with inl a => Q a s' | inr _ => I s' end) s) → I s →
  wpp P (with_retry op) (λ r s', match r with inl a => Q a s' | inr _ => I s' end) s.
Proof.
  intros Hop Hs. unfold wpp, with_retry.
  pose proof (withRetry_rule (attempt op) ctx_error (λ _ st, (ctx_error st, st))
    (λ st, match st with Ok (s, _) => I s | Panic => False end)
    (λ st, match st with Ok (s, Some a) => Q a s | Ok (_, None) => False | Panic => P end)
    (cf_RetryPolicy (fs_config s)) (Ok (s, None))) as Hr.
  assert (∀ st, match st with Ok (s, _) => I s | Panic => False end →
    match attempt op st with
    | (None, st') => match st' with Ok (s, Some a) => Q a s | Ok (_, None) => False | Panic => P end
    | (Some _, st') => match st' with Ok (s, _) => I s | Panic => False end
    end) as Hattempt.
  { intros [[s0 r]|]; simpl; [|done]. intros Hi. specialize (Hop s0 Hi). unfold wpp in Hop.
    by destruct (op s0) as [[[a|e] s']|]. }
  specialize (Hr Hattempt ltac:(done) Hs).
  by destruct (withRetry _ _ _ _ _) as [[[e|] [[s' [a|]]|]] log].
Qed.
(** *** Parents *)

Lemma absolute_inj cs cs' : Forall good_comp cs → Forall good_comp cs' → absolute cs = absolute cs' → cs = cs'.
Proof.
  intros H1 H2 [= Hj].
  assert (∀ l, Forall good_comp l → l ≠ [] → split_on slash (join_with slash l) = l) as Hsplit.
  { intros l Hl Hne. apply split_join; [done|]. eapply Forall_impl; [exact Hl|]. by intros c (_ & _ & _ & ?). }
  assert (∀ l, Forall good_comp l → l ≠ [] → join_with slash l ≠ []) as Hn.
  { intros [|c [|c' l]] Hl Hne; [done|..]; apply Forall_cons in Hl as [(Hc & _) _]; destruct c; done. }
  destruct (decide (cs = [])) as [->|Hne], (decide (cs' = [])) as [->|Hne']; [done|..].
  - by destruct (Hn cs' H2 Hne').
  - by destruct (Hn cs H1 Hne).
  - by rewrite <-(Hsplit cs), <-(Hsplit cs'), Hj.
Qed.

(** A path that case folding leaves alone has such components. *)
Lemma fixed_components b cs :
  Forall good_comp cs → backslash ∉ absolute cs → normalize b (absolute cs) = absolute cs →
  b = false → map ToLower cs = cs.
Proof.
  intros Hcs Hb Hfix ->. rewrite normalize_false_eq, normalize_of_normal in Hfix by (done || by eexists).
  rewrite ToLower_absolute in Hfix. apply absolute_inj in Hfix; [done| |done].
  apply Forall_map. eapply Forall_impl; [exact Hcs|apply good_comp_ToLower].
Qed.

Lemma normalize_absolute b cs :
  Forall good_comp cs → backslash ∉ absolute cs → (b = false → map ToLower cs = cs) →
  normalize b (absolute cs) = absolute cs.
Proof.
  intros Hcs Hb Hlow. destruct b; [apply normalize_of_normal; by exists cs|].
  rewrite normalize_false_eq, normalize_of_normal by (done || by eexists).
  by rewrite ToLower_absolute, Hlow.
Qed.

(** [path.Join] of two normal paths. *)
Lemma Join_absolute cs0 cs1 :
  Forall good_comp cs0 → Forall good_comp cs1 → Join [absolute cs0; absolute cs1] = absolute (cs0 ++ cs1).
Proof.
  intros Hg0 Hg1. unfold Join. rewrite !filter_cons, !decide_True by done. rewrite filter_nil.
  cbn [join_with]. set (p := absolute cs0 ++ slash :: absolute cs1).
  assert (clean_stack true p = rev (cs0 ++ cs1)) as Hst.
  { unfold clean_stack, p. rewrite split_on_app, foldl_app. fold (clean_stack true (absolute cs0)).
    rewrite clean_stack_absolute by done. unfold absolute. cbn [split_on]. rewrite bool_decide_true by done.
    cbn [foldl]. change (clean_step true (rev cs0) []) with (rev cs0). rewrite rev_app_distr.
    destruct (decide (cs1 = [])) as [->|Hne]; [done|]. rewrite split_join; [by apply clean_fold_good|done|].
    eapply Forall_impl; [exact Hg1|]. by intros w (_ & _ & _ & ?). }
  unfold Clean. change (has_prefix [slash] p) with true. cbv zeta. by rewrite Hst, rev_involutive.
Qed.

(** The parent of a normal path is normal and shorter. *)
Lemma parent_normal b n :
  normal_path n → normalize b n = n → pn_dir b n ≠ [slash] →
  normalize b (pn_dir b n) = pn_dir b n ∧ (length (pn_dir b n) < length n)%nat.
Proof.
  intros (cs & -> & Hcs & Hbs) Hfix. unfold pn_dir. rewrite Hfix.
  destruct (rev cs) as [|c l] eqn:Hrev.
  { apply (f_equal (@rev _)) in Hrev. rewrite rev_involutive in Hrev. subst cs. done. }
  assert (cs = rev l ++ [c]) as -> by (apply (f_equal (@rev _)) in Hrev; by rewrite rev_involutive in Hrev).
  rewrite Dir_absolute by done. intros Hne. set (ps := rev l) in *.
  assert (ps ≠ []) as Hps by (by intros Hnil; apply Hne; rewrite Hnil).
  pose proof (absolute_snoc ps c Hps) as Hsn.
  assert (Forall good_comp ps) as Hgood by (by apply Forall_app in Hcs as [? _]).
  assert (backslash ∉ absolute ps) as Hb by (rewrite Hsn in Hbs; set_solver).
  split; [|rewrite Hsn, length_app; simpl; lia].
  apply normalize_absolute; [done..|]. intros ->. apply (fixed_components false) in Hfix; [|done..].
  rewrite map_app in Hfix. by apply app_inj_2 in Hfix as [? _].
Qed.

(** *** Operations

    [client_ok cfg hs s]: exactly the connections [hs] are handed out. *)
Definition client_ok (cfg : Config) (hs : list ptr) (s : FileSystem) : Prop :=
  fs_config s = cfg ∧ pool_ok cfg hs (fs_pool s).

(** The file [f] holds one more connection. *)
Definition holds_one (cfg : Config) (hs : list ptr) (f : File) (s : FileSystem) : Prop :=
  is_Some (f_file f) ∧ ∃ c, f_conn f = Some c ∧ client_ok cfg (c :: hs) s.

Lemma client_ok_same cfg hs s s' : same_client s s' → client_ok cfg hs s → pool_ok cfg hs (fs_pool s') → client_ok cfg hs s'.
Proof. intros (Hc & _) [? _] ?. split; congruence. Qed.

Section operations.
Context (cfg : Config) (hs : list ptr).
Context (Hroom : len hs < cf_MaxOpen cfg).
(** The only panic left: the scan over two or more idle connections. *)
Local Notation P := (2 < cf_MaxIdle cfg).

Lemma wpp_get (s : FileSystem) (Q : ptr + error → FileSystem → Prop) :
  client_ok cfg hs s →
  (∀ c s', same_client s s' → client_ok cfg (c :: hs) s' → Q (inl c) s') →
  (∀ e s', same_client s s' → client_ok cfg hs s' → Q (inr e) s') →
  wpp P pool_get Q s.
Proof.
  intros [Hc Hok] H1 H2. eapply wpp_mono; [by eapply wpp_pool_get|].
  intros [c|e] s' [Hs Hp]; [apply H1|apply H2]; try done; destruct Hs as (? & ? & ?); split; congruence.
Qed.

Lemma wpp_put c s (Q : unit → FileSystem → Prop) :
  client_ok cfg (c :: hs) s → (∀ s', same_client s s' → client_ok cfg hs s' → Q tt s') → wpp P (pool_put c) Q s.
Proof.
  intros [Hc Hok] HQ. apply (wpp_weaken False); [|done]. eapply wpp_mono; [by eapply wpp_pool_put|].
  intros [] s' [Hs Hp]. apply HQ; [done|]. destruct Hs as (? & ? & ?). split; congruence.
Qed.

Lemma wpp_share c s (Q : SMBShare → FileSystem → Prop) :
  client_ok cfg (c :: hs) s → (∀ share, Q share s) → wpp P (conn_share c) Q s.
Proof. intros [_ Hok] HQ. eapply wpp_conn_share; [done|by left|done]. Qed.

Lemma wpp_with_path {A} op name (k : gostring → M FileSystem (A + error)) (Q : A + error → FileSystem → Prop) s :
  (∀ e, Q (inr e) s) → (∀ n, wpp P (k n) Q s) → wpp P (with_path op name k) Q s.
Proof.
  intros He Hk. unfold with_path. destruct (negb _); [by apply wpp_ret|]. apply wpp_bind, wpp_gets. apply Hk.
Qed.

Lemma wpp_OpenFile name flag perm s :
  client_ok cfg hs s →
  wpp P (OpenFile name flag perm) (λ r s',
    match r with inl f => holds_one cfg hs f s' | inr _ => client_ok cfg hs s' end) s.
Proof.
  intros Hok. unfold OpenFile. apply wpp_with_path; [done|]. intros n. apply wpp_bind.
  eapply wpp_mono; [apply (wpp_with_retry _ _ (client_ok cfg hs) (holds_one cfg hs)); [|done]|].
  - clear s Hok. intros s Hok. apply wpp_bind. apply wpp_get; [done| |by intros].
    intros c s1 _ Hok1. apply wpp_bind. apply wpp_share; [done|]. intros share. apply wpp_bind, wpp_call.
    destruct (sh_OpenFile _ _ _ _ _) as [[file|e] w]; simpl.
    + apply wpp_ret. split; [done|]. by exists c.
    + apply wpp_bind. by apply wpp_put.
  - intros [f|e] s' Hr; [|by apply wpp_ret]. apply wpp_bind.
    destruct (has_flag flag O_CREATE); [apply wpp_modify|apply wpp_ret]; apply wpp_ret; exact Hr.
Qed.

Lemma wpp_Stat name s : client_ok cfg hs s → wpp P (Stat name) (λ _ s', client_ok cfg hs s') s.
Proof.
  intros Hok. unfold Stat. apply wpp_with_path; [done|]. intros n. apply wpp_bind, wpp_call. apply wpp_bind, wpp_gets.
  simpl. destruct (getStatInfo _ _ _); [by apply wpp_ret|]. apply wpp_bind.
  eapply wpp_mono; [apply (wpp_with_retry _ _ (client_ok cfg hs) (λ _, client_ok cfg hs)); [|done]|].
  - clear s Hok. intros s Hok. apply wpp_bind. apply wpp_get; [done| |by intros].
    intros c s1 _ Hok1. apply wpp_bind. apply wpp_share; [done|]. intros share. apply wpp_bind, wpp_gets.
    apply wpp_bind, wpp_call. apply wpp_bind. apply wpp_put; [done|]. intros s2 _ Hok2. apply wpp_ret.
    by destruct (sh_Stat _ _ _).1.
  - intros [info|e] s' Hr; [|by apply wpp_ret]. apply wpp_bind, wpp_call. apply wpp_bind, wpp_modify. by apply wpp_ret.
Qed.

Lemma wpp_on_share op name stale f s :
  client_ok cfg hs s → wpp P (on_share op name stale f) (λ _ s', client_ok cfg hs s') s.
Proof.
  intros Hok. unfold on_share. apply wpp_bind. apply wpp_get; [done| |by intros; apply wpp_ret].
  intros c s1 _ Hok1. apply wpp_bind. apply wpp_share; [done|]. intros share. apply wpp_bind, wpp_call.
  apply wpp_bind. destruct (f share (fs_w s1)).1; simpl.
  - apply wpp_ret. apply wpp_bind. apply wpp_put; [done|]. intros. by apply wpp_ret.
  - apply wpp_bind, wpp_modify. apply wpp_ret. apply wpp_bind. apply wpp_put; [done|]. intros. by apply wpp_ret.
Qed.

(** *** Open files *)

(** A computation that leaves the pool alone and keeps the file's
    connection. *)
Lemma wpp_closing {A} f (m : M FileSystem (A * File)) s :
  holds_one cfg hs f s →
  wpp P m (λ r s', holds_one cfg hs r.2 s') s →
  wpp P (closing f m) (λ _ s', client_ok cfg hs s') s.
Proof.
  intros _ Hm. unfold closing. apply wpp_bind. eapply wpp_mono; [exact Hm|]. clear.
  intros [a f] s [[file Hf] (c & Hc & Hok)]. simpl in *. apply wpp_bind. unfold File_Close. rewrite Hf.
  apply wpp_bind, wpp_call. simpl. rewrite Hc. apply wpp_bind. apply wpp_put; [done|]. intros. by apply wpp_ret.
Qed.

Lemma holds_one_world f s w : holds_one cfg hs f s → holds_one cfg hs f (set_cworld w s).
Proof. intros Hf. exact Hf. Qed.

Lemma wpp_File_Stat f s (Q : fileInfo + error → FileSystem → Prop) :
  (∀ r w, Q r (set_cworld w s)) → is_Some (f_file f) → wpp P (File_Stat f) Q s.
Proof.
  intros HQ [file Hf]. unfold File_Stat. rewrite Hf. apply wpp_bind, wpp_gets. apply wpp_bind, wpp_call.
  destruct (sf_Stat _ _) as [[?|?] ?]; apply wpp_ret, HQ.
Qed.

Lemma wpp_ReadDir name s : client_ok cfg hs s → wpp P (ReadDir name) (λ _ s', client_ok cfg hs s') s.
Proof.
  intros Hok. unfold ReadDir. apply wpp_with_path; [done|]. intros n. apply wpp_bind, wpp_call. apply wpp_bind, wpp_gets.
  simpl. destruct (getDirEntries _ _ _); [by apply wpp_ret|]. apply wpp_bind.
  eapply wpp_mono; [by apply wpp_OpenFile|]. intros [f|e] s1 Hr; [|by apply wpp_ret].
  apply wpp_closing; [done|]. apply wpp_bind. apply wpp_File_Stat; [|by destruct Hr].
  intros [info|e] w; [|by apply wpp_ret]. apply wpp_bind, wpp_gets. destruct (negb _); [by apply wpp_ret|].
  apply wpp_bind. destruct Hr as [[file Hf] (c & Hc & Hr)]. unfold File_ReadDir. rewrite Hf.
  assert (∀ entries g s2, f_conn g = Some c → f_file g = Some file → client_ok cfg (c :: hs) s2 →
    wpp P (next_entries (-1) entries g) (λ r s', r.1 = r.1 ∧ holds_one cfg hs r.2 s') s2) as Hnext.
  { intros entries g s2 Hg1 Hg2 Hs2. unfold next_entries. simpl. apply wpp_ret. split; [done|].
    split; [by simpl; rewrite Hg2|]. by exists c. }
  apply (wpp_mono _ _ (λ r s', r.1 = r.1 ∧ holds_one cfg hs r.2 s')).
  - destruct (f_dirEntry f); [by apply Hnext|]. apply wpp_bind, wpp_call. simpl.
    destruct (sf_Readdir _ _ _) as [[infos|e] w2]; simpl.
    + apply wpp_bind, wpp_gets. by apply Hnext.
    + apply wpp_ret. split; [done|]. split; [by simpl; rewrite Hf|]. by exists c.
  - intros [[entries|e] g] s2 [_ Hg]; [|by apply wpp_ret]. apply wpp_bind, wpp_call. apply wpp_bind, wpp_modify.
    by apply wpp_ret.
Qed.

Lemma wpp_write_zeros fuel file remaining s f :
  holds_one cfg hs f s → wpp P (write_zeros fuel file remaining) (λ _ s', holds_one cfg hs f s') s.
Proof.
  revert remaining s; induction fuel as [|fuel IH]; intros remaining s Hf; cbn [write_zeros]; [by apply wpp_ret|].
  destruct (remaining <=? 0); [by apply wpp_ret|]. apply wpp_bind, wpp_call.
  destruct (sf_Write _ _ _) as [[? [e|]] w]; simpl; [by apply wpp_ret|]. by apply IH.
Qed.

Lemma wpp_File_Truncate size f s :
  holds_one cfg hs f s → wpp P (File_Truncate size f) (λ _ s', holds_one cfg hs f s') s.
Proof.
  intros Hf. unfold File_Truncate. destruct (f_file f) as [file|] eqn:Ef; [|by apply wpp_ret].
  apply wpp_bind, wpp_call. destruct (sf_Stat _ _) as [[info|e] w]; simpl; [|by apply wpp_ret].
  apply wpp_bind, wpp_gets. destruct (_ =? _); [by apply wpp_ret|]. destruct (_ <? _); apply wpp_bind, wpp_call.
  - destruct (sf_Seek _ _ _ _) as [[?|?] ?]; simpl; [|by apply wpp_ret]. apply wpp_bind, wpp_call.
    destruct (sf_Write _ _ _) as [[? ?] ?]. by apply wpp_ret.
  - destruct (sf_Seek _ _ _ _) as [[?|?] ?]; simpl; [|by apply wpp_ret]. apply wpp_bind.
    eapply wpp_mono; [by apply (wpp_write_zeros _ _ _ _ f)|]. intros err s' Hs'. by apply wpp_ret.
Qed.

Lemma wpp_Truncate name size s : client_ok cfg hs s → wpp P (Truncate name size) (λ _ s', client_ok cfg hs s') s.
Proof.
  intros Hok. unfold Truncate. apply wpp_with_path; [done|]. intros n. apply wpp_bind.
  eapply wpp_mono; [by apply wpp_OpenFile|]. intros [f|e] s1 Hr; [|by apply wpp_ret].
  apply wpp_closing; [done|]. apply wpp_bind. eapply wpp_mono; [by apply wpp_File_Truncate|].
  intros [e|] s2 Hs2; [by apply wpp_ret|]. apply wpp_bind, wpp_modify. by apply wpp_ret.
Qed.

Lemma wpp_read_full `{!SMBLibLaws} fuel size acc f s :
  size - len acc ≤ Z.of_nat fuel → holds_one cfg hs f s →
  wpp P (read_full fuel size acc f) (λ r s', holds_one cfg hs r.2 s') s.
Proof.
  revert acc f s; induction fuel as [|fuel IH]; intros acc f s Hfuel Hf; cbn [read_full];
    destruct (Z.leb_spec size (len acc)) as [|Hlt]; try (by apply wpp_ret); [lia|].
  apply wpp_bind. pose proof Hf as [[file Ef] _]. unfold File_Read. rewrite Ef. apply wpp_bind, wpp_call.
  pose proof (sf_Read_progress file (size - len acc) (fs_w s) ltac:(lia)) as Hpr.
  assert (∀ off w, holds_one cfg hs (set_file_offset off f) (set_cworld w s)) as Hf' by (intros; exact Hf).
  destruct (sf_Read _ _ _) as [[p [e|]] w]; cbn in Hpr |- *.
  - destruct (is_EOF e); apply wpp_ret; (destruct (_ <=? _); [by apply wpp_ret|]);
      (destruct (_ && _); by apply wpp_ret).
  - apply (IH (acc ++ p)); [|apply Hf']. specialize (Hpr eq_refl). destruct p; [done|]. rewrite len_app, len_cons.
    pose proof (len_nonneg p). lia.
Qed.

Lemma wpp_ReadFile `{!SMBLibLaws} name s : client_ok cfg hs s → wpp P (ReadFile name) (λ _ s', client_ok cfg hs s') s.
Proof.
  intros Hok. unfold ReadFile. apply wpp_with_path; [done|]. intros n. apply wpp_bind.
  eapply wpp_mono; [by apply wpp_OpenFile|]. intros [f|e] s1 Hr; [|by apply wpp_ret].
  apply wpp_closing; [done|]. apply wpp_bind. apply wpp_File_Stat; [|by destruct Hr].
  intros [info|e] w; [|by apply wpp_ret]. apply wpp_bind, wpp_gets. destruct (info_IsDir _ _); [by apply wpp_ret|].
  apply wpp_bind, wpp_gets. pose proof (st_Size_nonneg (in_stat info) w) as Hsz. unfold info_Size. simpl.
  destruct (Z.ltb_spec (st_Size (in_stat info) w) 0); [lia|]. apply wpp_bind.
  eapply wpp_mono; [apply wpp_read_full; [unfold len; simpl; lia|exact Hr]|].
  intros [[buf [e|]] g] s2 Hg; [|by apply wpp_ret]. destruct (end_of_file e); by apply wpp_ret.
Qed.

Lemma wpp_with_path_at {A} op name (k : gostring → M FileSystem (A + error)) (Q : A + error → FileSystem → Prop) s :
  fs_config s = cfg → (∀ e, Q (inr e) s) →
  (validatePath name = true → wpp P (k (normalize (cf_CaseSensitive cfg) name)) Q s) → wpp P (with_path op name k) Q s.
Proof.
  intros <- He Hk. unfold with_path. destruct (validatePath name); [|by apply wpp_ret]. apply wpp_bind, wpp_gets. auto.
Qed.

Lemma wpp_MkdirAll fuel name perm s :
  (0 < fuel)%nat → (validatePath name = true → (length (normalize (cf_CaseSensitive cfg) name) < fuel)%nat) →
  client_ok cfg hs s → wpp P (MkdirAll fuel name perm) (λ _ s', client_ok cfg hs s') s.
Proof.
  revert name s; induction fuel as [|fuel IH]; intros name s Hf Hlen Hok; [lia|]. cbn [MkdirAll].
  apply wpp_with_path_at; [by destruct Hok|done|]. intros Hv. specialize (Hlen Hv).
  set (n := normalize (cf_CaseSensitive cfg) name) in *.
  apply wpp_bind. eapply wpp_mono; [by apply wpp_Stat|]. intros [info|e] s1 Hok1.
  { apply wpp_bind, wpp_gets. by apply wpp_ret. }
  apply wpp_bind, wpp_gets. apply wpp_bind.
  apply (wpp_mono _ _ (λ _ s', client_ok cfg hs s')).
  - destruct (negb _ && negb _) eqn:Hne; [|by apply wpp_ret].
    apply andb_true_iff in Hne as [Hne _]. apply negb_true_iff, bool_decide_eq_false in Hne.
    destruct Hok1 as [Hc1 Hok1]. rewrite Hc1 in *.
    destruct (parent_normal (cf_CaseSensitive cfg) n) as (Hp & Hlt); [by apply normalize_normal|by apply normalize_idem|done|].
    apply IH; [lia| |done]. intros _. rewrite Hp. lia.
  - intros [[]|e2] s2 Hok2; [|by apply wpp_ret]. unfold Mkdir. apply wpp_with_path; [done|]. intros. by apply wpp_on_share.
Qed.

Lemma wpp_RemoveAll fuel name s :
  client_ok cfg hs s → wpp True (RemoveAll fuel name) (λ _ s', client_ok cfg hs s') s.
Proof.
  assert (∀ A (m : M FileSystem A) Q s, wpp P m Q s → wpp True m Q s) as Hw by (intros; by eapply wpp_weaken).
  assert (∀ n s, client_ok cfg hs s → wpp True (Remove n) (λ _ s', client_ok cfg hs s') s) as Hrm.
  { intros n s0 Hok. apply Hw. unfold Remove. apply wpp_with_path; [done|]. intros. by apply wpp_on_share. }
  revert name s; induction fuel as [|fuel IH]; intros name s Hok; [done|]. cbn [RemoveAll].
  unfold with_path. destruct (negb _); [by apply wpp_ret|]. apply wpp_bind, wpp_gets.
  set (n := normalize _ name). apply wpp_bind. eapply wpp_mono; [by apply Hw, wpp_Stat|].
  intros [info|e] s1 Hok1; [|by apply wpp_ret]. apply wpp_bind, wpp_gets. destruct (negb _); [by apply Hrm|].
  apply wpp_bind. eapply wpp_mono; [by apply Hw, wpp_ReadDir|]. intros [entries|e] s2 Hok2; [|by apply wpp_ret].
  apply wpp_bind, wpp_gets. set (cs := cf_CaseSensitive (fs_config s2)). clearbody cs. apply wpp_bind.
  apply (wpp_mono _ _ (λ _ s', client_ok cfg hs s')); [|intros [[]|e] s3 Hok3; [by apply Hrm|by apply wpp_ret]].
  clear - IH Hok2. revert s2 Hok2. induction entries as [|entry entries IHe]; intros s2 Hok2; [by apply wpp_ret|].
  apply wpp_bind. eapply wpp_mono; [by apply IH|]. intros [[]|e] s3 Hok3; [by apply IHe|by apply wpp_ret].
Qed.
End operations.

(** *** The cache *)

(** The cache answers for [n] neither its attributes nor its listing, nor the
    listing of the directory [n] lies in. *)
Definition forgotten (n : gostring) (c : @metadataCache (list dirEntry) fileInfo) : Prop :=
  ∀ t, getStatInfo t n c = None ∧ getDirEntries t n c = None ∧ getDirEntries t (parent_dir n) c = None.

Lemma invalidate_forgets n (c : @metadataCache (list dirEntry) fileInfo) : forgotten n (invalidate n c).
Proof.
  intros t. unfold getStatInfo, getDirEntries, invalidate.
  rewrite getParentPath_eq. destruct (c_enabled c) eqn:E; simpl; rewrite ?E; simpl; [|done]. rewrite lookup_delete_eq.
  assert (∀ k, delete (parent_dir n) (delete n (c_dirCache c)) !! k = None ∨ (k ≠ n ∧ k ≠ parent_dir n)) as Hd.
  { intros k. destruct (decide (k = parent_dir n)) as [->|]; [left; apply lookup_delete_eq|].
    destruct (decide (k = n)) as [->|]; [|by right]. left. by rewrite lookup_delete_ne, lookup_delete_eq by done. }
  split_and!; (destruct (_ =? 0); [done|]); [done|..].
  - destruct (Hd n) as [->|[? _]]; done.
  - destruct (Hd (parent_dir n)) as [->|[_ ?]]; done.
Qed.

Lemma invalidate_keeps_forgotten n m (c : @metadataCache (list dirEntry) fileInfo) :
  forgotten n c → forgotten n (invalidate m c).
Proof.
  assert (∀ A (k : gostring) (mm : gmap gostring A) x, mm !! x = None → delete k mm !! x = None) as Hdel.
  { intros A k mm x Hx. destruct (decide (x = k)) as [->|]; [apply lookup_delete_eq|by rewrite lookup_delete_ne]. }
  intros Hf t. specialize (Hf t). unfold getStatInfo, getDirEntries, invalidate in *.
  destruct (c_enabled c) eqn:E; simpl in *; rewrite ?E in *; simpl in *; [|done].
  destruct Hf as (H1 & H2 & H3). split_and!.
  - destruct (StatCacheTTL _ =? 0); [done|]. destruct (decide (n = m)) as [->|]; [by rewrite lookup_delete_eq|].
    by rewrite lookup_delete_ne.
  - destruct (DirCacheTTL _ =? 0); [done|]. destruct (delete _ _ !! n) as [[]|] eqn:El; [|done].
    apply lookup_delete_Some in El as [_ El]. apply lookup_delete_Some in El as [_ El]. by rewrite El in H2.
  - destruct (DirCacheTTL _ =? 0); [done|]. destruct (delete _ _ !! parent_dir n) as [[]|] eqn:El; [|done].
    apply lookup_delete_Some in El as [_ El]. apply lookup_delete_Some in El as [_ El]. by rewrite El in H3.
Qed.

Lemma stale_forgotten stale (c : @metadataCache (list dirEntry) fileInfo) :
  Forall (λ n, forgotten n (foldl (λ c p, invalidate p c) c stale)) stale.
Proof.
  assert (∀ n l c, forgotten n c → forgotten n (foldl (λ c p, invalidate p c) c l)) as Hkeep.
  { intros n l. induction l as [|m l IH]; intros c0 Hc; [done|]. by apply IH, invalidate_keeps_forgotten. }
  revert c. induction stale as [|n stale IH]; intros c; constructor; [|apply IH]. apply (Hkeep n stale (invalidate n c)), invalidate_forgets.
Qed.

Lemma wpp_put_cache c s (Q : unit → FileSystem → Prop) :
  (∀ s', fs_cache s' = fs_cache s → Q tt s') → wpp True (pool_put c) Q s.
Proof. intros HQ. unfold pool_put, now, modify_pool. apply wpp_bind, wpp_call, wpp_modify. by apply HQ. Qed.

Lemma wpp_close_cache f s (Q : option error * File → FileSystem → Prop) :
  (∀ r s', fs_cache s' = fs_cache s → Q r s') → wpp True (File_Close f) Q s.
Proof.
  intros HQ. unfold File_Close. destruct (f_file f); [|by apply wpp_ret, HQ]. apply wpp_bind, wpp_call.
  destruct (f_conn f); [|by apply wpp_bind, wpp_ret, wpp_ret, HQ].
  apply wpp_bind. apply wpp_put_cache. intros s' Hs'. apply wpp_ret. by apply HQ.
Qed.

Lemma wpp_on_share_cache op name stale f s :
  wpp True (on_share op name stale f) (λ r s', r = inl tt → Forall (λ n, forgotten n (fs_cache s')) stale) s.
Proof.
  unfold on_share. apply wpp_bind. unfold wpp at 1. destruct (pool_get s) as [[[c|e] s1]|]; [|by apply wpp_ret|done].
  apply wpp_bind. unfold wpp at 1. destruct (conn_share c s1) as [[share s2]|]; [|done]. apply wpp_bind, wpp_call.
  apply wpp_bind. destruct (f share (fs_w s2)).1.
  - apply wpp_ret. apply wpp_bind. apply wpp_put_cache. intros. by apply wpp_ret.
  - apply wpp_bind, wpp_modify. apply wpp_ret. apply wpp_bind. apply wpp_put_cache. intros s' Hs'. apply wpp_ret.
    intros _. rewrite Hs'. simpl. apply stale_forgotten.
Qed.

(** A method on a path, from what its body does with the normalised path. *)
Lemma with_path_post {A} op name (k : gostring → M FileSystem (A + error)) (s s' : FileSystem) a (Q : FileSystem → Prop) :
  wpp True (k (normalize (cf_CaseSensitive (fs_config s)) name)) (λ r s', r = inl a → Q s') s →
  with_path op name k s = Ok (inl a, s') → Q s'.
Proof.
  unfold with_path. destruct (negb _); [done|]. unfold mbind, M_bind, gets. intros Hk E.
  unfold wpp in Hk. rewrite E in Hk. by apply Hk.
Qed.

(** ** Properties *)

(** [m] gives back every connection it takes; [P] is the only panic. *)
Definition returns_all {A} (cfg : Config) (hs : list ptr) (P : Prop) (m : M FileSystem A) (s : FileSystem) : Prop :=
  wpp P m (λ _ s', client_ok cfg hs s') s.

(** C10: The file system does not leak connections: while a connection is
    left, every operation completes and gives back the connections it took,
    whatever the server answers and however often it is retried; [OpenFile]
    keeps exactly the one its file holds, and [Close] gives it back.  The
    operations do not panic when [MaxIdle] is at most 2 (with more, the scan
    for idle connections may); [RemoveAll] is not shown to terminate, since
    the server's tree may be endless. *)
Theorem connections_returned `{!SMBLibLaws} cfg hs s :
  client_ok cfg hs s → len hs < cf_MaxOpen cfg →
  let P := 2 < cf_MaxIdle cfg in
  (∀ name flag perm, wpp P (OpenFile name flag perm) (λ r s',
     match r with inl f => holds_one cfg hs f s' | inr _ => client_ok cfg hs s' end) s)
  ∧ (∀ f s', holds_one cfg hs f s' → returns_all cfg hs False (File_Close f) s')
  ∧ (∀ name, returns_all cfg hs P (Stat name) s)
  ∧ (∀ name, returns_all cfg hs P (ReadDir name) s)
  ∧ (∀ name, returns_all cfg hs P (ReadFile name) s)
  ∧ (∀ name size, returns_all cfg hs P (Truncate name size) s)
  ∧ (∀ name perm, returns_all cfg hs P (Mkdir name perm) s)
  ∧ (∀ name, returns_all cfg hs P (Remove name) s)
  ∧ (∀ oldname newname, returns_all cfg hs P (Rename oldname newname) s)
  ∧ (∀ name mode, returns_all cfg hs P (Chmod name mode) s)
  ∧ (∀ name atime mtime, returns_all cfg hs P (Chtimes name atime mtime) s)
  ∧ (∀ name perm fuel, (length (normalize (cf_CaseSensitive cfg) name) < fuel)%nat →
       returns_all cfg hs P (MkdirAll fuel name perm) s)
  ∧ (∀ name fuel, returns_all cfg hs True (RemoveAll fuel name) s).
Proof.
  intros Hok Hroom P. unfold returns_all.
  assert (∀ op name n stale f, wpp P (with_path op name (λ _, on_share op n stale f)) (λ _ s', client_ok cfg hs s') s) as Hshare.
  { intros. apply wpp_with_path; [done|]. intros. by apply wpp_on_share. }
  split_and!; intros; try (by apply wpp_OpenFile || by apply wpp_Stat || by apply wpp_ReadDir || by apply wpp_ReadFile
    || by apply wpp_Truncate || by apply wpp_RemoveAll).
  - rename select (holds_one _ _ _ _) into Hh. destruct Hh as [[file Hf] (c & Hc & Hok')].
    unfold File_Close. rewrite Hf. apply wpp_bind, wpp_call. rewrite Hc.
    apply wpp_bind. destruct Hok' as [Hcfg Hp]. eapply wpp_mono; [by eapply wpp_pool_put|].
    intros [] s2 [(Hc2 & _) Hp2]. apply wpp_ret. split; [|done]. by rewrite Hc2.
  - unfold Mkdir. apply wpp_with_path; [done|]. intros. by apply wpp_on_share.
  - unfold Remove. apply wpp_with_path; [done|]. intros. by apply wpp_on_share.
  - unfold Rename. apply wpp_with_path; [done|]. intros. apply wpp_with_path; [done|]. intros. by apply wpp_on_share.
  - unfold Chmod. apply wpp_with_path; [done|]. intros. by apply wpp_on_share.
  - unfold Chtimes. apply wpp_with_path; [done|]. intros. by apply wpp_on_share.
  - apply wpp_MkdirAll; [done|lia|done|done].
Qed.

(** C17: A change through the client is not hidden by its cache: after a
    successful [Mkdir], [Remove], [Chmod], [Chtimes], [Truncate] or creating
    [OpenFile] the cache holds neither the attributes nor the listing of that
    path nor the listing of the directory it lies in (its path without the last
    element), so that the next [Stat] and [ReadDir] ask the server; after a
    [Rename] this holds of both paths.  (What the cache holds about the files
    below a renamed directory stays: [rename_leaves_cached_children].) *)
Theorem changes_invalidate_cache s s' name :
  let n := normalize (cf_CaseSensitive (fs_config s)) name in
  (∀ perm, Mkdir name perm s = Ok (inl tt, s') → forgotten n (fs_cache s'))
  ∧ (Remove name s = Ok (inl tt, s') → forgotten n (fs_cache s'))
  ∧ (∀ mode, Chmod name mode s = Ok (inl tt, s') → forgotten n (fs_cache s'))
  ∧ (∀ atime mtime, Chtimes name atime mtime s = Ok (inl tt, s') → forgotten n (fs_cache s'))
  ∧ (∀ size, Truncate name size s = Ok (inl tt, s') → forgotten n (fs_cache s'))
  ∧ (∀ flag perm f, has_flag flag O_CREATE = true → OpenFile name flag perm s = Ok (inl f, s') → forgotten n (fs_cache s'))
  ∧ (∀ newname, Rename name newname s = Ok (inl tt, s') →
       forgotten n (fs_cache s') ∧ forgotten (normalize (cf_CaseSensitive (fs_config s)) newname) (fs_cache s')).
Proof.
  intros n.
  assert (∀ op k, wpp True (on_share op n [n] k) (λ r s', r = inl tt → forgotten n (fs_cache s')) s) as Hone.
  { intros. eapply wpp_mono; [apply wpp_on_share_cache|]. intros r s1 Hr Hi. specialize (Hr Hi). by inversion Hr. }
  split_and!; intros *.
  1-4: eapply (with_path_post _ _ _ _ _ _ (λ s', forgotten n (fs_cache s'))), Hone.
  - eapply (with_path_post _ _ _ _ _ _ (λ s', forgotten n (fs_cache s'))). apply wpp_bind. unfold wpp at 1.
    destruct (OpenFile _ _ _ _) as [[[f|e] s1]|]; [|by apply wpp_ret|done]. unfold closing. apply wpp_bind, wpp_bind.
    unfold wpp at 1. destruct (File_Truncate _ _ _) as [[[e|] s2]|]; [|..|done].
    + apply wpp_ret. apply wpp_bind, wpp_close_cache. intros. by apply wpp_ret.
    + apply wpp_bind, wpp_modify, wpp_ret. apply wpp_bind, wpp_close_cache. intros r s3 Hs3. apply wpp_ret.
      intros _. rewrite Hs3. apply invalidate_forgets.
  - intros Hc. eapply (with_path_post _ _ _ _ _ _ (λ s', forgotten n (fs_cache s'))). apply wpp_bind. unfold wpp at 1.
    destruct (with_retry _ _) as [[[g|e] s1]|]; [|by apply wpp_ret|done]. rewrite Hc. apply wpp_bind, wpp_modify, wpp_ret.
    intros _. apply invalidate_forgets.
  - eapply (with_path_post _ _ _ _ _ _ (λ s', forgotten n (fs_cache s') ∧ _)).
    unfold with_path. destruct (negb _); [by apply wpp_ret|]. apply wpp_bind, wpp_gets.
    eapply wpp_mono; [apply wpp_on_share_cache|]. intros r s1 Hr Hi. specialize (Hr Hi). by inversion Hr as [|? ? ? Hr2]; inversion Hr2.
Qed.

(** A sub file system stays below its root: for a root as [Sub] computes it
    (validated and normalised), the path that [joinPath] makes of a valid name
    is the root followed by the components of the name, none of which is
    [..]. *)
Theorem sub_stays_below_root s s' root name p :
  let cs := cf_CaseSensitive (fs_config s) in
  normal_path root → normalize cs root = root → validatePath name = true →
  sub_joinPath root name s = Ok (p, s') →
  ∃ cs0 cs1, root = absolute cs0 ∧ normalize cs name = absolute cs1 ∧ p = absolute (cs0 ++ cs1)
    ∧ Forall good_comp (cs0 ++ cs1) ∧ normalize cs p = p.
Proof.
  intros cs (cs0 & -> & Hg0 & Hb0) Hfix Hv. unfold sub_joinPath. rewrite Hv. intros [= <- <-]. fold cs.
  pose proof (normalize_idem cs name Hv) as Hfix1.
  destruct (normalize_normal cs name Hv) as (cs1 & Hn & Hg1 & Hb1). rewrite Hn in *.
  unfold pn_join. rewrite Join_absolute by done.
  assert (Forall good_comp (cs0 ++ cs1)) as Hg by (by apply Forall_app).
  assert (backslash ∉ absolute (cs0 ++ cs1)) as Hb.
  { unfold absolute in *. rewrite elem_of_cons, elem_of_join in Hb0, Hb1 |- * by done.
    intros [?|(w & [Hw|Hw]%elem_of_app & Hin)]; [done|apply Hb0|apply Hb1]; eauto. }
  assert (normalize cs (absolute (cs0 ++ cs1)) = absolute (cs0 ++ cs1)) as Hp.
  { apply normalize_absolute; [done..|]. intros Hcs. rewrite map_app. f_equal; by eapply fixed_components. }
  rewrite Hp. exists cs0, cs1. split_and!; done.
Qed.

End client.
