(* ===== verification/ClientMock.v ===== *)
(** * The client on the mock server

    [filesystem.go], [file.go] and [connection.go] run on [mock_smb.go], as
    the tests run them: what is written can be read back, [Truncate] resizes,
    and some defects of the client shown on concrete runs.  The witnesses of
    the properties of [Pool.v] and [Client.v] are here too. *)

From stdpp Require Import base numbers list gmap sets fin_maps strings relations.
From S2P Require Import Prelude Unicode Errors Path Retry HandleMap Attributes Cache Absfs Config Pool Mock Client Tree MockServer.

Open Scope Z_scope.

#[local] Existing Instance mock_lib.
#[local] Existing Instance mock_lib_laws.

Section client_mock.
Context `{UnicodeTables}.

(** ** The client on it *)

#[local] Notation mfile c f path offset := (@mkFile mock_lib (Some c) (Some f) path offset None 0).

Definition share_of (p : connectionPool) (c : ptr) : option SMBShare := p_heap p !! c ≫= pc_share.

(** Every listed connection has its share mounted. *)
Definition shares_mounted (p : connectionPool) (w : MockWorld) : Prop :=
  ∀ c sh, c ∈ p_connections p → share_of p c = Some sh → mounted w sh.

(** Connections [hs] are handed out and at most [k] are idle. *)
Record mclient (cfg : Config) (hs : list ptr) (k : Z) (s : FileSystem) : Prop := {
  mc_client : client_ok cfg hs s;
  mc_idle : idle_count (fs_pool s) ≤ k;
  mc_alive : fs_cancelled s = false;
  mc_mock : mock_ok (fs_w s);
  mc_shares : shares_mounted (fs_pool s) (fs_w s);
  mc_cache : c_enabled (fs_cache s) = EnableCache (cf_Cache cfg);
}.

Lemma get_locked_shares now t p g p' :
  monotonic now → get_locked now t p = Ok (g, p') →
  ∀ c, c ∈ p_connections p' → c ∈ p_connections p ∧ share_of p' c = share_of p c.
Proof.
  intros Hm Hg c. apply get_locked_spec in Hg; [|done].
  destruct Hg as [|conns gone c0 _ [Hp _] _ _ _|conns gone _ [Hp _] _ _|conns gone _ [Hp _] _ _]; simpl; [done|..].
  all: intros Hc; (split; [rewrite Hp; set_solver|]).
  - unfold share_of; simpl. destruct (decide (c = c0)) as [->|]; [|by rewrite lookup_alter_ne].
    rewrite lookup_alter_eq. by destruct (p_heap p !! c0).
  - done.
  - done.
Qed.

Lemma put_shares t c0 p c :
  c ∈ p_connections (put t c0 p) → c ∈ p_connections p ∧ share_of (put t c0 p) c = share_of p c.
Proof.
  assert (∀ f, (∀ pc, pc_share (f pc) = pc_share pc) → ∀ m : gmap ptr pooledConn,
    alter f c0 m !! c ≫= pc_share = m !! c ≫= pc_share) as Halt.
  { intros f Hf m. destruct (decide (c = c0)) as [->|]; [|by rewrite lookup_alter_ne].
    rewrite lookup_alter_eq. destruct (m !! c0); [by simpl; rewrite Hf|done]. }
  unfold put, share_of. destruct (p_closed p); [done|]. simpl.
  destruct (p_waiters p); [destruct (_ <=? _)|]; simpl; intros Hc; (split; [|by rewrite ?Halt]); try done.
  by eapply elem_of_remove_first.
Qed.

Section runs.
Context (cfg : Config) (hs : list ptr).
Context (Hroom : len hs < cf_MaxOpen cfg).

Lemma mclient_world hs' k s w' :
  mclient cfg hs' k s → idle_step (fs_w s) w' → mclient cfg hs' k (set_cworld w' s).
Proof.
  intros [Hc Hk Ha Hm Hs He] [H1 _ H3]. split; [done|done|done|by apply H1| |done]. intros c sh Hin Hsh. apply H3; [done|]. by eapply Hs.
Qed.

Lemma mock_pool_get s :
  mclient cfg hs 1 s →
  wpp False pool_get (λ r s', same_client s s' ∧ idle_step (fs_w s) (fs_w s')
    ∧ ∃ c, r = inl c ∧ mclient cfg (c :: hs) 0 s') s.
Proof.
  intros [[Hcfg Hok] Hk Ha Hm Hsh He]. unfold pool_get, now. apply wpp_bind, wpp_call. apply wpp_bind, wpp_gets. cbn -[get_locked].
  set (t := mw_clock _ _). pose proof (idle_step_now (fs_w s)) as Hnow. cbn in Hnow. set (w1 := mkMockWorld _ _ _ _ _ _ _ _ _ _ _) in *.
  pose proof (get_locked_ok cfg hs t (fs_pool s) Hok Hroom) as Hg.
  pose proof (get_locked_shares (λ _, t) t (fs_pool s)) as Hgs.
  pose proof (get_locked_spec (λ _, t) t (fs_pool s)) as Hgi.
  destruct (get_locked (λ _, t) t (fs_pool s)) as [[g p]|]; [|unfold wpp, panic; lia].
  specialize (Hgs g p ltac:(by intros ??) eq_refl). specialize (Hgi g p ltac:(by intros ??) eq_refl).
  apply got_idle in Hgi; [|apply (pi_conns _ (po_inv _ _ _ Hok))|done].
  apply wpp_bind, wpp_modify. destruct g as [c|e| |w]; [|done| |done].
  { apply wpp_ret. split; [done|]. split; [done|]. exists c. split; [done|].
    split; [by split|simpl; lia|done|by apply (is_ok _ _ Hnow)| |done].
    intros c' sh Hin Hs'. apply (is_mounted _ _ Hnow); [done|]. destruct (Hgs c' Hin) as [Hin' Heq]. simpl in Hs'.
    rewrite Heq in Hs'. by eapply Hsh. }
  destruct Hg as (Hc & Ho & Hi & Hw & Hb & Hs).
  apply wpp_bind, wpp_gets. apply wpp_bind, wpp_call.
  assert (mock_ok w1) as Hok1 by (by apply (is_ok _ _ Hnow)).
  pose proof (stp_create (fs_config s) w1 Hok1) as Hcr. unfold stp in Hcr.
  change (Mock_CreateConnection (@fs_config mock_lib _) (@fs_w mock_lib _)) with (Mock_CreateConnection (fs_config s) w1).
  destruct (Mock_CreateConnection (fs_config s) w1) as [r w2]. cbn [fst snd] in *.
  destruct Hcr as (Hstep & session & share & -> & Hmnt).
  apply wpp_bind, wpp_call. apply wpp_bind, wpp_call. apply wpp_bind, wpp_gets.
  apply wpp_bind, wpp_modify, wpp_ret.
  assert (∀ w, idle_step w (mock_now (mock_now w).2).2) as Htwo.
  { intros w. eapply idle_step_trans; apply idle_step_now. }
  specialize (Htwo w2).
  assert (idle_step (fs_w s) (mock_now (mock_now w2).2).2) as Hall.
  { eapply idle_step_trans; [exact Hnow|]. by eapply idle_step_trans. }
  split; [done|]. split; [exact Hall|]. eexists. split; [done|].
  split; [split; [done|]| |done|by apply (is_ok _ _ Hall)| |done].
  - split; simpl; [exact (inv_created session share _ _ _ _ _ _ _ _ Hi eq_refl)|done..|].
    intros c Hc'. apply elem_of_app in Hc' as [Hc'| ->%list_elem_of_singleton]; [|rewrite lookup_insert_eq; by eauto].
    destruct (decide (c = p_next p)) as [->|]; [rewrite lookup_insert_eq; by eauto|].
    rewrite lookup_insert_ne by done. by apply Hs.
  - etrans; [|apply Z.eq_le_incl; exact Hgi]. unfold idle_count. simpl. rewrite filter_app, filter_cons_False.
    + rewrite filter_nil, app_nil_r. apply filter_len_le. intros c Hc'. unfold idle, is_inUse. simpl.
      destruct (decide (c = p_next p)) as [->|]; [|by rewrite lookup_insert_ne]. by rewrite lookup_insert_eq.
    + unfold idle, is_inUse. simpl. by rewrite lookup_insert_eq.
  - intros c sh Hin Hsh'. simpl in Hin, Hsh'. unfold share_of in Hsh'. simpl in Hsh'.
    destruct (decide (c = p_next p)) as [->|Hne].
    { rewrite lookup_insert_eq in Hsh'. simpl in Hsh'. injection Hsh' as <-.
      apply (is_mounted _ _ Htwo); [|done]. by apply (is_ok _ _ Hstep). }
    rewrite lookup_insert_ne in Hsh' by done. apply elem_of_app in Hin as [Hin|?%list_elem_of_singleton]; [|done].
    apply (is_mounted _ _ Hall); [done|]. destruct (Hgs c Hin) as [Hin' Heq]. unfold share_of in Heq at 1.
    eapply Hsh; [done|]. by rewrite <-Heq.
Qed.

Lemma mock_pool_put c s :
  mclient cfg (c :: hs) 0 s →
  wpp False (pool_put c) (λ _ s', same_client s s' ∧ idle_step (fs_w s) (fs_w s') ∧ mclient cfg hs 1 s') s.
Proof.
  intros [[Hcfg Hok] Hk Ha Hm Hsh He]. unfold pool_put, now, modify_pool. apply wpp_bind, wpp_call, wpp_modify.
  pose proof (idle_step_now (fs_w s)) as Hnow.
  split; [done|]. split; [exact Hnow|]. split; [split; [done|]| |done|by apply (is_ok _ _ Hnow)| |done].
  - by apply put_ok.
  - pose proof (po_inv _ _ _ Hok) as Hi. etrans; [apply (put_idle _ c (fs_pool s))|lia].
    + apply (pi_conns _ Hi).
    + apply (pi_out _ Hi). left. simpl. by left.
  - intros c' sh Hin Hs'. apply (is_mounted _ _ Hnow); [done|]. simpl in Hin, Hs'.
    destruct (put_shares _ _ _ _ Hin) as [Hin' Heq]. rewrite Heq in Hs'. by eapply Hsh.
Qed.

Lemma mock_conn_share c s :
  mclient cfg (c :: hs) 0 s → ∃ sh, mounted (fs_w s) sh ∧ conn_share c s = Ok (sh, s).
Proof.
  intros [[_ Hok] _ _ _ Hsh _]. assert (c ∈ p_connections (fs_pool s)) as Hin by (eapply pool_ok_held; [done|by left]).
  destruct (po_shares _ _ _ Hok c Hin) as (pc & sh & Hpc & Hpsh). exists sh. split.
  - eapply Hsh; [done|]. unfold share_of. by rewrite Hpc.
  - unfold conn_share, mbind, M_bind, gets. rewrite Hpc. simpl. by rewrite Hpsh.
Qed.

(** An operation that succeeds at once, or fails for good, is not retried. *)
Lemma mock_with_retry {A} (op : M FileSystem (A + error)) (Q : A + error → FileSystem → Prop) s :
  fs_cancelled s = false →
  wpp False op (λ r s', match r with inl _ => True | inr e => isRetryable e = false end ∧ Q r s') s →
  wpp False (with_retry op) Q s.
Proof.
  intros Ha Hop. unfold wpp, with_retry in *. unfold withRetry.
  assert (attempt op (Ok (s, None)) = match op s with
    | Panic => (None, Panic) | Ok (inl a, s) => (None, Ok (s, Some a)) | Ok (inr e, s) => (Some e, Ok (s, None)) end) as Hat by done.
  destruct (Z.leb_spec (MaxAttempts (default defaultRetryPolicy (cf_RetryPolicy (fs_config s)))) 1).
  - rewrite Hat. by destruct (op s) as [[[a|e] s']|]; [destruct Hop..|].
  - destruct (Z.to_nat _) as [|fuel] eqn:Ef; [lia|]. cbn [retry_loop]. unfold ctx_error at 1. rewrite Ha.
    rewrite Hat. destruct (op s) as [[[a|e] s']|]; [|destruct Hop as [-> Hq]|]; [by destruct Hop|done|done].
Qed.

Lemma mclient_set hs' k s w' :
  mclient cfg hs' k s → mock_ok w' → mw_mounts w' = mw_mounts (fs_w s) → mclient cfg hs' k (set_cworld w' s).
Proof.
  intros [Hc Hk Ha Hm Hs He] Hok Heq. split; [done|done|done|done| |done]. intros c sh Hin Hsh.
  destruct (Hs c sh Hin Hsh) as [name Hn]. exists name. cbn. by rewrite Heq.
Qed.

(** A library call, from what it does to the server. *)
Lemma wpp_call_stp {A} (m : ST MockWorld A) (R : A → MockWorld → Prop) (Q' : A → FileSystem → Prop) s :
  stp m R (fs_w s) → (∀ a w, R a w → Q' a (set_cworld w s)) → wpp False (call m) Q' s.
Proof. intros Hm HQ. apply wpp_call. by apply HQ. Qed.

Lemma mclient_cache hs' k s g :
  (∀ c, c_enabled (g c) = c_enabled c) → mclient cfg hs' k s → mclient cfg hs' k (on_cache g s).
Proof. intros Hg []. split; try done. cbn. by rewrite Hg. Qed.

Lemma invalidate_enabled n (c : @metadataCache (list dirEntry) fileInfo) : c_enabled (invalidate n c) = c_enabled c.
Proof. unfold invalidate. by destruct (negb (c_enabled c)). Qed.

(** [OpenFile], from what the server does on any state with the same files. *)
Lemma mock_OpenFile name flag perm s (R : ptr → MockWorld → Prop) :
  mclient cfg hs 1 s → validatePath name = true →
  (∀ w sh, mock_ok w → mounted w sh → files_view w = files_view (fs_w s) →
     stp (Share_OpenFile sh (toSMBPath (normalize (cf_CaseSensitive cfg) name)) flag perm)
       (λ r w', ∃ f, r = inl f ∧ mock_ok w' ∧ mw_mounts w' = mw_mounts w ∧ R f w') w) →
  wpp False (OpenFile name flag perm) (λ r s', ∃ c f : ptr,
    r = inl (mfile c f (normalize (cf_CaseSensitive cfg) name) 0)
    ∧ mclient cfg (c :: hs) 0 s' ∧ R f (fs_w s')) s.
Proof.
  intros Hm Hv Hopen. unfold OpenFile, with_path. rewrite Hv. apply wpp_bind, wpp_gets.
  pose proof (mc_client _ _ _ _ Hm) as [Hcfg _]. rewrite Hcfg. set (n := normalize _ name) in *. apply wpp_bind.
  eapply wpp_mono.
  - apply (mock_with_retry _ (λ (r : @File mock_lib + error) (s' : @FileSystem mock_lib), ∃ c f : ptr, r = inl (mfile c f n 0)
      ∧ mclient cfg (c :: hs) 0 s' ∧ R f (fs_w s'))); [apply (mc_alive _ _ _ _ Hm)|].
    apply wpp_bind. eapply wpp_mono; [by apply mock_pool_get|].
    intros r s1 (_ & Hstep & c & -> & Hm1). apply wpp_bind.
    destruct (mock_conn_share c s1 Hm1) as (sh & Hsh & Hcs). unfold wpp at 1. rewrite Hcs.
    apply wpp_bind. eapply wpp_call_stp; [apply Hopen; [apply (mc_mock _ _ _ _ Hm1)|done|apply (is_view _ _ Hstep)]|].
    intros r w (f & -> & Hok & Hmm & HR). apply wpp_ret. split; [done|]. exists c, f. split; [done|].
    split; [by apply mclient_set|done].
  - intros r s1 (c & f & -> & Hm1 & HR). apply wpp_bind.
    destruct (has_flag flag O_CREATE); [apply wpp_modify|apply wpp_ret]; apply wpp_ret; exists c, f; (split; [done|]).
    + split; [|done]. by apply mclient_cache; [apply invalidate_enabled|].
    + done.
Qed.

(** [Close] gives the connection back. *)
Lemma mock_File_Close T c f n q flag off content path foff s :
  mclient cfg (c :: hs) 0 s → opened_at (fs_w s) f n q flag off → file_in T (fs_w s) n q content →
  wpp False (File_Close (mfile c f path foff)) (λ r s',
    r.1 = None ∧ mclient cfg hs 1 s' ∧ file_in T (fs_w s') n q content) s.
Proof.
  intros Hm Ho Hh. unfold File_Close. cbn [f_file f_conn]. apply wpp_bind.
  eapply wpp_call_stp; [by eapply stp_close|]. intros r w (-> & Hok & Hh' & Hmm).
  apply wpp_bind. eapply wpp_mono; [apply mock_pool_put; by apply mclient_set|].
  intros [] s' (_ & Hstep & Hm'). apply wpp_ret. split; [done|]. split; [done|].
  pose proof (is_view _ _ Hstep) as Hv. injection Hv as Hv1 Hv2 _. by eapply file_in_view.
Qed.

(** What [Stat] reports of a file. *)
Lemma info_of_file T w n q content :
  file_in T w n q content → mock_info md_isDir false q w = false ∧ mock_info (λ d, len (md_content d)) 0 q w = len content.
Proof. intros [[_ (d & Hd & <- & Hdir)] _]. unfold mock_info. by rewrite Hd. Qed.

(** The read loop of [ReadFile] takes one round, and none on an empty file. *)
Lemma mock_read_full T c f n q flag content path s :
  mclient cfg (c :: hs) 0 s → opened_at (fs_w s) f n q flag 0 → file_in T (fs_w s) n q content →
  wpp False (read_full (length content) (len content) [] (mfile c f path 0)) (λ r s',
    ∃ foff off, r = (content, None, mfile c f path foff)
    ∧ mclient cfg (c :: hs) 0 s' ∧ opened_at (fs_w s') f n q flag off ∧ file_in T (fs_w s') n q content) s.
Proof.
  intros Hm Ho Hh. destruct content as [|b content]; [apply wpp_ret; by eexists _, _|].
  cbn [length read_full]. rewrite (proj2 (Z.leb_gt (len (b :: content)) (len []))) by (rewrite len_cons; pose proof (len_nonneg content); unfold len; cbn; lia).
  apply wpp_bind. unfold File_Read. cbn [f_file]. apply wpp_bind. rewrite Z.sub_0_r.
  eapply wpp_call_stp; [by apply (stp_read_all T f n q flag)|]. intros r w (-> & Ho' & Hh' & Hmm).
  cbn beta iota. apply wpp_ret. cbn beta iota zeta. rewrite app_nil_l, Z.leb_refl. apply wpp_ret.
  eexists _, _. split; [done|]. split; [apply mclient_set; [done|apply Ho'|done]|]. by split.
Qed.

(** Opening a file that exists, without changing it. *)
Lemma mock_reopen T name n q content flag perm s :
  mclient cfg hs 1 s → validatePath name = true → n = normalize (cf_CaseSensitive cfg) name → file_in T (fs_w s) n q content →
  has_flag flag O_EXCL = false → has_flag flag O_TRUNC = false →
  wpp False (OpenFile n flag perm) (λ r s', ∃ c f : ptr, r = inl (mfile c f n 0) ∧ mclient cfg (c :: hs) 0 s'
    ∧ opened_at (fs_w s') f n q flag 0 ∧ file_in T (fs_w s') n q content) s.
Proof.
  intros Hm Hv -> Hh Hexcl Htrunc. set (n := normalize _ name) in *.
  assert (normal_path n) as Hn by (by apply normalize_normal).
  assert (normalize (cf_CaseSensitive cfg) n = n) as Hid by (by apply normalize_idem).
  eapply wpp_mono.
  - apply (mock_OpenFile n flag perm s (λ f w', opened_at w' f n q flag 0 ∧ file_in T w' n q content)); [done|by apply validatePath_normalize|].
    intros w sh Hok Hsh Hview. injection Hview as Hv1 Hv2 _. rewrite Hid.
    eapply stp_mono; [apply (stp_open_existing T sh _ flag perm n q content); [done|done|by apply normalizeMockPath_SMB| |done]|].
    + by eapply file_in_view.
    + rewrite Htrunc. intros r w' (f & -> & Ho & Hh' & Hmm). exists f. split_and!; [done|apply Ho|done|done|done].
  - rewrite Hid. intros r s1 (c & f & -> & Hm1 & Ho1 & Hh1). by exists c, f.
Qed.

Lemma mock_ReadFile T name n q content s :
  mclient cfg hs 1 s → validatePath name = true → n = normalize (cf_CaseSensitive cfg) name → file_in T (fs_w s) n q content →
  wpp False (ReadFile name) (λ r s', r = inl content ∧ mclient cfg hs 1 s' ∧ file_in T (fs_w s') n q content) s.
Proof.
  intros Hm Hv En Hh. unfold ReadFile, with_path. rewrite Hv. apply wpp_bind, wpp_gets.
  pose proof (mc_client _ _ _ _ Hm) as [Hcfg _]. rewrite Hcfg, <-En.
  apply wpp_bind. eapply wpp_mono; [by apply (mock_reopen T name n q content O_RDONLY 0)|].
  intros r s1 (c & f & -> & Hm1 & Ho1 & Hh1). apply wpp_bind.
  eapply (wpp_mono _ _ (λ r s', ∃ foff off, r = (inl content, mfile c f n foff)
    ∧ mclient cfg (c :: hs) 0 s' ∧ opened_at (fs_w s') f n q O_RDONLY off ∧ file_in T (fs_w s') n q content)).
  - unfold File_Stat. cbn [f_file]. apply wpp_bind, wpp_bind, wpp_gets. apply wpp_bind.
    eapply wpp_call_stp; [by eapply stp_file_stat|]. intros r w (-> & ->). apply wpp_ret.
    apply wpp_bind, wpp_gets. destruct (info_of_file T _ _ _ _ Hh1) as [Hdir Hsize]. cbn -[read_full]. rewrite Hdir.
    apply wpp_bind, wpp_gets. cbn -[read_full]. rewrite Hsize.
    rewrite (proj2 (Z.ltb_ge (len content) 0)) by apply len_nonneg. apply wpp_bind.
    replace (Z.to_nat (len content)) with (length content) by (unfold len; lia).
    eapply wpp_mono; [apply (mock_read_full T c f n q O_RDONLY); [by apply mclient_set; [|apply Ho1|]|done|done]|].
    intros r s2 (foff & off & -> & Hm2 & Ho2 & Hh2). apply wpp_ret. by exists foff, off.
  - intros [r g] s2 (foff & off & [= -> ->] & Hm2 & Ho2 & Hh2). apply wpp_bind.
    eapply wpp_mono; [by eapply mock_File_Close|]. intros [r g] s3 (_ & Hm3 & Hh3). by apply wpp_ret.
Qed.
(** [Create] gives an empty file open for reading and writing. *)
Definition create_flags : Z := Z.lor O_RDWR (Z.lor O_CREATE O_TRUNC).

Lemma mock_Create T name n s :
  mclient cfg hs 1 s → validatePath name = true → n = normalize (cf_CaseSensitive cfg) name →
  t_create n (tree_of (fs_w s)) = Some T →
  wpp False (Create name) (λ r s', ∃ c f q : ptr, r = inl (mfile c f n 0) ∧ mclient cfg (c :: hs) 0 s'
    ∧ opened_at (fs_w s') f n q create_flags 0 ∧ file_in T (fs_w s') n q []) s.
Proof.
  intros Hm Hv -> HT. set (n := normalize (cf_CaseSensitive cfg) name) in *.
  assert (normal_path n) as Hn by (by apply normalize_normal). pose proof (normalizeMockPath_SMB n Hn) as Hsmb.
  eapply wpp_mono; [apply (mock_OpenFile name create_flags perm_666 s
    (λ f w', ∃ q, opened_at w' f n q create_flags 0 ∧ file_in T w' n q [])); [done|done|]|].
  - intros w sh Hok Hsh Hview. injection Hview as Hv1 Hv2 _. fold n. rewrite <-(tree_of_view (fs_w s) w Hv1 Hv2) in HT.
    unfold t_create in HT. destruct (tree_of w !! n) as [x|] eqn:Ef.
    + pose proof Ef as (q & d & Hq & Hd & ->)%tree_Some. unfold node_of in HT. destruct (md_isDir d) eqn:Hdir; [done|].
      injection HT as <-.
      eapply stp_mono; [apply (stp_open_existing (tree_of w) sh _ create_flags perm_666 n q (md_content d)); try done|].
      { apply holds_file_in. split; [done|]. by exists d. }
      intros r w' (f & -> & Ho & [Hh Ht] & Hmm). exists f. split_and!; [done|apply Ho|done|]. exists q. split; [done|].
      split; [done|]. by rewrite Ht, insert_insert_eq.
    + injection HT as <-. apply tree_None in Ef; [|done].
      eapply stp_mono; [by apply (stp_open_new sh _ create_flags perm_666 n)|].
      intros r w' (f & q & -> & Ho & Hh & Hmm). exists f. split_and!; [done|apply Ho|done|by exists q].
  - intros r s' (c & f & -> & Hm' & q & Ho & Hh). by exists c, f, q.
Qed.

Lemma mock_File_Write T c f n q flag off content data path foff s :
  mclient cfg (c :: hs) 0 s → opened_at (fs_w s) f n q flag off → file_in T (fs_w s) n q content →
  has_flag flag (Z.lor O_WRONLY O_RDWR) = true →
  wpp False (File_Write data (mfile c f path foff)) (λ r s',
    r = (len data, None, mfile c f path (s64 (foff + len data))) ∧ mclient cfg (c :: hs) 0 s'
    ∧ opened_at (fs_w s') f n q flag (off + length data) ∧ file_in T (fs_w s') n q (written content off data)) s.
Proof.
  intros Hm Ho Hh Hfl. unfold File_Write. cbn [f_file]. apply wpp_bind.
  eapply wpp_call_stp; [by apply (stp_write T f n q flag off content data)|].
  intros r w (-> & Ho' & Hh' & Hmm). cbn beta iota. apply wpp_ret. split; [done|].
  split; [apply mclient_set; [done|apply Ho'|done]|]. by split.
Qed.

(** [Truncate] of an open file. *)
Lemma mock_write_zeros T fuel c f n q flag content remaining s :
  mclient cfg (c :: hs) 0 s → opened_at (fs_w s) f n q flag (length content) → file_in T (fs_w s) n q content →
  has_flag flag (Z.lor O_WRONLY O_RDWR) = true → 0 ≤ remaining ≤ 4096 * Z.of_nat fuel →
  wpp False (write_zeros fuel f remaining) (λ r s', r = None ∧ mclient cfg (c :: hs) 0 s'
    ∧ (∃ off, opened_at (fs_w s') f n q flag off) ∧ file_in T (fs_w s') n q (content ++ zeros (Z.to_nat remaining))) s.
Proof.
  intros Hm Ho Hh Hfl. revert content remaining s Hm Ho Hh. induction fuel as [|fuel IH]; intros content remaining s Hm Ho Hh Hr.
  { assert (remaining = 0) as -> by lia. apply wpp_ret. change (zeros (Z.to_nat 0)) with (@nil byte).
    rewrite app_nil_r. by eauto. }
  cbn [write_zeros]. destruct (Z.leb_spec remaining 0).
  { apply wpp_ret. replace (Z.to_nat remaining) with 0%nat by lia. change (zeros 0) with (@nil byte). rewrite app_nil_r. by eauto. }
  set (k := if 4096 <? remaining then 4096 else remaining).
  assert (0 < k ≤ 4096 ∧ k ≤ remaining ∧ remaining - k ≤ 4096 * Z.of_nat fuel) as Hk.
  { unfold k. destruct (Z.ltb_spec 4096 remaining); lia. }
  apply wpp_bind. eapply wpp_call_stp; [by apply (stp_write T f n q flag (length content) content (zeros (Z.to_nat k)))|].
  intros r w (-> & Ho' & Hh' & Hmm). cbn beta iota.
  assert (written content (length content) (zeros (Z.to_nat k)) = content ++ zeros (Z.to_nat k)) as Hwr.
  { destruct (Z.to_nat k) as [|m] eqn:Ek; [lia|]. exact (write_content_end content _). }
  rewrite Hwr in Hh'. rewrite <-length_app in Ho'.
  eapply wpp_mono; [apply (IH (content ++ zeros (Z.to_nat k)) (remaining - k)); [|done|done|lia]|].
  { apply mclient_set; [done|apply Ho'|done]. }
  intros r s' (-> & Hm' & Ho'' & Hh''). split_and!; [done..|]. rewrite <-app_assoc in Hh''.
  replace (zeros (Z.to_nat remaining)) with (zeros (Z.to_nat k) ++ zeros (Z.to_nat (remaining - k))); [done|].
  unfold zeros. rewrite <-replicate_add. f_equal. lia.
Qed.

Lemma mock_File_Truncate T c f n q flag off content size path foff s :
  mclient cfg (c :: hs) 0 s → opened_at (fs_w s) f n q flag off → file_in T (fs_w s) n q content →
  has_flag flag (Z.lor O_WRONLY O_RDWR) = true → 0 ≤ size < 2 ^ 63 →
  wpp False (File_Truncate size (mfile c f path foff)) (λ r s', r = None ∧ mclient cfg (c :: hs) 0 s'
    ∧ (∃ off, opened_at (fs_w s') f n q flag off) ∧ file_in T (fs_w s') n q (resized content size)) s.
Proof.
  intros Hm Ho Hh Hfl Hsz. pose proof (len_nonneg content) as Hlen. unfold File_Truncate. cbn [f_file]. apply wpp_bind.
  eapply wpp_call_stp; [by eapply stp_file_stat|]. intros r w (-> & ->). apply wpp_bind, wpp_gets.
  assert (mclient cfg (c :: hs) 0 (set_cworld (fs_w s) s)) as Hm' by (by apply mclient_set; [|apply Ho|]).
  destruct (info_of_file T _ _ _ _ Hh) as [_ Hsize]. cbn -[write_zeros]. rewrite Hsize. unfold resized.
  destruct (Z.eqb_spec size (len content)) as [->|Hne].
  { apply wpp_ret. rewrite Z.sub_diag, take_ge by (unfold len; lia). change (zeros (Z.to_nat 0)) with (@nil byte).
    rewrite app_nil_r. by eauto. }
  destruct (Z.ltb_spec size (len content)) as [Hlt|Hge]; apply wpp_bind.
  - eapply wpp_call_stp; [apply (stp_seek T f n q flag off content size SeekStart size); [done|done|by left|lia]|].
    intros r w (-> & Ho1 & Hh1 & Hmm1). apply wpp_bind.
    eapply wpp_call_stp; [by apply (stp_write T f n q flag (Z.to_nat size) content [])|].
    intros r w' (-> & Ho2 & Hh2 & Hmm2). apply wpp_ret. split; [done|].
    split; [apply mclient_set; [apply mclient_set; [done|apply Ho1|done]|apply Ho2|done]|]. split; [eauto|].
    replace (Z.to_nat (size - len content)) with 0%nat by lia. change (zeros 0) with (@nil byte). by rewrite app_nil_r.
  - eapply wpp_call_stp; [apply (stp_seek T f n q flag off content 0 SeekEnd (len content)); [done|done|right; split; [done|lia]|lia]|].
    intros r w (-> & Ho1 & Hh1 & Hmm1). rewrite s64_small by lia. apply wpp_bind.
    replace (Z.to_nat (len content)) with (length content) in Ho1 by (unfold len; lia).
    eapply wpp_mono; [apply (mock_write_zeros T _ c f n q flag content (size - len content));
      [apply mclient_set; [done|apply Ho1|done]|done|done|done|]|].
    + unfold zero_rounds. rewrite Z2Nat.id by (apply Z.div_pos; lia). pose proof (Z.div_mod (size - len content + 4095) 4096).
      pose proof (Z.mod_pos_bound (size - len content + 4095) 4096). lia.
    + intros r s' (-> & Hm2 & Ho2 & Hh2). apply wpp_ret. split_and!; [done..|].
      rewrite take_ge by (unfold len in *; lia). done.
Qed.

Lemma mock_Truncate T name n q content size s :
  mclient cfg hs 1 s → validatePath name = true → n = normalize (cf_CaseSensitive cfg) name → file_in T (fs_w s) n q content →
  0 ≤ size < 2 ^ 63 →
  wpp False (Truncate name size) (λ r s', r = inl tt ∧ mclient cfg hs 1 s' ∧ file_in T (fs_w s') n q (resized content size)) s.
Proof.
  intros Hm Hv En Hh Hsz. unfold Truncate, with_path. rewrite Hv. apply wpp_bind, wpp_gets.
  pose proof (mc_client _ _ _ _ Hm) as [Hcfg _]. rewrite Hcfg, <-En. apply wpp_bind.
  eapply wpp_mono; [by apply (mock_reopen T name n q content O_WRONLY 0)|].
  intros r s1 (c & f & -> & Hm1 & Ho1 & Hh1). apply wpp_bind, wpp_bind.
  eapply wpp_mono; [by apply (mock_File_Truncate T c f n q O_WRONLY 0 content size)|].
  intros r s2 (-> & Hm2 & [off Ho2] & Hh2). apply wpp_bind, wpp_modify, wpp_ret. apply wpp_bind.
  eapply wpp_mono; [apply (mock_File_Close T c f n q O_WRONLY off); [by apply mclient_cache; [apply invalidate_enabled|]|done|done]|].
  intros [r g] s3 (_ & Hm3 & Hh3). by apply wpp_ret.
Qed.
End runs.

(** ** Properties *)

(** C11: What is written through the client can be read back.  On the mock server
    without injected errors, for a client that has a connection to spare (the
    pool is open, fewer than [MaxOpen] connections are in use, nobody waits for
    one, and at most one is idle: with none to spare [get] runs into its
    timeout, and two idle ones that have expired crash it,
    [expired_connections_panic]), whatever is cached, for any valid name that
    is not a directory, any data and any previous content: [Create], [Write]
    and [Close] succeed and a following [ReadFile] returns exactly the data;
    afterwards the connections in use are the same as before. *)
Theorem write_read_roundtrip cfg hs s name data :
  mclient cfg hs 1 s → len hs < cf_MaxOpen cfg → validatePath name = true →
  (∀ q d, data_at (fs_w s) (normalize (cf_CaseSensitive cfg) name) = Some (q, d) → md_isDir d = false) →
  ∃ f s1 f1 s2 f2 s3 s4,
    Create name s = Ok (inl f, s1)
    ∧ File_Write data f s1 = Ok (len data, None, f1, s2)
    ∧ File_Close f1 s2 = Ok (None, f2, s3)
    ∧ ReadFile name s3 = Ok (inl data, s4)
    ∧ mclient cfg hs 1 s4.
Proof.
  intros Hm Hroom Hv Hdir. set (n := normalize (cf_CaseSensitive cfg) name) in *.
  assert (∃ T, t_create n (tree_of (fs_w s)) = Some T) as [T HT].
  { unfold t_create. rewrite tree_lookup. destruct (data_at (fs_w s) n) as [[q d]|] eqn:E; [|by eexists]. simpl.
    unfold node_of. rewrite (Hdir q d eq_refl). by eexists. }
  destruct (wpp_total _ _ _ (mock_Create cfg hs Hroom T name n s Hm Hv eq_refl HT))
    as (r & s1 & HE1 & c & f & q & -> & Hm1 & Ho1 & Hh1).
  destruct (wpp_total _ _ _ (mock_File_Write cfg hs T c f _ q create_flags 0 [] data n 0 s1 Hm1 Ho1 Hh1 eq_refl))
    as (r & s2 & HE2 & -> & Hm2 & Ho2 & Hh2).
  rewrite written_nil in Hh2.
  destruct (wpp_total _ _ _ (mock_File_Close cfg hs T c f n q _ _ data n (s64 (0 + len data)) s2 Hm2 Ho2 Hh2))
    as ([r g2] & s3 & HE3 & Hr & Hm3 & Hh3). cbn in Hr. subst r.
  destruct (wpp_total _ _ _ (mock_ReadFile cfg hs Hroom T name _ q data s3 Hm3 Hv eq_refl Hh3)) as (r & s4 & HE4 & -> & Hm4 & _).
  eexists _, s1, _, s2, g2, s3, s4. split_and!; done.
Qed.

(** [Truncate] sets the size: on the mock server without injected errors,
    truncating a file to any size that an int64 holds succeeds, and what
    [ReadFile] then returns is the old content cut off at that size or
    extended to it with zeros; the connections are back in the pool. *)
Theorem truncate_resizes cfg hs s name q content size :
  mclient cfg hs 1 s → len hs < cf_MaxOpen cfg → validatePath name = true →
  holds_file (fs_w s) (normalize (cf_CaseSensitive cfg) name) q content → 0 ≤ size < 2 ^ 63 →
  ∃ s1 s2,
    Truncate name size s = Ok (inl tt, s1)
    ∧ ReadFile name s1 = Ok (inl (take (Z.to_nat size) content ++ zeros (Z.to_nat (size - len content))), s2)
    ∧ mclient cfg hs 1 s2.
Proof.
  intros Hm Hroom Hv Hh%holds_file_in Hsz.
  destruct (wpp_total _ _ _ (mock_Truncate cfg hs Hroom _ name _ q content size s Hm Hv eq_refl Hh Hsz)) as (r & s1 & HE1 & -> & Hm1 & Hh1).
  destruct (wpp_total _ _ _ (mock_ReadFile cfg hs Hroom _ name _ q _ s1 Hm1 Hv eq_refl Hh1)) as (r & s2 & HE2 & -> & Hm2 & _).
  by exists s1, s2.
Qed.
End client_mock.

(** ** A client of the mock server *)

(** What [New] gives on a fresh mock server. *)
Lemma New_mclient `{UnicodeTables} config clock s :
  New (Some config) (NewMockSMBBackend clock) = Ok (inl s) → mclient (setDefaults config) [] 1 s.
Proof.
  unfold New. destruct (Validate (setDefaults config)); [done|].
  destruct (newConnectionPool (setDefaults config)) as [p|] eqn:Ep; [|done].
  destruct (newMetadataCache (cf_Cache (setDefaults config))) as [cache|] eqn:Ec; [|done].
  apply newMetadataCache_new in Ec as (_ & _ & _ & Ec & _). destruct (startCleanup p); [|done]. intros [= <-].
  pose proof (new_pool_inv _ _ Ep) as Hi. unfold newConnectionPool in Ep.
  destruct (_ <? _); [done|]. injection Ep as <-.
  split; [split; [done|]|done|done| | |done].
  - split; try done. intros c Hc. by apply elem_of_nil in Hc.
  - split; cbn; try done.
    + intros p q [<- <-]%lookup_singleton_Some. by rewrite lookup_singleton_eq.
    + intros q [d [<- _]%lookup_singleton_Some]. lia.
    + intros f [? ?]. by rewrite lookup_empty in *.
    + intros f [? ?]. by rewrite lookup_empty in *.
    + intros p p' q [<- <-]%lookup_singleton_Some [<- _]%lookup_singleton_Some. done.
    + intros p q d [<- <-]%lookup_singleton_Some [_ <-]%lookup_singleton_Some. done.
  - intros c sh Hc. by apply elem_of_nil in Hc.
Qed.

#[local] Existing Instance ascii_tables.

(** A configuration with one spare connection and no cache. *)
Definition demo_config : Config := {|
  cf_Server := str "server"; cf_Port := 0; cf_Share := str "data"; cf_Username := []; cf_Password := []; cf_Domain := [];
  cf_UseKerberos := false; cf_GuestAccess := true; cf_Dialect := []; cf_Signing := false; cf_Encryption := false;
  cf_MaxIdle := 2; cf_MaxOpen := 1; cf_IdleTimeout := 0; cf_ConnTimeout := 0; cf_OpTimeout := 0;
  cf_CaseSensitive := false; cf_FollowSymlinks := false; cf_ReadBufferSize := 0; cf_WriteBufferSize := 0;
  cf_Cache := DefaultCacheConfig; cf_RetryPolicy := None |}.

Definition demo_client (config : Config) : FileSystem :=
  mkFS (setDefaults config) (mkPool (setDefaults config) ∅ 0 ∅ 0 [] [] 0 false [])
    (mkCache (cf_Cache config) ∅ ∅ [] (EnableCache (cf_Cache config))) false (NewMockSMBBackend Z.of_nat).

Lemma demo_mclient : mclient (setDefaults demo_config) [] 1 (demo_client demo_config).
Proof. by apply (New_mclient demo_config Z.of_nat). Qed.

Lemma write_read_roundtrip_witness :
  ∃ s4, (∃ f s1 f1 s2 f2 s3, Create (str "Dir\new.txt") (demo_client demo_config) = Ok (inl f, s1)
    ∧ File_Write (str "hello") f s1 = Ok (5, None, f1, s2) ∧ File_Close f1 s2 = Ok (None, f2, s3)
    ∧ ReadFile (str "Dir\new.txt") s3 = Ok (inl (str "hello"), s4)) ∧ mclient (setDefaults demo_config) [] 1 s4.
Proof.
  destruct (write_read_roundtrip (setDefaults demo_config) [] (demo_client demo_config) (str "Dir\new.txt") (str "hello"))
    as (f & s1 & f1 & s2 & f2 & s3 & s4 & H1 & H2 & H3 & H4 & H5).
  - exact demo_mclient.
  - reflexivity.
  - reflexivity.
  - intros q d Hd. exfalso. revert Hd. vm_compute. discriminate.
  - exists s4. split; [|exact H5]. exists f, s1, f1, s2, f2, s3. by split_and!.
Defined.

(** The same client with a file on the server. *)
Definition demo_file : FileSystem :=
  set_cworld (AddFile (str "/a.txt") (str "hello") 420 (NewMockSMBBackend Z.of_nat)).2 (demo_client demo_config).

Lemma demo_file_mclient : mclient (setDefaults demo_config) [] 1 demo_file.
Proof.
  pose proof demo_mclient as Hm. apply mclient_set; [done|..].
  all: pose proof (stp_AddFile (str "/a.txt") (str "hello") 420 (NewMockSMBBackend Z.of_nat) (mc_mock _ _ _ _ Hm)) as Hg;
    apply Hg; by vm_compute.
Qed.

Lemma truncate_resizes_witness :
  ∃ s1 s2, Truncate (str "A.txt") 2 demo_file = Ok (inl tt, s1) ∧ ReadFile (str "A.txt") s1 = Ok (inl (str "he"), s2).
Proof.
  destruct (truncate_resizes (setDefaults demo_config) [] demo_file (str "A.txt") 1 (str "hello") 2) as (s1 & s2 & H1 & H2 & _).
  - exact demo_file_mclient.
  - reflexivity.
  - reflexivity.
  - split; [reflexivity|]. eexists. split; [reflexivity|]. by split.
  - lia.
  - exists s1, s2. by split.
Defined.

(** ** Witnesses for the pool *)

Definition demo_pool : connectionPool := fs_pool (demo_client demo_config).

(** One user has a connection, another one waits for it. *)
Lemma demo_waits : ∃ u, rtc pool_step (mkUsers demo_pool 0 [] []) u ∧ us_holders u = [0%nat] ∧ us_waiting u = [0%nat]
  ∧ p_closed (us_pool u) = false.
Proof.
  eexists. split.
  { eapply rtc_l; [eapply (st_reserve (λ _, 0) 0); [by intros ???|reflexivity]|].
    eapply rtc_l; [eapply (@st_created mock_lib 0%nat 0%nat 0 0); reflexivity|].
    eapply rtc_l; [eapply (st_wait (λ _, 0) 0); [by intros ???|reflexivity]|]. apply rtc_refl. }
  done.
Qed.

Lemma pool_users_exclusive_witness :
  newConnectionPool (setDefaults demo_config) = Ok demo_pool ∧
  ∃ u, rtc pool_step (mkUsers demo_pool 0 [] []) u ∧ us_holders u = [0%nat] ∧ us_waiting u = [0%nat]
    ∧ (∀ c, out u c → is_inUse (us_pool u) c = true).
Proof.
  split; [reflexivity|]. destruct demo_waits as (u & Hu & Hh & Hw & _). exists u. split; [exact Hu|]. split; [exact Hh|].
  split; [exact Hw|]. apply (pool_users_exclusive (setDefaults demo_config) demo_pool u eq_refl Hu).
Defined.

Lemma pool_limits_witness :
  newConnectionPool (setDefaults demo_config) = Ok demo_pool ∧
  ∃ u, rtc pool_step (mkUsers demo_pool 0 [] []) u ∧ us_holders u = [0%nat] ∧ p_closed (us_pool u) = false
    ∧ p_numOpen (us_pool u) ≤ 1.
Proof.
  split; [reflexivity|]. destruct demo_waits as (u & Hu & Hh & Hw & Hc). exists u. split; [exact Hu|]. split; [exact Hh|].
  split; [exact Hc|]. apply (pool_limits (setDefaults demo_config) demo_pool u eq_refl Hu Hc).
Defined.

Lemma abandoned_waiter_starves_witness :
  cf_MaxOpen (setDefaults demo_config) = 1 ∧ newConnectionPool (setDefaults demo_config) = Ok demo_pool ∧
  ∃ p1 c p2 w p3, get_locked (λ _, 1) 1 demo_pool = Ok (Reserved, p1)
    ∧ @add_connection mock_lib 0%nat 0%nat 2 2 p1 = (c, p2) ∧ get_locked (λ _, 3) 3 p2 = Ok (Waiting w, p3)
    ∧ ∀ u', rtc pool_step (mkUsers (put 5 c (timeout_wait w p3)) 0 [] []) u' → us_holders u' = [].
Proof.
  split; [reflexivity|]. split; [reflexivity|].
  destruct (@abandoned_waiter_starves mock_lib (setDefaults demo_config) demo_pool 0%nat 0%nat (λ _, 1) (λ _, 3) 1 3 2 2 5)
    as (p1 & c & p2 & w & p3 & E1 & E2 & E3 & _ & Hs); [reflexivity..|].
  by exists p1, c, p2, w, p3.
Defined.

(** Two connections idle for more than the five minutes. *)
Definition demo_expired : connectionPool :=
  let pc := @mkPooled mock_lib (Some 0%nat) (Some 0%nat) 0 0 false in
  mkPool (setDefaults demo_config) {[ 0%nat := pc; 1%nat := pc ]} 2 ∅ 0 [0%nat; 1%nat] [] 2 false [].

Lemma expired_connections_panic_witness :
  (2 ≤ length (p_connections demo_expired))%nat ∧ get_locked (λ _, 301 * second) 0 demo_expired = Panic.
Proof.
  split; [cbn; lia|]. apply expired_connections_panic; [reflexivity|cbn; lia|].
  intros c [->|[->| []%elem_of_nil]%elem_of_cons]%elem_of_cons; (eexists; split; [reflexivity|]; split; [reflexivity|]);
    intros _; by vm_compute.
Defined.

(** ** Witnesses for the file system *)

Lemma connections_returned_witness :
  client_ok (setDefaults demo_config) [] demo_file ∧
  returns_all (setDefaults demo_config) [] (2 < cf_MaxIdle (setDefaults demo_config)) (ReadFile (str "a.txt")) demo_file.
Proof.
  pose proof (mc_client _ _ _ _ demo_file_mclient) as Hc. split; [exact Hc|].
  destruct (connections_returned (setDefaults demo_config) [] demo_file Hc) as (_ & _ & _ & _ & Hr & _); [reflexivity|].
  exact (Hr (str "a.txt")).
Defined.

(** The same configuration with the cache switched on. *)
Definition cached_config : Config := {|
  cf_Server := str "server"; cf_Port := 0; cf_Share := str "data"; cf_Username := []; cf_Password := []; cf_Domain := [];
  cf_UseKerberos := false; cf_GuestAccess := true; cf_Dialect := []; cf_Signing := false; cf_Encryption := false;
  cf_MaxIdle := 2; cf_MaxOpen := 1; cf_IdleTimeout := 0; cf_ConnTimeout := 0; cf_OpTimeout := 0;
  cf_CaseSensitive := false; cf_FollowSymlinks := false; cf_ReadBufferSize := 0; cf_WriteBufferSize := 0;
  cf_Cache := mkCacheConfig true (5 * second) (5 * second) 100; cf_RetryPolicy := None |}.

(** A client whose cache knows the attributes of [/d/a] and the listing of
    [/d]. *)
Definition warm_client : FileSystem :=
  let s0 := set_cworld (AddFile (str "/d/a") (str "hello") 420
              (AddDir (str "/d") mode_755 (NewMockSMBBackend Z.of_nat)).2).2 (demo_client cached_config) in
  match (_ ← Stat (str "/d/a"); ReadDir (str "/d")) s0 with Ok (_, s) => s | Panic => s0 end.

Lemma changes_invalidate_cache_witness :
  is_Some (getStatInfo 100 (str "/d/a") (fs_cache warm_client)) ∧
  is_Some (getDirEntries 100 (str "/d") (fs_cache warm_client)) ∧
  ∃ s', Remove (str "D\a") warm_client = Ok (inl tt, s')
    ∧ getStatInfo 100 (str "/d/a") (fs_cache s') = None ∧ getDirEntries 100 (str "/d") (fs_cache s') = None.
Proof.
  assert (∀ A (o : option A), (match o with Some _ => true | None => false end) = true → is_Some o) as Hsome
    by (intros A [x|]; [by exists x|done]).
  split; [apply Hsome; vm_compute; reflexivity|]. split; [apply Hsome; vm_compute; reflexivity|].
  assert (cf_CaseSensitive (fs_config warm_client) = false) as Hcs by (vm_compute; reflexivity).
  assert (∃ s', Remove (str "D\a") warm_client = Ok (inl tt, s')) as [s' Hs'].
  { assert (match Remove (str "D\a") warm_client with Ok (inl tt, _) => true | _ => false end = true) as Hb by (vm_compute; reflexivity).
    destruct (Remove _ _) as [[[[]|] s']|]; [|done..]. by exists s'. }
  exists s'. split; [exact Hs'|].
  destruct (changes_invalidate_cache warm_client s' (str "D\a")) as (_ & Hrm & _).
  rewrite Hcs in Hrm. destruct (Hrm Hs' 100) as (H1 & _ & H2). split; [exact H1|exact H2].
Defined.

Lemma sub_stays_below_root_witness :
  sub_joinPath (str "/root") (str "x\..\A/./b") demo_file = Ok (str "/root/a/b", demo_file) ∧
  ∃ cs0 cs1, str "/root" = absolute cs0 ∧ str "/a/b" = absolute cs1 ∧ str "/root/a/b" = absolute (cs0 ++ cs1)
    ∧ Forall good_comp (cs0 ++ cs1).
Proof.
  assert (sub_joinPath (str "/root") (str "x\..\A/./b") demo_file = Ok (str "/root/a/b", demo_file)) as Hj by reflexivity.
  split; [exact Hj|].
  destruct (sub_stays_below_root demo_file demo_file (str "/root") (str "x\..\A/./b") (str "/root/a/b"))
    as (cs0 & cs1 & H1 & H2 & H3 & H4 & _); [|reflexivity|reflexivity|exact Hj|by exists cs0, cs1].
  by apply (normalize_normal true (str "/root")).
Defined.

(** ** Defects shown on runs *)

(** [m] run on [s], then [k] on its result and the state it leaves. *)
Definition after {A} (m : M FileSystem A) (s : FileSystem) (k : A → FileSystem → bool) : bool :=
  match m s with Ok (a, s) => k a s | Panic => false end.

(** A client of a server with the given directory in it. *)
Definition demo_dir (config : Config) : FileSystem :=
  set_cworld (AddDir (str "/d") mode_755 (NewMockSMBBackend Z.of_nat)).2 (demo_client config).

(** The same with a maximum that [Validate] does not refuse. *)
Definition negative_config : Config := {|
  cf_Server := str "server"; cf_Port := 0; cf_Share := str "data"; cf_Username := []; cf_Password := []; cf_Domain := [];
  cf_UseKerberos := false; cf_GuestAccess := true; cf_Dialect := []; cf_Signing := false; cf_Encryption := false;
  cf_MaxIdle := 2; cf_MaxOpen := 1; cf_IdleTimeout := 0; cf_ConnTimeout := 0; cf_OpTimeout := 0;
  cf_CaseSensitive := false; cf_FollowSymlinks := false; cf_ReadBufferSize := 0; cf_WriteBufferSize := 0;
  cf_Cache := mkCacheConfig false (5 * second) (5 * second) (-1); cf_RetryPolicy := None |}.

(** A negative [MaxCacheEntries] passes the validation and crashes [New], also
    with the cache switched off. *)
Theorem negative_maximum_panics :
  Validate (setDefaults negative_config) = None ∧ New (Some negative_config) (NewMockSMBBackend Z.of_nat) = Panic.
Proof.
  split; [vm_compute; reflexivity|].
  assert (match New (Some negative_config) (NewMockSMBBackend Z.of_nat) with Panic => true | Ok _ => false end = true) as Hp
    by (vm_compute; reflexivity).
  by destruct (New _ _).
Qed.

(** The root of a share is removed with a file in it: the mock looks for
    entries that start with the name and a slash, which for the root is two
    slashes. *)
Theorem root_removed_with_children :
  after (Remove (str "/")) demo_file (λ r s,
    match r with inl _ => true | inr _ => false end
    && FileExists (str "/a.txt") (fs_w s) && negb (FileExists (str "/") (fs_w s))) = true.
Proof. vm_compute. reflexivity. Qed.

(** [RemoveAll] of an empty directory fails with [io.EOF] and leaves it: the
    listing of an empty directory is reported as an error. *)
Theorem RemoveAll_empty_directory_fails :
  after (RemoveAll 10 (str "/d")) (demo_dir demo_config) (λ r s,
    match r with inr e => is_EOF e | inl _ => false end
    && after (Stat (str "/d")) s (λ r _, match r with inl _ => true | inr _ => false end)) = true.
Proof. vm_compute. reflexivity. Qed.

(** After a directory is renamed, the cache still answers for the files that
    were in it: [Stat] finds [/d/a] where the server has no such file. *)
Theorem rename_leaves_cached_children :
  after (Create (str "/d/a")) (demo_dir cached_config) (λ r s,
    match r with inr _ => false | inl f =>
    after (File_Close f) s (λ _ s,
    after (Stat (str "/d/a")) s (λ _ s,
    after (Rename (str "/d") (str "/e")) s (λ r s,
      match r with inl _ => true | inr _ => false end
      && after (Stat (str "/d/a")) s (λ r _, match r with inl _ => true | inr _ => false end)
      && negb (FileExists (str "/d/a") (fs_w s))))) end) = true.
Proof. vm_compute. reflexivity. Qed.
