(* ===== verification/ClientTree.v ===== *)
(** * The client implements the tree

    The file system of [filesystem.go] and [file.go], with its cache off, on
    the mock server of [mock_smb.go]: any sequence of operations gives the
    answers of the abstract specification of [Tree.v] and leaves the tree it
    says, whatever connections, retries and open files it takes. *)

From stdpp Require Import base numbers list gmap sets fin_maps strings sorting.
From S2P Require Import Prelude Unicode Errors Path Retry HandleMap Attributes Cache Absfs Config Pool Mock Client Tree MockServer ClientMock.

Open Scope Z_scope.

#[local] Existing Instance mock_lib.
#[local] Existing Instance mock_lib_laws.

(** The kind of an error, as a caller finds out with [errors.Is]. *)
Definition kind_of (e : error) : kind :=
  if errors_Is e ErrNotExist then KNotExist
  else if errors_Is e ErrExist then KExist
  else if errors_Is e ErrInvalidPath then KInvalid
  else KOther.

Definition answer_of {A} (f : A → answer) (r : A + error) : answer :=
  match r with inl a => f a | inr e => AFail (kind_of e) end.

Definition done_of (r : unit + error) : answer := answer_of (λ _, ADone) r.

Section client_tree.
Context `{UnicodeTables}.

(** [Create], [Write] and [Close]; the first error is the answer. *)
Definition write_file (name : gostring) (data : bytes) : M FileSystem (unit + error) :=
  r ← Create name;
  match r with
  | inr e => mret (inr e)
  | inl f =>
    '(_, err, f) ← File_Write data f;
    '(err', _) ← File_Close f;
    mret (match err, err' with Some e, _ | None, Some e => inr e | None, None => inl tt end)
  end.

(** The answer of the client to an operation. The size of a directory is not
    looked at. *)
Definition client_op (op : fsop) : M FileSystem answer :=
  match op with
  | OpStat name => r ← Stat name; gets (λ s, answer_of (λ i,
      AStat (info_IsDir i (fs_w s)) (if info_IsDir i (fs_w s) then 0 else info_Size i (fs_w s))) r)
  | OpMkdir name perm => r ← Mkdir name perm; mret (done_of r)
  | OpMkdirAll name perm =>
    config ← gets fs_config;
    r ← MkdirAll (S (length (normalize (cf_CaseSensitive config) name))) name perm;
    mret (done_of r)
  | OpRemove name => r ← Remove name; mret (done_of r)
  | OpRename o n => r ← Rename o n; mret (done_of r)
  | OpChmod name mode => r ← Chmod name mode; mret (done_of r)
  | OpChtimes name atime mtime => r ← Chtimes name atime mtime; mret (done_of r)
  | OpWrite name data => r ← write_file name data; mret (done_of r)
  | OpRead name => r ← ReadFile name; mret (answer_of ABytes r)
  | OpTruncate name size => r ← Truncate name size; mret (done_of r)
  | OpReadDir name => r ← ReadDir name; mret (answer_of (λ l, ANames (map entry_Name l)) r)
  end.

Fixpoint client_run (ops : list fsop) : M FileSystem (list answer) :=
  match ops with
  | [] => mret []
  | op :: ops => a ← client_op op; l ← client_run ops; mret (a :: l)
  end.

(** ** Errors *)

Lemma kind_wrap op n e : kind_of (wrap op n e) = kind_of e.
Proof.
  assert (∀ t, errors_Is (wrap op n e) t = errors_Is e t) as Hi.
  { intros t. unfold wrap. destruct (wrapPathError_Is (str op) n e t) as (e' & -> & ?). done. }
  unfold kind_of. by rewrite !Hi.
Qed.

Lemma plain_convert k e : plain_error k e → kind_of (convert e) = k ∧ isRetryable (convert e) = false.
Proof. destruct k; [intros ->|intros ->|done|intros [msg ->]]; by vm_compute. Qed.

(** ** Operations on the share *)

#[local] Notation mfile c f path offset := (@mkFile mock_lib (Some c) (Some f) path offset None 0).

Section runs.
Context (cfg : Config) (hs : list ptr).
Context (Hroom : len hs < cf_MaxOpen cfg) (Hoff : EnableCache (cf_Cache cfg) = false).

(** What [m] leaves when it does to the tree what [f] does. *)
Definition as_in {A} (view : A → FileSystem → answer) (f : tree → answer * tree) (t : tree) (a : A) (s' : FileSystem) : Prop :=
  mclient cfg hs 1 s' ∧ view a s' = (f t).1 ∧ tree_of (fs_w s') = (f t).2.

(** From a tree with [P], [m] gives the answer of [f] and leaves its tree. *)
Definition runs_as {A} (P : tree → Prop) (view : A → FileSystem → answer) (m : M FileSystem A) (f : tree → answer * tree) : Prop :=
  ∀ s, mclient cfg hs 1 s → P (tree_of (fs_w s)) → wpp False m (as_in view f (tree_of (fs_w s))) s.

Lemma runs_as_with_path {A} P (view : A → FileSystem → answer) (op : string) (name : gostring)
    (k : gostring → M FileSystem (A + error)) (f : gostring → tree → answer * tree) :
  (∀ n, validatePath name = true → n = normalize (cf_CaseSensitive cfg) name →
     runs_as P (λ r s, answer_of (λ a, view a s) r) (k n) (f n)) →
  runs_as P (λ r s, answer_of (λ a, view a s) r) (with_path op name k) (t_path (cf_CaseSensitive cfg) name f).
Proof.
  intros Hk s Hm HP. unfold with_path, t_path. destruct (validatePath name) eqn:Hv; cbn [negb].
  - apply wpp_bind, wpp_gets. destruct (mc_client _ _ _ _ Hm) as [-> _]. by apply Hk.
  - apply wpp_ret. split; [done|]. split; [|done]. cbn [answer_of fst]. by rewrite kind_wrap.
Qed.

Lemma idle_tree w w' : idle_step w w' → tree_of w' = tree_of w.
Proof. intros Hs. pose proof (is_view _ _ Hs) as Hv. injection Hv as Hf Hd _. by apply tree_of_view. Qed.

Lemma invalidate_list_enabled (stale : list gostring) (c : @metadataCache (list dirEntry) fileInfo) :
  c_enabled (foldl (λ c p, invalidate p c) c stale) = c_enabled c.
Proof. revert c. induction stale as [|p l IH]; intros c; cbn; [done|]. by rewrite IH, invalidate_enabled. Qed.

Lemma runs_on_share (op : string) (n : gostring) (stale : list gostring) (m : ptr → ST MockWorld (option error))
    (P : tree → Prop) (f : tree → answer * tree) :
  (∀ w sh, mock_ok w → mounted w sh → P (tree_of w) → serves (m sh) f w) →
  runs_as P (λ r _, done_of r) (on_share op n stale m) f.
Proof.
  intros Hserve s Hm HP. unfold on_share. apply wpp_bind. eapply wpp_mono; [by apply mock_pool_get|].
  intros r s1 (_ & Hstep & c & -> & Hm1). pose proof (idle_tree _ _ Hstep) as Ht1. apply wpp_bind.
  destruct (mock_conn_share _ _ c s1 Hm1) as (sh & Hsh & Hcs). unfold wpp at 1. rewrite Hcs.
  apply wpp_bind. eapply wpp_call_stp; [apply Hserve; [apply (mc_mock _ _ _ _ Hm1)|done|by rewrite Ht1]|].
  rewrite Ht1. intros err w (Hok & Hmm & Hans & Ht2).
  assert (mclient cfg (c :: hs) 0 (set_cworld w s1)) as Hm2 by (by apply mclient_set).
  apply wpp_bind.
  eapply (wpp_mono _ _ (λ r s', mclient cfg (c :: hs) 0 s' ∧ done_of r = (f (tree_of (fs_w s))).1
    ∧ tree_of (fs_w s') = (f (tree_of (fs_w s))).2)).
  - destruct (f (tree_of (fs_w s))).1 as [| | | |k]; try done.
    + cbn in Hans. subst err. apply wpp_bind, wpp_modify, wpp_ret. split_and!; [|done|done].
      apply mclient_cache; [apply invalidate_list_enabled|done].
    + destruct Hans as (e & -> & He). apply wpp_ret. split_and!; [done| |done]. cbn [done_of answer_of]. rewrite kind_wrap.
      by rewrite (proj1 (plain_convert _ _ He)).
  - intros r s2 (Hm3 & Hr & Ht3). apply wpp_bind. eapply wpp_mono; [by apply mock_pool_put|].
    intros [] s3 (_ & Hstep3 & Hm4). apply wpp_ret. split_and!; [done|done|]. by rewrite (idle_tree _ _ Hstep3).
Qed.

(** The path the server gets is the client's. *)
Lemma server_path name : validatePath name = true →
  normalizeMockPath (toSMBPath (normalize (cf_CaseSensitive cfg) name)) = normalize (cf_CaseSensitive cfg) name.
Proof. intros Hv. by apply normalizeMockPath_SMB, normalize_normal. Qed.

Lemma runs_Mkdir name perm :
  runs_as (λ _, True) (λ r _, done_of r) (Mkdir name perm) (t_path (cf_CaseSensitive cfg) name t_mkdir).
Proof.
  apply (runs_as_with_path _ (λ _ _, ADone)). intros n Hv ->. apply runs_on_share. intros w sh Hok Hm _.
  apply stp_Share_Mkdir; [done|done|by apply server_path].
Qed.

Lemma client_path_ne name : validatePath name = true → normalize (cf_CaseSensitive cfg) name ≠ [].
Proof. intros Hv. by destruct (normalize_normal (cf_CaseSensitive cfg) name Hv) as (cs & -> & _). Qed.

Lemma runs_Remove name :
  runs_as (λ t, op_ok (cf_CaseSensitive cfg) (OpRemove name) t = true) (λ r _, done_of r) (Remove name)
    (t_path (cf_CaseSensitive cfg) name t_remove).
Proof.
  apply (runs_as_with_path _ (λ _ _, ADone)). intros n Hv ->. apply runs_on_share. intros w sh Hok Hm HP.
  apply stp_Share_Remove; [done|done|by apply server_path|by apply client_path_ne|done].
Qed.

Lemma runs_Chmod name mode :
  runs_as (λ _, True) (λ r _, done_of r) (Chmod name mode) (t_path (cf_CaseSensitive cfg) name t_touch).
Proof.
  apply (runs_as_with_path _ (λ _ _, ADone)). intros n Hv ->. apply runs_on_share. intros w sh Hok Hm _.
  apply stp_Share_Chmod; [done|done|by apply server_path].
Qed.

Lemma runs_Chtimes name atime mtime :
  runs_as (λ _, True) (λ r _, done_of r) (Chtimes name atime mtime) (t_path (cf_CaseSensitive cfg) name t_touch).
Proof.
  apply (runs_as_with_path _ (λ _ _, ADone)). intros n Hv ->. apply runs_on_share. intros w sh Hok Hm _.
  apply stp_Share_Chtimes; [done|done|by apply server_path].
Qed.

Lemma runs_Rename o n :
  runs_as (λ t, op_ok (cf_CaseSensitive cfg) (OpRename o n) t = true) (λ r _, done_of r) (Rename o n)
    (t_path (cf_CaseSensitive cfg) o (λ o, t_path (cf_CaseSensitive cfg) n (t_rename o))).
Proof.
  apply (runs_as_with_path _ (λ _ _, ADone)). intros o' Hv ->. apply (runs_as_with_path _ (λ _ _, ADone)). intros n' Hv' ->.
  apply runs_on_share. intros w sh Hok Hm HP. apply stp_Share_Rename; [done|done|by apply server_path|by apply server_path|by apply client_path_ne|by apply client_path_ne|done].
Qed.

(** ** Stat *)

Lemma mock_now_call (Q : Z → FileSystem → Prop) hs' k s :
  mclient cfg hs' k s →
  (∀ t s', mclient cfg hs' k s' → idle_step (fs_w s) (fs_w s') → fs_cache s' = fs_cache s → fs_cancelled s' = fs_cancelled s → Q t s') →
  wpp False now Q s.
Proof.
  intros Hm HQ. apply wpp_call. pose proof (idle_step_now (fs_w s)) as Hs.
  apply HQ; [by apply mclient_world|done|done|done].
Qed.

Lemma no_cached_stat t n hs' k s : mclient cfg hs' k s → getStatInfo t n (fs_cache s) = None.
Proof. intros [_ _ _ _ _ He]. unfold getStatInfo. by rewrite He, Hoff. Qed.

Lemma no_cached_dir t n hs' k s : mclient cfg hs' k s → getDirEntries t n (fs_cache s) = None.
Proof. intros [_ _ _ _ _ He]. unfold getDirEntries. by rewrite He, Hoff. Qed.

(** The cache takes nothing in. *)
Lemma no_put_stat t n i hs' k s : mclient cfg hs' k s → putStatInfo t n i (fs_cache s) = fs_cache s.
Proof. intros [_ _ _ _ _ He]. unfold putStatInfo. by rewrite He, Hoff. Qed.

Lemma no_put_dir t n l hs' k s : mclient cfg hs' k s → putDirEntries t n l (fs_cache s) = fs_cache s.
Proof. intros [_ _ _ _ _ He]. unfold putDirEntries. by rewrite He, Hoff. Qed.

Definition stat_view (i : fileInfo) (s : FileSystem) : answer :=
  AStat (info_IsDir i (fs_w s)) (if info_IsDir i (fs_w s) then 0 else info_Size i (fs_w s)).

(** What a view of a piece of data shows. *)
Lemma stat_view_data (q : ptr) name d s :
  mw_data (fs_w s) !! q = Some d → stat_view (@mkInfo mock_lib q name) s = AStat (is_dir (node_of d)) (node_size (node_of d)).
Proof.
  intros Hd. unfold stat_view.
  change (info_IsDir _ (fs_w s)) with (mock_info md_isDir false q (fs_w s)).
  change (info_Size _ (fs_w s)) with (mock_info (λ d, len (md_content d)) 0 q (fs_w s)).
  unfold mock_info. rewrite Hd. unfold node_of. cbn [from_option]. by destruct (md_isDir d).
Qed.

Lemma set_cache_same s : on_cache (λ _, fs_cache s) s = s.
Proof. by destruct s. Qed.

Lemma runs_Stat name :
  runs_as (λ _, True) (λ r s, answer_of (λ i, stat_view i s) r) (Stat name) (t_path (cf_CaseSensitive cfg) name t_stat).
Proof.
  apply runs_as_with_path. intros n Hv En s Hm _. apply wpp_bind. eapply mock_now_call; [done|].
  intros t s1 Hm1 Hs1 _ _. pose proof (idle_tree _ _ Hs1) as Ht1. apply wpp_bind, wpp_gets.
  rewrite (no_cached_stat t n _ _ _ Hm1). apply wpp_bind. rewrite <-Ht1.
  eapply (wpp_mono _ _ (λ r s', mclient cfg hs 1 s' ∧ tree_of (fs_w s') = tree_of (fs_w s1)
    ∧ match tree_of (fs_w s1) !! n with
      | None => ∃ e, r = inr e ∧ kind_of e = KNotExist
      | Some x => ∃ (q : ptr) nm d, r = inl (@mkInfo mock_lib q nm) ∧ mw_data (fs_w s') !! q = Some d ∧ x = node_of d
      end)).
  - apply mock_with_retry; [apply (mc_alive _ _ _ _ Hm1)|]. apply wpp_bind. eapply wpp_mono; [by apply mock_pool_get|].
    intros r s2 (_ & Hs2 & c & -> & Hm2). pose proof (idle_tree _ _ Hs2) as Ht2. apply wpp_bind.
    destruct (mock_conn_share _ _ c s2 Hm2) as (sh & Hsh & Hcs). unfold wpp at 1. rewrite Hcs. apply wpp_bind, wpp_gets.
    apply wpp_bind. eapply wpp_call_stp; [apply (stp_Share_Stat sh _ n); [apply (mc_mock _ _ _ _ Hm2)|done|]|].
    { rewrite En. by apply server_path. }
    intros r w (Hok & Hmm & Htw & Hr). rewrite Ht2 in Htw, Hr. apply wpp_bind.
    eapply wpp_mono; [apply mock_pool_put; by apply mclient_set|]. intros [] s3 (_ & Hs3 & Hm3).
    pose proof (is_view _ _ Hs3) as Hv3. injection Hv3 as Hf3 Hd3 _. apply wpp_ret.
    assert (tree_of (fs_w s3) = tree_of (fs_w s1)) as Ht3 by (rewrite (idle_tree _ _ Hs3); done).
    destruct (tree_of (fs_w s1) !! n) as [x|]; [destruct Hr as (q & d & -> & Hd & ->)|subst r].
    + split; [done|]. split_and!; [done|done|]. eexists q, _, d. by rewrite Hd3.
    + destruct (plain_convert KNotExist (Sentinel ErrNotExist) eq_refl) as [Hk Hret]. split; [done|]. split_and!; [done|done|]. by eexists.
  - intros r s2 (Hm2 & Ht2 & Hr). unfold as_in, t_stat. cbn [fst snd].
    destruct (tree_of (fs_w s1) !! n) as [x|]; [destruct Hr as (q & nm & d & -> & Hd & ->)|destruct Hr as (e & -> & He)].
    + apply wpp_bind. eapply mock_now_call; [done|]. intros t' s3 Hm3 Hs3 _ _. apply wpp_bind, wpp_modify, wpp_ret.
      unfold on_cache. rewrite (no_put_stat t' n (@mkInfo mock_lib q nm) _ _ _ Hm3).
      change (mkFS (fs_config s3) (fs_pool s3) (fs_cache s3) (fs_cancelled s3) (fs_w s3)) with (on_cache (λ _, fs_cache s3) s3).
      rewrite set_cache_same. split_and!; [done| |by rewrite (idle_tree _ _ Hs3)]. cbn [answer_of].
      pose proof (is_view _ _ Hs3) as Hv3. injection Hv3 as _ Hd3 _. apply stat_view_data. by rewrite Hd3.
    + apply wpp_ret. split_and!; [done| |done]. cbn [answer_of]. by rewrite kind_wrap, He.
Qed.

(** ** Opening *)

(** How an open of a path that leads nowhere or to a directory ends: with an
    error of kind [k], or with a handle of the directory. *)
Definition refused (t : tree) (n : gostring) (flag : Z) (k : kind) : Prop :=
  match t !! n with
  | None => k = KNotExist
  | Some _ => has_flag flag (Z.lor O_WRONLY O_RDWR) = true ∧ k = KOther
  end.

Definition open_dir (t : tree) (n : gostring) (flag : Z) (g : File) (s' : FileSystem) : Prop :=
  has_flag flag (Z.lor O_WRONLY O_RDWR) = false ∧ t !! n = Some DirNode
  ∧ ∃ (c f q : ptr) d, g = mfile c f n 0 ∧ mclient cfg (c :: hs) 0 s' ∧ opened_at (fs_w s') f n q flag 0
    ∧ mw_data (fs_w s') !! q = Some d ∧ md_isDir d = true.

Definition open_other (t : tree) (n : gostring) (flag : Z) (r : File + error) (s' : FileSystem) : Prop :=
  tree_of (fs_w s') = t ∧
  match r with
  | inr e => mclient cfg hs 1 s' ∧ refused t n flag (kind_of e)
  | inl g => open_dir t n flag g s'
  end.

Lemma put_and_fail c t n flag e k s :
  mclient cfg (c :: hs) 0 s → tree_of (fs_w s) = t → plain_error k e → refused t n flag k →
  wpp False (pool_put c;; mret (inr (convert e)))
    (λ r s', match r with inl _ => True | inr e => isRetryable e = false end ∧ open_other t n flag r s') s.
Proof.
  intros Hm Ht [Hk Hret]%plain_convert Href. apply wpp_bind. eapply wpp_mono; [by apply mock_pool_put|].
  intros [] s' (_ & Hs & Hm'). apply wpp_ret. split; [done|]. split; [by rewrite (idle_tree _ _ Hs)|]. by rewrite Hk.
Qed.

Lemma mock_OpenFile_other name n flag perm s :
  mclient cfg hs 1 s → validatePath name = true → n = normalize (cf_CaseSensitive cfg) name →
  has_flag flag O_EXCL = false →
  (tree_of (fs_w s) !! n = None ∧ has_flag flag O_CREATE = false) ∨ tree_of (fs_w s) !! n = Some DirNode →
  wpp False (OpenFile name flag perm) (open_other (tree_of (fs_w s)) n flag) s.
Proof.
  intros Hm Hv En Hexcl Hcase. unfold OpenFile, with_path. rewrite Hv. apply wpp_bind, wpp_gets.
  destruct (mc_client _ _ _ _ Hm) as [-> _]. rewrite <-En. apply wpp_bind.
  apply (wpp_mono _ _ (open_other (tree_of (fs_w s)) n flag)).
  - apply mock_with_retry; [apply (mc_alive _ _ _ _ Hm)|]. apply wpp_bind. eapply wpp_mono; [by apply mock_pool_get|].
    intros r s1 (_ & Hs1 & c & -> & Hm1). pose proof (idle_tree _ _ Hs1) as Ht1. apply wpp_bind.
    destruct (mock_conn_share _ _ c s1 Hm1) as (sh & Hsh & Hcs). unfold wpp at 1. rewrite Hcs. apply wpp_bind.
    eapply wpp_call_stp; [apply (stp_open_other sh _ flag perm n); [apply (mc_mock _ _ _ _ Hm1)|done| |done|by rewrite Ht1]|].
    { rewrite En. by apply server_path. }
    rewrite Ht1. intros r w (Hok & Hmm & Htw & Hr).
    assert (mclient cfg (c :: hs) 0 (set_cworld w s1)) as Hm2 by (by apply mclient_set).
    destruct (tree_of (fs_w s) !! n) as [x|] eqn:Ex.
    2:{ subst r. apply (put_and_fail _ _ _ _ _ KNotExist); [done..|]. unfold refused. by rewrite Ex. }
    destruct Hcase as [[? _]|[= ->]]; [done|]. destruct (has_flag flag (Z.lor O_WRONLY O_RDWR)) eqn:Ew.
    { subst r. apply (put_and_fail _ _ _ _ _ KOther); [done..|by eexists|]. unfold refused. by rewrite Ex. }
    destruct Hr as (f & q & d & -> & Ho & Hd & Hdir). apply wpp_ret. split; [done|]. split; [done|]. split_and!; [done..|].
    by exists c, f, q, d.
  - intros r s1 (Ht & Hr). destruct r as [g|e].
    2:{ apply wpp_ret. split; [done|]. by rewrite kind_wrap. }
    destruct Hr as (Hw & Hx & c & f & q & d & -> & Hm1 & Hopen). apply wpp_bind.
    destruct (has_flag flag O_CREATE); [apply wpp_modify|apply wpp_ret]; apply wpp_ret;
      (split; [done|]; split_and!; [done..|]; exists c, f, q, d).
    + split_and!; [done|by apply mclient_cache; [apply invalidate_enabled|]|apply Hopen..].
    + done.
Qed.

(** [Close] of a directory. *)
Lemma mock_dir_Close c f n q flag off t path foff entries pos s :
  mclient cfg (c :: hs) 0 s → opened_at (fs_w s) f n q flag off → tree_of (fs_w s) = t →
  wpp False (File_Close (@mkFile mock_lib (Some c) (Some f) path foff entries pos))
    (λ _ s', mclient cfg hs 1 s' ∧ tree_of (fs_w s') = t) s.
Proof.
  intros Hm Ho Ht. unfold File_Close. cbn [f_file f_conn]. apply wpp_bind.
  eapply wpp_call_stp; [by eapply stp_dir_close|]. intros r w (-> & Hok & Htw & Hmm). apply wpp_bind.
  eapply wpp_mono; [apply mock_pool_put; by apply mclient_set|]. intros [] s' (_ & Hs & Hm'). apply wpp_ret.
  split; [done|]. by rewrite (idle_tree _ _ Hs), <-Ht.
Qed.

Lemma info_IsDir_data (w : MockWorld) (q : ptr) nm d :
  mw_data w !! q = Some d → info_IsDir (@mkInfo mock_lib q nm) w = md_isDir d.
Proof. intros Hd. change (mock_info md_isDir false q w = md_isDir d). unfold mock_info. by rewrite Hd. Qed.

(** A file of the tree is a file of the server. *)
Lemma tree_file w n content : tree_of w !! n = Some (FileNode content) → ∃ q, file_in (tree_of w) w n q content.
Proof.
  intros Hx. pose proof Hx as (q & d & Hq & Hd & Hnode)%tree_Some. exists q. unfold node_of in Hnode.
  destruct (md_isDir d) eqn:Edir; [done|]. injection Hnode as ->. apply holds_file_in. split; [done|]. by exists d.
Qed.

(** ** Files *)

Lemma runs_write_file name data :
  runs_as (λ _, True) (λ r _, done_of r) (write_file name data) (t_path (cf_CaseSensitive cfg) name (λ n, t_write n data)).
Proof.
  intros s Hm _. unfold write_file, t_path. destruct (validatePath name) eqn:Hv.
  2:{ unfold Create, OpenFile, with_path. rewrite Hv. apply wpp_bind, wpp_ret, wpp_ret. split_and!; [done| |done].
      cbn [done_of answer_of fst]. by rewrite kind_wrap. }
  set (n := normalize (cf_CaseSensitive cfg) name). unfold t_write. destruct (t_create n (tree_of (fs_w s))) as [T|] eqn:HT.
  - apply wpp_bind. eapply wpp_mono; [by apply (mock_Create cfg hs Hroom T name n s)|].
    intros r s1 (c & f & q & -> & Hm1 & Ho1 & Hh1). apply wpp_bind.
    eapply wpp_mono; [by eapply (mock_File_Write cfg hs T c f n q create_flags 0 [] data)|].
    intros r s2 (-> & Hm2 & Ho2 & Hh2). rewrite written_nil in Hh2. apply wpp_bind.
    eapply wpp_mono; [by eapply (mock_File_Close cfg hs T)|]. intros [r g] s3 (Hr & Hm3 & [_ Ht3]). cbn in Hr. subst r.
    apply wpp_ret. unfold as_in. rewrite HT. by split_and!.
  - assert (tree_of (fs_w s) !! n = Some DirNode) as Hdir.
    { unfold t_create in HT. by destruct (tree_of (fs_w s) !! n) as [[]|]. }
    apply wpp_bind. eapply wpp_mono; [apply (mock_OpenFile_other name n); [done..|by right]|].
    intros [g|e] s1 (Ht & Hr); [by destruct Hr|]. destruct Hr as (Hm1 & Href). unfold refused in Href. rewrite Hdir in Href.
    apply wpp_ret. unfold as_in. rewrite HT. split_and!; [done| |done]. cbn [done_of answer_of fst]. by destruct Href as [_ ->].
Qed.

Lemma runs_ReadFile name :
  runs_as (λ _, True) (λ r _, answer_of ABytes r) (ReadFile name) (t_path (cf_CaseSensitive cfg) name t_read).
Proof.
  intros s Hm _. unfold t_path. destruct (validatePath name) eqn:Hv.
  2:{ unfold ReadFile, with_path. rewrite Hv. apply wpp_ret. split_and!; [done| |done].
      cbn [answer_of fst]. by rewrite kind_wrap. }
  set (n := normalize (cf_CaseSensitive cfg) name). unfold as_in, t_read. cbn [fst snd].
  destruct (tree_of (fs_w s) !! n) as [[|content]|] eqn:Ex.
  2:{ destruct (tree_file _ _ _ Ex) as [q Hq]. eapply wpp_mono; [by apply (mock_ReadFile cfg hs Hroom (tree_of (fs_w s)) name n q content)|].
      intros r s1 (-> & Hm1 & [_ Ht1]). split_and!; [done|done|]. rewrite Ht1. by apply insert_id. }
  all: unfold ReadFile, with_path; rewrite Hv; apply wpp_bind, wpp_gets; destruct (mc_client _ _ _ _ Hm) as [-> _]; fold n.
  all: apply wpp_bind; eapply wpp_mono; [apply (mock_OpenFile_other n n);
    [done|by apply validatePath_normalize|symmetry; by apply normalize_idem|done|by eauto]|].
  all: intros [g|e] s1 (Ht & Hr); [destruct Hr as (_ & Hx & c & f & q & d & -> & Hm1 & Ho & Hd & Hdir)|destruct Hr as (Hm1 & Href)].
  - apply wpp_bind, wpp_bind. unfold File_Stat. cbn [f_file]. apply wpp_bind, wpp_gets. apply wpp_bind.
    eapply wpp_call_stp; [by eapply stp_dir_stat|]. intros r w (-> & ->). apply wpp_ret. apply wpp_bind, wpp_gets.
    rewrite (info_IsDir_data (fs_w s1) q _ d Hd), Hdir. apply wpp_ret. cbn beta iota. apply wpp_bind.
    eapply wpp_mono; [eapply mock_dir_Close; [by apply mclient_set; [|apply Ho|]|exact Ho|exact Ht]|].
    intros _ s2 (Hm2 & Ht2). apply wpp_ret. split_and!; [done| |done]. cbn [answer_of]. by rewrite kind_wrap.
  - unfold refused in Href. rewrite Ex in Href. by destruct Href.
  - congruence.
  - unfold refused in Href. rewrite Ex in Href. apply wpp_ret. split_and!; [done| |done]. cbn [answer_of]. by rewrite Href.
Qed.

Lemma mock_Truncate_negative T name n q content size s :
  mclient cfg hs 1 s → validatePath name = true → n = normalize (cf_CaseSensitive cfg) name →
  file_in T (fs_w s) n q content → size < 0 →
  wpp False (Truncate name size) (λ r s', mclient cfg hs 1 s' ∧ done_of r = AFail KOther ∧ file_in T (fs_w s') n q content) s.
Proof.
  intros Hm Hv En Hh Hneg. pose proof (len_nonneg content) as Hlen. unfold Truncate, with_path. rewrite Hv. apply wpp_bind, wpp_gets.
  destruct (mc_client _ _ _ _ Hm) as [-> _]. rewrite <-En. apply wpp_bind.
  eapply wpp_mono; [by apply (mock_reopen cfg hs Hroom T name n q content O_WRONLY 0)|].
  intros r s1 (c & f & -> & Hm1 & Ho1 & Hh1). apply wpp_bind, wpp_bind. unfold File_Truncate. cbn [f_file]. apply wpp_bind.
  eapply wpp_call_stp; [by eapply stp_file_stat|]. intros r w (-> & ->). apply wpp_bind, wpp_gets.
  destruct (info_of_file _ _ _ _ _ Hh1) as [_ Hsize]. cbn -[wrap]. rewrite Hsize.
  rewrite (proj2 (Z.eqb_neq size (len content))), (proj2 (Z.ltb_lt size (len content))) by lia. apply wpp_bind.
  eapply wpp_call_stp; [by apply (stp_seek_negative T f n q O_WRONLY 0 content)|]. intros r w (-> & ->). apply wpp_ret.
  apply wpp_ret. cbn beta iota. apply wpp_bind.
  eapply wpp_mono; [apply (mock_File_Close cfg hs T c f n q O_WRONLY 0 content); [|done|done]|].
  { do 2 (apply mclient_set; [|apply Ho1|done]). done. }
  intros [r g] s2 (_ & Hm2 & Hh2). apply wpp_ret. split; [done|]. split; [|done]. cbn [done_of answer_of].
  by rewrite !kind_wrap.
Qed.

Lemma runs_Truncate name size :
  - 2 ^ 63 ≤ size < 2 ^ 63 →
  runs_as (λ _, True) (λ r _, done_of r) (Truncate name size) (t_path (cf_CaseSensitive cfg) name (λ n, t_truncate n size)).
Proof.
  intros Hsz s Hm _. unfold t_path. destruct (validatePath name) eqn:Hv.
  2:{ unfold Truncate, with_path. rewrite Hv. apply wpp_ret. split_and!; [done| |done].
      cbn [done_of answer_of fst]. by rewrite kind_wrap. }
  set (n := normalize (cf_CaseSensitive cfg) name). unfold as_in, t_truncate.
  destruct (tree_of (fs_w s) !! n) as [[|content]|] eqn:Ex.
  2:{ destruct (tree_file _ _ _ Ex) as [q Hq]. destruct (Z.ltb_spec size 0).
      - eapply wpp_mono; [by apply (mock_Truncate_negative (tree_of (fs_w s)) name n q content)|].
        intros r s1 (Hm1 & Hr & [_ Ht1]). split_and!; [done|done|]. rewrite Ht1. by apply insert_id.
      - eapply wpp_mono; [apply (mock_Truncate cfg hs Hroom (tree_of (fs_w s)) name n q content size s); [done..|lia]|].
        intros r s1 (-> & Hm1 & [_ Ht1]). by split_and!. }
  all: unfold Truncate, with_path; rewrite Hv; apply wpp_bind, wpp_gets; destruct (mc_client _ _ _ _ Hm) as [-> _]; fold n.
  all: apply wpp_bind; eapply wpp_mono; [apply (mock_OpenFile_other n n);
    [done|by apply validatePath_normalize|symmetry; by apply normalize_idem|done|by eauto]|].
  all: intros [g|e] s1 (Ht & Hr); [by destruct Hr as [Hw _]|destruct Hr as (Hm1 & Href)].
  all: unfold refused in Href; rewrite Ex in Href; apply wpp_ret; (split_and!; [done| |done]); cbn [done_of answer_of fst].
  - by destruct Href as [_ ->].
  - by rewrite Href.
Qed.

(** ** Directories *)

Lemma entries_names (w : MockWorld) (infos : list ptr) :
  map entry_Name (@dir_entries mock_lib infos w) = filter (λ b, b ≠ [dot] ∧ b ≠ dotdot) (name_of w <$> infos).
Proof.
  unfold dir_entries.
  change (map entry_Name (map (λ e : ptr, @mkDirEntry mock_lib (@mkInfo mock_lib e (name_of w e)))
    (filter (λ e : ptr, name_of w e ≠ [dot] ∧ name_of w e ≠ dotdot) infos))
    = filter (λ b, b ≠ [dot] ∧ b ≠ dotdot) (name_of w <$> infos)).
  induction infos as [|q infos IH]; [done|]. cbn [fmap list_fmap].
  destruct (decide (name_of w q ≠ [dot] ∧ name_of w q ≠ dotdot)).
  - rewrite !filter_cons_True by done. cbn. f_equal. exact IH.
  - rewrite !filter_cons_False by done. exact IH.
Qed.

Definition names_view (r : list dirEntry + error) : answer := answer_of (λ l, ANames (map entry_Name l)) r.

(** The listing of an open directory. *)
Lemma mock_File_ReadDir c f n q d s :
  n ≠ [] → mclient cfg (c :: hs) 0 s → opened_at (fs_w s) f n q O_RDONLY 0 → mw_data (fs_w s) !! q = Some d → md_isDir d = true →
  wpp False (File_ReadDir (-1) (mfile c f n 0)) (λ r s', ∃ entries pos, r.2 = @mkFile mock_lib (Some c) (Some f) n 0 entries pos
    ∧ names_view r.1 = match t_names n (tree_of (fs_w s)) with [] => AFail KOther | names => ANames names end
    ∧ mclient cfg (c :: hs) 0 s' ∧ opened_at (fs_w s') f n q O_RDONLY 0 ∧ tree_of (fs_w s') = tree_of (fs_w s)) s.
Proof.
  intros Hne Hm Ho Hd Hdir. unfold File_ReadDir. cbn [f_file f_dirEntry]. apply wpp_bind.
  eapply wpp_call_stp; [by eapply stp_readdir|]. intros r w (-> & ->). apply wpp_bind, wpp_gets. unfold next_entries.
  cbn [Z.leb Z.compare]. apply wpp_ret. cbn [snd fst f_dirPos set_dir]. rewrite drop_0.
  assert (map entry_Name (@dir_entries mock_lib (children (fs_w s) n) (fs_w s)) = t_names n (tree_of (fs_w s))) as Hn.
  { rewrite entries_names. unfold t_names. by rewrite children_names by (apply Ho || done). }
  eexists _, _. split; [done|]. split; [|split_and!; [by apply mclient_set; [|apply Ho|]|done|done]].
  change (fs_w (set_cworld (fs_w s) s)) with (fs_w s). rewrite <-Hn.
  by destruct (@dir_entries mock_lib (children (fs_w s) n) (fs_w s)).
Qed.

(** The body of [ReadDir] once the directory is open. *)
Definition list_open (name : gostring) (f : File) : M FileSystem (list dirEntry + error) :=
  closing f (
    info ← File_Stat f;
    match info with
    | inr e => mret (inr (wrap "readdir" name e), f)
    | inl info =>
      isDir ← gets (λ s, info_IsDir info (fs_w s));
      if negb isDir then mret (inr (wrap "readdir" name (Sentinel ErrNotDirectory)), f)
      else
        '(r, f) ← File_ReadDir (-1) f;
        match r with
        | inr e => mret (inr e, f)
        | inl entries =>
          t ← now;
          modify (on_cache (putDirEntries t name entries));;
          mret (inl entries, f)
        end
    end).

Lemma list_open_dir (c f q : ptr) n d s :
  n ≠ [] → mclient cfg (c :: hs) 0 s → opened_at (fs_w s) f n q O_RDONLY 0 → mw_data (fs_w s) !! q = Some d → md_isDir d = true →
  wpp False (list_open n (mfile c f n 0)) (λ r s', mclient cfg hs 1 s'
    ∧ names_view r = match t_names n (tree_of (fs_w s)) with [] => AFail KOther | names => ANames names end
    ∧ tree_of (fs_w s') = tree_of (fs_w s)) s.
Proof.
  intros Hne Hm Ho Hd Hdir. unfold list_open. apply wpp_bind, wpp_bind. unfold File_Stat at 1. cbn [f_file].
  apply wpp_bind, wpp_gets. apply wpp_bind.
  eapply wpp_call_stp; [by eapply stp_dir_stat|]. intros r w (-> & ->). apply wpp_ret. apply wpp_bind, wpp_gets.
  rewrite (info_IsDir_data (fs_w s) q _ d Hd), Hdir. cbn [negb]. apply wpp_bind.
  eapply wpp_mono; [apply (mock_File_ReadDir c f n q d); [done|by apply mclient_set; [|apply Ho|]|done..]|].
  intros [r g] s2 (entries & pos & Hg & Hr & Hm2 & Ho2 & Ht2). cbn [fst snd] in Hg, Hr. subst g. cbn beta iota.
  change (fs_w (set_cworld (fs_w s) s)) with (fs_w s) in Hr, Ht2. destruct r as [l|e].
  - apply wpp_bind. eapply mock_now_call; [exact Hm2|]. intros t s3 Hm3 Hs3 _ _. apply wpp_bind, wpp_modify, wpp_ret.
    unfold on_cache. rewrite (no_put_dir t n l _ _ _ Hm3).
    change (mkFS (fs_config s3) (fs_pool s3) (fs_cache s3) (fs_cancelled s3) (fs_w s3)) with (on_cache (λ _, fs_cache s3) s3).
    rewrite set_cache_same. cbn beta iota. apply wpp_bind. pose proof (is_view _ _ Hs3) as Hv3. injection Hv3 as _ _ Ho3.
    eapply wpp_mono; [eapply mock_dir_Close; [exact Hm3| |rewrite (idle_tree _ _ Hs3); exact Ht2]|].
    { split; [apply (mc_mock _ _ _ _ Hm3)|]. rewrite Ho3. apply Ho2. }
    intros _ s4 (Hm4 & Ht4). by apply wpp_ret.
  - apply wpp_ret. cbn beta iota. apply wpp_bind. eapply wpp_mono; [eapply mock_dir_Close; [exact Hm2|exact Ho2|exact Ht2]|].
    intros _ s4 (Hm4 & Ht4). by apply wpp_ret.
Qed.

Lemma list_open_file T (c f q : ptr) n content s :
  mclient cfg (c :: hs) 0 s → opened_at (fs_w s) f n q O_RDONLY 0 → file_in T (fs_w s) n q content →
  wpp False (list_open n (mfile c f n 0)) (λ r s', mclient cfg hs 1 s' ∧ names_view r = AFail KOther
    ∧ file_in T (fs_w s') n q content) s.
Proof.
  intros Hm Ho Hh. unfold list_open. apply wpp_bind, wpp_bind. unfold File_Stat at 1. cbn [f_file].
  apply wpp_bind, wpp_gets. apply wpp_bind. eapply wpp_call_stp; [by eapply stp_file_stat|]. intros r w (-> & ->). apply wpp_ret.
  apply wpp_bind, wpp_gets. pose proof Hh as [[_ (d & Hd & _ & Hdir)] _].
  rewrite (info_IsDir_data (fs_w s) q _ d Hd), Hdir. cbn [negb]. apply wpp_ret. cbn beta iota. apply wpp_bind.
  eapply wpp_mono; [apply (mock_File_Close cfg hs T c f n q O_RDONLY 0 content); [by apply mclient_set; [|apply Ho|]|done|done]|].
  intros [r g] s2 (_ & Hm2 & Hh2). apply wpp_ret. split; [done|]. split; [|done].
  unfold names_view. cbn [answer_of]. by rewrite kind_wrap.
Qed.

Lemma runs_ReadDir name :
  runs_as (λ _, True) (λ r _, names_view r) (ReadDir name) (t_path (cf_CaseSensitive cfg) name t_readdir).
Proof.
  apply (runs_as_with_path _ (λ l _, ANames (map entry_Name l))). intros n Hv En s0 Hm0 _. apply wpp_bind.
  eapply mock_now_call; [done|]. intros t s Hm Hs0 _ _. rewrite <-(idle_tree _ _ Hs0). apply wpp_bind, wpp_gets.
  rewrite (no_cached_dir t n _ _ _ Hm). apply wpp_bind. unfold as_in, t_readdir. cbn [fst snd].
  assert (validatePath n = true ∧ n = normalize (cf_CaseSensitive cfg) n) as [Hvn Hid].
  { subst n. split; [by apply validatePath_normalize|symmetry; by apply normalize_idem]. }
  destruct (tree_of (fs_w s) !! n) as [[|content]|] eqn:Ex.
  - eapply wpp_mono; [apply (mock_OpenFile_other n n); [done..|by right]|].
    intros [g|e] s1 (Ht & Hr); [|unfold refused in Hr; rewrite Ex in Hr; by destruct Hr as (_ & ? & _)].
    destruct Hr as (_ & Hx & c & f & q & d & -> & Hm1 & Ho & Hd & Hdir).
    eapply wpp_mono; [apply (list_open_dir c f q n d); [rewrite Hid; by apply client_path_ne|done..]|]. rewrite Ht. done.
  - destruct (tree_file _ _ _ Ex) as [q Hq].
    eapply wpp_mono; [by apply (mock_reopen cfg hs Hroom (tree_of (fs_w s)) n n q content O_RDONLY 0)|].
    intros r s1 (c & f & -> & Hm1 & Ho1 & Hh1).
    eapply wpp_mono; [by apply (list_open_file (tree_of (fs_w s)) c f q n content)|].
    intros r s2 (Hm2 & Hr & [_ Ht2]). split_and!; [done|done|]. rewrite Ht2. by apply insert_id.
  - eapply wpp_mono; [apply (mock_OpenFile_other n n); [done..|by left]|].
    intros [g|e] s1 (Ht & Hr); [destruct Hr as (_ & ? & _); congruence|]. destruct Hr as (Hm1 & Href).
    unfold refused in Href. rewrite Ex in Href. apply wpp_ret. split_and!; [done| |done]. cbn [answer_of]. by rewrite Href.
Qed.

(** The parent of a valid path is valid. *)
Lemma validatePath_Dir n : normal_path n → validatePath n = true → Dir n ≠ [slash] → validatePath (Dir n) = true.
Proof.
  intros (cs0 & -> & Hg0 & Hb0) Hv Hne. destruct (normalize_comps _ Hv) as (cs & E & Hb & Hcs).
  specialize (E _). rewrite (normalize_absolute true) in E by done. rewrite E in *. clear cs0 E Hg0 Hb0.
  assert (Forall good_comp cs) as Hg by (eapply Forall_impl; [exact Hcs|by intros w []]).
  destruct (rev cs) as [|c l] eqn:Hrev.
  { apply (f_equal (@rev _)) in Hrev. rewrite rev_involutive in Hrev. by subst cs. }
  assert (cs = rev l ++ [c]) as -> by (apply (f_equal (@rev _)) in Hrev; by rewrite rev_involutive in Hrev).
  rewrite Dir_absolute in Hne |- * by done. assert (rev l ≠ []) as Hl by (by intros Hnil; apply Hne; rewrite Hnil).
  apply Forall_app in Hcs as [Hcs _]. apply validatePath_absolute; [|done].
  rewrite (absolute_snoc _ _ Hl) in Hb. set_solver.
Qed.

(** [Stat] of a normalised path. *)
Lemma mock_Stat n s :
  mclient cfg hs 1 s → validatePath n = true → normalize (cf_CaseSensitive cfg) n = n →
  wpp False (Stat n) (λ r s', mclient cfg hs 1 s' ∧ tree_of (fs_w s') = tree_of (fs_w s)
    ∧ match tree_of (fs_w s) !! n with
      | Some x => ∃ i, r = inl i ∧ info_IsDir i (fs_w s') = is_dir x
      | None => ∃ e, r = inr e
      end) s.
Proof.
  intros Hm Hv Hid. eapply wpp_mono; [by apply (runs_Stat n)|]. intros r s1 (Hm1 & Hr & Ht).
  unfold t_path, t_stat in Hr, Ht. rewrite Hv, Hid in Hr, Ht. cbn [fst snd] in Hr, Ht. split_and!; [done..|].
  destruct (tree_of (fs_w s) !! n) as [x|], r as [i|e]; try done; [|by eexists].
  exists i. split; [done|]. unfold stat_view in Hr. cbn [answer_of] in Hr. congruence.
Qed.

Lemma runs_MkdirAll fuel name perm s :
  mclient cfg hs 1 s → (validatePath name = true → (length (normalize (cf_CaseSensitive cfg) name) ≤ fuel)%nat) →
  wpp False (MkdirAll (S fuel) name perm)
    (as_in (λ r _, done_of r) (t_path (cf_CaseSensitive cfg) name (λ n, t_mkdir_all fuel n)) (tree_of (fs_w s))) s.
Proof.
  revert name s. induction fuel as [|fuel IH]; intros name s Hm Hfuel; cbn [MkdirAll];
    (apply (runs_as_with_path (λ _, True) (λ _ _, ADone) "mkdir" name _ (t_mkdir_all _)); [|done|done]);
    clear s Hm; intros n Hv En s Hm _; specialize (Hfuel Hv); rewrite <-En in Hfuel;
    assert (normal_path n) as Hnorm by (subst n; by apply normalize_normal).
  { destruct Hnorm as (cs & -> & _). cbn in Hfuel. lia. }
  assert (validatePath n = true ∧ normalize (cf_CaseSensitive cfg) n = n) as [Hvn Hid].
  { subst n. split; [by apply validatePath_normalize|by apply normalize_idem]. }
  apply wpp_bind. eapply wpp_mono; [by apply mock_Stat|]. intros r s1 (Hm1 & Ht1 & Hr). unfold as_in. cbn [t_mkdir_all].
  destruct (tree_of (fs_w s) !! n) as [x|] eqn:Ex.
  { destruct Hr as (i & -> & Hdir). apply wpp_bind, wpp_gets. rewrite Hdir. apply wpp_ret.
    destruct x; cbn [is_dir negb]; (split_and!; [done| |done]); [done|]. cbn [done_of answer_of fst]. by rewrite kind_wrap. }
  destruct Hr as (e & ->). apply wpp_bind, wpp_gets. destruct (mc_client _ _ _ _ Hm1) as [-> _].
  replace (pn_dir (cf_CaseSensitive cfg) n) with (Dir n) by (unfold pn_dir; by rewrite Hid). rewrite <-negb_orb.
  apply wpp_bind. rewrite <-Ht1.
  apply (wpp_mono _ _ (as_in (λ r _, done_of r) (λ t, if bool_decide (Dir n = [slash]) || bool_decide (Dir n = [dot])
    then (ADone, t) else t_mkdir_all fuel (Dir n) t) (tree_of (fs_w s1)))).
  - destruct (_ || _) eqn:Etop; cbn [negb]; [by apply wpp_ret|].
    apply orb_false_iff in Etop as [Hne%bool_decide_eq_false _].
    destruct (parent_normal (cf_CaseSensitive cfg) n) as (Hp & Hlt); [done|done|unfold pn_dir; by rewrite Hid|].
    unfold pn_dir in Hp, Hlt. rewrite Hid in Hp, Hlt.
    eapply wpp_mono; [apply IH; [done|intros _; rewrite Hp; lia]|]. unfold as_in, t_path.
    by rewrite (validatePath_Dir n), Hp.
  - unfold as_in at 1. destruct (if _ || _ then _ else _) as [a t1]. cbn [fst snd]. intros [[]|e2] s2 (Hm2 & Hr2 & Ht2).
    + cbn in Hr2. subst a t1. eapply wpp_mono; [by apply (runs_Mkdir n)|]. unfold as_in, t_path. by rewrite Hvn, Hid.
    + apply wpp_ret. cbn [done_of answer_of] in Hr2. subst a. by split_and!.
Qed.

(** ** Sequences *)

Lemma runs_view {A} P (view : A → FileSystem → answer) (m : M FileSystem A) f :
  runs_as P view m f → runs_as P (λ a _, a) (r ← m; gets (view r)) f.
Proof. intros Hm s Hs HP. apply wpp_bind. eapply wpp_mono; [by apply Hm|]. intros a s' Ha. by apply wpp_gets. Qed.

Lemma runs_client_op op :
  runs_as (λ t, op_ok (cf_CaseSensitive cfg) op t = true) (λ a _, a) (client_op op) (t_step (cf_CaseSensitive cfg) op).
Proof.
  destruct op as [name|name perm|name perm|name|o n|name mode|name at_ mt|name data|name|name size|name]; intros s Hm HP.
  - exact (runs_view _ _ _ _ (runs_Stat name) s Hm I).
  - exact (runs_view _ _ _ _ (runs_Mkdir name perm) s Hm I).
  - apply wpp_bind, wpp_gets. destruct (mc_client _ _ _ _ Hm) as [-> _]. apply wpp_bind.
    eapply wpp_mono; [by apply (runs_MkdirAll (length (normalize (cf_CaseSensitive cfg) name)))|]. intros r s' Hr.
    apply wpp_ret. exact Hr.
  - exact (runs_view _ _ _ _ (runs_Remove name) s Hm HP).
  - exact (runs_view _ _ _ _ (runs_Rename o n) s Hm HP).
  - exact (runs_view _ _ _ _ (runs_Chmod name mode) s Hm I).
  - exact (runs_view _ _ _ _ (runs_Chtimes name at_ mt) s Hm I).
  - exact (runs_view _ _ _ _ (runs_write_file name data) s Hm I).
  - exact (runs_view _ _ _ _ (runs_ReadFile name) s Hm I).
  - apply andb_true_iff in HP as [H1%Z.leb_le H2%Z.ltb_lt].
    exact (runs_view _ _ _ _ (runs_Truncate name size (conj H1 H2)) s Hm I).
  - exact (runs_view _ _ _ _ (runs_ReadDir name) s Hm I).
Qed.

Lemma runs_client_run ops s :
  mclient cfg hs 1 s → ops_ok (cf_CaseSensitive cfg) ops (tree_of (fs_w s)) = true →
  wpp False (client_run ops) (λ l s', mclient cfg hs 1 s'
    ∧ (l, tree_of (fs_w s')) = t_run (cf_CaseSensitive cfg) ops (tree_of (fs_w s))) s.
Proof.
  revert s. induction ops as [|op ops IH]; intros s Hm Hops; cbn [client_run t_run]; [by apply wpp_ret|].
  cbn [ops_ok] in Hops. apply andb_true_iff in Hops as [Hop Hops]. apply wpp_bind. eapply wpp_mono; [by apply runs_client_op|].
  intros a s1 (Hm1 & Ha & Ht1). rewrite <-Ht1 in Hops.
  destruct (t_step (cf_CaseSensitive cfg) op (tree_of (fs_w s))) as [a' t']. cbn [fst snd] in *. subst a' t'.
  apply wpp_bind. eapply wpp_mono; [by apply IH|]. intros l s2 (Hm2 & Hl). rewrite <-Hl. by apply wpp_ret.
Qed.
End runs.

(** ** Properties *)

(** C8: The client implements a tree of files.  With the cache off, on the mock
    server without injected errors, for a client that has a connection to
    spare (fewer than [MaxOpen] are in use, at most one is idle, nobody waits),
    any sequence of [Stat], [Mkdir], [MkdirAll], [Remove], [Rename], [Chmod],
    [Chtimes], whole-file writes, [ReadFile], [Truncate] and [ReadDir], on any
    names, runs to its end without a panic; each answer (the value, or the
    kind of the error) is the one of the specification on trees, the server
    holds the tree the specification ends with, and the pool is as before.
    The specification finds what is in a directory by the elements of the
    paths.  Excepted are: removing the root while something is in it, where
    the mock differs ([root_removed_with_children]), renaming the root, and
    renaming a directory to the root, below itself or to a path with entries
    left below it. *)
Theorem client_refines_tree cfg hs s ops :
  mclient cfg hs 1 s → len hs < cf_MaxOpen cfg → EnableCache (cf_Cache cfg) = false →
  ops_ok (cf_CaseSensitive cfg) ops (tree_of (fs_w s)) = true →
  ∃ l s', client_run ops s = Ok (l, s') ∧ mclient cfg hs 1 s'
    ∧ (l, tree_of (fs_w s')) = t_run (cf_CaseSensitive cfg) ops (tree_of (fs_w s)).
Proof.
  intros Hm Hroom Hoff Hops. exact (wpp_total _ _ _ (runs_client_run cfg hs Hroom Hoff ops s Hm Hops)).
Qed.
End client_tree.

#[local] Existing Instance ascii_tables.

(** A session: directories and files are made, listed, renamed, read and
    removed, with some errors on the way. *)
Definition demo_ops : list fsop :=
  [OpMkdir (str "Docs") 0x1ed; OpWrite (str "docs\B.txt") (str "two"); OpWrite (str "/docs/a.txt") (str "one");
   OpMkdir (str "/docs") 0; OpReadDir (str "/docs/"); OpRename (str "/docs") (str "/old"); OpRead (str "/old/b.txt");
   OpRead (str "/docs/b.txt"); OpTruncate (str "/old/b.txt") 2; OpStat (str "/old/b.txt"); OpRemove (str "/old");
   OpRemove (str "/old/a.txt"); OpRead (str "../x"); OpTruncate (str "/old/b.txt") (-1); OpRead (str "/old");
   OpReadDir (str "/"); OpMkdirAll (str "P/Q") 0x1ed; OpMkdirAll (str "/old/b.txt/c") 0x1ed].

Lemma client_refines_tree_witness :
  ∃ s', client_run demo_ops (demo_client demo_config) = Ok (
    [ADone; ADone; ADone; AFail KExist; ANames [str "a.txt"; str "b.txt"]; ADone; ABytes (str "two");
     AFail KNotExist; ADone; AStat false 2; AFail KOther; ADone; AFail KInvalid; AFail KOther; AFail KOther;
     ANames [str "old"]; ADone; AFail KOther], s')
  ∧ tree_of (fs_w s') = {[ str "/" := DirNode; str "/old" := DirNode; str "/old/b.txt" := FileNode (str "tw");
      str "/p" := DirNode; str "/p/q" := DirNode ]}.
Proof.
  destruct (client_refines_tree (setDefaults demo_config) [] (demo_client demo_config) demo_ops)
    as (l & s' & Hrun & _ & Hl).
  - exact demo_mclient.
  - reflexivity.
  - reflexivity.
  - vm_compute. reflexivity.
  - exists s'. rewrite Hrun.
    assert (t_run (cf_CaseSensitive (setDefaults demo_config)) demo_ops (tree_of (fs_w (demo_client demo_config))) = (
      [ADone; ADone; ADone; AFail KExist; ANames [str "a.txt"; str "b.txt"]; ADone; ABytes (str "two");
       AFail KNotExist; ADone; AStat false 2; AFail KOther; ADone; AFail KInvalid; AFail KOther; AFail KOther;
       ANames [str "old"]; ADone; AFail KOther],
      {[ str "/" := DirNode; str "/old" := DirNode; str "/old/b.txt" := FileNode (str "tw");
      str "/p" := DirNode; str "/p/q" := DirNode ]})) as Ht
      by (vm_compute; reflexivity).
    rewrite Ht in Hl. injection Hl as -> ->. by split.
Defined.
