(* ===== verification/Wrapper.v ===== *)
(** * The bindings to the go-smb2 library

    Models [smb_wrapper.go] and the creation of a connection in
    [connection.go].  Package [net] and the go-smb2 library are parameters
    (class [Smb2]): [gworld] is their state together with the clock, and a
    call takes and returns it.  The methods of [realSMBSession],
    [realSMBShare] and [realSMBFile] make the library an instance of [SMBLib]
    ([real_lib]), so that everything proved of the client against [SMBLib]
    holds of the client on a real server. *)

From stdpp Require Import base numbers list gmap sets fin_maps strings.
From S2P Require Import Prelude Errors Retry HandleMap Cache Absfs Config Pool Mock Client.

Open Scope Z_scope.

(** ** The libraries *)

(** A [context.Context] as far as dialling looks at it: whether it is done,
    and the time until its deadline when it has one. *)
Record Context := mkContext { ctx_done : bool; ctx_timeout : option Z }.

(** [context.Background()], and [context.WithTimeout] of it. *)
Definition Background : Context := mkContext false None.
Definition WithTimeout (t : Z) : Context := mkContext (t <=? 0) (Some t).

(** [smb2.NTLMInitiator] *)
Record NTLMInitiator := mkInitiator { in_User : gostring; in_Password : gostring; in_Domain : gostring }.

(** A line the pool logs, before formatting. *)
Inductive log_line :=
| LogCreating (addr : gostring)
| LogConnectFailed (addr : gostring) (err : error)
| LogSetupFailed (err : error)
| LogMountFailed (share : gostring) (err : error)
| LogCreated (addr : gostring) (numOpen : Z).

Class Smb2 := {
  gworld : Type;
  NetConn : Type;
  smb2_Session : Type;
  smb2_Share : Type;
  smb2_File : Type;
  smb2_FileStat : Type;
  (** [net.Dialer.DialContext] with a timeout, and [net.Conn.Close] *)
  net_DialContext : Z → Context → gostring → ST gworld (NetConn + error);
  net_Close : NetConn → ST gworld (option error);
  (** [smb2.Dialer.Dial] *)
  smb2_Dial : NTLMInitiator → NetConn → ST gworld (smb2_Session + error);
  smb2_Mount : smb2_Session → gostring → ST gworld (smb2_Share + error);
  smb2_Logoff : smb2_Session → ST gworld (option error);
  smb2_OpenFile : smb2_Share → gostring → Z → Z → ST gworld (smb2_File + error);
  smb2_Stat : smb2_Share → gostring → ST gworld (smb2_FileStat + error);
  smb2_Mkdir : smb2_Share → gostring → Z → ST gworld (option error);
  smb2_Remove : smb2_Share → gostring → ST gworld (option error);
  smb2_Rename : smb2_Share → gostring → gostring → ST gworld (option error);
  smb2_Chmod : smb2_Share → gostring → Z → ST gworld (option error);
  smb2_Chtimes : smb2_Share → gostring → Z → Z → ST gworld (option error);
  smb2_Umount : smb2_Share → ST gworld (option error);
  smb2_Read : smb2_File → Z → ST gworld (bytes * option error);
  smb2_Write : smb2_File → bytes → ST gworld (Z * option error);
  smb2_Seek : smb2_File → Z → Z → ST gworld (Z + error);
  smb2_Close : smb2_File → ST gworld (option error);
  smb2_File_Stat : smb2_File → ST gworld (smb2_FileStat + error);
  smb2_Readdir : smb2_File → Z → ST gworld (list smb2_FileStat + error);
  (** the methods of [os.FileInfo] *)
  stat_Name : smb2_FileStat → gworld → gostring;
  stat_Size : smb2_FileStat → gworld → Z;
  stat_Mode : smb2_FileStat → gworld → Z;
  stat_ModTime : smb2_FileStat → gworld → Z;
  stat_IsDir : smb2_FileStat → gworld → bool;
  (** [time.Now] and the configured logger *)
  time_Now : ST gworld Z;
  Printf : log_line → ST gworld unit;
  (** What can be observed of the operating system and of the server: the
      TCP connections that are open and the sessions that are set up. *)
  net_open : gworld → NetConn → Prop;
  session_open : gworld → smb2_Session → Prop;
}.

(** [m] opens no connection and sets up no session. *)
Definition opens_nothing `{Smb2} {A} (m : ST gworld A) : Prop := ∀ w,
  (∀ x, net_open (m w).2 x → net_open w x) ∧ (∀ x, session_open (m w).2 x → session_open w x).

(** What the packages document. *)
Class Smb2Laws `{Smb2} : Prop := {
  stat_Size_nonneg : ∀ i w, 0 ≤ stat_Size i w;
  smb2_Read_progress : ∀ f n w, 0 < n → (smb2_Read f n w).1.2 = None → (smb2_Read f n w).1.1 ≠ [];
  (** "Timeout is the maximum amount of time a dial will wait"; a context
      that ends at the same time changes nothing.  A timeout of zero means
      none. *)
  dial_own_timeout : ∀ t addr w, 0 < t →
    net_DialContext t (WithTimeout t) addr w = net_DialContext t Background addr w;
  (** "If the context expires before the connection is complete, an error is
      returned." *)
  dial_done : ∀ t ctx addr w, ctx_done ctx = true → ∃ e, (net_DialContext t ctx addr w).1 = inr e;
  dial_opens : ∀ t ctx addr w x, net_open (net_DialContext t ctx addr w).2 x →
    net_open w x ∨ (net_DialContext t ctx addr w).1 = inl x;
  dial_sessions : ∀ t ctx addr w x,
    session_open (net_DialContext t ctx addr w).2 x → session_open w x;
  close_closes : ∀ c w, ¬ net_open (net_Close c w).2 c;
  close_opens : ∀ c, opens_nothing (net_Close c);
  setup_sessions : ∀ i c w x, session_open (smb2_Dial i c w).2 x →
    session_open w x ∨ (smb2_Dial i c w).1 = inl x;
  setup_opens : ∀ i c w x, net_open (smb2_Dial i c w).2 x → net_open w x;
  mount_opens : ∀ s n, opens_nothing (smb2_Mount s n);
  logoff_ends : ∀ s w, ¬ session_open (smb2_Logoff s w).2 s;
  logoff_opens : ∀ s, opens_nothing (smb2_Logoff s);
  now_opens : opens_nothing time_Now;
  Printf_opens : ∀ l, opens_nothing (Printf l);
}.

(** ** smb_wrapper.go *)

Section wrapper.
Context `{Smb2}.

Record realSMBSession := mkRealSession { rs_session : smb2_Session }.
Record realSMBShare := mkRealShare { rsh_share : smb2_Share }.
Record realSMBFile := mkRealFile { rf_file : smb2_File }.

Definition realSMBSession_Mount (s : realSMBSession) (shareName : gostring) : ST gworld (realSMBShare + error) :=
  r ← smb2_Mount (rs_session s) shareName;
  match r with
  | inr err => mret (inr err)
  | inl share => mret (inl (mkRealShare share))
  end.

Definition realSMBSession_Logoff (s : realSMBSession) : ST gworld (option error) := smb2_Logoff (rs_session s).

Definition realSMBShare_OpenFile (sh : realSMBShare) (name : gostring) (flag perm : Z) : ST gworld (realSMBFile + error) :=
  r ← smb2_OpenFile (rsh_share sh) name flag perm;
  match r with
  | inr err => mret (inr err)
  | inl file => mret (inl (mkRealFile file))
  end.

Definition realSMBShare_Stat (sh : realSMBShare) (name : gostring) : ST gworld (smb2_FileStat + error) :=
  smb2_Stat (rsh_share sh) name.
Definition realSMBShare_Mkdir (sh : realSMBShare) (name : gostring) (perm : Z) : ST gworld (option error) :=
  smb2_Mkdir (rsh_share sh) name perm.
Definition realSMBShare_Remove (sh : realSMBShare) (name : gostring) : ST gworld (option error) :=
  smb2_Remove (rsh_share sh) name.
Definition realSMBShare_Rename (sh : realSMBShare) (oldname newname : gostring) : ST gworld (option error) :=
  smb2_Rename (rsh_share sh) oldname newname.
Definition realSMBShare_Chmod (sh : realSMBShare) (name : gostring) (mode : Z) : ST gworld (option error) :=
  smb2_Chmod (rsh_share sh) name mode.
Definition realSMBShare_Chtimes (sh : realSMBShare) (name : gostring) (atime mtime : Z) : ST gworld (option error) :=
  smb2_Chtimes (rsh_share sh) name atime mtime.
Definition realSMBShare_Umount (sh : realSMBShare) : ST gworld (option error) := smb2_Umount (rsh_share sh).

Definition realSMBFile_Read (f : realSMBFile) (n : Z) : ST gworld (bytes * option error) := smb2_Read (rf_file f) n.
Definition realSMBFile_Write (f : realSMBFile) (p : bytes) : ST gworld (Z * option error) := smb2_Write (rf_file f) p.
Definition realSMBFile_Seek (f : realSMBFile) (offset whence : Z) : ST gworld (Z + error) :=
  smb2_Seek (rf_file f) offset whence.
Definition realSMBFile_Close (f : realSMBFile) : ST gworld (option error) := smb2_Close (rf_file f).
Definition realSMBFile_Stat (f : realSMBFile) : ST gworld (smb2_FileStat + error) := smb2_File_Stat (rf_file f).
Definition realSMBFile_Readdir (f : realSMBFile) (n : Z) : ST gworld (list smb2_FileStat + error) :=
  smb2_Readdir (rf_file f) n.

(** [fmt.Sprintf("%s:%d", config.Server, config.Port)] *)
Definition server_addr (config : Config) : gostring := cf_Server config ++ str ":" ++ format_d (cf_Port config).

Definition initiator (config : Config) : NTLMInitiator :=
  mkInitiator (cf_Username config) (cf_Password config) (cf_Domain config).

Definition connect_failed (config : Config) (err : error) : error :=
  WrapError (str "failed to connect to " ++ server_addr config) err.
Definition setup_failed (err : error) : error := WrapError (str "SMB session setup failed") err.
Definition mount_failed (config : Config) (err : error) : error :=
  WrapError (str "failed to mount share " ++ cf_Share config) err.

Definition RealConnectionFactory_CreateConnection (config : Config)
    : ST gworld (realSMBSession * realSMBShare + error) :=
  let addr := server_addr config in
  netConn ← net_DialContext (cf_ConnTimeout config) (WithTimeout (cf_ConnTimeout config)) addr;
  match netConn with
  | inr err => mret (inr (connect_failed config err))
  | inl netConn =>
    session ← smb2_Dial (initiator config) netConn;
    match session with
    | inr err =>
      net_Close netConn;;
      mret (inr (setup_failed err))
    | inl session =>
      share ← smb2_Mount session (cf_Share config);
      match share with
      | inr err =>
        smb2_Logoff session;;
        net_Close netConn;;
        mret (inr (mount_failed config err))
      | inl share => mret (inl (mkRealSession session, mkRealShare share))
      end
    end
  end.

(** The client's library when it runs on go-smb2, with
    [RealConnectionFactory] as the factory. *)
#[local] Instance real_lib : SMBLib := {
  cworld := gworld;
  SMBSession := realSMBSession;
  SMBShare := realSMBShare;
  SMBFile := realSMBFile;
  StatInfo := smb2_FileStat;
  ss_Logoff := realSMBSession_Logoff;
  sh_OpenFile := realSMBShare_OpenFile;
  sh_Stat := realSMBShare_Stat;
  sh_Mkdir := realSMBShare_Mkdir;
  sh_Remove := realSMBShare_Remove;
  sh_Rename := realSMBShare_Rename;
  sh_Chmod := realSMBShare_Chmod;
  sh_Chtimes := realSMBShare_Chtimes;
  sh_Umount := realSMBShare_Umount;
  sf_Read := realSMBFile_Read;
  sf_Write := realSMBFile_Write;
  sf_Seek := realSMBFile_Seek;
  sf_Close := realSMBFile_Close;
  sf_Stat := realSMBFile_Stat;
  sf_Readdir := realSMBFile_Readdir;
  st_Name := stat_Name;
  st_Size := stat_Size;
  st_Mode := stat_Mode;
  st_ModTime := stat_ModTime;
  st_IsDir := stat_IsDir;
  CreateConnection := RealConnectionFactory_CreateConnection;
  c_now := time_Now;
}.

(** ** connection.go: the creation of a connection *)

(** The pool beside the world. *)
Definition in_world {A} (m : ST gworld A) : ST (connectionPool * gworld) A := λ '(p, w),
  let '(a, w) := m w in (a, (p, w)).
Definition in_pool {A} (f : connectionPool → A * connectionPool) : ST (connectionPool * gworld) A := λ '(p, w),
  let '(a, p) := f p in (a, (p, w)).
Definition the_pool : ST (connectionPool * gworld) connectionPool := in_pool (λ p, (p, p)).

(** The new [pooledConn], appended to the pool's connections. *)
Definition new_conn (session : realSMBSession) (share : realSMBShare) : ST (connectionPool * gworld) ptr :=
  createdAt ← in_world time_Now;
  lastUsed ← in_world time_Now;
  in_pool (add_connection session share createdAt lastUsed).

(** [if p.config.Logger != nil { p.config.Logger.Printf(...) }] *)
Definition logf (Logger : bool) (l : log_line) : ST (connectionPool * gworld) unit :=
  if Logger then in_world (Printf l) else mret tt.

Definition createRealConnection (Logger : bool) (ctx : Context) : ST (connectionPool * gworld) (ptr + error) :=
  p ← the_pool;
  let config := p_config p in
  let addr := server_addr config in
  logf Logger (LogCreating addr);;
  netConn ← in_world (net_DialContext (cf_ConnTimeout config) ctx addr);
  match netConn with
  | inr err =>
    logf Logger (LogConnectFailed addr err);;
    mret (inr (connect_failed config err))
  | inl netConn =>
    session ← in_world (smb2_Dial (initiator config) netConn);
    match session with
    | inr err =>
      in_world (net_Close netConn);;
      logf Logger (LogSetupFailed err);;
      mret (inr (setup_failed err))
    | inl session =>
      share ← in_world (smb2_Mount session (cf_Share config));
      match share with
      | inr err =>
        in_world (smb2_Logoff session);;
        in_world (net_Close netConn);;
        logf Logger (LogMountFailed (cf_Share config) err);;
        mret (inr (mount_failed config err))
      | inl share =>
        conn ← new_conn (mkRealSession session) (mkRealShare share);
        p ← the_pool;
        logf Logger (LogCreated addr (p_numOpen p));;
        mret (inl conn)
      end
    end
  end.

(** A [ConnectionFactory]. *)
Definition Factory : Type := Config → ST gworld (realSMBSession * realSMBShare + error).

Definition createConnection (factory : option Factory) (Logger : bool) (ctx : Context)
    : ST (connectionPool * gworld) (ptr + error) :=
  match factory with
  | Some create =>
    p ← the_pool;
    r ← in_world (create (p_config p));
    match r with
    | inr err => mret (inr err)
    | inl (session, share) =>
      conn ← new_conn session share;
      mret (inl conn)
    end
  | None => createRealConnection Logger ctx
  end.

(** A call on the file system's pool. *)
Definition pool_call {A} (m : ST (connectionPool * gworld) A) : M FileSystem A := λ s,
  let '(a, (p, w)) := m (fs_pool s, fs_w s) in Ok (a, set_cworld w (set_pool p s)).

(** [p.get(ctx)] of a pool with the given factory; [Client.pool_get] is the
    one with the factory of the library.  The file system's context has no
    deadline. *)
Definition get (factory : option Factory) (Logger : bool) : M FileSystem (ptr + error) :=
  t ← now;
  p ← gets fs_pool;
  match get_locked (λ _, t) t p with
  | Panic => panic
  | Ok (g, p) =>
    modify (set_pool p);;
    match g with
    | GotConn c => mret (inl c)
    | GotError e => mret (inr e)
    | Reserved =>
      cancelled ← gets fs_cancelled;
      r ← pool_call (createConnection factory Logger (mkContext cancelled None));
      match r with
      | inr e => modify_pool create_failed;; mret (inr e)
      | inl c => mret (inl c)
      end
    | Waiting _ => mret (inr (Sentinel ErrPoolExhausted))
    end
  end.

(** ** Lemmas *)

Lemma in_world_bind {A B} (m : ST gworld A) (k : A → ST (connectionPool * gworld) B) p w :
  (in_world m ≫= k) (p, w) = k (m w).1 (p, (m w).2).
Proof. rewrite st_bind_eq. unfold in_world. by destruct (m w). Qed.

(** What a silent logger leaves of the default path is the factory's. *)
Lemma createRealConnection_factory Logger p w :
  (Logger = true → ∀ l w, Printf l w = (tt, w)) →
  (∀ w, net_DialContext (cf_ConnTimeout (p_config p)) (WithTimeout (cf_ConnTimeout (p_config p))) (server_addr (p_config p)) w
        = net_DialContext (cf_ConnTimeout (p_config p)) Background (server_addr (p_config p)) w) →
  createConnection None Logger Background (p, w)
  = createConnection (Some RealConnectionFactory_CreateConnection) Logger Background (p, w).
Proof.
  intros Hlog Hdial.
  assert (∀ l s, logf Logger l s = (tt, s)) as Hl.
  { intros l [p' w']. unfold logf. destruct Logger; [|done]. unfold in_world. by rewrite Hlog. }
  unfold createConnection, createRealConnection.
  rewrite (st_bind_eq the_pool), (st_bind_eq the_pool). simpl. rewrite (st_bind_eq (logf _ _)), Hl. simpl.
  rewrite !in_world_bind. unfold RealConnectionFactory_CreateConnection. rewrite st_bind_eq, Hdial.
  destruct (net_DialContext _ _ _ w) as [[c|e] w1]; simpl; [|by rewrite st_bind_eq, Hl].
  rewrite in_world_bind, st_bind_eq. destruct (smb2_Dial _ c w1) as [[s|e] w2]; simpl.
  - rewrite in_world_bind, st_bind_eq. destruct (smb2_Mount s _ w2) as [[sh|e] w3]; simpl.
    + rewrite !(st_bind_eq (new_conn _ _)). destruct (new_conn _ _ _) as [q [p' w4]]. simpl.
      rewrite (st_bind_eq the_pool). simpl. by rewrite st_bind_eq, Hl.
    + rewrite !in_world_bind, !st_bind_eq, Hl. simpl. done.
  - by rewrite in_world_bind, !st_bind_eq, Hl.
Qed.

Lemma get_locked_config now t p g p' :
  monotonic now → get_locked now t p = Ok (g, p') → p_config p' = p_config p.
Proof. intros Hm Hg. apply get_locked_spec in Hg; [|done]. by destruct Hg. Qed.

(** [get] of a pool with [RealConnectionFactory] is the client's. *)
Lemma get_real_factory Logger s :
  p_config (fs_pool s) = fs_config s →
  get (Some RealConnectionFactory_CreateConnection) Logger s = pool_get s.
Proof.
  intros Hcfg. unfold get, pool_get, now, mbind, M_bind, call, gets. cbn -[get_locked createConnection].
  destruct (time_Now (fs_w s)) as [t w]. cbn -[get_locked createConnection].
  pose proof (get_locked_config (λ _, t) t (fs_pool s)) as Hc.
  destruct (get_locked _ _ (fs_pool s)) as [[g p]|]; [|done]. cbn -[createConnection].
  destruct g; try done. cbn -[createConnection]. specialize (Hc _ _ ltac:(by intros ??) eq_refl).
  unfold createConnection, new_conn, pool_call, in_pool, in_world, mbind, ST_bind. cbn. rewrite Hc, Hcfg.
  destruct (RealConnectionFactory_CreateConnection _ w) as [[[session share]|e] w1]; [|done]. cbn.
  destruct (time_Now w1) as [t1 w2]. cbn. by destruct (time_Now w2) as [t2 w3].
Qed.

(** ** What a creation leaves open *)

(** Nothing but [conns] and [sessions] is open that was not open in [w]. *)
Definition opened_since (w : gworld) (conns : list NetConn) (sessions : list smb2_Session) (w' : gworld) : Prop :=
  (∀ x, net_open w' x → net_open w x ∨ x ∈ conns)
  ∧ (∀ x, session_open w' x → session_open w x ∨ x ∈ sessions).

Lemma opened_refl w : opened_since w [] [] w.
Proof. split; by left. Qed.

(** A step that opens nothing, in the pool's computations. *)
Lemma stp_quiet {A} (m : ST gworld A) w0 cs ss (Q : A → connectionPool * gworld → Prop) p w :
  opens_nothing m → opened_since w0 cs ss w → (∀ a w', opened_since w0 cs ss w' → Q a (p, w')) →
  stp (in_world m) Q (p, w).
Proof.
  intros Hm [Hc Hs] HQ. unfold stp, in_world. specialize (Hm w). destruct (m w) as [a w']. apply HQ. cbn in Hm.
  destruct Hm as [Hm1 Hm2]. by split; auto.
Qed.

Lemma stp_logf `{!Smb2Laws} Logger l w0 cs ss (Q : unit → connectionPool * gworld → Prop) p w :
  opened_since w0 cs ss w → (∀ w', opened_since w0 cs ss w' → Q tt (p, w')) → stp (logf Logger l) Q (p, w).
Proof.
  intros Ho HQ. unfold logf. destruct Logger; [|by apply HQ].
  eapply stp_quiet; [apply Printf_opens|done|]. intros [] w'. apply HQ.
Qed.

(** [net_Close] ends the one connection. *)
Lemma stp_net_close `{!Smb2Laws} c w0 ss (Q : option error → connectionPool * gworld → Prop) p w :
  opened_since w0 [c] ss w → (∀ a w', opened_since w0 [] ss w' → Q a (p, w')) →
  stp (in_world (net_Close c)) Q (p, w).
Proof.
  intros [Hc Hs] HQ. pose proof (close_opens c w) as Hm. pose proof (close_closes c w) as Hcl.
  unfold stp, in_world. destruct (net_Close c w) as [a w']. cbn in *. apply HQ. split; [|by intros x Hx; apply Hs, Hm].
  intros x Hx. destruct (Hc x) as [Ho| ->%list_elem_of_singleton]; [by apply Hm|by left|done].
Qed.

Lemma stp_logoff `{!Smb2Laws} s w0 cs (Q : option error → connectionPool * gworld → Prop) p w :
  opened_since w0 cs [s] w → (∀ a w', opened_since w0 cs [] w' → Q a (p, w')) →
  stp (in_world (smb2_Logoff s)) Q (p, w).
Proof.
  intros [Hc Hs] HQ. pose proof (logoff_opens s w) as Hm. pose proof (logoff_ends s w) as Hcl.
  unfold stp, in_world. destruct (smb2_Logoff s w) as [a w']. cbn in *. apply HQ. split; [by intros x Hx; apply Hc, Hm|].
  intros x Hx. destruct (Hs x) as [Ho| ->%list_elem_of_singleton]; [by apply Hm|by left|done].
Qed.

(** A dial opens the connection it returns, a session setup the session. *)
Lemma stp_dial `{!Smb2Laws} t ctx addr w0 (Q : NetConn + error → connectionPool * gworld → Prop) p w :
  opened_since w0 [] [] w →
  (∀ c w', ctx_done ctx = false → opened_since w0 [c] [] w' → Q (inl c) (p, w')) →
  (∀ e w', opened_since w0 [] [] w' → Q (inr e) (p, w')) →
  stp (in_world (net_DialContext t ctx addr)) Q (p, w).
Proof.
  intros [Hc Hs] Hok Herr. pose proof (dial_opens t ctx addr w) as Hd. pose proof (dial_sessions t ctx addr w) as Hd'.
  pose proof (dial_done t ctx addr w) as Hdone. unfold stp, in_world.
  destruct (net_DialContext t ctx addr w) as [[c|e] w']; cbn in *.
  - apply Hok; [destruct (ctx_done ctx); [by destruct Hdone|done]|]. split; [|auto].
    intros x [Hx|[= ->]]%Hd; [|right; by left]. destruct (Hc x Hx) as [?|?%elem_of_nil]; [by left|done].
  - apply Herr. split; [|auto]. intros x [Hx|?]%Hd; [auto|done].
Qed.

Lemma stp_setup `{!Smb2Laws} i c w0 (Q : smb2_Session + error → connectionPool * gworld → Prop) p w :
  opened_since w0 [c] [] w →
  (∀ s w', opened_since w0 [c] [s] w' → Q (inl s) (p, w')) →
  (∀ e w', opened_since w0 [c] [] w' → Q (inr e) (p, w')) →
  stp (in_world (smb2_Dial i c)) Q (p, w).
Proof.
  intros [Hc Hs] Hok Herr. pose proof (setup_sessions i c w) as Hd. pose proof (setup_opens i c w) as Hd'.
  unfold stp, in_world. destruct (smb2_Dial i c w) as [[s|e] w']; cbn in *.
  - apply Hok. split; [auto|]. intros x [Hx|[= ->]]%Hd; [|right; by left].
    destruct (Hs x Hx) as [?|?%elem_of_nil]; [by left|done].
  - apply Herr. split; [auto|]. intros x [Hx|?]%Hd; [auto|done].
Qed.

(** The library error behind an error of the creation. *)
Definition creation_error (config : Config) (e : error) : Prop := ∃ err,
  (e = connect_failed config err ∨ e = setup_failed err ∨ e = mount_failed config err)
  ∧ (∀ t, errors_Is e t = errors_Is err t) ∧ as_netError e = as_netError err ∧ isRetryable e = isRetryable err.

Lemma creation_error_wrap config err e :
  e = connect_failed config err ∨ e = setup_failed err ∨ e = mount_failed config err → creation_error config e.
Proof.
  intros He. exists err. split; [done|].
  by destruct He as [-> |[-> | ->]]; (split; [done|]); (split; [done|]); rewrite !isRetryable_chain.
Qed.

Lemma stp_createRealConnection `{!Smb2Laws} Logger ctx p w :
  stp (createRealConnection Logger ctx) (λ r s',
    match r with
    | inr e => s'.1 = p ∧ opened_since w [] [] s'.2 ∧ creation_error (p_config p) e
    | inl c => ctx_done ctx = false ∧ ∃ netConn session share t1 t2,
        (c, s'.1) = add_connection (mkRealSession session) (mkRealShare share) t1 t2 p
        ∧ opened_since w [netConn] [session] s'.2
    end) (p, w).
Proof.
  unfold createRealConnection. apply stp_bind. unfold the_pool at 1, stp at 1. cbn [in_pool fst snd]. apply stp_bind.
  eapply stp_logf; [apply opened_refl|]. intros w1 H1. apply stp_bind. eapply stp_dial; [done|..].
  2:{ intros e w2 H2. apply stp_bind. eapply stp_logf; [done|]. intros w3 H3. apply stp_ret. split; [done|].
      split; [done|]. apply (creation_error_wrap _ e). by left. }
  intros c w2 Hctx H2. apply stp_bind. eapply stp_setup; [done|..].
  2:{ intros e w3 H3. apply stp_bind. eapply stp_net_close; [done|]. intros _ w4 H4. apply stp_bind.
      eapply stp_logf; [done|]. intros w5 H5. apply stp_ret. split; [done|]. split; [done|].
      apply (creation_error_wrap _ e). by right; left. }
  intros session w3 H3. apply stp_bind. eapply stp_quiet; [apply mount_opens|done|]. intros [share|e] w4 H4.
  - apply stp_bind. unfold new_conn. apply stp_bind. eapply stp_quiet; [apply now_opens|done|]. intros t1 w5 H5.
    apply stp_bind. eapply stp_quiet; [apply now_opens|done|]. intros t2 w6 H6. unfold in_pool at 1, stp at 1.
    cbn [add_connection fst snd]. apply stp_bind. unfold the_pool, stp at 1. cbn [in_pool fst snd]. apply stp_bind.
    eapply stp_logf; [done|]. intros w7 H7. apply stp_ret. split; [done|]. by exists c, session, share, t1, t2.
  - apply stp_bind. eapply stp_logoff; [done|]. intros _ w5 H5. apply stp_bind. eapply stp_net_close; [done|].
    intros _ w6 H6. apply stp_bind. eapply stp_logf; [done|]. intros w7 H7. apply stp_ret. split; [done|].
    split; [done|]. apply (creation_error_wrap _ e). by right; right.
Qed.

(** The library on go-smb2 keeps what the client relies on. *)
#[local] Instance real_lib_laws `{!Smb2Laws} : SMBLibLaws.
Proof. split; [apply stat_Size_nonneg|]. intros [f] n w. apply smb2_Read_progress. Qed.

(** ** Properties *)

(** C16: The default path is the factory: on a file system whose context is
    alive and whose connection timeout is positive (as [setDefaults] makes an
    unset one), [get] of a pool without a factory, which dials with
    [createRealConnection], does exactly what [get] of a pool with
    [RealConnectionFactory] does: same result, same pool, same state of the
    library, whether or not a logger that only writes is configured. So what
    is proved of the client through [SMBLib] holds of the client that [New]
    returns. *)
Theorem default_pool_uses_real_factory `{!Smb2Laws} Logger s :
  (Logger = true → ∀ l w, Printf l w = (tt, w)) →
  p_config (fs_pool s) = fs_config s → fs_cancelled s = false → 0 < cf_ConnTimeout (fs_config s) →
  get None Logger s = pool_get s.
Proof.
  intros Hlog Hcfg Hlive Ht. rewrite <-(get_real_factory Logger s Hcfg).
  unfold get, now, mbind, M_bind, call, gets. cbn -[get_locked createConnection].
  destruct (time_Now (fs_w s)) as [t w]. cbn -[get_locked createConnection].
  pose proof (get_locked_config (λ _, t) t (fs_pool s)) as Hc.
  destruct (get_locked _ _ (fs_pool s)) as [[[| | |] p]|]; try done. cbn -[createConnection].
  specialize (Hc _ _ ltac:(by intros ??) eq_refl). unfold pool_call. cbn -[createConnection]. rewrite Hlive.
  rewrite <-createRealConnection_factory; [done|done|]. intros w'. rewrite Hc, Hcfg. by apply dial_own_timeout.
Qed.

(** C15: A failed creation leaves nothing behind: [createConnection] of a pool
    without a factory always returns; when it fails (the dial, the session
    setup or the mount) the pool is as before, every TCP connection and every
    session that is open was open before, and the error wraps the library's,
    so that [errors.Is], [errors.As] and the retry decision see through it;
    when it succeeds, which a done context excludes, the pool has the new
    connection, in use, and at most one TCP connection and one session were
    opened. *)
Theorem creation_leaves_nothing_open `{!Smb2Laws} Logger ctx p w :
  ∃ r p' w', createConnection None Logger ctx (p, w) = (r, (p', w')) ∧
    match r with
    | inr e => p' = p ∧ opened_since w [] [] w' ∧ creation_error (p_config p) e
    | inl c => ctx_done ctx = false ∧ is_inUse p' c = true ∧ p_connections p' = p_connections p ++ [c]
        ∧ ∃ netConn session, opened_since w [netConn] [session] w'
    end.
Proof.
  pose proof (stp_createRealConnection Logger ctx p w) as Hst. unfold stp in Hst. cbn [createConnection].
  destruct (createRealConnection Logger ctx (p, w)) as [r [p' w']]. exists r, p', w'. split; [done|].
  destruct r as [c|e]; [|done]. destruct Hst as (Hctx & netConn & session & share & t1 & t2 & [= -> ->] & Hop).
  split; [done|]. split; [unfold is_inUse; cbn; by rewrite lookup_insert_eq|]. split; [done|]. by exists netConn, session.
Qed.
End wrapper.

(** ** An instance on the mock server *)

(** The mock server with the TCP connections and the sessions that are open.
    An empty password is refused. *)
Record DemoWorld := mkDemo { dw_mock : MockWorld; dw_conns : gset ptr; dw_sessions : gset ptr }.

Definition demo_lift {A} (m : ST MockWorld A) : ST DemoWorld A := λ w,
  let '(a, m') := m (dw_mock w) in (a, mkDemo m' (dw_conns w) (dw_sessions w)).

Definition demo_dial (t : Z) (ctx : Context) (addr : gostring) : ST DemoWorld (ptr + error) := λ w,
  if ctx_done ctx || (t <? 0) then (inr (OtherError (str "i/o timeout") [] (Some (true, true))), w)
  else
    let '(c, m') := new_ptr (dw_mock w) in
    (inl c, mkDemo m' ({[c]} ∪ dw_conns w) (dw_sessions w)).

Definition demo_close (c : ptr) : ST DemoWorld (option error) := λ w,
  (None, mkDemo (dw_mock w) (dw_conns w ∖ {[c]}) (dw_sessions w)).

Definition demo_setup (i : NTLMInitiator) (c : ptr) : ST DemoWorld (ptr + error) := λ w,
  if bool_decide (in_Password i = []) then (inr (new_error "logon failure"), w)
  else
    let '(s, m') := NewMockSMBSession (dw_mock w) in
    (inl s, mkDemo m' (dw_conns w) ({[s]} ∪ dw_sessions w)).

Definition demo_logoff (s : ptr) : ST DemoWorld (option error) := λ w,
  let '(e, m') := Session_Logoff s (dw_mock w) in (e, mkDemo m' (dw_conns w) (dw_sessions w ∖ {[s]})).

#[local] Instance demo_smb2 : Smb2 := {
  gworld := DemoWorld; NetConn := ptr; smb2_Session := ptr; smb2_Share := ptr; smb2_File := ptr; smb2_FileStat := ptr;
  net_DialContext := demo_dial; net_Close := demo_close; smb2_Dial := demo_setup;
  smb2_Mount s n := demo_lift (Session_Mount s n); smb2_Logoff := demo_logoff;
  smb2_OpenFile sh n f p := demo_lift (Share_OpenFile sh n f p);
  smb2_Stat sh n := demo_lift (Share_Stat sh n);
  smb2_Mkdir sh n p := demo_lift (Share_Mkdir sh n p);
  smb2_Remove sh n := demo_lift (Share_Remove sh n);
  smb2_Rename sh o n := demo_lift (Share_Rename sh o n);
  smb2_Chmod sh n m := demo_lift (Share_Chmod sh n m);
  smb2_Chtimes sh n a m := demo_lift (Share_Chtimes sh n a m);
  smb2_Umount sh := demo_lift (Share_Umount sh);
  smb2_Read f n := demo_lift (MockFile_Read f n);
  smb2_Write f p := demo_lift (MockFile_Write f p);
  smb2_Seek f o wh := demo_lift (MockFile_Seek f o wh);
  smb2_Close f := demo_lift (MockFile_Close f);
  smb2_File_Stat f := demo_lift (MockFile_Stat f);
  smb2_Readdir f n := demo_lift (MockFile_Readdir f n);
  stat_Name i w := mock_info md_name [] i (dw_mock w);
  stat_Size i w := mock_info (λ d, len (md_content d)) 0 i (dw_mock w);
  stat_Mode i w := mock_info md_mode 0 i (dw_mock w);
  stat_ModTime i w := mock_info md_modTime 0 i (dw_mock w);
  stat_IsDir i w := mock_info md_isDir false i (dw_mock w);
  time_Now := demo_lift mock_now;
  Printf _ := mret tt;
  net_open w c := c ∈ dw_conns w;
  session_open w s := s ∈ dw_sessions w;
}.

Lemma demo_lift_opens {A} (m : ST MockWorld A) : opens_nothing (demo_lift m).
Proof. intros w. unfold demo_lift. by destruct (m (dw_mock w)). Qed.

#[local] Instance demo_smb2_laws : Smb2Laws.
Proof.
  split; try (by intros; apply demo_lift_opens).
  - intros i w. apply (@st_Size_nonneg mock_lib mock_lib_laws).
  - intros f n w Hn. cbn. unfold demo_lift. pose proof (@sf_Read_progress mock_lib mock_lib_laws f n (dw_mock w) Hn) as Hr.
    cbn in Hr. by destruct (MockFile_Read f n (dw_mock w)).
  - intros t addr w Ht. cbn. unfold demo_dial, WithTimeout, Background. cbn [ctx_done].
    by rewrite (proj2 (Z.leb_gt t 0)) by lia.
  - intros t ctx addr w Hd. cbn. unfold demo_dial. rewrite Hd. cbn. by eauto.
  - intros t ctx addr w x. cbn. unfold demo_dial. destruct (_ || _); cbn; [by left|].
    intros [->%elem_of_singleton|?]%elem_of_union; [by right|by left].
  - intros t ctx addr w x. cbn. unfold demo_dial. by destruct (_ || _).
  - intros c w. cbn. set_solver.
  - intros c w. cbn. split; set_solver.
  - intros i c w x. cbn. unfold demo_setup. case_bool_decide; cbn; [by left|].
    intros [->%elem_of_singleton|?]%elem_of_union; [by right|by left].
  - intros i c w x. cbn. unfold demo_setup. by case_bool_decide.
  - intros s w. cbn. unfold demo_logoff. destruct (Session_Logoff s (dw_mock w)). cbn. set_solver.
  - intros s w. cbn. unfold demo_logoff. destruct (Session_Logoff s (dw_mock w)). cbn. split; set_solver.
  - done.
Qed.

Definition demo_world : DemoWorld := mkDemo (NewMockSMBBackend (λ n, Z.of_nat n)) ∅ ∅.

(** A configuration with the given password and share. *)
Definition dial_config (password share : gostring) : Config := setDefaults {|
  cf_Server := str "nas"; cf_Port := 0; cf_Share := share; cf_Username := str "user"; cf_Password := password;
  cf_Domain := []; cf_UseKerberos := false; cf_GuestAccess := false; cf_Dialect := []; cf_Signing := false;
  cf_Encryption := false; cf_MaxIdle := 1; cf_MaxOpen := 2; cf_IdleTimeout := 0; cf_ConnTimeout := 0;
  cf_OpTimeout := 0; cf_CaseSensitive := false; cf_FollowSymlinks := false; cf_ReadBufferSize := 0;
  cf_WriteBufferSize := 0; cf_Cache := DefaultCacheConfig; cf_RetryPolicy := None |}.

Definition dial_fs (password share : gostring) : FileSystem :=
  let config := dial_config password share in
  @mkFS real_lib config (mkPool config ∅ 0 ∅ 0 [] [] 0 false []) (mkCache (cf_Cache config) ∅ ∅ [] false) false demo_world.

(** Whether a connection was created, and how many TCP connections and
    sessions are open then. *)
Definition creation_view (r : (ptr + error) * (@connectionPool real_lib * DemoWorld)) : bool * nat * nat :=
  (match r.1 with inl _ => true | inr _ => false end, size (dw_conns r.2.2), size (dw_sessions r.2.2)).

Definition creation_on (password share : gostring) : bool * nat * nat :=
  creation_view (createConnection None true Background (fs_pool (dial_fs password share), demo_world)).

Example creations :
  (creation_on (str "pw") (str "testshare"), creation_on (str "pw") (str "other"), creation_on [] (str "testshare"))
  = ((true, 1%nat, 1%nat), (false, 0%nat, 0%nat), (false, 0%nat, 0%nat)).
Proof. vm_compute. reflexivity. Qed.

Lemma default_pool_uses_real_factory_witness :
  0 < cf_ConnTimeout (dial_config (str "pw") (str "testshare"))
  ∧ get None true (dial_fs (str "pw") (str "testshare")) = pool_get (dial_fs (str "pw") (str "testshare")).
Proof.
  split; [vm_compute; reflexivity|].
  apply (@default_pool_uses_real_factory demo_smb2 demo_smb2_laws true); [by intros ? [] []|reflexivity|reflexivity|].
  vm_compute. reflexivity.
Defined.

Lemma creation_leaves_nothing_open_witness :
  creation_on (str "pw") (str "other") = (false, 0%nat, 0%nat)
  ∧ ∃ r p' w', createConnection None true Background (fs_pool (dial_fs (str "pw") (str "other")), demo_world) = (r, (p', w')) ∧
    match r with
    | inr e => p' = fs_pool (dial_fs (str "pw") (str "other")) ∧ opened_since demo_world [] [] w'
        ∧ creation_error (p_config (fs_pool (dial_fs (str "pw") (str "other")))) e
    | inl c => ctx_done Background = false ∧ is_inUse p' c = true
        ∧ p_connections p' = p_connections (fs_pool (dial_fs (str "pw") (str "other"))) ++ [c]
        ∧ ∃ netConn session, opened_since demo_world [netConn] [session] w'
    end.
Proof.
  split; [vm_compute; reflexivity|].
  exact (@creation_leaves_nothing_open demo_smb2 demo_smb2_laws true Background _ demo_world).
Defined.
